(* ===== verification/_CoqProject ===== *)
-Q . S2P
Prelude.v
Words.v
Packet.v
Control.v
Stream.v
Ring.v
Stats.v
NetErrors.v
Config.v
Crypto.v
Session.v
Reorder.v
Client.v
ClientTable.v
Upstream.v
Downstream.v
Reconnect.v
SockOpts.v
Lifecycle.v
DownLane.v
LaneOps.v
ClientRun.v
Server.v
Handlers.v
ServerSpec.v
ServerRace.v
ServerDown.v
ServerRun.v
System.v
Tunnel.v
ServerLife.v
