(* ===== verification/Prelude.v ===== *)
(** * T2D: a verification library for the UDP-in-TCP forwarder

    T2D carries UDP datagrams between local peers and a UDP backend through TCP
    connections ("lanes"): a client (src/internal/client) gives each UDP peer a
    session, encrypts and frames its datagrams and writes them to upstream lanes;
    a server (src/internal/server) decodes the frames, opens a socket to the
    backend for each session, and sends what the backend answers back on downstream
    lanes, which the client's control messages bind to connections.

    ** Files, and the code they model

    - [Prelude]: the panic monad [exec], the result type, slices, tactics.
    - [Words]: Go's integers at their widths, the big-endian codec; [IntWidth] is
      the width of [int], since the project is built for 32-bit and 64-bit targets.
    - [Packet], [Control], [Stream] (internal/protocol): the frame header, the lane
      control payload, and [StreamBuffer], which cuts frames off a TCP stream. The
      buffer is a Go slice with its backing array, capacity and offset; [NextRef]
      returns views into it. [spec_next] and [parses] are the abstract parser that
      every reader of the project is shown to implement.
    - [Ring] (client/upstream_ring.go): the single-producer single-consumer ring;
      the atomic accesses of the two goroutines interleave as a step relation.
    - [Stats] (internal/stats), [NetErrors] (isClosedError, isTimeoutError),
      [Config] (internal/config, internal/app), [Crypto] (internal/crypto; the class
      [CipherSpec] is what the two ends rely on), [Session] (internal/session).
    - [Client], [ClientTable] (client/client.go): construction, lanes, and the
      session table shared by the UDP reader, the downstream readers and the
      cleaner. Sessions are pointers into a heap, because both tables and the
      goroutines share the objects.
    - [Upstream]: handleUDP, sendToUpstream, handleUpstreamWrites. [ring_at]
      abstracts a lane's ring to a queue of frames.
    - [Downstream]: handleDownstream, the control loop and its messages.
    - [Reconnect]: the back-off, and the protocol between the manager, the watchers,
      the writer of an upstream lane and Stop as a step relation.
    - [DownLane]: the same for a downstream lane (manageDownstreamConnection,
      handleDownstream, any number of control loops, new sessions, Stop), with the
      history needed to say which session ids reach the server; [LaneOps] shows that
      the operations of [Downstream] and [ClientTable] are runs of its steps.
    - [SockOpts] (internal/tcpopt, dialTCP): the calls made on a new connection.
    - [Lifecycle]: the client's Start, Stop and Run.
    - [ClientRun]: the whole client, its goroutines taking turns in any order.
    - [Reorder] (server/server.go): the reorder window of stripe mode.
    - [Server] (server/server.go): its state and every operation on it;
      [Handlers] (server/handlers.go): the event handlers.
    - [ServerSpec], [ServerDown], [ServerRun]: theorems about the server's upstream
      path, its downstream path, and its goroutines taking turns that do not overlap
      ([server_run]).
    - [ServerRace]: the server's operations on its session table split at every
      access, any number of event loops, readers, the cleaner and the closes of Stop
      interleaved; the operations of [Server] are runs of these steps.
    - [System]: both ends together, when all goes well; [Tunnel]: a run of the
      client as in [ClientRun], one of its connections, and a server.
    - [ServerLife]: the server's Start and Stop against the two gnet engines, and
      main (cmd/t2d/main.go).

    State is passed explicitly. What the process does to the network is a list of
    [effect]s; what the environment decides (time, randomness, what a read returns,
    whether a write succeeds) is an argument. A goroutine's turn is a function, and
    [Panic] is a run-time panic. Where a goroutine would block, the function returns
    [None] or a [TurnWait].

    ** What the theorems show

    - The wire format: header and control round trips and exact parsing; the stream
      reader reassembles frames whatever the segmentation, never panics on 64-bit
      targets, keeps a bounded buffer; gnet's event loop does the same.
    - The ring is a queue under every interleaving, with exclusive slots.
    - The client: its two tables agree under every operation; peers keep their
      session; sending appends to a queue, the writer drains it in order within its
      limits; a manager that sleeps on a lost connection is woken in every run
      ([no_lost_wakeup]). A downstream lane has one connection at a time and every
      session of it is registered, on its way, or given up in a way that is named;
      after Stop both kinds of lane and the writers come
      to an end. From Load, New and Start on, no schedule makes the client panic, and
      what it writes on TCP is whole frames or is followed by closing the connection
      ([client_never_panics], for fewer than [2^32] datagrams and [2^63] bytes read).
    - The server: a frame becomes one datagram on its session's socket; in stripe
      mode each socket sees increasing sequence numbers; answers are queued and sent
      in order; when turns do not overlap the session table is consistent and the
      gauge is its size ([server_table_consistent]); under every interleaving of the
      split turns the gauge and the sockets are accounted for ([gauge_accounts]);
      lanes point at live connections when clients keep a connection to one lane;
      Stop asks what runs when it looks to stop.
    - End to end: datagrams arrive decrypted, in order, exactly once, in both
      directions; registrations take effect; both ends choose the same lane. When
      connections break and writes fail, what reaches the backend over a connection
      is still a sublist of what peers sent, in order, each datagram on a socket of
      its peer's session ([tunnel_integrity]).
    - Where the code misbehaves, theorems say how: an expired session's reader takes
      down its successor, a second lane on a connection goes stale, a large
      registration is dropped, the reorder window does not survive the wrap of
      sequence numbers, a 32-bit target panics on one header, the server counts its own closes as errors, two event loops that open
      one session orphan a socket, Stop misses a connection dialled at that moment
      and an engine that boots after it, a control loop of a closed connection takes
      ids it does not send.

    ** Bounds and fuel

    Loops over a finite list recurse on it. [nextPowerOfTwo] has fuel 64, one turn
    per bit. [drain_pending] has one unit per pending packet and one more; [drain]
    and [frame_loop] one per buffered byte and one more, since a turn consumes a
    header; [fill_batch] and [take_frames] the batch limit and the queue's length.
    In each case a lemma of the file shows that the fuel is enough. [run_writer]
    has one unit per packet in the ring and one more. What must end in a step
    relation has a measure: [lane_measure], [wake_measure], [dmanager_rank];
    [inevitably] says that every run gets somewhere, without assuming fairness.

    ** Parameters

    The cryptographic library ([CryptoLib], with the laws of cipher.AEAD and of key
    sizes, and an executable instance [toy_lib]), gnet's inbound buffer
    ([GnetReader], with the documented behaviour for positive counts, and the
    instance [slice_reader]; a frame without payload makes the server call [Next]
    with 0, of which nothing is assumed, so the server's readers are specified for
    frames with a payload), the file system and the JSON decoder ([Load]), and the
    growth policy of Go's append.

    ** What is not modelled

    printStats, OnTick, the log, flag parsing and signals: they change no state of
    the program. The server's Run, which main does not use, is its Start and Stop.
    In [ClientRun] and [ServerRun] a turn of a goroutine is one step; what happens
    inside turns that run together is in [Ring], [Reconnect], [DownLane] and
    [ServerRace], each for the state it is about. A writer's sleep (the built-in
    configuration has none) is an argument of [handleUpstreamWrites] and left out of
    [ClientRun], where a datagram that finds the ring full is tried again as a whole.
    A write on a TCP connection returns, with success or an error: one that blocks
    for ever, while its goroutine holds the lane's mutex, is not modelled, nor what
    then waits for the mutex (Stop among others). [Downstream.handleDownstreamPacket]
    emits [UdpWrite] for the call, also when it fails. The step relations start a
    reader's end at the moment it leaves its loop, and [lf_closed] of [ServerLife]
    only records that closeSessions was called; what it closes is in [ServerRace].
    Go's sync.Map iteration order is the order of the finite map.

    ** Plan

    Next: [Tunnel] for the way back; the server's schedule of [ServerRun] at the end
    of the bytes, with several connections at once; the reorder states and the lane
    map of the server in [ServerRace]. *)

From Stdlib Require Export ZArith Lia.
From Stdlib.Strings Require Export Byte.
From stdpp Require Export prelude gmap list strings numbers sorting.

#[global] Open Scope Z_scope.
#[global] Set Default Goal Selector "!".

(** ** Panicking computations

    A Go expression that indexes or slices out of range panics. [exec] is the
    monad of such expressions: [Ret] is a normal result, [Panic] the run-time
    panic. *)

Inductive exec (A : Type) : Type :=
| Ret (a : A)
| Panic.
Arguments Ret {A} a.
Arguments Panic {A}.

#[export] Instance exec_ret : MRet exec := λ A a, Ret a.
#[export] Instance exec_bind : MBind exec := λ A B f m,
  match m with Ret a => f a | Panic => Panic end.
#[export] Instance exec_eq_dec `{EqDecision A} : EqDecision (exec A).
Proof. solve_decision. Defined.

#[export] Instance Ret_inj {A} : Inj (=) (=) (@Ret A).
Proof. by intros ?? [= ->]. Qed.

(** ** Results

    A Go function that returns [(value, error)]: [Ok v] when the error is nil,
    [Err e] otherwise. *)

Inductive result (E A : Type) : Type :=
| Ok (a : A)
| Err (e : E).
Arguments Ok {E A} a.
Arguments Err {E A} e.

#[export] Instance result_ret {E} : MRet (result E) := λ A a, Ok a.
#[export] Instance result_bind {E} : MBind (result E) := λ A B f m,
  match m with Ok a => f a | Err e => Err e end.
#[export] Instance result_eq_dec `{EqDecision E, EqDecision A} :
  EqDecision (result E A).
Proof. solve_decision. Defined.

Definition is_ok {E A} (r : result E A) : bool :=
  match r with Ok _ => true | Err _ => false end.

Lemma result_bind_ok {E A B} (m : result E A) (f : A → result E B) (b : B) :
  m ≫= f = Ok b ↔ ∃ a, m = Ok a ∧ f a = Ok b.
Proof. destruct m; naive_solver. Qed.

Lemma exec_bind_ret {A B} (m : exec A) (f : A → exec B) (b : B) :
  m ≫= f = Ret b ↔ ∃ a, m = Ret a ∧ f a = Ret b.
Proof. destruct m; naive_solver. Qed.

(** ** Hint databases and tactics

    [t2d] holds the rewriting rules that normalise slices and lengths; the
    components add their own equations to it. [t2d_len] is the resolution
    database for side conditions on lengths and word ranges. *)

Create Rewrite HintDb t2d.
Create HintDb t2d_len.
#[export] Hint Rewrite @length_app @length_take @length_drop
  @length_replicate @length_fmap : t2d.

(** Normalise with the database, then arithmetic. *)
Ltac len := autorewrite with t2d in *; cbn [length] in *; lia.

(** Case analysis on the guards of a handler, one after the other. *)
Ltac guards :=
  repeat (case_match || case_bool_decide); simplify_eq/=; try done; try lia.

(** Decide a closed proposition by evaluating its decision procedure. *)
Ltac by_compute := apply (bool_decide_unpack _); vm_compute; exact I.

(** Linear arithmetic with quotients and remainders. *)
Ltac mod_lia := zify; Z.to_euclidean_division_equations; lia.

(** Updating an existing element is inserting its image. *)
Lemma list_alter_insert {A} (f : A → A) i x (l : list A) :
  l !! i = Some x → alter f i l = <[i := f x]> l.
Proof.
  intros Hx. rewrite list_insert_alter. apply list_alter_ext; [|done].
  intros y Hy. congruence.
Qed.

(** ** Slices of lists

    [slice off n l] is the Go slice [l[off : off+n]]. *)

Definition slice {A} (off n : nat) (l : list A) : list A := take n (drop off l).
#[global] Arguments slice : simpl never.

(** Overwrite [bs] at offset [off]: [copy(l[off:], bs)] when it fits; a write
    past the end of the slice panics. *)
Definition put_slice {A} (off : nat) (bs l : list A) : exec (list A) :=
  if decide (off + length bs ≤ length l)%nat
  then Ret (take off l ++ bs ++ drop (off + length bs) l)
  else Panic.

(** [l[i] = x]: panics when [i] is out of range. *)
Definition set_index {A} (i : nat) (x : A) (l : list A) : exec (list A) :=
  put_slice i [x] l.

Section Slices.
Context {A : Type}.
Implicit Types l bs : list A.

Lemma length_slice off n l :
  (off + n ≤ length l)%nat → length (slice off n l) = n.
Proof. unfold slice. len. Qed.

Lemma slice_0_app n l k : length l = n → slice 0 n (l ++ k) = l.
Proof. intros <-. unfold slice. by rewrite drop_0, take_app_length. Qed.

Lemma slice_skip_app off n l k :
  slice (length l + off) n (l ++ k) = slice off n k.
Proof. unfold slice. by rewrite drop_app_add. Qed.

Lemma slice_app_l off n l k :
  (off + n ≤ length l)%nat → slice off n (l ++ k) = slice off n l.
Proof.
  intros H. unfold slice. rewrite drop_app_le by lia.
  by rewrite take_app_le by (rewrite length_drop; lia).
Qed.

Lemma slice_all l : slice 0 (length l) l = l.
Proof. unfold slice. by rewrite drop_0, take_ge by lia. Qed.

Lemma slice_drop off n k l : slice off n (drop k l) = slice (k + off) n l.
Proof. unfold slice. by rewrite drop_drop. Qed.

Lemma slice_take off n k l :
  (off + n ≤ k)%nat → slice off n (take k l) = slice off n l.
Proof.
  intros H. unfold slice. rewrite <- (take_drop k l) at 2.
  destruct (decide (k ≤ length l)%nat).
  - rewrite drop_app_le by len. rewrite take_app_le by len. done.
  - rewrite (drop_ge l k) by lia. by rewrite app_nil_r.
Qed.

(** Writing a slice over the front of a buffer whose tail is [k]. *)
Lemma put_slice_app pre old k bs :
  length old = length bs →
  put_slice (length pre) bs (pre ++ old ++ k) = Ret (pre ++ bs ++ k).
Proof.
  intros H. unfold put_slice. rewrite decide_True by len.
  rewrite take_app_length. rewrite drop_app_add.
  by rewrite <- H, drop_app_length.
Qed.

Lemma put_slice_panic off bs l :
  (length l < off + length bs)%nat → put_slice off bs l = Panic.
Proof. intros H. unfold put_slice. by rewrite decide_False by lia. Qed.

Lemma app_eq_prefix l1 l2 k1 k2 :
  length l1 = length k1 → l1 ++ l2 = k1 ++ k2 → l1 = k1 ∧ l2 = k2.
Proof. intros ? ?. by apply app_inj_1. Qed.

End Slices.

#[export] Hint Rewrite @slice_drop : t2d.

(** ** Termination by a measure *)

(** A relation whose steps keep [I] and decrease [f] has no run longer than [f]. *)
Lemma nsteps_measure {A} (R : A → A → Prop) (I : A → Prop) (f : A → nat) :
  (∀ x y, I x → R x y → I y ∧ (f y < f x)%nat) →
  ∀ n x y, I x → nsteps R n x y → I y ∧ (n + f y ≤ f x)%nat.
Proof.
  intros HR n x y Hx Hn. induction Hn as [|n x z y Hxz _ IH]; [split; [done|lia]|].
  destruct (HR x z Hx Hxz) as [Hz Hlt]. destruct (IH Hz) as [Hy Hle]. split; [done|lia].
Qed.

(** An invariant of the steps is one of the runs. *)
Lemma rtc_preserves {A} (R : A → A → Prop) (I : A → Prop) :
  (∀ x y, I x → R x y → I y) → ∀ x y, rtc R x y → I x → I y.
Proof. intros HR x y Hxy. induction Hxy; eauto. Qed.

(** ** What every run does

    [inevitably may must P s]: every run of [may] from [s] meets [P] after finitely
    many steps, and until then a step of [must] is enabled, so that the run does not
    stop before. It is an inductive definition: no assumption of fairness enters. *)
Inductive inevitably {A} (may must : A → A → Prop) (P : A → Prop) (s : A) : Prop :=
| inevitably_now : P s → inevitably may must P s
| inevitably_later :
    (∃ s', must s s') → (∀ s', may s s' → inevitably may must P s') → inevitably may must P s.

(** It follows from an invariant and a measure that hold until [P] does. *)
Lemma inevitably_measure {A} (may must : A → A → Prop) (P I : A → Prop) (f : A → nat) :
  (∀ x, I x → P x ∨ (∃ y, must x y) ∧ ∀ y, may x y → P y ∨ I y ∧ (f y < f x)%nat) →
  ∀ x, I x → inevitably may must P x.
Proof.
  intros Hstep x. remember (f x) as n eqn:En. revert x En.
  induction (lt_wf n) as [n _ IH]. intros x -> Hx.
  destruct (Hstep x Hx) as [Hp|[Hmust Hmay]]; [by apply inevitably_now|].
  apply inevitably_later; [done|]. intros y Hy.
  destruct (Hmay y Hy) as [Hp|[Hi Hlt]]; [by apply inevitably_now|by eapply IH].
Qed.
