(* ===== verification/Words.v ===== *)
(** * Machine words and bytes

    Go's fixed-width integers as [Z] with the wrap-around written out, the
    platform-dependent [int] as a class (the project is built for 32-bit and
    for 64-bit targets), and the big-endian byte codec of [encoding/binary]
    that every frame of the protocol goes through. *)

From S2P Require Import Prelude.

(** ** Unsigned words *)

Definition wrap (w z : Z) : Z := z mod 2 ^ w.
Definition u8 (z : Z) : Z := wrap 8 z.
Definition u16 (z : Z) : Z := wrap 16 z.
Definition u32 (z : Z) : Z := wrap 32 z.
Definition u64 (z : Z) : Z := wrap 64 z.

(** [in_word w z]: [z] is a value of the unsigned [w]-bit type. *)
Definition in_word (w z : Z) : Prop := 0 ≤ z < 2 ^ w.

#[export] Instance in_word_dec w z : Decision (in_word w z).
Proof. unfold in_word. apply _. Defined.

(** ** Signed words *)

Definition swrap (w z : Z) : Z := (z + 2 ^ (w - 1)) mod 2 ^ w - 2 ^ (w - 1).
Definition i32 (z : Z) : Z := swrap 32 z.
Definition i64 (z : Z) : Z := swrap 64 z.

(** Go's [int] has 32 or 64 bits, by the target architecture. *)
Class IntWidth := {
  int_bits : Z;
  int_bits_cases : int_bits = 32 ∨ int_bits = 64
}.

Definition int64_target : IntWidth := {| int_bits := 64; int_bits_cases := or_intror eq_refl |}.
Definition int32_target : IntWidth := {| int_bits := 32; int_bits_cases := or_introl eq_refl |}.

(** The conversion [int(x)], and the wrap-around of [int] arithmetic. *)
Definition go_int `{IntWidth} (z : Z) : Z := swrap int_bits z.

Lemma in_word_wrap w z : 0 ≤ w → in_word w (wrap w z).
Proof. intros. unfold in_word, wrap. apply Z.mod_pos_bound. lia. Qed.

Lemma wrap_small w z : in_word w z → wrap w z = z.
Proof. intros ?. unfold wrap. by apply Z.mod_small. Qed.

Lemma wrap_idem w z : wrap w (wrap w z) = wrap w z.
Proof. unfold wrap. apply Zmod_mod. Qed.

Lemma wrap_add_l w a b : wrap w (wrap w a + b) = wrap w (a + b).
Proof. unfold wrap. apply Zplus_mod_idemp_l. Qed.

Lemma wrap_add_r w a b : wrap w (a + wrap w b) = wrap w (a + b).
Proof. unfold wrap. apply Zplus_mod_idemp_r. Qed.

Lemma wrap_sub w a b : wrap w (wrap w a - wrap w b) = wrap w (a - b).
Proof. unfold wrap. by rewrite Zminus_mod_idemp_l, Zminus_mod_idemp_r. Qed.

Lemma u32_small z : in_word 32 z → u32 z = z.
Proof. apply wrap_small. Qed.

Lemma u32_small_succ z : 0 ≤ z < 2 ^ 32 - 1 → u32 (z + 1) = z + 1.
Proof. intros ?. apply wrap_small. unfold in_word. lia. Qed.

Lemma u32_word z : in_word 32 (u32 z).
Proof. by apply in_word_wrap. Qed.

Lemma swrap_small w z : - 2 ^ (w - 1) ≤ z < 2 ^ (w - 1) → 0 < w → swrap w z = z.
Proof.
  intros Hz Hw. unfold swrap.
  assert (2 ^ w = 2 * 2 ^ (w - 1)) as E.
  { rewrite <- Z.pow_succ_r by lia. f_equal. lia. }
  rewrite Z.mod_small by lia. lia.
Qed.

Lemma swrap_bounds w z : 0 < w → - 2 ^ (w - 1) ≤ swrap w z < 2 ^ (w - 1).
Proof.
  intros Hw. unfold swrap.
  assert (2 ^ w = 2 * 2 ^ (w - 1)) as E.
  { rewrite <- Z.pow_succ_r by lia. f_equal. lia. }
  pose proof (Z.mod_pos_bound (z + 2 ^ (w - 1)) (2 ^ w)). lia.
Qed.

(** Values that fit in 31 bits keep their value on every target. *)
Lemma go_int_small `{IntWidth} z : - 2 ^ 31 ≤ z < 2 ^ 31 → go_int z = z.
Proof.
  intros Hz. unfold go_int.
  destruct int_bits_cases as [E|E]; rewrite E; apply swrap_small; lia.
Qed.

(** Every unsigned 32-bit value fits in a 64-bit [int]. *)
Lemma go_int_64 `{IntWidth} z :
  int_bits = 64 → - 2 ^ 63 ≤ z < 2 ^ 63 → go_int z = z.
Proof. intros E ?. unfold go_int. rewrite E. by apply swrap_small. Qed.

(** Values in the range of [int] keep their value. *)
Lemma go_int_range `{IntWidth} z : 0 ≤ z < 2 ^ (int_bits - 1) → go_int z = z.
Proof.
  intros Hz. unfold go_int. destruct int_bits_cases as [E|E];
    rewrite E in *; apply swrap_small; lia.
Qed.

Lemma int_bits_pow `{IntWidth} : 2 ^ 31 ≤ 2 ^ (int_bits - 1).
Proof. destruct int_bits_cases as [E|E]; rewrite E; lia. Qed.

(** ** Bytes *)

#[export] Instance byte_eq_dec : EqDecision byte := Byte.byte_eq_dec.
#[export] Instance byte_inhabited : Inhabited byte := populate x00.

Definition byte_val (b : byte) : Z := Z.of_N (Byte.to_N b).

(** The conversion [byte(z)]: the low eight bits of [z]. *)
Definition to_byte (z : Z) : byte :=
  match Byte.of_N (Z.to_N (u8 z)) with Some b => b | None => x00 end.

(** [b ^ c] on bytes. *)
Definition byte_xor (b c : byte) : byte := to_byte (Z.lxor (byte_val b) (byte_val c)).

Lemma byte_val_bounds b : 0 ≤ byte_val b < 256.
Proof. unfold byte_val. pose proof (Byte.to_N_bounded b). lia. Qed.

Lemma byte_val_to_byte z : byte_val (to_byte z) = u8 z.
Proof.
  unfold byte_val, to_byte.
  pose proof (in_word_wrap 8 z ltac:(lia)) as [? ?]. fold (u8 z) in *.
  destruct (Byte.of_N (Z.to_N (u8 z))) as [b|] eqn:E.
  - apply Byte.to_of_N in E. lia.
  - apply Byte.of_N_None_iff in E. lia.
Qed.

Lemma to_byte_val b : to_byte (byte_val b) = b.
Proof. by destruct b. Qed.

Lemma byte_val_inj b c : byte_val b = byte_val c → b = c.
Proof. intros E. rewrite <- (to_byte_val b), E. apply to_byte_val. Qed.

Lemma byte_xor_involutive b c : byte_xor (byte_xor b c) c = b.
Proof.
  unfold byte_xor. rewrite byte_val_to_byte. apply byte_val_inj.
  rewrite byte_val_to_byte.
  pose proof (byte_val_bounds b). pose proof (byte_val_bounds c).
  unfold u8, wrap. rewrite <- !Z.land_ones by lia. apply Z.bits_inj'. intros i Hi.
  rewrite Z.land_spec, Z.lxor_spec, Z.land_spec, Z.lxor_spec, Z.testbit_ones by lia.
  destruct (decide (i < 8)).
  - rewrite (proj2 (Z.ltb_lt i 8)) by lia. rewrite (proj2 (Z.leb_le 0 i)) by lia.
    by destruct (Z.testbit (byte_val b) i), (Z.testbit (byte_val c) i).
  - rewrite (proj2 (Z.ltb_ge i 8)) by lia. rewrite !andb_false_r.
    symmetry. rewrite <- (Z.mod_small (byte_val b) (2 ^ 8)) by lia.
    apply Z.mod_pow2_bits_high. lia.
Qed.

(** ** Big-endian codec

    [be_put n v] is [binary.BigEndian.PutUint] at width [8 n]; [be_get] reads
    the bytes back. *)

Fixpoint be_put (n : nat) (v : Z) : list byte :=
  match n with
  | O => []
  | S n' => to_byte (Z.shiftr v (8 * Z.of_nat n')) :: be_put n' v
  end.

Fixpoint be_get (bs : list byte) : Z :=
  match bs with
  | [] => 0
  | b :: bs' => Z.lor (Z.shiftl (byte_val b) (8 * Z.of_nat (length bs'))) (be_get bs')
  end.

Definition PutUint16 (v : Z) : list byte := be_put 2 v.
Definition PutUint32 (v : Z) : list byte := be_put 4 v.
Definition Uint16 (bs : list byte) : Z := be_get bs.
Definition Uint32 (bs : list byte) : Z := be_get bs.
#[global] Arguments PutUint16 : simpl never.
#[global] Arguments PutUint32 : simpl never.
#[global] Arguments Uint16 : simpl never.
#[global] Arguments Uint32 : simpl never.

Lemma length_be_put n v : length (be_put n v) = n.
Proof. induction n; simpl; auto. Qed.
Lemma length_PutUint16 v : length (PutUint16 v) = 2%nat.
Proof. apply length_be_put. Qed.
Lemma length_PutUint32 v : length (PutUint32 v) = 4%nat.
Proof. apply length_be_put. Qed.
#[export] Hint Rewrite length_be_put length_PutUint16 length_PutUint32 : t2d.

Lemma lor_shiftl_add a b n :
  0 ≤ n → 0 ≤ b < 2 ^ n → Z.lor (Z.shiftl a n) b = a * 2 ^ n + b.
Proof.
  intros Hn Hb. rewrite <- Z.shiftl_mul_pow2 by lia.
  assert (Z.land (Z.shiftl a n) b = 0) as E.
  { apply Z.bits_inj'. intros i Hi. rewrite Z.land_spec, Z.bits_0.
    rewrite Z.shiftl_spec by lia. destruct (decide (i < n)).
    - by rewrite Z.testbit_neg_r by lia.
    - rewrite <- (Z.mod_small b (2 ^ n)) by lia.
      rewrite Z.mod_pow2_bits_high by lia. apply andb_false_r. }
  by rewrite Z.add_nocarry_lxor, Z.lxor_lor.
Qed.

Lemma pow2_8S n : 2 ^ (8 * Z.of_nat (S n)) = 256 * 2 ^ (8 * Z.of_nat n).
Proof.
  rewrite Nat2Z.inj_succ. replace (8 * Z.succ (Z.of_nat n)) with (8 + 8 * Z.of_nat n) by lia.
  by rewrite Z.pow_add_r by lia.
Qed.

Lemma be_get_bounds bs : 0 ≤ be_get bs < 2 ^ (8 * Z.of_nat (length bs)).
Proof.
  induction bs as [|b bs IH]; cbn [be_get length]; [done|].
  rewrite lor_shiftl_add, pow2_8S by lia. pose proof (byte_val_bounds b). nia.
Qed.

Lemma be_get_cons b bs :
  be_get (b :: bs) = byte_val b * 2 ^ (8 * Z.of_nat (length bs)) + be_get bs.
Proof. cbn [be_get]. apply lor_shiftl_add; [lia|]. apply be_get_bounds. Qed.

Lemma be_get_put n v : be_get (be_put n v) = wrap (8 * Z.of_nat n) v.
Proof.
  induction n as [|n IH]; [cbn; unfold wrap; by rewrite Z.mod_1_r|].
  cbn [be_put]. rewrite be_get_cons, length_be_put, IH, byte_val_to_byte.
  unfold u8, wrap. rewrite Z.shiftr_div_pow2, pow2_8S by lia.
  rewrite (Z.mul_comm 256), Z.rem_mul_r by lia. change (2 ^ 8) with 256. ring.
Qed.

(** The codec keeps the low [8 n] bits only. *)
Lemma be_put_add n k v : be_put n (k * 2 ^ (8 * Z.of_nat n) + v) = be_put n v.
Proof.
  revert k. induction n as [|n IH]; intros k; [done|]. cbn [be_put].
  rewrite !Z.shiftr_div_pow2, pow2_8S by lia.
  replace (k * (256 * 2 ^ (8 * Z.of_nat n))) with (k * 256 * 2 ^ (8 * Z.of_nat n)) by lia.
  rewrite IH. f_equal. apply byte_val_inj. rewrite !byte_val_to_byte.
  rewrite Z.div_add_l by lia. unfold u8, wrap.
  by rewrite Z.add_comm, Z.mod_add by lia.
Qed.

Lemma be_put_get bs : be_put (length bs) (be_get bs) = bs.
Proof.
  induction bs as [|b bs IH]; [done|]. rewrite be_get_cons. cbn [length be_put].
  rewrite be_put_add, IH. f_equal. apply byte_val_inj.
  rewrite byte_val_to_byte, Z.shiftr_div_pow2, Z.div_add_l by lia.
  rewrite Z.div_small by apply be_get_bounds. rewrite Z.add_0_r.
  apply wrap_small. apply byte_val_bounds.
Qed.

Lemma be_put_get_n n bs : length bs = n → be_put n (be_get bs) = bs.
Proof. intros <-. apply be_put_get. Qed.

Lemma be_get_put_small n v : in_word (8 * Z.of_nat n) v → be_get (be_put n v) = v.
Proof. intros. by rewrite be_get_put, wrap_small. Qed.

Lemma Uint16_Put v : in_word 16 v → Uint16 (PutUint16 v) = v.
Proof. apply (be_get_put_small 2). Qed.

Lemma Uint32_Put v : in_word 32 v → Uint32 (PutUint32 v) = v.
Proof. apply (be_get_put_small 4). Qed.

Lemma Put_Uint16 bs : length bs = 2%nat → PutUint16 (Uint16 bs) = bs.
Proof. apply be_put_get_n. Qed.

Lemma Put_Uint32 bs : length bs = 4%nat → PutUint32 (Uint32 bs) = bs.
Proof. apply be_put_get_n. Qed.

Lemma Uint16_word bs : length bs = 2%nat → in_word 16 (Uint16 bs).
Proof. intros E. pose proof (be_get_bounds bs) as H. by rewrite E in H. Qed.

Lemma Uint32_word bs : length bs = 4%nat → in_word 32 (Uint32 bs).
Proof. intros E. pose proof (be_get_bounds bs) as H. by rewrite E in H. Qed.

Lemma byte_val_word b : in_word 8 (byte_val b).
Proof. apply byte_val_bounds. Qed.

#[export] Hint Resolve Uint16_word Uint32_word byte_val_word byte_val_bounds
  length_PutUint16 length_PutUint32 length_be_put : t2d_len.
