(* ===== verification/Packet.v ===== *)
(** * The packet header (internal/protocol/packet.go)

    The 20-byte header in front of every frame: its record, the serialiser
    [MarshalTo] as the writes it makes into a buffer, the appenders, the parser
    [Unmarshal], the check [Validate] and the three constructors. *)

From S2P Require Import Prelude.
From S2P Require Import Words.

(** ** Data *)

(** The errors of the protocol package, one constructor per error site. *)
Inductive protocol_error :=
| ErrHeaderSize
| ErrMagic (magic : Z)
| ErrVersion (version : Z)
| ErrPacketType (typ : Z)
| ErrNilControl
| ErrLaneCountZero
| ErrLaneID (id count : Z)
| ErrTooManySessions (n : nat)
| ErrControlShort (n : nat)
| ErrControlSize (got want : Z)
| ErrPayloadTooLarge (length max : Z).

#[export] Instance protocol_error_eq_dec : EqDecision protocol_error.
Proof. solve_decision. Defined.

Record PacketHeader := mkHeader {
  h_Magic : Z;
  h_Version : Z;
  h_Type : Z;
  h_Flags : Z;
  h_SessionID : Z;
  h_SequenceID : Z;
  h_Length : Z
}.

#[export] Instance PacketHeader_eq_dec : EqDecision PacketHeader.
Proof. solve_decision. Defined.

Definition MagicNumber : Z := 0x54435050.
Definition Version : Z := 1.
Definition HeaderSize : nat := 20.
Definition PacketTypeData : Z := 1.
Definition PacketTypeHeartbeat : Z := 2.
Definition PacketTypeControl : Z := 3.

(** The zero value of the struct, [PacketHeader{}]. *)
Definition zero_header : PacketHeader := mkHeader 0 0 0 0 0 0 0.

(** A value of the struct: every field within its Go type. *)
Definition header_wf (h : PacketHeader) : Prop :=
  in_word 32 (h_Magic h) ∧ in_word 8 (h_Version h) ∧ in_word 8 (h_Type h) ∧
  in_word 16 (h_Flags h) ∧ in_word 32 (h_SessionID h) ∧
  in_word 32 (h_SequenceID h) ∧ in_word 32 (h_Length h).

#[export] Instance header_wf_dec h : Decision (header_wf h).
Proof. unfold header_wf. apply _. Defined.

(** ** Operations *)

(** [MarshalTo]: the seven writes into [buf], each bounds-checked. *)
Definition MarshalTo (h : PacketHeader) (buf : list byte) : exec (list byte) :=
  buf ← put_slice 0 (PutUint32 (h_Magic h)) buf;
  buf ← set_index 4 (to_byte (h_Version h)) buf;
  buf ← set_index 5 (to_byte (h_Type h)) buf;
  buf ← put_slice 6 (PutUint16 (h_Flags h)) buf;
  buf ← put_slice 8 (PutUint32 (h_SessionID h)) buf;
  buf ← put_slice 12 (PutUint32 (h_SequenceID h)) buf;
  put_slice 16 (PutUint32 (h_Length h)) buf.

Definition Marshal (h : PacketHeader) : exec (list byte) :=
  MarshalTo h (replicate HeaderSize x00).

(** [AppendTo]: grow [dst] by a zeroed header, then marshal into the tail. *)
Definition AppendTo (h : PacketHeader) (dst : list byte) : exec (list byte) :=
  let offset := length dst in
  let dst := dst ++ replicate HeaderSize x00 in
  tail ← MarshalTo h (drop offset dst);
  Ret (take offset dst ++ tail).

Definition AppendPacket (dst : list byte) (header : PacketHeader) (payload : list byte)
    : exec (list byte) :=
  dst ← AppendTo header dst;
  Ret (dst ++ payload).

Definition NewDataPacket (sessionID sequenceID dataLen : Z) : PacketHeader :=
  {| h_Magic := MagicNumber; h_Version := Version; h_Type := PacketTypeData;
     h_Flags := 0; h_SessionID := sessionID; h_SequenceID := sequenceID;
     h_Length := dataLen |}.

Definition NewHeartbeatPacket (sessionID : Z) : PacketHeader :=
  {| h_Magic := MagicNumber; h_Version := Version; h_Type := PacketTypeHeartbeat;
     h_Flags := 0; h_SessionID := sessionID; h_SequenceID := 0; h_Length := 0 |}.

Definition NewControlPacket (sessionID dataLen : Z) : PacketHeader :=
  {| h_Magic := MagicNumber; h_Version := Version; h_Type := PacketTypeControl;
     h_Flags := 0; h_SessionID := sessionID; h_SequenceID := 0;
     h_Length := dataLen |}.

Definition AppendDataPacket (dst : list byte) (sessionID sequenceID : Z)
    (payload : list byte) : exec (list byte) :=
  let header := NewDataPacket sessionID sequenceID (u32 (Z.of_nat (length payload))) in
  AppendPacket dst header payload.

(** [Unmarshal]: the receiver after the call, and the error. A short input
    leaves the receiver as it was. *)
Definition Unmarshal (h : PacketHeader) (data : list byte)
    : PacketHeader * option protocol_error :=
  if decide (length data < HeaderSize)%nat then (h, Some ErrHeaderSize)
  else
    ({| h_Magic := Uint32 (slice 0 4 data);
        h_Version := byte_val (data !!! 4%nat);
        h_Type := byte_val (data !!! 5%nat);
        h_Flags := Uint16 (slice 6 2 data);
        h_SessionID := Uint32 (slice 8 4 data);
        h_SequenceID := Uint32 (slice 12 4 data);
        h_Length := Uint32 (slice 16 4 data) |}, None).

Definition Validate (h : PacketHeader) : option protocol_error :=
  if negb (h_Magic h =? MagicNumber) then Some (ErrMagic (h_Magic h))
  else if negb (h_Version h =? Version) then Some (ErrVersion (h_Version h))
  else if (h_Type h <? PacketTypeData) || (PacketTypeControl <? h_Type h)
  then Some (ErrPacketType (h_Type h))
  else None.

(** ** The wire format as a function

    [header_bytes h] is what [MarshalTo] leaves in the first twenty bytes; the
    lemmas below relate the writes and the reads to it. *)

Definition header_bytes (h : PacketHeader) : list byte :=
  PutUint32 (h_Magic h) ++ [to_byte (h_Version h)] ++ [to_byte (h_Type h)] ++
  PutUint16 (h_Flags h) ++ PutUint32 (h_SessionID h) ++
  PutUint32 (h_SequenceID h) ++ PutUint32 (h_Length h).

(** A frame on the wire: header, then payload. *)
Definition frame_bytes (h : PacketHeader) (payload : list byte) : list byte :=
  header_bytes h ++ payload.

#[global] Arguments header_bytes : simpl never.

Lemma length_header_bytes h : length (header_bytes h) = HeaderSize.
Proof. done. Qed.
#[export] Hint Rewrite length_header_bytes : t2d.
#[export] Hint Resolve length_header_bytes : t2d_len.

Lemma length_frame_bytes h p : length (frame_bytes h p) = (HeaderSize + length p)%nat.
Proof. unfold frame_bytes. by rewrite length_app, length_header_bytes. Qed.
#[export] Hint Rewrite length_frame_bytes : t2d.

(** Twenty bytes exist in front of [buf] and [MarshalTo] overwrites them. *)
Lemma MarshalTo_spec h buf :
  (HeaderSize ≤ length buf)%nat →
  MarshalTo h buf = Ret (header_bytes h ++ drop HeaderSize buf).
Proof.
  unfold HeaderSize. intros Hlen. do 20 (destruct buf as [|? buf]; [simpl in Hlen; lia|]).
  clear Hlen. unfold MarshalTo, set_index, put_slice.
  repeat (rewrite decide_True by (cbn; lia); cbn [mbind exec_bind]). done.
Qed.


Lemma Marshal_spec h : Marshal h = Ret (header_bytes h).
Proof. unfold Marshal. rewrite MarshalTo_spec by done. done. Qed.

Lemma AppendTo_spec h dst : AppendTo h dst = Ret (dst ++ header_bytes h).
Proof.
  unfold AppendTo. rewrite drop_app_length, take_app_length.
  by rewrite MarshalTo_spec.
Qed.

Lemma AppendPacket_spec dst h p : AppendPacket dst h p = Ret (dst ++ frame_bytes h p).
Proof. unfold AppendPacket. rewrite AppendTo_spec. cbn. by rewrite <- app_assoc. Qed.

Lemma Unmarshal_total h data :
  (HeaderSize ≤ length data)%nat → ∃ h', Unmarshal h data = (h', None).
Proof. intros. unfold Unmarshal. rewrite decide_False by lia. eauto. Qed.

(** Reading back what was written, whatever follows the header. *)
Lemma Unmarshal_header_bytes h0 h rest :
  header_wf h → Unmarshal h0 (header_bytes h ++ rest) = (h, None).
Proof.
  intros (?&?&?&?&?&?&?).
  assert (Unmarshal h0 (header_bytes h ++ rest) =
    ({| h_Magic := Uint32 (PutUint32 (h_Magic h));
        h_Version := byte_val (to_byte (h_Version h));
        h_Type := byte_val (to_byte (h_Type h));
        h_Flags := Uint16 (PutUint16 (h_Flags h));
        h_SessionID := Uint32 (PutUint32 (h_SessionID h));
        h_SequenceID := Uint32 (PutUint32 (h_SequenceID h));
        h_Length := Uint32 (PutUint32 (h_Length h)) |}, None)) as -> by done.
  rewrite !Uint32_Put, Uint16_Put, !byte_val_to_byte by done.
  unfold u8. rewrite !wrap_small by done. by destruct h.
Qed.

(** The parsed header, for an input long enough. *)
Definition parse_header (data : list byte) : PacketHeader :=
  fst (Unmarshal zero_header data).

Lemma Unmarshal_parse h0 data :
  (HeaderSize ≤ length data)%nat → Unmarshal h0 data = (parse_header data, None).
Proof.
  intros. unfold parse_header, Unmarshal. by rewrite !decide_False by lia.
Qed.

Lemma parse_header_wf data :
  (HeaderSize ≤ length data)%nat → header_wf (parse_header data).
Proof.
  unfold HeaderSize. intros. unfold parse_header, Unmarshal, HeaderSize.
  rewrite decide_False by lia. unfold header_wf; simpl.
  split_and!; auto using length_slice with t2d_len;
    first [apply Uint32_word|apply Uint16_word]; apply length_slice; lia.
Qed.

(** Writing back what was read. *)
Lemma header_bytes_parse data :
  (HeaderSize ≤ length data)%nat →
  header_bytes (parse_header data) = take HeaderSize data.
Proof.
  unfold HeaderSize. intros Hlen.
  do 20 (destruct data as [|? data]; [simpl in Hlen; lia|]). clear Hlen.
  unfold header_bytes, parse_header, Unmarshal, HeaderSize.
  rewrite decide_False by (simpl; lia). cbn -[PutUint32 PutUint16 Uint32 Uint16].
  rewrite !Put_Uint32, Put_Uint16, !to_byte_val by done. done.
Qed.

Lemma parse_header_bytes h rest :
  header_wf h → parse_header (header_bytes h ++ rest) = h.
Proof. intros. unfold parse_header. by rewrite Unmarshal_header_bytes. Qed.

(** Only the first twenty bytes are read. *)
Lemma parse_header_app data rest :
  (HeaderSize ≤ length data)%nat → parse_header (data ++ rest) = parse_header data.
Proof.
  unfold HeaderSize. intros Hlen.
  do 20 (destruct data as [|? data]; [simpl in Hlen; lia|]). done.
Qed.

Lemma parse_header_take data :
  (HeaderSize ≤ length data)%nat → parse_header (take HeaderSize data) = parse_header data.
Proof.
  intros. rewrite <- (take_drop HeaderSize data) at 2.
  by rewrite parse_header_app by len.
Qed.

Lemma header_bytes_inj h1 h2 :
  header_wf h1 → header_wf h2 → header_bytes h1 = header_bytes h2 → h1 = h2.
Proof.
  intros H1 H2 E. rewrite <- (parse_header_bytes h1 []), <- (parse_header_bytes h2 []) by done.
  by rewrite E.
Qed.

Lemma Validate_None h :
  Validate h = None ↔
  h_Magic h = MagicNumber ∧ h_Version h = Version ∧
  PacketTypeData ≤ h_Type h ≤ PacketTypeControl.
Proof.
  unfold Validate, PacketTypeData, PacketTypeControl. split.
  - repeat case_match; intros; try done; lia.
  - intros (->&->&?). rewrite !Z.eqb_refl. cbn -[Z.ltb]. by case_match; [lia|].
Qed.

Lemma NewDataPacket_wf sid seq n :
  in_word 32 sid → in_word 32 seq → in_word 32 n → header_wf (NewDataPacket sid seq n).
Proof. intros. unfold header_wf, in_word in *; simpl. unfold MagicNumber, Version, PacketTypeData. lia. Qed.

Lemma NewDataPacket_valid sid seq n : Validate (NewDataPacket sid seq n) = None.
Proof. done. Qed.

Lemma NewControlPacket_wf sid n :
  in_word 32 sid → in_word 32 n → header_wf (NewControlPacket sid n).
Proof. intros. unfold header_wf, in_word in *; simpl. unfold MagicNumber, Version, PacketTypeControl. lia. Qed.

#[export] Hint Resolve parse_header_wf NewDataPacket_wf NewControlPacket_wf : t2d_len.

(** ** Theorems *)



(** Every 20-byte string is the encoding of exactly one header. Parsing a
    long enough input never fails; the header it returns is the only well-formed
    one whose encoding is the first twenty bytes. An input shorter than a header
    is rejected and the receiver keeps its value. *)
Theorem header_parse_total h0 data :
  let '(h, e) := Unmarshal h0 data in
  if decide (length data < HeaderSize)%nat
  then e = Some ErrHeaderSize ∧ h = h0
  else e = None ∧
    ∀ h', header_wf h' ∧ Marshal h' = Ret (take HeaderSize data) ↔ h' = h.
Proof.
  case_decide as Hl.
  - unfold Unmarshal. by rewrite decide_True.
  - rewrite Unmarshal_parse by lia. split; [done|]. intros h'.
    rewrite <- header_bytes_parse, Marshal_spec by lia. split.
    + intros [Hwf E%(inj Ret)]. apply header_bytes_inj; [done|apply parse_header_wf; lia|done].
    + intros ->. split; [apply parse_header_wf; lia|done].
Qed.
