(* ===== verification/Control.v ===== *)
(** * Lane control frames (internal/protocol/control.go)

    The payload of a control frame (Hello, LaneRegister, LaneHeartbeat), its
    encoder as the writes it makes into the buffer it allocates, its decoder,
    and the constructor of the whole control frame. *)

From S2P Require Import Prelude.
From S2P Require Import Words.
From S2P Require Import Packet.

(** ** Data *)

Definition ControlSubtypeHello : Z := 1.
Definition ControlSubtypeLaneRegister : Z := 2.
Definition ControlSubtypeLaneHeartbeat : Z := 3.

Record LaneControlPayload := mkControl {
  c_Subtype : Z;
  c_LaneID : Z;
  c_LaneCount : Z;
  c_SessionIDs : list Z
}.

#[export] Instance LaneControlPayload_eq_dec : EqDecision LaneControlPayload.
Proof. solve_decision. Defined.

(** A value of the struct: every field within its Go type. *)
Definition control_wf (p : LaneControlPayload) : Prop :=
  in_word 8 (c_Subtype p) ∧ in_word 16 (c_LaneID p) ∧ in_word 16 (c_LaneCount p) ∧
  Forall (in_word 32) (c_SessionIDs p).

#[export] Instance control_wf_dec p : Decision (control_wf p).
Proof. unfold control_wf. apply _. Defined.

(** ** Operations *)

(** The loop over the session ids: [buf[off:off+4] = sid; off += 4]. *)
Fixpoint put_session_ids (off : nat) (sids : list Z) (buf : list byte) : exec (list byte) :=
  match sids with
  | [] => Ret buf
  | sid :: sids =>
      buf ← put_slice off (PutUint32 sid) buf;
      put_session_ids (off + 4) sids buf
  end.

(** [Marshal] on a possibly nil receiver. *)
Definition ControlMarshal (p : option LaneControlPayload)
    : exec (result protocol_error (list byte)) :=
  match p with
  | None => Ret (Err ErrNilControl)
  | Some p =>
      if c_LaneCount p =? 0 then Ret (Err ErrLaneCountZero)
      else if c_LaneCount p <=? c_LaneID p
      then Ret (Err (ErrLaneID (c_LaneID p) (c_LaneCount p)))
      else if 0xFFFF <? Z.of_nat (length (c_SessionIDs p))
      then Ret (Err (ErrTooManySessions (length (c_SessionIDs p))))
      else
        let buf := replicate (8 + length (c_SessionIDs p) * 4) x00 in
        buf ← set_index 0 (to_byte (c_Subtype p)) buf;
        buf ← set_index 1 (to_byte 0) buf;
        buf ← put_slice 2 (PutUint16 (c_LaneID p)) buf;
        buf ← put_slice 4 (PutUint16 (c_LaneCount p)) buf;
        buf ← put_slice 6 (PutUint16 (u16 (Z.of_nat (length (c_SessionIDs p))))) buf;
        buf ← put_session_ids 8 (c_SessionIDs p) buf;
        Ret (Ok buf)
  end.

(** The loop reading [sessionCount] ids from offset [off]. *)
Fixpoint get_session_ids (off n : nat) (payload : list byte) : list Z :=
  match n with
  | O => []
  | S n => Uint32 (slice off 4 payload) :: get_session_ids (off + 4) n payload
  end.

Definition UnmarshalLaneControl (payload : list byte)
    : result protocol_error LaneControlPayload :=
  if decide (length payload < 8)%nat then Err (ErrControlShort (length payload))
  else
    let sessionCount := Uint16 (slice 6 2 payload) in
    let expected := 8 + sessionCount * 4 in
    if negb (Z.of_nat (length payload) =? expected)
    then Err (ErrControlSize (Z.of_nat (length payload)) expected)
    else
      let subtype := byte_val (payload !!! 0%nat) in
      let laneID := Uint16 (slice 2 2 payload) in
      let laneCount := Uint16 (slice 4 2 payload) in
      if laneCount =? 0 then Err ErrLaneCountZero
      else if laneCount <=? laneID then Err (ErrLaneID laneID laneCount)
      else
        Ok {| c_Subtype := subtype; c_LaneID := laneID; c_LaneCount := laneCount;
              c_SessionIDs :=
                if 0 <? sessionCount
                then get_session_ids 8 (Z.to_nat sessionCount) payload else [] |}.

(** [NewControlPacketPayload]: header and payload of a control frame. *)
Definition NewControlPacketPayload (sequenceID : Z) (ctrl : LaneControlPayload)
    : exec (result protocol_error (PacketHeader * list byte)) :=
  r ← ControlMarshal (Some ctrl);
  match r with
  | Err e => Ret (Err e)
  | Ok payload =>
      let header := NewControlPacket (u32 (c_LaneID ctrl)) (u32 (Z.of_nat (length payload))) in
      let header := {| h_Magic := h_Magic header; h_Version := h_Version header;
        h_Type := h_Type header; h_Flags := h_Flags header;
        h_SessionID := h_SessionID header; h_SequenceID := sequenceID;
        h_Length := h_Length header |} in
      Ret (Ok (header, payload))
  end.

(** ** The encoding as a function *)

(** The payload with [pad] in the reserved byte. *)
Definition control_encode (pad : byte) (p : LaneControlPayload) : list byte :=
  [to_byte (c_Subtype p); pad] ++ PutUint16 (c_LaneID p) ++ PutUint16 (c_LaneCount p) ++
  PutUint16 (Z.of_nat (length (c_SessionIDs p))) ++ (c_SessionIDs p ≫= PutUint32).

(** What the encoder accepts. *)
Definition control_valid (p : LaneControlPayload) : Prop :=
  0 < c_LaneCount p ∧ c_LaneID p < c_LaneCount p ∧ Z.of_nat (length (c_SessionIDs p)) ≤ 0xFFFF.

#[export] Instance control_valid_dec p : Decision (control_valid p).
Proof. unfold control_valid. apply _. Defined.

Lemma length_put_ids sids : length (sids ≫= PutUint32) = (4 * length sids)%nat.
Proof. induction sids as [|s sids IH]; [done|]. cbn -[PutUint32]. len. Qed.
#[export] Hint Rewrite length_put_ids : t2d.

Lemma length_control_encode pad p :
  length (control_encode pad p) = (8 + 4 * length (c_SessionIDs p))%nat.
Proof. unfold control_encode. len. Qed.
#[export] Hint Rewrite length_control_encode : t2d.

Lemma put_session_ids_spec pre sids old :
  length old = (4 * length sids)%nat →
  put_session_ids (length pre) sids (pre ++ old) = Ret (pre ++ (sids ≫= PutUint32)).
Proof.
  revert pre old. induction sids as [|s sids IH]; intros pre old Hold.
  { by destruct old. }
  simpl in Hold. do 4 (destruct old as [|? old]; [simpl in Hold; lia|]).
  cbn [put_session_ids].
  change (pre ++ b :: b0 :: b1 :: b2 :: old) with (pre ++ [b; b0; b1; b2] ++ old).
  rewrite put_slice_app by done. cbn [mbind exec_bind].
  rewrite app_assoc. replace (length pre + 4)%nat with (length (pre ++ PutUint32 s)) by len.
  rewrite IH by (simpl in Hold; lia). by rewrite <- app_assoc.
Qed.

Lemma get_session_ids_spec pre sids :
  Forall (in_word 32) sids →
  get_session_ids (length pre) (length sids) (pre ++ (sids ≫= PutUint32)) = sids.
Proof.
  intros Hs. revert pre. induction Hs as [|s sids ? Hs IH]; intros pre; [done|].
  cbn [length get_session_ids]. f_equal.
  - replace (length pre) with (length pre + 0)%nat by lia. rewrite slice_skip_app.
    cbn [mbind list_bind]. rewrite slice_0_app by done. by apply Uint32_Put.
  - cbn [mbind list_bind]. rewrite app_assoc.
    replace (length pre + 4)%nat with (length (pre ++ PutUint32 s)) by len. apply IH.
Qed.

Lemma get_session_ids_words off n payload :
  (off + 4 * n ≤ length payload)%nat →
  Forall (in_word 32) (get_session_ids off n payload).
Proof.
  revert off. induction n as [|n IH]; intros off H; constructor.
  - apply Uint32_word, length_slice. lia.
  - apply IH. lia.
Qed.

Lemma length_get_session_ids off n payload : length (get_session_ids off n payload) = n.
Proof. revert off. induction n; intros; simpl; auto. Qed.
#[export] Hint Rewrite length_get_session_ids : t2d.

(** The ids read are the ones written. *)
Lemma put_get_session_ids off n payload :
  length payload = (off + 4 * n)%nat →
  get_session_ids off n payload ≫= PutUint32 = drop off payload.
Proof.
  revert off. induction n as [|n IH]; intros off H.
  { cbn. symmetry. apply nil_length_inv. len. }
  cbn [get_session_ids mbind list_bind]. cbn [mbind list_bind] in IH. rewrite IH by lia.
  rewrite Put_Uint32 by (apply length_slice; lia).
  unfold slice. rewrite <- (take_drop 4 (drop off payload)) at 2. by rewrite drop_drop.
Qed.

(** ** The encoder, branch by branch *)

Lemma ControlMarshal_ok p :
  control_valid p → ControlMarshal (Some p) = Ret (Ok (control_encode x00 p)).
Proof.
  intros (Hc & Hid & Hn). unfold ControlMarshal.
  rewrite (proj2 (Z.eqb_neq _ _)), (proj2 (Z.leb_gt _ _)), (proj2 (Z.ltb_ge _ _)) by lia.
  unfold set_index, put_slice.
  repeat (rewrite decide_True by (simpl; rewrite ?length_replicate; lia); cbn [mbind exec_bind]).
  unfold u16. rewrite wrap_small by (unfold in_word; lia).
  set (fixed := take 8 (control_encode x00 p)).
  match goal with |- context [put_session_ids 8 ?sids ?b] =>
    change (put_session_ids 8 sids b) with
      (put_session_ids (length fixed) sids
         (fixed ++ replicate (length (c_SessionIDs p) * 4) x00)) end.
  rewrite put_session_ids_spec by len. done.
Qed.

Lemma ControlMarshal_err p :
  control_wf p → ¬ control_valid p → ∃ e, ControlMarshal (Some p) = Ret (Err e).
Proof.
  intros (_&_&[? ?]&_) Hv. unfold control_valid in Hv. unfold ControlMarshal.
  repeat (case_match; [by eauto|]). lia.
Qed.

(** ** The decoder *)

Lemma Unmarshal_encode pad p :
  control_wf p → control_valid p → UnmarshalLaneControl (control_encode pad p) = Ok p.
Proof.
  intros (Hs&Hi&Hc&Hids) (?&?&Hn). unfold UnmarshalLaneControl.
  rewrite length_control_encode, decide_False by lia.
  change (slice 6 2 (control_encode pad p)) with (PutUint16 (Z.of_nat (length (c_SessionIDs p)))).
  change (slice 2 2 (control_encode pad p)) with (PutUint16 (c_LaneID p)).
  change (slice 4 2 (control_encode pad p)) with (PutUint16 (c_LaneCount p)).
  change (control_encode pad p !!! 0%nat) with (to_byte (c_Subtype p)).
  rewrite !Uint16_Put by (unfold in_word in *; lia).
  rewrite byte_val_to_byte. unfold u8. rewrite wrap_small by done.
  rewrite (proj2 (Z.eqb_eq _ _)), (proj2 (Z.eqb_neq _ _)), (proj2 (Z.leb_gt _ _)) by lia.
  cbn [negb]. f_equal. destruct p as [s i c ids]; simpl in *. f_equal.
  destruct (Z.ltb_spec 0 (Z.of_nat (length ids))) as [_|Hz]; [|destruct ids; [done|simpl in Hz; lia]].
  rewrite Nat2Z.id.
  by apply (get_session_ids_spec (take 8 (control_encode pad (mkControl s i c ids)))).
Qed.

Lemma Unmarshal_decode payload p :
  UnmarshalLaneControl payload = Ok p →
  control_wf p ∧ control_valid p ∧ payload = control_encode (payload !!! 1%nat) p.
Proof.
  unfold UnmarshalLaneControl. intros E.
  case_decide as Hshort; [done|]. destruct (negb _) eqn:Hsize; [done|].
  destruct (_ =? 0) eqn:Hcount; [done|]. destruct (_ <=? _) eqn:Hlane; [done|].
  injection E as <-.
  pose proof (Uint16_word (slice 6 2 payload) ltac:(apply length_slice; lia)) as Hn.
  pose proof (Uint16_word (slice 2 2 payload) ltac:(apply length_slice; lia)) as Hi.
  pose proof (Uint16_word (slice 4 2 payload) ltac:(apply length_slice; lia)) as Hc.
  unfold in_word in Hn, Hi, Hc.
  set (n := Uint16 (slice 6 2 payload)) in *.
  assert (Z.of_nat (length payload) = 8 + n * 4) as Hlen by lia.
  assert ((if 0 <? n then get_session_ids 8 (Z.to_nat n) payload else []) =
          get_session_ids 8 (Z.to_nat n) payload) as ->.
  { destruct (Z.ltb_spec 0 n); [done|]. by replace (Z.to_nat n) with 0%nat by lia. }
  split_and!.
  - unfold control_wf; simpl. split_and!; auto with t2d_len.
    apply get_session_ids_words. lia.
  - unfold control_valid; simpl. len.
  - unfold control_encode; cbn [c_Subtype c_LaneID c_LaneCount c_SessionIDs]. rewrite length_get_session_ids.
    rewrite Z2Nat.id, put_get_session_ids, to_byte_val by lia.
    unfold n. rewrite !Put_Uint16 by (apply length_slice; lia).
    do 8 (destruct payload as [|? payload]; [simpl in *; lia|]). done.
Qed.

(** ** The whole frame *)

Lemma NewControlPacketPayload_ok seq p :
  control_wf p → control_valid p →
  NewControlPacketPayload seq p = Ret (Ok
    ({| h_Magic := MagicNumber; h_Version := Version; h_Type := PacketTypeControl;
        h_Flags := 0; h_SessionID := c_LaneID p; h_SequenceID := seq;
        h_Length := 8 + 4 * Z.of_nat (length (c_SessionIDs p)) |},
     control_encode x00 p)).
Proof.
  intros (?&[? ?]&?&?) Hv. pose proof Hv as (?&?&?).
  unfold NewControlPacketPayload. rewrite ControlMarshal_ok by done. cbn [mbind exec_bind].
  rewrite length_control_encode. simpl. unfold u32.
  do 4 f_equal; rewrite wrap_small by (unfold in_word; lia); lia.
Qed.

(** ** Theorems *)

(** C30: the control encoder and decoder are inverse. On every payload value the
    encoder returns (it never panics); it succeeds exactly on the valid lane
    numbers and session counts, the bytes it returns are [8 + 4 n] long and
    decode to the payload it was given, and a nil payload is an error. *)
Theorem control_roundtrip p :
  control_wf p →
  match ControlMarshal (Some p) with
  | Ret (Ok buf) =>
      control_valid p ∧ length buf = (8 + 4 * length (c_SessionIDs p))%nat ∧
      UnmarshalLaneControl buf = Ok p
  | Ret (Err e) => ¬ control_valid p
  | Panic => False
  end ∧ ControlMarshal None = Ret (Err ErrNilControl).
Proof.
  intros Hwf. split; [|done]. destruct (decide (control_valid p)) as [Hv|Hv].
  - rewrite ControlMarshal_ok by done. rewrite length_control_encode.
    auto using Unmarshal_encode.
  - by destruct (ControlMarshal_err p Hwf Hv) as [e ->].
Qed.

Lemma control_roundtrip_witness :
  control_wf (mkControl 2 2 4 [11; 22; 33]) ∧
  ∃ buf, ControlMarshal (Some (mkControl 2 2 4 [11; 22; 33])) = Ret (Ok buf) ∧
         UnmarshalLaneControl buf = Ok (mkControl 2 2 4 [11; 22; 33]).
Proof.
  assert (control_wf (mkControl 2 2 4 [11; 22; 33])) as Hwf.
  { by_compute. }
  split; [exact Hwf|].
  pose proof (control_roundtrip (mkControl 2 2 4 [11; 22; 33]) Hwf) as [H _].
  destruct (ControlMarshal _) as [[buf|e]|] eqn:E.
  - exists buf. split; [reflexivity|apply H].
  - vm_compute in E. discriminate.
  - vm_compute in E. discriminate.
Defined.

(** The decoder accepts exactly the encodings. It returns [p] if and only if
    [p] is a well-formed valid payload and the input is [p]'s encoding with an
    arbitrary value in the reserved byte; every other input is an error. *)
Theorem control_parse_exact payload p :
  UnmarshalLaneControl payload = Ok p ↔
  control_wf p ∧ control_valid p ∧ ∃ pad, payload = control_encode pad p.
Proof.
  split.
  - intros (?&?&->)%Unmarshal_decode. eauto.
  - intros (?&?&pad&->). by apply Unmarshal_encode.
Qed.
