(* ===== verification/Stream.v ===== *)
(** * Frame reassembly (internal/protocol/stream.go)

    [StreamBuffer] accumulates the bytes read from a TCP connection and cuts
    them into frames. The model keeps the backing array of the slice [b.buf]
    explicit, because [Write] compacts it in place when it would overflow its
    capacity and [NextRef] returns a view into it instead of a copy. Lengths and
    offsets of the Go code are [int]s: the two places where a length taken from
    the wire enters the arithmetic go through [go_int].

    The second half gives the abstract parser [spec_next] over byte strings,
    proves that [NextRef] refines it, and derives that a stream of frames is
    delivered intact however TCP splits it into reads. *)

From S2P Require Import Prelude.
From S2P Require Import Words.
From S2P Require Import Packet.

(** ** Data *)

(** [buf] is [arr[:len]], its capacity is the length of [arr]. *)
Record StreamBuffer := mkStream {
  sb_arr : list byte;
  sb_len : nat;
  sb_off : nat;
  sb_maxPayload : Z
}.

Definition sb_buf (b : StreamBuffer) : list byte := take (sb_len b) (sb_arr b).
Definition sb_cap (b : StreamBuffer) : nat := length (sb_arr b).

(** A frame whose payload is the view [arr[fr_start : fr_start + fr_len]]. *)
Record FrameRef := mkFrameRef {
  fr_Header : PacketHeader;
  fr_start : nat;
  fr_len : nat
}.

(** A frame that owns its payload. *)
Record Frame := mkFrame {
  f_Header : PacketHeader;
  f_Payload : list byte
}.

#[export] Instance Frame_eq_dec : EqDecision Frame.
Proof. solve_decision. Defined.

(** The three shapes of Go's [(frame, ok, err)]. *)
Inductive next_result (F : Type) :=
| NextErr (e : protocol_error)
| NextNone
| NextFrame (f : F).
Arguments NextErr {F} e.
Arguments NextNone {F}.
Arguments NextFrame {F} f.

#[export] Instance NextFrame_inj {F} : Inj (=) (=) (@NextFrame F).
Proof. by intros ?? [= ->]. Qed.

#[export] Instance next_result_fmap : FMap next_result := λ A B f r,
  match r with
  | NextErr e => NextErr e
  | NextNone => NextNone
  | NextFrame x => NextFrame (f x)
  end.

(** The bytes a view denotes in the buffer it points into. *)
Definition view_payload (b : StreamBuffer) (r : FrameRef) : list byte :=
  slice (fr_start r) (fr_len r) (sb_arr b).

Definition view_frame (b : StreamBuffer) (r : FrameRef) : Frame :=
  mkFrame (fr_Header r) (view_payload b r).

(** ** Operations *)

Definition NewStreamBuffer (capacity maxPayload : Z) : StreamBuffer :=
  let capacity := if capacity <? Z.of_nat HeaderSize then Z.of_nat HeaderSize else capacity in
  {| sb_arr := replicate (Z.to_nat capacity) x00; sb_len := 0; sb_off := 0;
     sb_maxPayload := maxPayload |}.

Definition Len (b : StreamBuffer) : nat := sb_len b - sb_off b.

Definition StreamReset (b : StreamBuffer) : StreamBuffer :=
  {| sb_arr := sb_arr b; sb_len := 0; sb_off := 0; sb_maxPayload := sb_maxPayload b |}.

(** [copy(b.buf, b.buf[b.off:]); b.buf = b.buf[:len(b.buf)-b.off]; b.off = 0]. *)
Definition compact (b : StreamBuffer) : StreamBuffer :=
  let n := (sb_len b - sb_off b)%nat in
  {| sb_arr := slice (sb_off b) n (sb_arr b) ++ drop n (sb_arr b);
     sb_len := n; sb_off := 0; sb_maxPayload := sb_maxPayload b |}.

Section Write.
(** The capacity Go's [append] allocates, from the old capacity and the length
    it needs; any policy does. *)
Variable grow : nat → nat → nat.

(** [b.buf = append(b.buf, p...)]: in place when it fits, into a new backing
    array otherwise. *)
Definition append_bytes (b : StreamBuffer) (p : list byte) : StreamBuffer :=
  let n := (sb_len b + length p)%nat in
  {| sb_arr :=
       if decide (n ≤ sb_cap b)%nat
       then sb_buf b ++ p ++ drop n (sb_arr b)
       else sb_buf b ++ p ++ replicate (grow (sb_cap b) n - n) x00;
     sb_len := n; sb_off := sb_off b; sb_maxPayload := sb_maxPayload b |}.

Definition StreamWrite (b : StreamBuffer) (p : list byte) : StreamBuffer :=
  let b :=
    if decide (0 < sb_off b ∧ sb_cap b < sb_len b + length p)%nat
    then compact b else b in
  append_bytes b p.
End Write.

(** [b.off = off; if b.off == len(b.buf) { b.Reset() }]. *)
Definition advance (b : StreamBuffer) (off : nat) : StreamBuffer :=
  let b := {| sb_arr := sb_arr b; sb_len := sb_len b; sb_off := off;
              sb_maxPayload := sb_maxPayload b |} in
  if decide (sb_off b = sb_len b) then StreamReset b else b.

(** The bounds check of the slice expression [x[lo:hi]] on a slice of capacity
    [cap]. *)
Definition slice_ok (lo hi cap : Z) : bool :=
  (0 <=? lo) && (lo <=? hi) && (hi <=? cap).

Definition NextRef `{IntWidth} (b : StreamBuffer) : exec (StreamBuffer * next_result FrameRef) :=
  if decide (Len b < HeaderSize)%nat then Ret (b, NextNone)
  else
    let '(header, err) := Unmarshal zero_header (slice (sb_off b) HeaderSize (sb_buf b)) in
    match err with
    | Some e => Ret (b, NextErr e)
    | None =>
    match Validate header with
    | Some e => Ret (b, NextErr e)
    | None =>
      if (0 <? sb_maxPayload b) && (sb_maxPayload b <? go_int (h_Length header))
      then Ret (b, NextErr (ErrPayloadTooLarge (h_Length header) (sb_maxPayload b)))
      else
        let totalLen := go_int (Z.of_nat HeaderSize + go_int (h_Length header)) in
        if Z.of_nat (Len b) <? totalLen then Ret (b, NextNone)
        else
          let payloadStart := go_int (Z.of_nat (sb_off b) + Z.of_nat HeaderSize) in
          let payloadEnd := go_int (Z.of_nat (sb_off b) + totalLen) in
          if slice_ok payloadStart payloadEnd (Z.of_nat (sb_cap b)) then
            let ref := mkFrameRef header (Z.to_nat payloadStart)
                         (Z.to_nat (payloadEnd - payloadStart)) in
            Ret (advance b (Z.to_nat payloadEnd), NextFrame ref)
          else Panic
    end
    end.

(** [Next]: the same with a copy of the payload. *)
Definition Next `{IntWidth} (b : StreamBuffer) : exec (StreamBuffer * next_result Frame) :=
  r ← NextRef b;
  let '(b, res) := r in
  match res with
  | NextErr e => Ret (b, NextErr e)
  | NextNone => Ret (b, NextNone)
  | NextFrame f => Ret (b, NextFrame (mkFrame (fr_Header f) (view_payload b f)))
  end.

(** ** The abstract parser *)

(** The unread bytes. *)
Definition pending (b : StreamBuffer) : list byte := drop (sb_off b) (sb_buf b).

(** One step of parsing on a byte string: the result and what is left. *)
Definition spec_next (max : Z) (bs : list byte) : next_result Frame * list byte :=
  if decide (length bs < HeaderSize)%nat then (NextNone, bs)
  else
    let h := parse_header bs in
    match Validate h with
    | Some e => (NextErr e, bs)
    | None =>
      if (0 <? max) && (max <? h_Length h)
      then (NextErr (ErrPayloadTooLarge (h_Length h) max), bs)
      else
        let n := Z.to_nat (h_Length h) in
        if decide (length bs < HeaderSize + n)%nat then (NextNone, bs)
        else (NextFrame (mkFrame h (slice HeaderSize n bs)), drop (HeaderSize + n) bs)
    end.

Section Refinement.
Context `{IntWidth}.

(** The offset inside the slice, the slice inside the array, and its length an
    [int]. *)
Definition sb_inv (b : StreamBuffer) : Prop :=
  (sb_off b ≤ sb_len b)%nat ∧ (sb_len b ≤ sb_cap b)%nat ∧
  Z.of_nat (sb_len b) < 2 ^ (int_bits - 1).

(** The announced length is representable: always on 64-bit targets. *)
Definition wire_len_ok (bs : list byte) : Prop :=
  int_bits = 64 ∨ h_Length (parse_header bs) < 2 ^ 31 - 20.

Lemma length_pending b : sb_inv b → length (pending b) = Len b.
Proof. intros (?&?&?). unfold pending, sb_buf, Len, sb_cap in *. len. Qed.

Lemma go_int_wire z :
  int_bits = 64 ∨ z < 2 ^ 31 - 20 → in_word 32 z →
  go_int z = z ∧ go_int (20 + z) = 20 + z.
Proof.
  intros Hz [? ?]. split; apply go_int_range;
    destruct int_bits_cases as [E|E]; rewrite E in *; lia.
Qed.

Lemma view_is_pending b n m :
  sb_inv b → (n + m ≤ Len b)%nat → slice (sb_off b + n) m (sb_arr b) = slice n m (pending b).
Proof.
  intros (?&?&?) ?. unfold pending, sb_buf, Len, sb_cap in *.
  rewrite slice_drop. by rewrite slice_take by lia.
Qed.

Lemma advance_arr b off : sb_arr (advance b off) = sb_arr b.
Proof. unfold advance. by case_decide. Qed.

Lemma advance_max b off : sb_maxPayload (advance b off) = sb_maxPayload b.
Proof. unfold advance. by case_decide. Qed.

Lemma advance_len b off : (sb_len (advance b off) ≤ sb_len b)%nat.
Proof. unfold advance. case_decide; simpl; lia. Qed.

Lemma advance_inv b n : sb_inv b → (n ≤ Len b)%nat → sb_inv (advance b (sb_off b + n)).
Proof.
  intros (?&?&?) ?. unfold advance, sb_inv, Len, sb_cap in *; simpl in *.
  case_decide; simpl; lia.
Qed.

Lemma advance_pending b n :
  sb_inv b → (n ≤ Len b)%nat → pending (advance b (sb_off b + n)) = drop n (pending b).
Proof.
  intros (?&?&?) ?. unfold advance, pending, sb_buf, Len, sb_cap in *; simpl in *.
  rewrite drop_drop. case_decide; [|done]. simpl. symmetry. apply drop_ge. len.
Qed.

(** [NextRef] refines [spec_next]: the returned view denotes the payload of the
    abstract step in the buffer as it is after the call, reset or not. *)
Lemma NextRef_refines b :
  sb_inv b → wire_len_ok (pending b) →
  ∃ b' r, NextRef b = Ret (b', r) ∧ sb_inv b' ∧
    spec_next (sb_maxPayload b) (pending b) = (view_frame b' <$> r, pending b') ∧
    sb_arr b' = sb_arr b ∧ sb_maxPayload b' = sb_maxPayload b ∧
    (sb_len b' ≤ sb_len b)%nat.
Proof.
  intros Hinv Hwire. pose proof (length_pending b Hinv) as Hlen.
  unfold NextRef, spec_next. rewrite Hlen. case_decide as Hshort; [by eauto 12|].
  assert (HeaderSize ≤ length (pending b))%nat as Hh by lia.
  change (slice (sb_off b) HeaderSize (sb_buf b)) with (take HeaderSize (pending b)).
  rewrite Unmarshal_parse by len. rewrite parse_header_take by done.
  set (h := parse_header (pending b)) in *.
  destruct (Validate h) as [e|]; [by eauto 12|].
  assert (in_word 32 (h_Length h)) as HL by apply (parse_header_wf _ Hh).
  destruct (go_int_wire (h_Length h) Hwire HL) as [-> E20].
  change (Z.of_nat HeaderSize) with 20. rewrite E20.
  destruct (_ && _); [by eauto 12|]. destruct HL as [HL _].
  destruct (Z.ltb_spec (Z.of_nat (Len b)) (20 + h_Length h)) as [Hn|Hn].
  { rewrite decide_True by (unfold HeaderSize; lia). by eauto 12. }
  rewrite decide_False by (unfold HeaderSize; lia).
  pose proof Hinv as (Ho & Hl & Hc). unfold Len in Hn.
  rewrite !go_int_range by lia.
  unfold slice_ok. rewrite !(proj2 (Z.leb_le _ _)) by lia. cbn [andb].
  set (n := (HeaderSize + Z.to_nat (h_Length h))%nat).
  assert (n ≤ Len b)%nat as Hn' by (unfold n, Len, HeaderSize; lia).
  replace (Z.to_nat (Z.of_nat (sb_off b) + (20 + h_Length h))) with (sb_off b + n)%nat
    by (unfold n, HeaderSize; lia).
  replace (Z.to_nat (Z.of_nat (sb_off b) + 20)) with (sb_off b + HeaderSize)%nat
    by (unfold HeaderSize; lia).
  replace (Z.to_nat (Z.of_nat (sb_off b) + (20 + h_Length h) - (Z.of_nat (sb_off b) + 20)))
    with (Z.to_nat (h_Length h)) by lia.
  eexists _, _. split; [done|].
  rewrite advance_arr, advance_max, advance_pending by done.
  split; [by apply advance_inv|]. split; [|by auto using advance_len]. f_equal.
  cbn [fmap next_result_fmap]. f_equal. unfold view_frame, view_payload; simpl.
  rewrite advance_arr, view_is_pending by done. done.
Qed.

(** ** Writing *)

Lemma compact_spec b :
  sb_inv b → sb_inv (compact b) ∧ pending (compact b) = pending b ∧ sb_off (compact b) = 0%nat.
Proof.
  intros (?&?&?). unfold sb_inv, compact, pending, sb_buf, sb_cap in *; simpl.
  split_and!; [lia|unfold slice; len|lia| |done].
  rewrite drop_0, take_app_le by (unfold slice; len).
  unfold slice. by rewrite take_take, Nat.min_id, skipn_firstn_comm.
Qed.

Lemma append_bytes_spec grow b p :
  sb_inv b → Z.of_nat (sb_len b + length p) < 2 ^ (int_bits - 1) →
  sb_inv (append_bytes grow b p) ∧ pending (append_bytes grow b p) = pending b ++ p.
Proof.
  intros (?&?&?) ?. unfold sb_inv, append_bytes, pending, sb_buf, sb_cap in *; simpl.
  split; [split_and!; [lia| |lia]; case_decide; len|].
  rewrite <- drop_app_le by len. f_equal.
  case_decide; (rewrite app_assoc, take_app_le by len; by rewrite take_ge by len).
Qed.

(** Writing appends to the unread bytes, whether it fits, compacts or grows. *)
Lemma StreamWrite_spec grow b p :
  sb_inv b → Z.of_nat (sb_len b + length p) < 2 ^ (int_bits - 1) →
  sb_inv (StreamWrite grow b p) ∧ pending (StreamWrite grow b p) = pending b ++ p ∧
  sb_maxPayload (StreamWrite grow b p) = sb_maxPayload b ∧
  (sb_len (StreamWrite grow b p) ≤ sb_len b + length p)%nat.
Proof.
  intros Hinv Hlen. unfold StreamWrite. case_decide.
  - destruct (compact_spec b Hinv) as (Hc & Hp & _). rewrite <- Hp.
    assert (sb_len (compact b) ≤ sb_len b)%nat by (simpl; lia).
    destruct (append_bytes_spec grow (compact b) p Hc) as [? ?]; [lia|].
    split_and!; try done. simpl. lia.
  - destruct (append_bytes_spec grow b p Hinv) as [? ?]; [lia|].
    split_and!; done.
Qed.

Lemma NewStreamBuffer_spec capacity max :
  sb_inv (NewStreamBuffer capacity max) ∧ pending (NewStreamBuffer capacity max) = [] ∧
  sb_maxPayload (NewStreamBuffer capacity max) = max ∧
  (HeaderSize ≤ sb_cap (NewStreamBuffer capacity max))%nat.
Proof.
  unfold sb_inv, NewStreamBuffer, sb_cap, HeaderSize; simpl. pose proof int_bits_pow.
  rewrite length_replicate. split_and!; try done; try lia.
  destruct (Z.ltb_spec capacity (Z.of_nat 20)); lia.
Qed.

Lemma StreamReset_spec b :
  sb_inv b → sb_inv (StreamReset b) ∧ pending (StreamReset b) = [].
Proof. intros (?&?&?). unfold sb_inv, StreamReset, sb_cap in *; simpl. split; [lia|done]. Qed.
End Refinement.

(** ** Streams of frames *)

Definition wire (f : Frame) : list byte := frame_bytes (f_Header f) (f_Payload f).

(** A frame the reader accepts: well formed, valid, its length field the length
    of its payload and within the limit when there is one. *)
Definition frame_ok (max : Z) (f : Frame) : Prop :=
  header_wf (f_Header f) ∧ Validate (f_Header f) = None ∧
  h_Length (f_Header f) = Z.of_nat (length (f_Payload f)) ∧
  (0 < max → h_Length (f_Header f) ≤ max).

#[export] Instance frame_ok_dec max f : Decision (frame_ok max f).
Proof. unfold frame_ok. apply _. Defined.

(** The abstract parser cuts off exactly the accepted frames. *)
Lemma spec_next_frame max f bs rest :
  spec_next max bs = (NextFrame f, rest) ↔ frame_ok max f ∧ bs = wire f ++ rest.
Proof.
  split.
  - unfold spec_next. intros E. case_decide as Hs; [done|].
    assert (HeaderSize ≤ length bs)%nat as Hh by lia.
    pose proof (parse_header_wf bs Hh) as Hwf. set (h := parse_header bs) in *.
    destruct (Validate h) eqn:Hv; [done|].
    destruct (_ && _) eqn:Hm; [done|]. case_decide as Hlen; [done|].
    assert (0 ≤ h_Length h) as HL by apply Hwf.
    apply pair_eq in E as [<-%(inj NextFrame) <-]. split.
    + split_and!; cbn [f_Header f_Payload]; try done; [|lia].
      rewrite length_slice; lia.
    + unfold wire, frame_bytes. cbn [f_Header f_Payload]. unfold h. rewrite header_bytes_parse by done.
      unfold slice. rewrite <- app_assoc, <- drop_drop.
      by rewrite take_drop, take_drop.
  - intros [(Hwf & Hv & HL & Hmax) ->]. unfold spec_next, wire, frame_bytes.
    rewrite <- app_assoc. rewrite decide_False by len.
    rewrite parse_header_bytes by done. rewrite Hv.
    destruct (_ && _) eqn:Hm; [exfalso; lia|]. rewrite HL, Nat2Z.id.
    rewrite decide_False by len. destruct f as [h p]. cbn [f_Header f_Payload] in *.
    rewrite <- (length_header_bytes h). f_equal; [do 2 f_equal|].
    + rewrite <- (Nat.add_0_r (length (header_bytes h))), slice_skip_app. by apply slice_0_app.
    + rewrite drop_app_add. apply drop_app_length.
Qed.

Lemma length_wire f : length (wire f) = (HeaderSize + length (f_Payload f))%nat.
Proof. unfold wire. by rewrite length_frame_bytes. Qed.
#[export] Hint Rewrite length_wire : t2d.

(** Running the parser to the end of the input: the frames, the bytes left, and
    the error it stopped at. *)
Inductive parses (max : Z) : list byte → list Frame → list byte → option protocol_error → Prop :=
| parses_none bs :
    spec_next max bs = (NextNone, bs) → parses max bs [] bs None
| parses_err bs e :
    spec_next max bs = (NextErr e, bs) → parses max bs [] bs (Some e)
| parses_frame bs f bs' fs rest o :
    spec_next max bs = (NextFrame f, bs') → parses max bs' fs rest o →
    parses max bs (f :: fs) rest o.

Lemma spec_next_rest max bs r rest :
  spec_next max bs = (r, rest) → (∀ f, r ≠ NextFrame f) → rest = bs.
Proof.
  unfold spec_next. intros E Hr.
  repeat case_match; simplify_eq; solve [done|by destruct (Hr _ eq_refl)].
Qed.

Lemma parses_wire max fs rest o fs' rest' :
  Forall (frame_ok max) fs → parses max rest fs' rest' o →
  parses max ((fs ≫= wire) ++ rest) (fs ++ fs') rest' o.
Proof.
  intros Hfs H. induction Hfs as [|f fs Hf Hfs IH]; [done|].
  cbn [mbind list_bind app]. rewrite <- app_assoc.
  eapply parses_frame; [by apply spec_next_frame|]. apply IH.
Qed.

(** The frames cut off are accepted ones and the input is their encoding. *)
Lemma parses_sound max bs fs rest o :
  parses max bs fs rest o → Forall (frame_ok max) fs ∧ bs = (fs ≫= wire) ++ rest.
Proof.
  induction 1 as [| |bs f bs' fs rest o Hf H [IH ->]]; [done..|].
  apply spec_next_frame in Hf as [? ->]. cbn [mbind list_bind]. rewrite <- app_assoc.
  by split; [constructor|].
Qed.

(** Every input has a run of the parser. *)
Lemma parses_total max bs : ∃ fs rest o, parses max bs fs rest o.
Proof.
  induction bs as [bs IH] using (induction_ltof1 _ (@length byte)). unfold ltof in IH.
  destruct (spec_next max bs) as [[e| |f] bs'] eqn:E.
  - rewrite (spec_next_rest _ _ _ _ E) in E by done. exists [], bs, (Some e). by constructor.
  - rewrite (spec_next_rest _ _ _ _ E) in E by done. exists [], bs, None. by constructor.
  - pose proof E as [_ ->]%spec_next_frame.
    destruct (IH bs') as (fs & rest & o & Hp); [rewrite length_app, length_wire; unfold HeaderSize; lia|]. exists (f :: fs), rest, o. by econstructor.
Qed.

(** Parsing in two pieces: what the first leaves is parsed in front of the second. *)
Lemma parses_app max bs1 bs2 fs1 rest fs2 rest2 o :
  parses max bs1 fs1 rest None → parses max (rest ++ bs2) fs2 rest2 o →
  parses max (bs1 ++ bs2) (fs1 ++ fs2) rest2 o.
Proof.
  intros H1 H2. apply parses_sound in H1 as [Hok ->]. rewrite <- app_assoc.
  by apply parses_wire.
Qed.

(** ** The reader's loops (client.handleDownstream)

    [drain] is the loop around [NextRef]: every complete frame is handed to
    [handle] through its view, until none is complete or one is malformed.
    [feed] is the loop around [conn.Read]: each chunk is written, accounted for
    with [on_read] and drained; a malformed frame empties the buffer. *)

Section Reader.
Context `{IntWidth} {St : Type}.
Variable grow : nat → nat → nat.
Variable handle : Frame → St → St.
Variable on_read : list byte → St → St.

Fixpoint drain (fuel : nat) (b : StreamBuffer) (s : St)
    : exec (StreamBuffer * St * option protocol_error) :=
  match fuel with
  | O => Ret (b, s, None)
  | S fuel =>
      r ← NextRef b;
      match r with
      | (b, NextErr e) => Ret (b, s, Some e)
      | (b, NextNone) => Ret (b, s, None)
      | (b, NextFrame f) => drain fuel b (handle (view_frame b f) s)
      end
  end.

(** Every frame is at least a header long, so the unread length bounds the
    number of frames: this fuel is enough. *)
Definition drain_all (b : StreamBuffer) (s : St) := drain (S (Len b)) b s.

Fixpoint feed (b : StreamBuffer) (s : St) (chunks : list (list byte))
    : exec (StreamBuffer * St) :=
  match chunks with
  | [] => Ret (b, s)
  | chunk :: chunks =>
      let b := StreamWrite grow b chunk in
      let s := on_read chunk s in
      r ← drain_all b s;
      let '(b, s, err) := r in
      let b := match err with Some _ => StreamReset b | None => b end in
      feed b s chunks
  end.

Definition handle_all (fs : list Frame) (s : St) : St := foldl (λ s f, handle f s) s fs.

(** With enough fuel the loop parses to the end: it stops for lack of a complete
    frame or at a malformed one, having handled every frame before that. *)
Lemma drain_parses fuel b s :
  int_bits = 64 → sb_inv b → (Len b < fuel)%nat →
  ∃ b' fs o, drain fuel b s = Ret (b', handle_all fs s, o) ∧ sb_inv b' ∧
    parses (sb_maxPayload b) (pending b) fs (pending b') o ∧
    sb_maxPayload b' = sb_maxPayload b ∧ (sb_len b' ≤ sb_len b)%nat.
Proof.
  intros H64. revert b s. induction fuel as [|fuel IH]; intros b s Hinv Hfuel; [lia|].
  destruct (NextRef_refines b Hinv (or_introl H64))
    as (b1 & r & E & Hinv1 & Hspec & Harr & Hmax & Hlen).
  cbn [drain]. rewrite E. cbn [mbind exec_bind]. rewrite <- Hmax in *.
  pose proof (length_pending b Hinv) as Hp. pose proof (length_pending b1 Hinv1) as Hp1.
  destruct r as [e| |f]; cbn [fmap next_result_fmap] in Hspec.
  - pose proof (spec_next_rest _ _ _ _ Hspec ltac:(done)) as Heq.
    exists b1, [], (Some e). rewrite Heq in *. split_and!; try done. by constructor.
  - pose proof (spec_next_rest _ _ _ _ Hspec ltac:(done)) as Heq.
    exists b1, [], None. rewrite Heq in *. split_and!; try done. by constructor.
  - pose proof (proj1 (spec_next_frame _ _ _ _) Hspec) as [_ Hbs].
    assert (Len b1 < fuel)%nat as Hf.
    { apply (f_equal length) in Hbs. rewrite length_app, length_wire in Hbs. unfold HeaderSize in *. lia. }
    destruct (IH b1 (handle (view_frame b1 f) s) Hinv1 Hf) as (b' & fs & o & -> & ? & ? & ? & ?).
    exists b', (view_frame b1 f :: fs), o. split_and!; try done; [|lia].
    by eapply parses_frame.
Qed.

Lemma feed_app b s cs1 cs2 :
  feed b s (cs1 ++ cs2) = feed b s cs1 ≫= λ r, feed (fst r) (snd r) cs2.
Proof.
  revert b s. induction cs1 as [|c cs1 IH]; intros b s; [done|]. cbn [feed app].
  destruct (drain_all _ _) as [[[b1 s1] o]|]; [|done]. apply IH.
Qed.
End Reader.

(** ** Reassembly *)

(** A malformed header stays malformed whatever bytes follow. *)
Lemma spec_next_err_app max bs x e rest :
  spec_next max bs = (NextErr e, rest) → spec_next max (bs ++ x) = (NextErr e, rest ++ x).
Proof.
  unfold spec_next. intros E. case_decide as Hs; [done|].
  rewrite decide_False by len. rewrite parse_header_app by lia.
  repeat case_match; naive_solver.
Qed.

Lemma parses_wire_inv max fs y fs' rest o :
  Forall (frame_ok max) fs → parses max ((fs ≫= wire) ++ y) fs' rest o →
  ∃ fs2, fs' = fs ++ fs2 ∧ parses max y fs2 rest o.
Proof.
  intros Hfs. revert fs'. induction Hfs as [|f fs Hf Hfs IH]; intros fs' H; [by exists fs'|].
  cbn [mbind list_bind] in H. rewrite <- app_assoc in H.
  pose proof (proj2 (spec_next_frame max f _ ((fs ≫= wire) ++ y)) (conj Hf eq_refl)) as E.
  inversion H as [? E'|? ? E'|? f' ? fs1 ? ? E' H']; subst; rewrite E in E'; try done.
  simplify_eq. destruct (IH _ H') as (fs2 & -> & ?). by exists fs2.
Qed.

(** When the whole input parses without error, so does every prefix, and the
    rest of the frames come out of what the prefix leaves and the suffix. *)
Lemma parses_prefix max bs x fs1 r1 o1 fs rest :
  parses max bs fs1 r1 o1 → parses max (bs ++ x) fs rest None →
  o1 = None ∧ ∃ fs2, fs = fs1 ++ fs2 ∧ parses max (r1 ++ x) fs2 rest None.
Proof.
  intros H1 H. pose proof (parses_sound _ _ _ _ _ H1) as [Hok ->].
  rewrite <- app_assoc in H. destruct (parses_wire_inv _ _ _ _ _ _ Hok H) as (fs2 & -> & H2).
  split; [|by eauto]. destruct o1 as [e|]; [|done]. exfalso.
  destruct (parses_wire_inv _ _ _ _ _ _ Hok H1) as (fs0 & Hfs0 & H0).
  assert (fs0 = []) as -> by (by apply (app_inv_head fs1); rewrite app_nil_r).
  inversion H0 as [|? ? E|]; subst. apply (spec_next_err_app _ _ x) in E.
  inversion H2 as [? E'|? ? E'|? ? ? ? ? ? E' ?]; subst; rewrite E in E'; done.
Qed.

Lemma parses_stuck max bs fs rest :
  parses max bs fs rest None → spec_next max rest = (NextNone, rest).
Proof. remember None as o eqn:Ho. induction 1; naive_solver. Qed.

Lemma parses_stuck_inv max bs fs rest o :
  spec_next max bs = (NextNone, bs) → parses max bs fs rest o → fs = [] ∧ rest = bs ∧ o = None.
Proof. intros E. inversion 1; simplify_eq; try done; congruence. Qed.

Section Reassembly.
Context `{IntWidth} {St : Type}.
Variable grow : nat → nat → nat.
Variable handle : Frame → St → St.
Variable on_read : list byte → St → St.

(** The state after reading [chunks] when chunk [i] completed the frames
    [fss !! i]. *)
Definition read_all (cs : list (list byte * list Frame)) (s : St) : St :=
  foldl (λ s c, handle_all handle (snd c) (on_read (fst c) s)) s cs.

Lemma feed_parses b s chunks fs rest :
  int_bits = 64 → sb_inv b →
  Z.of_nat (sb_len b + length (concat chunks)) < 2 ^ (int_bits - 1) →
  parses (sb_maxPayload b) (pending b ++ concat chunks) fs rest None →
  spec_next (sb_maxPayload b) (pending b) = (NextNone, pending b) →
  ∃ b' fss, feed grow handle on_read b s chunks = Ret (b', read_all (zip chunks fss) s) ∧
    concat fss = fs ∧ length fss = length chunks ∧ pending b' = rest ∧ sb_inv b'.
Proof.
  intros H64. revert b s fs.
  induction chunks as [|c cs IH]; intros b s fs Hinv Hlen Hp Hstuck.
  { cbn in Hp. rewrite app_nil_r in Hp. exists b, [].
    destruct (parses_stuck_inv _ _ _ _ _ Hstuck Hp) as (->&->&_). done. }
  cbn [concat] in *. rewrite length_app in Hlen.
  destruct (StreamWrite_spec grow b c Hinv) as (Hw & Hpw & Hmw & Hlw); [lia|].
  set (b1 := StreamWrite grow b c) in *.
  destruct (drain_parses handle (S (Len b1)) b1 (on_read c s) H64 Hw) as
    (b2 & fs1 & o & Hd & Hinv2 & Hp1 & Hm2 & Hl2); [lia|].
  cbn [feed]. fold b1. unfold drain_all. rewrite Hd. cbn [mbind exec_bind].
  rewrite app_assoc, <- Hpw, <- Hmw in Hp.
  destruct (parses_prefix _ _ _ _ _ _ _ _ Hp1 Hp) as (-> & fs2 & -> & Hp2).
  rewrite <- Hm2 in Hp1, Hp2.
  destruct (IH b2 (handle_all handle fs1 (on_read c s)) fs2) as (b' & fss & -> & <- & Hl & Hr & ?);
    [done|lia|done|by eapply parses_stuck|].
  exists b', (fs1 :: fss). split_and!; try done. simpl. by rewrite Hl.
Qed.
End Reassembly.

(** ** Arbitrary input *)

(** What a stuck parser leaves unread is less than one frame of maximal size. *)
Lemma stuck_bounded max bs :
  0 < max → spec_next max bs = (NextNone, bs) → Z.of_nat (length bs) < Z.of_nat HeaderSize + max.
Proof.
  unfold spec_next. intros Hmax E. case_decide as Hs; [lia|].
  assert (0 ≤ h_Length (parse_header bs)) by (apply (parse_header_wf bs); lia).
  destruct (Validate _); [done|]. destruct (_ && _) eqn:Hm; [done|].
  case_decide; [lia|done].
Qed.

Section Robust.
Context `{IntWidth} {St : Type}.
Variable grow : nat → nat → nat.
Variable handle : Frame → St → St.
Variable on_read : list byte → St → St.

Lemma feed_total b s chunks :
  int_bits = 64 → sb_inv b →
  Z.of_nat (sb_len b + length (concat chunks)) < 2 ^ (int_bits - 1) →
  0 < sb_maxPayload b → Z.of_nat (Len b) < Z.of_nat HeaderSize + sb_maxPayload b →
  ∃ b' s', feed grow handle on_read b s chunks = Ret (b', s') ∧ sb_inv b' ∧
    sb_maxPayload b' = sb_maxPayload b ∧ (sb_len b' ≤ sb_len b + length (concat chunks))%nat ∧
    Z.of_nat (Len b') < Z.of_nat HeaderSize + sb_maxPayload b.
Proof.
  intros H64. revert b s. induction chunks as [|c cs IH]; intros b s Hinv Hlen Hmax Hb.
  { exists b, s. cbn. split_and!; try done. lia. }
  cbn [concat] in Hlen. rewrite length_app in Hlen.
  destruct (StreamWrite_spec grow b c Hinv) as (Hw & Hpw & Hmw & Hlw); [lia|].
  set (b1 := StreamWrite grow b c) in *.
  destruct (drain_parses handle (S (Len b1)) b1 (on_read c s) H64 Hw) as
    (b2 & fs1 & o & Hd & Hinv2 & Hp1 & Hm2 & Hl2); [lia|].
  cbn [feed]. fold b1. unfold drain_all. rewrite Hd. cbn [mbind exec_bind].
  rewrite <- Hmw, <- Hm2. rewrite <- Hmw, <- Hm2 in Hmax.
  cbn [concat]. rewrite length_app. destruct o as [e|].
  - change (sb_maxPayload b2) with (sb_maxPayload (StreamReset b2)) in *.
    destruct (IH (StreamReset b2) (handle_all handle fs1 (on_read c s)))
      as (b' & s' & -> & ? & ? & Hl' & ?); [by apply StreamReset_spec|simpl; lia|done| |].
    { unfold Len, HeaderSize; simpl in *. lia. }
    exists b', s'. simpl in Hl'. split_and!; try done. lia.
  - destruct (IH b2 (handle_all handle fs1 (on_read c s)))
      as (b' & s' & -> & ? & ? & ? & ?); [done|lia|done| |].
    { rewrite <- (length_pending b2 Hinv2).
      apply stuck_bounded; [done|]. rewrite <- Hm2 in Hp1. by eapply parses_stuck. }
    exists b', s'. split_and!; try done. lia.
Qed.
End Robust.

(** On 32-bit targets a length of [2^31] or more is a negative [int]: it passes
    the limit, makes the end of the payload precede its start, and the slice
    expression panics. *)
Lemma NextRef_32 `{IntWidth} b :
  int_bits = 32 → sb_inv b → 0 < sb_maxPayload b < 2 ^ 30 →
  (HeaderSize ≤ Len b)%nat → Validate (parse_header (pending b)) = None →
  2 ^ 31 ≤ h_Length (parse_header (pending b)) → NextRef b = Panic.
Proof.
  intros H32 Hinv Hmax Hlen Hv Hbig. pose proof (length_pending b Hinv) as Hp.
  assert (HeaderSize ≤ length (pending b))%nat as Hh by lia.
  unfold NextRef. rewrite decide_False by lia.
  change (slice (sb_off b) HeaderSize (sb_buf b)) with (take HeaderSize (pending b)).
  rewrite Unmarshal_parse by len. rewrite parse_header_take, Hv by done.
  assert (in_word 32 (h_Length (parse_header (pending b)))) as [_ HL] by apply (parse_header_wf _ Hh).
  set (L := h_Length (parse_header (pending b))) in *.
  destruct Hinv as (Ho & Hl & Hc). unfold Len, HeaderSize in *.
  assert (∀ z, - 2 ^ 31 ≤ z < 2 ^ 31 → go_int z = z) as Hid.
  { intros z Hz. by apply go_int_small. }
  assert (go_int L = L - 2 ^ 32) as ->.
  { unfold go_int, swrap. rewrite H32. simpl.
    replace (L + 2 ^ (32 - 1)) with ((L - 2 ^ 31) + 1 * 2 ^ 32) by lia.
    rewrite Z.mod_add by lia. rewrite Z.mod_small by lia. lia. }
  rewrite H32 in Hc. rewrite !Hid by lia.
  rewrite (proj2 (Z.ltb_ge (sb_maxPayload b) _)), andb_false_r by lia.
  rewrite (proj2 (Z.ltb_ge _ _)) by lia.
  unfold slice_ok. by rewrite (proj2 (Z.leb_gt (_ + Z.of_nat 20) _)), andb_false_r by lia.
Qed.

#[export] Instance sb_inv_dec `{IntWidth} b : Decision (sb_inv b).
Proof. unfold sb_inv. apply _. Defined.

(** A buffer holding [bs], for the witnesses. *)
Definition sample_buffer (max : Z) (bs : list byte) : StreamBuffer :=
  StreamWrite (λ _ n, n) (NewStreamBuffer 16 max) bs.

Definition sample_frame (sid : Z) (payload : list byte) : Frame :=
  mkFrame (NewDataPacket sid 1 (Z.of_nat (length payload))) payload.

(** Collecting the handled frames. *)
Lemma handle_all_collect fs (acc : list Frame) :
  handle_all (λ f acc, acc ++ [f]) fs acc = acc ++ fs.
Proof.
  revert acc. induction fs as [|f fs IH]; intros acc; [by rewrite app_nil_r|].
  change (handle_all (λ f acc, acc ++ [f]) fs (acc ++ [f]) = acc ++ f :: fs).
  by rewrite IH, <- app_assoc.
Qed.

Lemma read_all_collect (chunks : list (list byte)) fss (acc : list Frame) :
  length fss = length chunks →
  read_all (λ f acc, acc ++ [f]) (λ _ acc, acc) (zip chunks fss) acc = acc ++ concat fss.
Proof.
  revert chunks acc. induction fss as [|fs fss IH]; intros [|c cs] acc Hl; try done.
  { by rewrite app_nil_r. }
  change (read_all (λ f acc, acc ++ [f]) (λ _ acc, acc) (zip cs fss)
    (handle_all (λ f acc, acc ++ [f]) fs acc) = acc ++ fs ++ concat fss).
  rewrite handle_all_collect, app_assoc. apply IH. simpl in Hl. lia.
Qed.

(** What every handler and every read preserve holds at the end, whatever the
    bytes were. *)
Section ReadInvariant.
Context `{IntWidth} {St : Type}.
Variable grow : nat → nat → nat.
Variable handle : Frame → St → St.
Variable on_read : list byte → St → St.
Variable Inv : St → Prop.
Hypothesis handle_inv : ∀ f s, Inv s → Inv (handle f s).
Hypothesis on_read_inv : ∀ c s, Inv s → Inv (on_read c s).

Lemma drain_invariant fuel b s b' s' o : drain handle fuel b s = Ret (b', s', o) → Inv s → Inv s'.
Proof.
  revert b s. induction fuel as [|fuel IH]; intros b s; cbn [drain]; [by intros [= _ <- _]|].
  destruct (NextRef b) as [[b1 [e| |f]]|]; cbn [mbind exec_bind]; try done.
  - by intros [= _ <- _].
  - by intros [= _ <- _].
  - intros E Hi. eapply IH; [exact E|]. by apply handle_inv.
Qed.

Lemma feed_invariant b s chunks b' s' :
  feed grow handle on_read b s chunks = Ret (b', s') → Inv s → Inv s'.
Proof.
  revert b s. induction chunks as [|c cs IH]; intros b s; cbn [feed]; [by intros [= _ <-]|].
  unfold drain_all. destruct (drain _ _ _ _) as [[[b1 s1] o]|] eqn:Ed; cbn [mbind exec_bind]; [|done].
  intros E Hi. eapply IH; [exact E|]. eapply drain_invariant; [exact Ed|]. by apply on_read_inv.
Qed.
End ReadInvariant.

(** A reader whose handler appends [g f] to a log for every frame [f], as long as
    an invariant holds: the log of a run is that of the frames in order, however
    they were cut into reads. *)
Section ReadLog.
Context {St X : Type}.
Variable handle : Frame → St → St.
Variable on_read : list byte → St → St.
Variable Inv : St → Prop.
Variable log : St → list X.
Variable g : Frame → list X.
Hypothesis handle_log : ∀ f s, Inv s → Inv (handle f s) ∧ log (handle f s) = log s ++ g f.
Hypothesis on_read_log : ∀ c s, Inv s → Inv (on_read c s) ∧ log (on_read c s) = log s.

Lemma handle_all_log fs s :
  Inv s → Inv (handle_all handle fs s) ∧ log (handle_all handle fs s) = log s ++ (fs ≫= g).
Proof.
  revert s. induction fs as [|f fs IH]; intros s Hi; [cbn; by rewrite app_nil_r|].
  destruct (handle_log f s Hi) as [Hi' Hl].
  change (Inv (handle_all handle fs (handle f s)) ∧
    log (handle_all handle fs (handle f s)) = log s ++ g f ++ (fs ≫= g)).
  destruct (IH _ Hi') as [? ->]. by rewrite Hl, app_assoc.
Qed.

Lemma read_all_log (chunks : list (list byte)) fss s :
  length fss = length chunks → Inv s →
  Inv (read_all handle on_read (zip chunks fss) s) ∧
  log (read_all handle on_read (zip chunks fss) s) = log s ++ (concat fss ≫= g).
Proof.
  revert chunks s. induction fss as [|fs fss IH]; intros [|c cs] s Hl Hi; try done.
  { cbn. by rewrite app_nil_r. }
  destruct (on_read_log c s Hi) as [Hi1 Hl1]. destruct (handle_all_log fs _ Hi1) as [Hi2 Hl2].
  change (Inv (read_all handle on_read (zip cs fss) (handle_all handle fs (on_read c s))) ∧
    log (read_all handle on_read (zip cs fss) (handle_all handle fs (on_read c s))) =
    log s ++ ((fs ++ concat fss) ≫= g)).
  destruct (IH cs _ ltac:(cbn in Hl; lia) Hi2) as [? ->].
  by rewrite Hl2, Hl1, bind_app, app_assoc.
Qed.
End ReadLog.

(** ** Theorems *)

(** C9: [NextRef] and [Next] implement the abstract parser. On a 64-bit target
    and a well-formed buffer neither panics; the result and the unread bytes
    afterwards are those of [spec_next] on the unread bytes before, for a frame,
    an incomplete frame and every kind of malformed header alike. The view
    [NextRef] returns still denotes the payload after the call, even when the
    call has reset the buffer, and [Next] returns a copy of it. *)
Theorem NextRef_refinement `{IntWidth} b :
  int_bits = 64 → sb_inv b →
  ∃ b' r, NextRef b = Ret (b', r) ∧ Next b = Ret (b', view_frame b' <$> r) ∧
    spec_next (sb_maxPayload b) (pending b) = (view_frame b' <$> r, pending b') ∧
    sb_inv b' ∧ sb_arr b' = sb_arr b.
Proof.
  intros H64 Hinv.
  destruct (NextRef_refines b Hinv (or_introl H64)) as (b' & r & E & ? & ? & ? & ?).
  exists b', r. unfold Next. rewrite E. split_and!; try done. by destruct r.
Qed.

Lemma NextRef_refinement_witness :
  ∃ b' r, @NextRef int64_target (sample_buffer 1024 (wire (sample_frame 7 [x01; x02]))) = Ret (b', r) ∧
    view_frame b' <$> r = NextFrame (sample_frame 7 [x01; x02]).
Proof.
  assert (@sb_inv int64_target (sample_buffer 1024 (wire (sample_frame 7 [x01; x02])))) as Hinv
    by by_compute.
  destruct (@NextRef_refinement int64_target (sample_buffer 1024 (wire (sample_frame 7 [x01; x02])))
    eq_refl Hinv) as (b' & r & E & _ & Hs & _).
  exists b', r. split; [exact E|]. apply (f_equal fst) in Hs. simpl in Hs. rewrite <- Hs.
  vm_compute. reflexivity.
Defined.

(** C1: reassembly. Whatever way TCP cuts the encoding of a sequence of accepted
    frames into reads, whatever the initial capacity and the growth policy of
    [append], the reader handles exactly these frames, in order, with their
    payloads intact, and ends with an empty buffer. *)
Theorem stream_reassembly `{IntWidth} (grow : nat → nat → nat) capacity max fs chunks :
  int_bits = 64 → Forall (frame_ok max) fs → concat chunks = fs ≫= wire →
  Z.of_nat (length (concat chunks)) < 2 ^ 63 →
  ∃ b', feed grow (λ f acc, acc ++ [f]) (λ _ acc, acc)
          (NewStreamBuffer capacity max) [] chunks = Ret (b', fs) ∧ pending b' = [].
Proof.
  intros H64 Hok Hcat Hlen.
  destruct (NewStreamBuffer_spec capacity max) as (Hinv & Hp & Hm & _).
  destruct (feed_parses grow (λ f acc, acc ++ [f]) (λ _ acc, acc) (NewStreamBuffer capacity max)
    [] chunks fs []) as (b' & fss & -> & <- & Hl & ? & ?); try done.
  - rewrite H64. simpl. lia.
  - rewrite Hp, Hm, Hcat. cbn [app].
    pose proof (parses_wire max fs [] None [] [] Hok (parses_none max [] eq_refl)) as Hw.
    by rewrite !app_nil_r in Hw.
  - exists b'. split; [|done]. by rewrite read_all_collect.
Qed.

Lemma stream_reassembly_witness :
  ∃ b', @feed int64_target _ (λ _ n, n) (λ f acc, acc ++ [f]) (λ _ acc, acc)
    (NewStreamBuffer 64 1024) []
    [take 10 ([sample_frame 1 [x66]; sample_frame 2 [x73; x74]] ≫= wire);
     drop 10 ([sample_frame 1 [x66]; sample_frame 2 [x73; x74]] ≫= wire)] =
    Ret (b', [sample_frame 1 [x66]; sample_frame 2 [x73; x74]]) ∧ pending b' = [].
Proof.
  apply (@stream_reassembly int64_target (λ _ n, n) 64 1024).
  - reflexivity.
  - by_compute.
  - vm_compute. reflexivity.
  - vm_compute. reflexivity.
Defined.

(** Arbitrary input. Whatever bytes arrive and however they are cut, on a
    64-bit target the reader never panics, and when a limit is set, the bytes it
    keeps between reads are fewer than one header and one maximal payload. *)
Theorem reader_robust `{IntWidth} {St} (grow : nat → nat → nat) (handle : Frame → St → St)
    (on_read : list byte → St → St) capacity max (s : St) chunks :
  int_bits = 64 → 0 < max → Z.of_nat (length (concat chunks)) < 2 ^ 63 →
  ∃ b' s', feed grow handle on_read (NewStreamBuffer capacity max) s chunks = Ret (b', s') ∧
    Z.of_nat (length (pending b')) < Z.of_nat HeaderSize + max.
Proof.
  intros H64 Hmax Hlen.
  destruct (NewStreamBuffer_spec capacity max) as (Hinv & Hp & Hm & _).
  destruct (feed_total grow handle on_read (NewStreamBuffer capacity max) s chunks)
    as (b' & s' & E & Hinv' & _ & _ & Hb); try done.
  - rewrite H64. simpl. lia.
  - unfold Len, HeaderSize; simpl. lia.
  - exists b', s'. by rewrite length_pending.
Qed.

Lemma reader_robust_witness :
  ∃ b' s', @feed int64_target nat (λ _ n, n) (λ _, S) (λ _ s, s) (NewStreamBuffer 64 16) 0%nat
    [replicate 30 xff; replicate 7 x00] = Ret (b', s') ∧
    Z.of_nat (length (pending b')) < Z.of_nat HeaderSize + 16.
Proof. apply (@reader_robust int64_target); [reflexivity|lia|vm_compute; reflexivity]. Defined.

(** On a 32-bit target a single header is enough to crash the reader. When
    the buffer holds a complete valid header whose length field is [2^31] or
    more, [NextRef] panics, although a limit on the payload is set; on a 64-bit
    target the same buffer yields the size error. *)
Theorem NextRef_panics_on_32bit (b : StreamBuffer) :
  0 < sb_maxPayload b < 2 ^ 30 →
  @sb_inv int32_target b → (HeaderSize ≤ Len b)%nat →
  Validate (parse_header (pending b)) = None →
  2 ^ 31 ≤ h_Length (parse_header (pending b)) →
  @NextRef int32_target b = Panic ∧
  @NextRef int64_target b =
    Ret (b, NextErr (ErrPayloadTooLarge (h_Length (parse_header (pending b))) (sb_maxPayload b))).
Proof.
  intros Hmax Hinv Hlen Hv Hbig. split; [by apply NextRef_32|].
  assert (@sb_inv int64_target b) as Hinv64.
  { destruct Hinv as (?&?&Hc). split_and!; try done. simpl in *. lia. }
  pose proof (length_pending b Hinv64) as Hp.
  unfold NextRef. rewrite decide_False by lia.
  change (slice (sb_off b) HeaderSize (sb_buf b)) with (take HeaderSize (pending b)).
  rewrite Unmarshal_parse by len. rewrite parse_header_take, Hv by lia.
  assert (in_word 32 (h_Length (parse_header (pending b)))) as [_ HL].
  { apply (parse_header_wf (pending b)). lia. }
  rewrite (go_int_64 (h_Length _)) by (simpl; lia).
  by rewrite (proj2 (Z.ltb_lt 0 _)), (proj2 (Z.ltb_lt (sb_maxPayload b) _)) by lia.
Qed.

Lemma NextRef_panics_on_32bit_witness :
  @NextRef int32_target (sample_buffer 2048 (header_bytes (NewDataPacket 1 1 0xFFFFFFFF))) = Panic.
Proof.
  apply (NextRef_panics_on_32bit (sample_buffer 2048 (header_bytes (NewDataPacket 1 1 0xFFFFFFFF)))).
  - split; reflexivity.
  - by_compute.
  - by_compute.
  - vm_compute. reflexivity.
  - vm_compute. discriminate.
Defined.
