(* ===== verification/Ring.v ===== *)
(** * The upstream ring (internal/client/upstream_ring.go)

    A single-producer single-consumer ring of pre-allocated packets between the
    goroutine that reads UDP ([handleUDP]) and the one that writes a lane's TCP
    connection ([handleUpstreamWrites]). The counters [tail], [freeHead] and
    [readHead] are [uint64]s that only grow and wrap; a slot index is a counter
    masked with the capacity minus one.

    The first part gives each operation as a function on the ring. The spinning
    operations [acquire] and [pop] are given by one turn of their loop, with an
    outcome that says whether the loop returns or spins. The second part is the
    interleaving of the two goroutines at the granularity of the atomic loads and
    stores, as a step relation, with the invariant that makes the ring a queue. *)

From S2P Require Import Prelude.
From S2P Require Import Words.

(** ** Data *)

(** [data] is always a prefix [buf[:n]] of the packet's own buffer, so it is
    represented by its length. *)
Record upstreamPacket := mkPacket {
  p_buf : list byte;
  p_data_len : nat
}.

Definition p_data (p : upstreamPacket) : list byte := take (p_data_len p) (p_buf p).

(** [p.data = p.data[:0]]. *)
Definition truncate (p : upstreamPacket) : upstreamPacket :=
  {| p_buf := p_buf p; p_data_len := 0 |}.

Record upstreamRing := mkRing {
  slots : list upstreamPacket;
  mask : Z;
  capacity : Z;
  tail : Z;
  freeHead : Z;
  closed : bool;
  readHead : Z
}.

Definition set_slots (r : upstreamRing) (s : list upstreamPacket) : upstreamRing :=
  mkRing s (mask r) (capacity r) (tail r) (freeHead r) (closed r) (readHead r).
Definition set_tail (r : upstreamRing) (t : Z) : upstreamRing :=
  mkRing (slots r) (mask r) (capacity r) t (freeHead r) (closed r) (readHead r).
Definition set_freeHead (r : upstreamRing) (f : Z) : upstreamRing :=
  mkRing (slots r) (mask r) (capacity r) (tail r) f (closed r) (readHead r).
Definition set_closed (r : upstreamRing) (c : bool) : upstreamRing :=
  mkRing (slots r) (mask r) (capacity r) (tail r) (freeHead r) c (readHead r).
Definition set_readHead (r : upstreamRing) (h : Z) : upstreamRing :=
  mkRing (slots r) (mask r) (capacity r) (tail r) (freeHead r) (closed r) h.

(** A packet pointer is the index of its slot: [slots] is never reassigned. *)
Definition upd_slot (r : upstreamRing) (i : nat) (f : upstreamPacket → upstreamPacket) : upstreamRing :=
  set_slots r (alter f i (slots r)).

(** ** Operations *)

(** [nextPowerOfTwo]: the loop [for p < n { p <<= 1 }], with fuel. *)
Fixpoint nextPowerOfTwo_loop `{IntWidth} (fuel : nat) (p n : Z) : option Z :=
  match fuel with
  | O => None
  | S fuel => if p <? n then nextPowerOfTwo_loop fuel (go_int (Z.shiftl p 1)) n else Some p
  end.

Definition nextPowerOfTwo `{IntWidth} (n : Z) : option Z := nextPowerOfTwo_loop 64 1 n.

Definition newUpstreamRing `{IntWidth} (cap : Z) (packetSize : nat) : option upstreamRing :=
  let cap := if cap <=? 0 then 1 else cap in
  cap ← nextPowerOfTwo cap;
  Some {| slots := replicate (Z.to_nat cap) (mkPacket (replicate packetSize x00) 0);
          mask := u64 (cap - 1); capacity := u64 cap;
          tail := 0; freeHead := 0; closed := false; readHead := 0 |}.

(** The slot of a counter: [slots[c & mask]]. *)
Definition slot_of (r : upstreamRing) (c : Z) : nat := Z.to_nat (Z.land c (mask r)).

(** One turn of a spinning loop: it returns nil, returns a packet, or waits. *)
Inductive turn :=
| TurnNil
| TurnPacket (i : nat)
| TurnWait.

Definition acquire (r : upstreamRing) : turn * upstreamRing :=
  if closed r then (TurnNil, r)
  else if u64 (tail r - freeHead r) <? capacity r
  then let i := slot_of r (tail r) in (TurnPacket i, upd_slot r i truncate)
  else (TurnWait, r).

Definition submit (r : upstreamRing) (p : option nat) : bool * upstreamRing :=
  match p with
  | None => (false, r)
  | Some _ => if closed r then (false, r) else (true, set_tail r (u64 (tail r + 1)))
  end.

Definition take_next (r : upstreamRing) : nat * upstreamRing :=
  (slot_of r (readHead r), set_readHead r (u64 (readHead r + 1))).

Definition pop (r : upstreamRing) : turn * upstreamRing :=
  if negb (readHead r =? tail r)
  then let '(i, r) := take_next r in (TurnPacket i, r)
  else if closed r then (TurnNil, r) else (TurnWait, r).

Definition tryPop (r : upstreamRing) : option nat * upstreamRing :=
  if readHead r =? tail r then (None, r)
  else let '(i, r) := take_next r in (Some i, r).

Definition release (r : upstreamRing) (p : option nat) : upstreamRing :=
  match p with
  | None => r
  | Some i => let r := upd_slot r i truncate in set_freeHead r (u64 (freeHead r + 1))
  end.

Definition discard (r : upstreamRing) (p : option nat) : upstreamRing :=
  match p with None => r | Some i => upd_slot r i truncate end.

Definition close (r : upstreamRing) : upstreamRing := set_closed r true.

Definition inflight (r : upstreamRing) : Z :=
  let n := u64 (tail r - freeHead r) in
  if capacity r <? n then capacity r else n.

(** ** The capacity *)

(** A ring whose capacity is a power of two that counters wrap around evenly. *)
Definition ring_wf (r : upstreamRing) : Prop :=
  ∃ k : nat, (k ≤ 62)%nat ∧ capacity r = 2 ^ Z.of_nat k ∧ mask r = 2 ^ Z.of_nat k - 1 ∧
    Z.of_nat (length (slots r)) = 2 ^ Z.of_nat k.

Lemma nextPowerOfTwo_loop_spec `{IntWidth} fuel (i : nat) n :
  n ≤ 2 ^ (int_bits - 2) → (64 ≤ i + fuel)%nat → (Z.of_nat i ≤ int_bits - 2) →
  (i = 0%nat ∨ 2 ^ (Z.of_nat i - 1) < n) → (0 < fuel)%nat →
  ∃ k : nat, nextPowerOfTwo_loop fuel (2 ^ Z.of_nat i) n = Some (2 ^ Z.of_nat k) ∧
    n ≤ 2 ^ Z.of_nat k ∧ (k = 0%nat ∨ 2 ^ (Z.of_nat k - 1) < n) ∧ Z.of_nat k ≤ int_bits - 2.
Proof.
  intros Hn. revert i. induction fuel as [|fuel IH]; intros i Hf Hi Hlow Hpos; [lia|].
  cbn [nextPowerOfTwo_loop]. destruct (Z.ltb_spec (2 ^ Z.of_nat i) n) as [Hlt|Hge];
    [|by exists i].
  assert (Z.of_nat i < int_bits - 2) as Hi'.
  { destruct (decide (Z.of_nat i = int_bits - 2)) as [E|]; [|lia]. rewrite E in Hlt. lia. }
  rewrite Z.shiftl_mul_pow2 by lia. change (2 ^ 1) with 2.
  replace (2 ^ Z.of_nat i * 2) with (2 ^ Z.of_nat (S i)).
  2: { rewrite Nat2Z.inj_succ, Z.pow_succ_r by lia. lia. }
  rewrite go_int_range.
  2: { split; [lia|]. apply Z.pow_lt_mono_r; lia. }
  apply IH; try lia.
  - right. replace (Z.of_nat (S i) - 1) with (Z.of_nat i) by lia. done.
  - destruct int_bits_cases; lia.
Qed.

(** The loop terminates on every capacity up to a quarter of the [int] range,
    with the least power of two that is large enough. *)
Lemma nextPowerOfTwo_spec `{IntWidth} n :
  n ≤ 2 ^ (int_bits - 2) →
  ∃ k : nat, nextPowerOfTwo n = Some (2 ^ Z.of_nat k) ∧ n ≤ 2 ^ Z.of_nat k ∧
    (k = 0%nat ∨ 2 ^ (Z.of_nat k - 1) < n) ∧ Z.of_nat k ≤ int_bits - 2.
Proof.
  intros Hn. apply (nextPowerOfTwo_loop_spec 64 0 n); try lia.
  destruct int_bits_cases; lia.
Qed.

Lemma newUpstreamRing_spec `{IntWidth} cap packetSize :
  cap ≤ 2 ^ (int_bits - 2) →
  ∃ r, newUpstreamRing cap packetSize = Some r ∧ ring_wf r ∧
    cap ≤ capacity r ∧ capacity r < 2 * Z.max 1 cap ∧
    tail r = 0 ∧ freeHead r = 0 ∧ readHead r = 0 ∧ closed r = false ∧
    Forall (λ p, length (p_buf p) = packetSize) (slots r).
Proof.
  intros Hc. unfold newUpstreamRing.
  set (n := if cap <=? 0 then 1 else cap).
  assert (1 ≤ n ∧ n = Z.max 1 cap ∧ n ≤ 2 ^ (int_bits - 2)) as (H1 & Hcn & Hn).
  { unfold n. destruct (Z.leb_spec cap 0); [|lia].
    destruct int_bits_cases as [E|E]; rewrite E in *; simpl in *; lia. }
  destruct (nextPowerOfTwo_spec n Hn) as (k & -> & Hk & Hlow & Hb).
  assert (Z.of_nat k ≤ 62) by (destruct int_bits_cases; lia).
  assert (2 ^ Z.of_nat k ≤ 2 ^ 62) by (apply Z.pow_le_mono_r; lia).
  assert (0 < 2 ^ Z.of_nat k) by lia.
  assert (2 ^ Z.of_nat k < 2 * n) as Hup.
  { destruct Hlow as [->|Hlow]; [simpl; lia|]. destruct k as [|k]; [simpl; lia|].
    replace (Z.of_nat (S k) - 1) with (Z.of_nat k) in Hlow by lia.
    rewrite Nat2Z.inj_succ, Z.pow_succ_r by lia. lia. }
  eexists. split; [done|]. simpl. unfold u64. rewrite !wrap_small by (unfold in_word; lia).
  split; [|split_and!; try done; [lia|lia|apply Forall_replicate; simpl; apply length_replicate]].
  exists k. simpl. split_and!; try done; [lia|]. rewrite length_replicate. lia.
Qed.

(** ** Counters modulo [2^64] *)

Section Counters.
Variable cap : nat.
Hypothesis Hcap : Z.of_nat cap ≤ 2 ^ 62.
Implicit Types T F : nat.

(** The difference of two wrapped counters that are at most a capacity apart is
    the true difference. *)
Lemma u64_sub T F :
  (F ≤ T ≤ F + cap)%nat → u64 (u64 (Z.of_nat T) - u64 (Z.of_nat F)) = Z.of_nat (T - F).
Proof.
  intros ?. unfold u64. rewrite wrap_sub, wrap_small; [lia|]. unfold in_word. lia.
Qed.

Lemma u64_eq T F :
  (F ≤ T ≤ F + cap)%nat → (u64 (Z.of_nat F) =? u64 (Z.of_nat T)) = bool_decide (F = T).
Proof.
  intros Hle. case_bool_decide as He; [by subst; apply Z.eqb_refl|].
  apply Z.eqb_neq. intros E. pose proof (u64_sub T F Hle) as Hs.
  rewrite E, Z.sub_diag in Hs. unfold u64 in Hs. rewrite wrap_small in Hs by (unfold in_word; lia). lia.
Qed.

End Counters.

Lemma u64_succ (T : nat) : u64 (u64 (Z.of_nat T) + 1) = u64 (Z.of_nat (S T)).
Proof. unfold u64. rewrite wrap_add_l. f_equal. lia. Qed.


(** The slot of a wrapped counter is the counter modulo the capacity. *)
Lemma slot_of_counter r (T : nat) :
  ring_wf r → slot_of r (u64 (Z.of_nat T)) = (T mod length (slots r))%nat.
Proof.
  intros (k & Hk & _ & Hm & Hl). unfold slot_of. rewrite Hm.
  rewrite Z.sub_1_r, <- Z.ones_equiv.
  rewrite Z.land_ones by lia. unfold u64, wrap.
  rewrite Z.mod_mod_divide.
  2: { exists (2 ^ (64 - Z.of_nat k)). rewrite <- Z.pow_add_r by lia. f_equal. lia. }
  rewrite <- Hl. rewrite <- Nat2Z.inj_mod. apply Nat2Z.id.
Qed.

(** ** The two goroutines

    The producer is the body of [sendToUpstream] on this lane: acquire a slot,
    fill it (or discard it when the packet does not fit), submit it. The consumer
    is [handleUpstreamWrites]: pop one packet, try to pop more, write the batch,
    release the packets in order. Every atomic load and store is a step of its
    own; what a goroutine has loaded is in its program counter. *)

Inductive producer :=
| PIdle                          (* before [closed.Load()] *)
| POpen                          (* closed was false *)
| PTail (t : Z)                  (* [tail.Load()] *)
| PFree (t f : Z)                (* [freeHead.Load()] *)
| PHold (i : nat)                (* acquired slot [i] *)
| PFilled (i : nat)              (* wrote the packet into it *)
| PSubmit (i : nat).             (* [submit] found the ring open *)

Inductive consumer :=
| CIdle                          (* between two pops *)
| CTail (t : Z)                  (* [tail.Load()] in [pop] or [tryPop] *)
| CRelease (l : list nat)        (* batch written, [l] still to release *)
| CTruncated (l : list nat).     (* truncated a packet, [freeHead.Add(1)] is next *)

(** The global state. [sent] is the payloads submitted so far, [written] those
    handed to the connection, in order; [nT], [nR], [nF] count the submits, pops
    and releases. *)
Record system := mkSystem {
  s_ring : upstreamRing;
  s_prod : producer;
  s_cons : consumer;
  s_batch : list nat;
  s_sent : list (list byte);
  s_written : list (list byte);
  nT : nat; nR : nat; nF : nat
}.

Definition slot_data (r : upstreamRing) (i : nat) : list byte :=
  match slots r !! i with Some p => p_data p | None => [] end.

Definition with_prod (s : system) (r : upstreamRing) (p : producer) : system :=
  mkSystem r p (s_cons s) (s_batch s) (s_sent s) (s_written s) (nT s) (nR s) (nF s).
Definition with_cons (s : system) (r : upstreamRing) (c : consumer) : system :=
  mkSystem r (s_prod s) c (s_batch s) (s_sent s) (s_written s) (nT s) (nR s) (nF s).

(** Filling a packet: [MarshalTo] into [buf], then [data = buf[:n]]. *)
Definition fill (buf : list byte) (n : nat) (p : upstreamPacket) : upstreamPacket :=
  {| p_buf := buf; p_data_len := n |}.

Inductive prod_step : system → system → Prop :=
| p_open s :
    s_prod s = PIdle → closed (s_ring s) = false →
    prod_step s (with_prod s (s_ring s) POpen)
| p_tail s :
    s_prod s = POpen →
    prod_step s (with_prod s (s_ring s) (PTail (tail (s_ring s))))
| p_free s t :
    s_prod s = PTail t →
    prod_step s (with_prod s (s_ring s) (PFree t (freeHead (s_ring s))))
| p_acquire s t f :
    s_prod s = PFree t f → u64 (t - f) < capacity (s_ring s) →
    prod_step s (with_prod s (upd_slot (s_ring s) (slot_of (s_ring s) t) truncate)
                   (PHold (slot_of (s_ring s) t)))
| p_spin s t f :
    s_prod s = PFree t f → capacity (s_ring s) ≤ u64 (t - f) →
    prod_step s (with_prod s (s_ring s) PIdle)
| p_fill s i buf n :
    s_prod s = PHold i → (n ≤ length buf)%nat →
    prod_step s (with_prod s (upd_slot (s_ring s) i (fill buf n)) (PFilled i))
| p_too_large s i :
    s_prod s = PHold i →
    prod_step s (with_prod s (discard (s_ring s) (Some i)) PIdle)
| p_submit_open s i :
    s_prod s = PFilled i → closed (s_ring s) = false →
    prod_step s (with_prod s (s_ring s) (PSubmit i))
| p_submit_closed s i :
    s_prod s = PFilled i → closed (s_ring s) = true →
    prod_step s (with_prod s (discard (s_ring s) (Some i)) PIdle)
| p_submit s i :
    s_prod s = PSubmit i →
    prod_step s
      (mkSystem (set_tail (s_ring s) (u64 (tail (s_ring s) + 1))) PIdle (s_cons s)
         (s_batch s) (s_sent s ++ [slot_data (s_ring s) i]) (s_written s)
         (S (nT s)) (nR s) (nF s)).

Inductive cons_step : system → system → Prop :=
| c_tail s :
    s_cons s = CIdle →
    cons_step s (with_cons s (s_ring s) (CTail (tail (s_ring s))))
| c_empty s t :
    s_cons s = CTail t → readHead (s_ring s) = t →
    cons_step s (with_cons s (s_ring s) CIdle)
| c_pop s t :
    s_cons s = CTail t → readHead (s_ring s) ≠ t →
    cons_step s
      (mkSystem (snd (take_next (s_ring s))) (s_prod s) CIdle
         (s_batch s ++ [fst (take_next (s_ring s))]) (s_sent s) (s_written s)
         (nT s) (S (nR s)) (nF s))
| c_write s :
    s_cons s = CIdle → s_batch s ≠ [] →
    cons_step s
      (mkSystem (s_ring s) (s_prod s) (CRelease (s_batch s)) [] (s_sent s)
         (s_written s ++ (slot_data (s_ring s) <$> s_batch s)) (nT s) (nR s) (nF s))
| c_truncate s i l :
    s_cons s = CRelease (i :: l) →
    cons_step s (with_cons s (upd_slot (s_ring s) i truncate) (CTruncated l))
| c_release s l :
    s_cons s = CTruncated l →
    cons_step s
      (mkSystem (set_freeHead (s_ring s) (u64 (freeHead (s_ring s) + 1))) (s_prod s)
         (CRelease l) (s_batch s) (s_sent s) (s_written s) (nT s) (nR s) (S (nF s)))
| c_done s :
    s_cons s = CRelease [] →
    cons_step s (with_cons s (s_ring s) CIdle).

Inductive ring_step : system → system → Prop :=
| step_prod s s' : prod_step s s' → ring_step s s'
| step_cons s s' : cons_step s s' → ring_step s s'
| step_close s : ring_step s (with_prod s (close (s_ring s)) (s_prod s)).

Definition init_system (r : upstreamRing) : system := mkSystem r PIdle CIdle [] [] [] 0 0 0.

Definition reachable (r : upstreamRing) : system → Prop := rtc ring_step (init_system r).

(** ** The invariant *)

(** The first counter whose payload is not written yet. *)
Definition floor (c : consumer) (released popped : nat) : nat :=
  match c with CIdle | CTail _ => released | _ => popped end.

(** The slots of the counters [lo, lo + n). *)
Definition window (cap lo n : nat) : list nat := (λ k, (k mod cap)%nat) <$> seq lo n.

Record ring_inv (s : system) : Prop := {
  inv_wf : ring_wf (s_ring s);
  inv_tail : tail (s_ring s) = u64 (Z.of_nat (nT s));
  inv_read : readHead (s_ring s) = u64 (Z.of_nat (nR s));
  inv_free : freeHead (s_ring s) = u64 (Z.of_nat (nF s));
  inv_order : (nF s ≤ nR s ≤ nT s)%nat ∧ (nT s ≤ nF s + length (slots (s_ring s)))%nat;
  inv_sent : length (s_sent s) = nT s;
  (* what the consumer holds *)
  inv_cons :
    let cap := length (slots (s_ring s)) in
    match s_cons s with
    | CIdle | CTail _ => s_batch s = window cap (nF s) (nR s - nF s)
    | CRelease l => s_batch s = [] ∧ l = window cap (nF s) (nR s - nF s)
    | CTruncated l => s_batch s = [] ∧ (nF s < nR s)%nat ∧ l = window cap (S (nF s)) (nR s - S (nF s))
    end;
  inv_ctail : ∀ t, s_cons s = CTail t → ∃ T0 : nat, t = u64 (Z.of_nat T0) ∧ (nR s ≤ T0 ≤ nT s)%nat;
  (* the payloads not yet written are in their slots *)
  inv_data : ∀ k,
    (floor (s_cons s) (nF s) (nR s) ≤ k < nT s)%nat →
    s_sent s !! k = Some (slot_data (s_ring s) (k mod length (slots (s_ring s)))%nat);
  inv_written : s_written s = take (floor (s_cons s) (nF s) (nR s)) (s_sent s);
  (* what the producer has seen and holds *)
  inv_prod :
    match s_prod s with
    | PIdle | POpen => True
    | PTail t => t = tail (s_ring s)
    | PFree t f => t = tail (s_ring s) ∧ ∃ F0 : nat, f = u64 (Z.of_nat F0) ∧
        (F0 ≤ nF s)%nat ∧ (nT s ≤ F0 + length (slots (s_ring s)))%nat
    | PHold i | PFilled i | PSubmit i =>
        i = (nT s mod length (slots (s_ring s)))%nat ∧
        (nT s < nF s + length (slots (s_ring s)))%nat
    end
}.

(** ** Lemmas for the invariant *)

Lemma length_upd_slot r i f : length (slots (upd_slot r i f)) = length (slots r).
Proof. apply length_alter. Qed.
#[export] Hint Rewrite length_upd_slot : t2d.

Lemma ring_wf_upd r i f : ring_wf r → ring_wf (upd_slot r i f).
Proof.
  intros (k&?&?&?&?). exists k. cbn [capacity mask upd_slot set_slots] in *.
  rewrite length_upd_slot. done.
Qed.

Lemma ring_wf_cap r : ring_wf r →
  (0 < length (slots r))%nat ∧ capacity r = Z.of_nat (length (slots r)) ∧
  Z.of_nat (length (slots r)) ≤ 2 ^ 62.
Proof.
  intros (k&?&?&?&?). assert (2 ^ Z.of_nat k ≤ 2 ^ 62) by (apply Z.pow_le_mono_r; lia).
  assert (0 < 2 ^ Z.of_nat k) by lia. lia.
Qed.

Lemma slot_data_upd_ne r i j f : i ≠ j → slot_data (upd_slot r i f) j = slot_data r j.
Proof. intros. unfold slot_data. simpl. by rewrite list_lookup_alter_ne. Qed.

(** Two counters less than a capacity apart have different slots. *)
Lemma mod_ne cap a b : (a < b < a + cap)%nat → (a mod cap)%nat ≠ (b mod cap)%nat.
Proof.
  intros H E. assert (cap ≠ 0)%nat as Hc by lia.
  pose proof (Nat.div_mod_eq a cap) as Ha. pose proof (Nat.div_mod_eq b cap) as Hb.
  rewrite E in Ha. generalize dependent (b mod cap)%nat. generalize dependent (a / cap)%nat.
  generalize dependent (b / cap)%nat. intros qb qa m _ Ha Hb.
  destruct (decide (qb ≤ qa)%nat); nia.
Qed.

Lemma window_snoc cap lo n :
  window cap lo (S n) = window cap lo n ++ [((lo + n) mod cap)%nat].
Proof. unfold window. by rewrite seq_S, fmap_app. Qed.

Lemma window_nil cap lo n : window cap lo n = [] → n = 0%nat.
Proof. by destruct n. Qed.

Lemma elem_of_window cap lo n i :
  i ∈ window cap lo n ↔ ∃ k, (lo ≤ k < lo + n)%nat ∧ i = (k mod cap)%nat.
Proof. unfold window. rewrite list_elem_of_fmap. setoid_rewrite elem_of_seq. naive_solver. Qed.

(** Reading a window of filled slots gives the next payloads in order. *)
Lemma window_data r cap sent lo n :
  (∀ k, (lo ≤ k < lo + n)%nat → sent !! k = Some (slot_data r (k mod cap)%nat)) →
  take lo sent ++ (slot_data r <$> window cap lo n) = take (lo + n) sent.
Proof.
  induction n as [|n IH]; intros H; [by rewrite Nat.add_0_r, app_nil_r|].
  rewrite window_snoc, fmap_app, app_assoc. rewrite IH by (intros k Hk; apply H; lia).
  rewrite Nat.add_succ_r. cbn. symmetry. apply take_S_r. apply H. lia.
Qed.

Ltac inv_cases H := destruct H as [Hwf Htl Hrd Hfr Hord Hsent Hcons Hct Hdat Hwr Hpr].

(** Changing the slot the producer holds leaves the unwritten payloads alone. *)
Lemma data_upd_held r (sent : list (list byte)) (lo T F i : nat) f :
  i = (T mod length (slots r))%nat → (T < F + length (slots r))%nat → (F ≤ lo)%nat →
  (∀ k, (lo ≤ k < T)%nat → sent !! k = Some (slot_data r (k mod length (slots r))%nat)) →
  ∀ k, (lo ≤ k < T)%nat →
    sent !! k = Some (slot_data (upd_slot r i f) (k mod length (slots r))%nat).
Proof.
  intros -> HT HF Hd k Hk. rewrite slot_data_upd_ne; [by apply Hd|].
  apply not_eq_sym, mod_ne. lia.
Qed.

Lemma floor_bounds s : ring_inv s → (nF s ≤ floor (s_cons s) (nF s) (nR s) ≤ nT s)%nat.
Proof. intros Hi. pose proof (inv_order _ Hi). destruct (s_cons s); simpl; lia. Qed.

Lemma prod_step_inv s s' : prod_step s s' → ring_inv s → ring_inv s'.
Proof.
  intros Hs Hi. pose proof (ring_wf_cap _ (inv_wf _ Hi)) as (Hc0 & Hcap & Hc62).
  pose proof (floor_bounds _ Hi) as Hfl.
  inv_cases Hi. destruct Hs; rewrite H in Hpr; cbn [s_prod discard] in Hpr |- *.
  all: constructor;
    cbn [s_ring s_prod s_cons s_batch s_sent s_written nT nR nF with_prod slots set_tail] in *.
  all: autorewrite with t2d; try done; auto using ring_wf_upd.
  - split; [done|]. exists (nF s). split_and!; [done|lia|lia].
  - destruct Hpr as (-> & F0 & -> & ? & ?). rewrite Htl, slot_of_counter by done.
    rewrite Htl, Hcap, (u64_sub (length (slots (s_ring s)))) in H0 by lia.
    apply (data_upd_held _ _ _ _ (nF s)); auto; lia.
  - destruct Hpr as (-> & F0 & -> & ? & ?). rewrite Htl, slot_of_counter by done.
    rewrite Htl, Hcap, (u64_sub (length (slots (s_ring s)))) in H0 by lia. split; [done|lia].
  - destruct Hpr. apply (data_upd_held _ _ _ _ (nF s)); auto; lia.
  - destruct Hpr. apply (data_upd_held _ _ _ _ (nF s)); auto; lia.
  - destruct Hpr. apply (data_upd_held _ _ _ _ (nF s)); auto; lia.
  - cbn. rewrite Htl. apply u64_succ.
  - lia.
  - cbn. lia.
  - intros t Ht. destruct (Hct t Ht) as (T0 & ? & ?). exists T0. split; [done|lia].
  - intros k Hk. destruct Hpr as [-> ?]. destruct (decide (k = nT s)) as [->|].
    + rewrite <- Hsent, lookup_app_r, Nat.sub_diag by lia. by rewrite Hsent.
    + rewrite lookup_app_l by lia. apply Hdat. lia.
  - rewrite Hwr. by rewrite take_app_le by lia.
Qed.

(** A non-empty window starts with the slot of its lower bound. *)
Lemma window_cons cap lo n i l :
  window cap lo n = i :: l → i = (lo mod cap)%nat ∧ (0 < n)%nat ∧ l = window cap (S lo) (n - 1).
Proof.
  destruct n; [done|]. intros [= <- <-]. rewrite Nat.sub_1_r. split_and!; [done|lia|done].
Qed.

(** [pop] moves on exactly when the tail it loaded is past the read counter. *)
Lemma pop_counter r (R T0 T : nat) :
  ring_wf r → readHead r = u64 (Z.of_nat R) → (R ≤ T0 ≤ T)%nat →
  (T ≤ R + length (slots r))%nat → readHead r ≠ u64 (Z.of_nat T0) → (R < T0)%nat.
Proof.
  intros Hwf Hr H1 H2 Hne. destruct (ring_wf_cap r Hwf) as (? & ? & ?).
  pose proof (u64_eq (length (slots r)) ltac:(lia) T0 R ltac:(lia)) as E.
  case_bool_decide; [lia|lia].
Qed.

Lemma cons_step_inv s s' : cons_step s s' → ring_inv s → ring_inv s'.
Proof.
  intros Hs Hi. pose proof (ring_wf_cap _ (inv_wf _ Hi)) as (Hc0 & Hcap & Hc62).
  inv_cases Hi. destruct Hs; rewrite H in *; cbn [floor] in Hdat, Hwr.
  all: constructor;
    cbn [s_ring s_prod s_cons s_batch s_sent s_written nT nR nF with_cons slots set_freeHead
         take_next fst snd set_readHead floor] in *.
  all: autorewrite with t2d; try done; auto using ring_wf_upd.
  - intros t [= <-]. exists (nT s). split; [done|lia].
  - cbn. rewrite Hrd. apply u64_succ.
  - destruct (Hct t eq_refl) as (T0 & -> & ?).
    pose proof (pop_counter _ (nR s) T0 (nT s) Hwf Hrd ltac:(lia) ltac:(lia) H0). lia.
  - rewrite Nat.sub_succ_l by lia. rewrite window_snoc, Hcons, Hrd, slot_of_counter by done.
    do 3 f_equal. lia.
  - intros k Hk. apply Hdat. lia.
  - rewrite Hwr, Hcons, window_data; [f_equal; lia|]. intros k Hk. apply Hdat. lia.
  - destruct Hcons as [-> Hl]. apply eq_sym, window_cons in Hl as (-> & ? & ->).
    split_and!; [done|lia|f_equal; lia].
  - destruct Hcons as [_ Hl]. apply eq_sym, window_cons in Hl as (-> & ? & ->).
    intros k Hk. rewrite slot_data_upd_ne; [by apply Hdat|]. apply mod_ne. lia.
  - cbn. rewrite Hfr. apply u64_succ.
  - lia.
  - destruct Hcons as (-> & ? & ->). done.
  - destruct (s_prod s); try done; [|destruct Hpr; split; [done|lia]..].
    destruct Hpr as (? & F0 & ? & ? & ?). split; [done|]. exists F0. split_and!; [done|lia|lia].
  - destruct Hcons as [-> Hl]. apply eq_sym, window_nil in Hl. by rewrite Hl.
  - destruct Hcons as [_ Hl]. apply eq_sym, window_nil in Hl. intros k Hk. apply Hdat. lia.
  - destruct Hcons as [_ Hl]. apply eq_sym, window_nil in Hl. rewrite Hwr. f_equal. lia.
Qed.

Lemma ring_step_inv s s' : ring_step s s' → ring_inv s → ring_inv s'.
Proof.
  intros [s1 s2 H|s1 s2 H|s1] Hi; [by eapply prod_step_inv|by eapply cons_step_inv|].
  inv_cases Hi. by constructor.
Qed.

(** A fresh ring: counters at zero. *)
Definition ring_fresh (r : upstreamRing) : Prop :=
  ring_wf r ∧ tail r = 0 ∧ freeHead r = 0 ∧ readHead r = 0.

Lemma reachable_inv r s : ring_fresh r → reachable r s → ring_inv s.
Proof.
  intros (Hwf & Ht & Hf & Hr) Hs.
  revert s Hs. unfold reachable. apply rtc_ind_r.
  - constructor; simpl; try done; try lia.
  - intros s1 s2 _ Hstep Hi. by eapply ring_step_inv.
Qed.

(** ** A concrete run, for the witnesses *)

(** A ring of two slots of one byte. *)
Definition small_ring : upstreamRing :=
  mkRing (replicate 2 (mkPacket [x00] 0)) 1 2 0 0 false 0.

Lemma small_ring_fresh : ring_fresh small_ring.
Proof. split; [|done]. exists 1%nat. split_and!; [lia|done..]. Qed.

(** Take one step from a concrete state: [c] is the rule, its premises are
    evaluated, and so is the state it leads to. *)
Ltac ring_norm :=
  match goal with |- rtc _ ?a ?b => let a' := eval vm_compute in a in change_no_check (rtc ring_step a' b) end.
Ltac ring_go c :=
  eapply rtc_l; [c; [reflexivity|..]; vm_compute; first [reflexivity|discriminate]|]; ring_norm.

(** One packet submitted, popped and written, a second one acquired. *)
Lemma small_ring_run :
  ∃ s, reachable small_ring s ∧ s_sent s = [[x41]] ∧ s_written s = [[x41]] ∧
    s_prod s = PHold 1 ∧ s_cons s = CRelease [0%nat].
Proof.
  eexists. split.
  - unfold reachable, init_system.
    ring_go ltac:(apply step_prod; eapply p_open).
    ring_go ltac:(apply step_prod; eapply p_tail).
    ring_go ltac:(apply step_prod; eapply p_free).
    ring_go ltac:(apply step_prod; eapply p_acquire).
    eapply rtc_l; [apply step_prod; eapply (p_fill _ _ [x41] 1); [done|simpl; lia]|]; ring_norm.
    ring_go ltac:(apply step_prod; eapply p_submit_open).
    ring_go ltac:(apply step_prod; eapply p_submit).
    ring_go ltac:(apply step_cons; eapply c_tail).
    ring_go ltac:(apply step_cons; eapply c_pop).
    ring_go ltac:(apply step_prod; eapply p_open).
    ring_go ltac:(apply step_prod; eapply p_tail).
    ring_go ltac:(apply step_prod; eapply p_free).
    ring_go ltac:(apply step_cons; eapply c_write).
    ring_go ltac:(apply step_prod; eapply p_acquire).
    apply rtc_refl.
  - split_and!; reflexivity.
Qed.

(** ** The operations are runs of the steps

    What one turn of [acquire], [submit], [tryPop] or [release] computes is what a
    goroutine reaches by the steps when the other one does not move meanwhile. *)
Record operations_run (s : system) : Prop := {
  or_acquire : s_prod s = PIdle →
    match acquire (s_ring s) with
    | (TurnPacket i, r) => rtc prod_step s (with_prod s r (PHold i))
    | (TurnWait, r) => rtc prod_step s (with_prod s r PIdle)
    | (TurnNil, _) => closed (s_ring s) = true
    end;
  or_submit i : s_prod s = PFilled i →
    match submit (s_ring s) (Some i) with
    | (true, r) => ∃ s', rtc prod_step s s' ∧ s_ring s' = r ∧ s_prod s' = PIdle ∧
        s_sent s' = s_sent s ++ [slot_data (s_ring s) i]
    | (false, r) => rtc prod_step s (with_prod s (discard r (Some i)) PIdle)
    end;
  or_tryPop : s_cons s = CIdle →
    match tryPop (s_ring s) with
    | (Some i, r) => ∃ s', rtc cons_step s s' ∧ s_ring s' = r ∧ s_cons s' = CIdle ∧
        s_batch s' = s_batch s ++ [i]
    | (None, r) => rtc cons_step s (with_cons s r CIdle)
    end;
  or_release i l : s_cons s = CRelease (i :: l) →
    ∃ s', rtc cons_step s s' ∧ s_ring s' = release (s_ring s) (Some i) ∧ s_cons s' = CRelease l
}.

Lemma ring_operations_run s : operations_run s.
Proof.
  split.
  - intros Hp. unfold acquire. destruct (closed (s_ring s)) eqn:Ec; [done|].
    destruct (Z.ltb_spec (u64 (tail (s_ring s) - freeHead (s_ring s))) (capacity (s_ring s))) as [Hlt|Hge];
      (eapply rtc_l; [by apply p_open|]; eapply rtc_l; [by apply p_tail|]; eapply rtc_l; [by apply p_free|];
       apply rtc_once).
    + exact (p_acquire (with_prod s (s_ring s) (PFree (tail (s_ring s)) (freeHead (s_ring s)))) _ _ eq_refl Hlt).
    + exact (p_spin (with_prod s (s_ring s) (PFree (tail (s_ring s)) (freeHead (s_ring s)))) _ _ eq_refl Hge).
  - intros i Hp. unfold submit. destruct (closed (s_ring s)) eqn:Ec.
    + apply rtc_once. by apply p_submit_closed.
    + eexists. split; [|split; [|split]].
      * eapply rtc_l; [by apply p_submit_open|]. apply rtc_once. by apply p_submit.
      * done.
      * done.
      * done.
  - intros Hc. unfold tryPop. destruct (Z.eqb_spec (readHead (s_ring s)) (tail (s_ring s))) as [He|Hne].
    + eapply rtc_l; [by apply c_tail|]. apply rtc_once.
      exact (c_empty (with_cons s (s_ring s) (CTail (tail (s_ring s)))) _ eq_refl He).
    + cbn [take_next]. eexists. split; [|split; [|split]].
      * eapply rtc_l; [by apply c_tail|]. apply rtc_once.
        exact (c_pop (with_cons s (s_ring s) (CTail (tail (s_ring s)))) _ eq_refl Hne).
      * done.
      * done.
      * done.
  - intros i l Hc. eexists. split; [|split].
    + eapply rtc_l; [by apply c_truncate|]. apply rtc_once. by apply c_release.
    + done.
    + done.
Qed.

(** ** Theorems *)

(** C5: the ring is a queue. In every reachable interleaving of the producer,
    the consumer and [close], from a fresh ring of any power-of-two capacity and
    for any number of operations (the counters wrap at [2^64]): the payloads
    handed to the connection are a prefix of the payloads submitted, in order
    and unmodified, and what is submitted but not written is still intact in its
    slot; when the consumer is idle and has released as much as was submitted,
    nothing is missing. And the operations as functions are runs of these steps. *)
Theorem ring_is_fifo r s :
  ring_fresh r → reachable r s →
  s_written s `prefix_of` s_sent s ∧
  (∀ k d, s_sent s !! k = Some d → (length (s_written s) ≤ k)%nat →
     slot_data (s_ring s) (k mod length (slots (s_ring s)))%nat = d) ∧
  (s_cons s = CIdle → nF s = nT s → s_written s = s_sent s) ∧
  operations_run s.
Proof.
  intros Hf Hr. pose proof (reachable_inv r s Hf Hr) as Hi.
  pose proof (floor_bounds s Hi) as Hfl. inv_cases Hi. split_and!.
  - rewrite Hwr. apply prefix_take.
  - intros k d Hk Hl. rewrite Hwr, length_take in Hl.
    pose proof (lookup_lt_Some _ _ _ Hk). rewrite Hdat in Hk by lia. congruence.
  - intros Hc Hn. rewrite Hwr, Hc; cbn [floor]. apply take_ge. lia.
  - apply ring_operations_run.
Qed.

Lemma ring_is_fifo_witness :
  ∃ s, reachable small_ring s ∧ s_written s = [[x41]] ∧ s_written s `prefix_of` s_sent s.
Proof.
  destruct small_ring_run as (s & Hr & _ & Hw & _). exists s. split; [exact Hr|].
  split; [exact Hw|]. apply (ring_is_fifo small_ring s small_ring_fresh Hr).
Defined.

(** C40: the producer and the consumer never touch the same packet. Whenever the
    producer holds a slot (between [acquire] and [submit] or [discard]), that
    slot is neither in the batch the consumer is writing or releasing nor one it
    can still pop; and the number of packets in flight never exceeds the
    capacity. *)
Theorem ring_exclusive r s i :
  ring_fresh r → reachable r s →
  s_prod s = PHold i ∨ s_prod s = PFilled i ∨ s_prod s = PSubmit i →
  i ∉ s_batch s ∧
  (∀ l, s_cons s = CRelease l ∨ s_cons s = CTruncated l → i ∉ l) ∧
  (∀ k, (nR s ≤ k < nT s)%nat → i ≠ slot_of (s_ring s) (u64 (Z.of_nat k))) ∧
  0 ≤ inflight (s_ring s) ≤ capacity (s_ring s).
Proof.
  intros Hf Hr Hp. pose proof (reachable_inv r s Hf Hr) as Hi.
  pose proof (ring_wf_cap _ (inv_wf _ Hi)) as (Hc0 & Hcap & Hc62). inv_cases Hi.
  set (cap := length (slots (s_ring s))) in *.
  assert (i = (nT s mod cap)%nat ∧ (nT s < nF s + cap)%nat) as [-> HT].
  { destruct Hp as [E|[E|E]]; by rewrite E in Hpr. }
  assert (∀ lo n, (nF s ≤ lo)%nat → (lo + n ≤ nT s)%nat → (nT s mod cap)%nat ∉ window cap lo n) as Hw.
  { intros lo n ? ? (k & ? & E)%elem_of_window. apply eq_sym in E. revert E. apply mod_ne. lia. }
  split_and!.
  - destruct (s_cons s).
    + rewrite Hcons. apply Hw; lia.
    + rewrite Hcons. apply Hw; lia.
    + destruct Hcons as [-> _]. set_solver.
    + destruct Hcons as [-> _]. set_solver.
  - intros l [E|E]; rewrite E in Hcons.
    + destruct Hcons as [_ ->]. apply Hw; lia.
    + destruct Hcons as (_ & ? & ->). apply Hw; lia.
  - intros k Hk. rewrite slot_of_counter by done. apply not_eq_sym, mod_ne. lia.
  - unfold inflight. rewrite Htl, Hfr, (u64_sub cap) by lia.
    destruct (Z.ltb_spec (capacity (s_ring s)) (Z.of_nat (nT s - nF s))); lia.
  - unfold inflight. rewrite Htl, Hfr, (u64_sub cap) by lia.
    destruct (Z.ltb_spec (capacity (s_ring s)) (Z.of_nat (nT s - nF s))); lia.
Qed.

Lemma ring_exclusive_witness :
  ∃ s, reachable small_ring s ∧ s_prod s = PHold 1 ∧ s_cons s = CRelease [0%nat] ∧
    1%nat ∉ [0%nat].
Proof.
  destruct small_ring_run as (s & Hr & _ & _ & Hp & Hc). exists s.
  split; [exact Hr|]. split; [exact Hp|]. split; [exact Hc|].
  apply (ring_exclusive small_ring s 1 small_ring_fresh Hr (or_introl Hp)). by left.
Defined.

(** A new ring is usable. For every requested capacity up to a quarter of
    the [int] range the constructor's doubling loop terminates and the ring it
    builds is fresh: a power-of-two number of slots, at least the requested and
    fewer than twice as many, each with a buffer of the packet size, and all
    counters at zero. *)
Theorem newUpstreamRing_fresh `{IntWidth} cap packetSize :
  cap ≤ 2 ^ (int_bits - 2) →
  ∃ r, newUpstreamRing cap packetSize = Some r ∧ ring_fresh r ∧ closed r = false ∧
    cap ≤ capacity r ∧ capacity r < 2 * Z.max 1 cap ∧
    Forall (λ p, length (p_buf p) = packetSize) (slots r).
Proof.
  intros Hc. destruct (newUpstreamRing_spec cap packetSize Hc)
    as (r & -> & Hwf & ? & ? & ? & ? & ? & ? & ?).
  exists r. unfold ring_fresh. split_and!; done.
Qed.

Lemma newUpstreamRing_fresh_witness :
  ∃ r, @newUpstreamRing int64_target 8192 1520 = Some r ∧ ring_fresh r.
Proof.
  destruct (@newUpstreamRing_fresh int64_target 8192 1520) as (r & E & Hf & _);
    [vm_compute; discriminate|]. exists r. split; [exact E|exact Hf].
Defined.
