(* ===== verification/Stats.v ===== *)
(** * Counters (internal/stats/stats.go)

    [Stats] is shared by every goroutine of a process; each of its operations is
    one atomic addition or load, so a run is a sequence of operations. The
    counters are [uint64]s that wrap, the session gauge is an [int32]. [Reset] is
    six stores and an unsynchronised write of [startTime]; nothing calls it while
    other goroutines run, so it is one step here. *)

From S2P Require Import Prelude.
From S2P Require Import Words.

(** ** Data *)

Record Stats := mkStats {
  BytesSent : Z;
  BytesReceived : Z;
  PacketsSent : Z;
  PacketsReceived : Z;
  Errors : Z;
  ActiveSessions : Z;
  startTime : Z
}.

Record Summary := mkSummary {
  sum_BytesSent : Z;
  sum_BytesReceived : Z;
  sum_PacketsSent : Z;
  sum_PacketsReceived : Z;
  sum_Errors : Z;
  sum_ActiveSessions : Z;
  sum_Uptime : Z
}.

#[export] Instance Stats_eq_dec : EqDecision Stats.
Proof. solve_decision. Defined.

(** ** Operations *)

(** [now] is the wall clock in nanoseconds. *)
Definition NewStats (now : Z) : Stats := mkStats 0 0 0 0 0 0 now.

Definition AddBytesSent (s : Stats) (n : Z) : Stats :=
  mkStats (u64 (BytesSent s + n)) (BytesReceived s) (PacketsSent s) (PacketsReceived s)
    (Errors s) (ActiveSessions s) (startTime s).
Definition AddBytesReceived (s : Stats) (n : Z) : Stats :=
  mkStats (BytesSent s) (u64 (BytesReceived s + n)) (PacketsSent s) (PacketsReceived s)
    (Errors s) (ActiveSessions s) (startTime s).
Definition AddPacketsSent (s : Stats) (n : Z) : Stats :=
  mkStats (BytesSent s) (BytesReceived s) (u64 (PacketsSent s + n)) (PacketsReceived s)
    (Errors s) (ActiveSessions s) (startTime s).
Definition AddPacketsReceived (s : Stats) (n : Z) : Stats :=
  mkStats (BytesSent s) (BytesReceived s) (PacketsSent s) (u64 (PacketsReceived s + n))
    (Errors s) (ActiveSessions s) (startTime s).
Definition AddError (s : Stats) : Stats :=
  mkStats (BytesSent s) (BytesReceived s) (PacketsSent s) (PacketsReceived s)
    (u64 (Errors s + 1)) (ActiveSessions s) (startTime s).
Definition AddActiveSession (s : Stats) : Stats :=
  mkStats (BytesSent s) (BytesReceived s) (PacketsSent s) (PacketsReceived s)
    (Errors s) (i32 (ActiveSessions s + 1)) (startTime s).
Definition RemoveActiveSession (s : Stats) : Stats :=
  mkStats (BytesSent s) (BytesReceived s) (PacketsSent s) (PacketsReceived s)
    (Errors s) (i32 (ActiveSessions s + -1)) (startTime s).

(** [Reset] stores zeros and restarts the clock. *)
Definition ResetStats (s : Stats) (now : Z) : Stats :=
  mkStats 0 0 0 0 0 0 now.

(** [time.Duration] arithmetic saturates in [time.Time.Sub]. *)
Definition saturate (d : Z) : Z := Z.max (- 2 ^ 63) (Z.min d (2 ^ 63 - 1)).
Definition time_Since (now t : Z) : Z := saturate (now - t).

Definition GetBytesSent (s : Stats) : Z := BytesSent s.
Definition GetBytesReceived (s : Stats) : Z := BytesReceived s.
Definition GetPacketsSent (s : Stats) : Z := PacketsSent s.
Definition GetPacketsReceived (s : Stats) : Z := PacketsReceived s.
Definition GetErrors (s : Stats) : Z := Errors s.
Definition GetActiveSessions (s : Stats) : Z := ActiveSessions s.
Definition GetUptime (s : Stats) (now : Z) : Z := time_Since now (startTime s).

Definition GetSummary (s : Stats) (now : Z) : Summary :=
  mkSummary (GetBytesSent s) (GetBytesReceived s) (GetPacketsSent s) (GetPacketsReceived s)
    (GetErrors s) (GetActiveSessions s) (GetUptime s now).

(** ** Runs *)

Inductive stat_op :=
| OpBytesSent (n : Z)
| OpBytesReceived (n : Z)
| OpPacketsSent (n : Z)
| OpPacketsReceived (n : Z)
| OpError
| OpAddSession
| OpRemoveSession.

Definition stat_step (s : Stats) (o : stat_op) : Stats :=
  match o with
  | OpBytesSent n => AddBytesSent s n
  | OpBytesReceived n => AddBytesReceived s n
  | OpPacketsSent n => AddPacketsSent s n
  | OpPacketsReceived n => AddPacketsReceived s n
  | OpError => AddError s
  | OpAddSession => AddActiveSession s
  | OpRemoveSession => RemoveActiveSession s
  end.

Definition run_stats (s : Stats) (ops : list stat_op) : Stats := foldl stat_step s ops.

(** The true total of one counter over a run. *)
Definition total (f : stat_op → Z) (ops : list stat_op) : Z := foldr (λ o a, f o + a) 0 ops.

Definition bytes_sent (o : stat_op) : Z := match o with OpBytesSent n => n | _ => 0 end.
Definition bytes_received (o : stat_op) : Z := match o with OpBytesReceived n => n | _ => 0 end.
Definition packets_sent (o : stat_op) : Z := match o with OpPacketsSent n => n | _ => 0 end.
Definition packets_received (o : stat_op) : Z := match o with OpPacketsReceived n => n | _ => 0 end.
Definition errors (o : stat_op) : Z := match o with OpError => 1 | _ => 0 end.
Definition gauge (o : stat_op) : Z :=
  match o with OpAddSession => 1 | OpRemoveSession => -1 | _ => 0 end.

Lemma swrap_add_l w a b : swrap w (swrap w a + b) = swrap w (a + b).
Proof.
  unfold swrap. f_equal.
  replace ((a + 2 ^ (w - 1)) mod 2 ^ w - 2 ^ (w - 1) + b + 2 ^ (w - 1))
    with ((a + 2 ^ (w - 1)) mod 2 ^ w + b) by lia.
  rewrite Zplus_mod_idemp_l. f_equal. lia.
Qed.

(** A word counter that each operation increases by [f] ends at the wrapped sum. *)
Lemma run_counter (get : Stats → Z) (f : stat_op → Z) (wr : Z → Z) s ops :
  (∀ a b, wr (wr a + b) = wr (a + b)) →
  (∀ s o, get (stat_step s o) = wr (get s + f o) ∨ (f o = 0 ∧ get (stat_step s o) = get s)) →
  wr (get s) = get s →
  get (run_stats s ops) = wr (get s + total f ops).
Proof.
  intros Hwr Hstep. revert s. induction ops as [|o ops IH]; intros s Hs.
  - cbn. by rewrite Z.add_0_r.
  - cbn [run_stats foldl total foldr]. fold (run_stats (stat_step s o) ops) (total f ops).
    destruct (Hstep s o) as [E|[E0 E]].
    + rewrite IH; rewrite E.
      * by rewrite Hwr, Z.add_assoc.
      * rewrite <- (Z.add_0_r (wr (get s + f o))) at 1. rewrite Hwr. f_equal. lia.
    + rewrite IH; rewrite E; [by rewrite E0|done].
Qed.

Lemma total_app f ops1 ops2 : total f (ops1 ++ ops2) = total f ops1 + total f ops2.
Proof. induction ops1 as [|o ops1 IH]; cbn; [done|]. fold (total f (ops1 ++ ops2)) (total f ops1). lia. Qed.

(** ** Theorems *)

(** The counters are exact modulo their width. After any interleaving of
    operations since the last [Reset] (or since [New]), the summary reports, for
    each counter, the sum of what was added modulo [2^64], and for the gauge, the
    sessions added minus the sessions removed modulo [2^32]; so as long as the
    true totals fit the types the summary is exact, and the gauge may go
    negative but never wraps by itself. *)
Theorem summary_totals s0 t0 ops now :
  let s := run_stats (ResetStats s0 t0) ops in
  GetSummary s now =
    mkSummary (u64 (total bytes_sent ops)) (u64 (total bytes_received ops))
      (u64 (total packets_sent ops)) (u64 (total packets_received ops))
      (u64 (total errors ops)) (i32 (total gauge ops)) (saturate (now - t0)) ∧
  (- 2 ^ 31 ≤ total gauge ops < 2 ^ 31 → ActiveSessions s = total gauge ops) ∧
  run_stats (NewStats t0) ops = s.
Proof.
  intros s.
  assert (∀ get f, (∀ s o, get (stat_step s o) = u64 (get s + f o) ∨ (f o = 0 ∧ get (stat_step s o) = get s)) →
    get (ResetStats s0 t0) = 0 → get s = u64 (total f ops)) as Hc.
  { intros get f Hf H0. unfold s. rewrite (run_counter get f u64); rewrite ?H0; try done.
    intros. apply wrap_add_l. }
  assert (ActiveSessions s = i32 (total gauge ops)) as Hg.
  { unfold s. rewrite (run_counter ActiveSessions gauge i32); try done.
    - intros. apply swrap_add_l.
    - intros ? []; simpl; auto. }
  assert (startTime s = t0) as Ht.
  { unfold s, run_stats. generalize (ResetStats s0 t0) (eq_refl : startTime (ResetStats s0 t0) = t0).
    clear. induction ops as [|[] ops IH]; intros r Hr; simpl; auto. }
  split_and!; [|by intros; rewrite Hg; apply swrap_small|done].
  unfold GetSummary, GetUptime, time_Since. rewrite Ht.
  f_equal; try done; apply Hc; try done; intros ? []; simpl; auto.
Qed.
