(* ===== verification/NetErrors.v ===== *)
(** * Classifying network errors (isClosedError, isTimeoutError)

    Both ends decide by an error's text whether it is worth reporting: the client
    with [strings.Contains] (internal/client/client.go), the server by equality
    (internal/server/server.go). *)

From S2P Require Import Prelude.

(** What the classifiers look at: the text, whether [errors.Is(err, net.ErrClosed)],
    and the answer of [Timeout] when the error is a [net.Error]. *)
Record net_error := mkNetError {
  ne_Error : string;
  ne_IsErrClosed : bool;
  ne_Timeout : option bool
}.

Definition Contains (s substr : string) : bool :=
  match String.index 0 substr s with Some _ => true | None => false end.

Definition closed_text : string := "use of closed network connection".
Definition reset_text : string := "connection reset by peer".

(** The client's. *)
Definition cl_isClosedError (err : option net_error) : bool :=
  match err with
  | None => false
  | Some err => ne_IsErrClosed err || Contains (ne_Error err) closed_text || Contains (ne_Error err) reset_text
  end.

(** The server's. *)
Definition sv_isClosedError (err : option net_error) : bool :=
  match err with
  | None => false
  | Some err => String.eqb (ne_Error err) closed_text || String.eqb (ne_Error err) reset_text
  end.

(** The same function on both ends. *)
Definition isTimeoutError (err : option net_error) : bool :=
  match err with
  | Some err => default false (ne_Timeout err)
  | None => false
  end.

(** An error of [net.OpError]: the operation, then the cause. *)
Definition op_error (op cause : string) (closed : bool) : net_error :=
  mkNetError (op ++ ": " ++ cause) closed (Some false).

Lemma string_length_app (s t : string) : String.length (s ++ t) = (String.length s + String.length t)%nat.
Proof. induction s as [|a s IH]; [done|]. change (String.append (String a s) t) with (String a (s ++ t)). cbn. by rewrite IH. Qed.

(** The server compares the whole text, so it never recognises an error that says
    which operation failed; and every error of a socket does. *)
Lemma sv_isClosedError_op op cause closed :
  (32 < String.length op + 2 + String.length cause)%nat → sv_isClosedError (Some (op_error op cause closed)) = false.
Proof.
  intros Hl. unfold sv_isClosedError, op_error. cbn [ne_Error].
  assert (∀ t, (String.length t ≤ 32)%nat → String.eqb (op ++ ": " ++ cause) t = false) as H.
  { intros t Ht. apply String.eqb_neq. intros E. apply (f_equal String.length) in E.
    rewrite !string_length_app in E. cbn in E. lia. }
  rewrite !H by (cbn; lia). done.
Qed.
