(* ===== verification/Config.v ===== *)
(** * Configuration (internal/config/config.go, internal/app/app.go)

    [Config] with the fields of the source, [setDefaults] as the sequence of
    assignments and guards it is, and the dispatch of [app.New]. Reading the file
    and decoding the JSON are library calls: their result is an argument of
    [Load]. *)

From S2P Require Import Prelude.

(** ** Data *)

Record CryptoConfig := mkCryptoConfig {
  cc_Type : string;
  cc_Password : string
}.

(** Sizes and intervals are Go [int]s, copied and compared but never computed
    with here. *)
Record Config := mkConfig {
  Mode : string;
  ListenAddr : string;
  ServerUpstream : string;
  ServerDownstream : string;
  UpstreamPort : string;
  DownstreamPort : string;
  BackendAddr : string;
  ReconnectInterval : Z;
  ReconnectMaxInterval : Z;
  ReconnectJitterMs : Z;
  SessionTimeout : Z;
  BufferSize : Z;
  MaxPacketSize : Z;
  UpstreamQueueSize : Z;
  UpstreamBatchMaxPackets : Z;
  UpstreamBatchMaxBytes : Z;
  UpstreamBatchMaxDelayMs : Z;
  UpstreamStripeEnabled : bool;
  UpstreamReorderWindow : Z;
  UpstreamReorderHoldMs : Z;
  UpstreamLaneCount : Z;
  DownstreamLaneCount : Z;
  DownstreamBatchMaxPackets : Z;
  DownstreamBatchMaxBytes : Z;
  DownstreamBatchMaxDelayMs : Z;
  HeartbeatIntervalMs : Z;
  LogLevel : string;
  UpstreamCrypto : CryptoConfig;
  DownstreamCrypto : CryptoConfig
}.

(** ** Operations *)

(** The unconditional part of [setDefaults]: the tuning parameters are fixed. *)
Definition fixed_parameters (c : Config) : Config :=
  {| Mode := Mode c; ListenAddr := ListenAddr c; ServerUpstream := ServerUpstream c;
     ServerDownstream := ServerDownstream c; UpstreamPort := UpstreamPort c;
     DownstreamPort := DownstreamPort c; BackendAddr := BackendAddr c;
     ReconnectInterval := ReconnectInterval c;
     ReconnectMaxInterval := ReconnectMaxInterval c;
     ReconnectJitterMs := ReconnectJitterMs c; SessionTimeout := SessionTimeout c;
     BufferSize := BufferSize c; MaxPacketSize := MaxPacketSize c;
     UpstreamQueueSize := 8192;
     UpstreamBatchMaxPackets := 256;
     UpstreamBatchMaxBytes := 4 * 1024 * 1024;
     UpstreamBatchMaxDelayMs := 0;
     UpstreamStripeEnabled := false;
     UpstreamReorderWindow := 128;
     UpstreamReorderHoldMs := 3;
     UpstreamLaneCount := 4;
     DownstreamLaneCount := 4;
     DownstreamBatchMaxPackets := 128;
     DownstreamBatchMaxBytes := 512 * 1024;
     DownstreamBatchMaxDelayMs := 1;
     HeartbeatIntervalMs := 1000;
     LogLevel := LogLevel c; UpstreamCrypto := UpstreamCrypto c;
     DownstreamCrypto := DownstreamCrypto c |}.

(** The fields a user may set. *)
Definition set_user (c : Config) (ri rmax rj st bs mp : Z) (ll : string)
    (uc dc : CryptoConfig) : Config :=
  {| Mode := Mode c; ListenAddr := ListenAddr c; ServerUpstream := ServerUpstream c;
     ServerDownstream := ServerDownstream c; UpstreamPort := UpstreamPort c;
     DownstreamPort := DownstreamPort c; BackendAddr := BackendAddr c;
     ReconnectInterval := ri; ReconnectMaxInterval := rmax; ReconnectJitterMs := rj;
     SessionTimeout := st; BufferSize := bs; MaxPacketSize := mp;
     UpstreamQueueSize := UpstreamQueueSize c;
     UpstreamBatchMaxPackets := UpstreamBatchMaxPackets c;
     UpstreamBatchMaxBytes := UpstreamBatchMaxBytes c;
     UpstreamBatchMaxDelayMs := UpstreamBatchMaxDelayMs c;
     UpstreamStripeEnabled := UpstreamStripeEnabled c;
     UpstreamReorderWindow := UpstreamReorderWindow c;
     UpstreamReorderHoldMs := UpstreamReorderHoldMs c;
     UpstreamLaneCount := UpstreamLaneCount c;
     DownstreamLaneCount := DownstreamLaneCount c;
     DownstreamBatchMaxPackets := DownstreamBatchMaxPackets c;
     DownstreamBatchMaxBytes := DownstreamBatchMaxBytes c;
     DownstreamBatchMaxDelayMs := DownstreamBatchMaxDelayMs c;
     HeartbeatIntervalMs := HeartbeatIntervalMs c;
     LogLevel := ll; UpstreamCrypto := uc; DownstreamCrypto := dc |}.

Definition default_crypto (c : CryptoConfig) : CryptoConfig :=
  if String.eqb (cc_Type c) "" then mkCryptoConfig "none" (cc_Password c) else c.

Definition setDefaults (c : Config) : Config :=
  let c := fixed_parameters c in
  let ri := if ReconnectInterval c <=? 0 then 1 else ReconnectInterval c in
  let rmax := if ReconnectMaxInterval c <=? 0 then 30 else ReconnectMaxInterval c in
  let rmax := if rmax <? ri then ri else rmax in
  let rj := if ReconnectJitterMs c <? 0 then 0 else ReconnectJitterMs c in
  let st := if SessionTimeout c <=? 0 then 300 else SessionTimeout c in
  let bs := if BufferSize c <=? 0 then 65536 else BufferSize c in
  let mp := if MaxPacketSize c <=? 0 then 65536 else MaxPacketSize c in
  let ll := if String.eqb (LogLevel c) "" then "info"%string else LogLevel c in
  set_user c ri rmax rj st bs mp ll (default_crypto (UpstreamCrypto c))
    (default_crypto (DownstreamCrypto c)).

(** [Load]: [read] and [decode] are the outcomes of [os.ReadFile] and of
    [json.Unmarshal] into a zero [Config]. *)
Inductive load_error (E : Type) :=
| ErrReadConfig (e : E)
| ErrParseConfig (e : E).
Arguments ErrReadConfig {E} e.
Arguments ErrParseConfig {E} e.

Definition Load {E data : Type} (read : result E data) (decode : data → result E Config)
    : result (load_error E) Config :=
  match read with
  | Err e => Err (ErrReadConfig e)
  | Ok d =>
      match decode d with
      | Err e => Err (ErrParseConfig e)
      | Ok c => Ok (setDefaults c)
      end
  end.

Definition IsClient (c : Config) : bool := String.eqb (Mode c) "client".
Definition IsServer (c : Config) : bool := String.eqb (Mode c) "server".

(** [app.New]: the two constructors are arguments. *)
Inductive App (C S : Type) :=
| ClientApp (c : C)
| ServerApp (s : S).
Arguments ClientApp {C S} c.
Arguments ServerApp {C S} s.

Inductive app_error (E : Type) :=
| ErrConstruct (e : E)
| ErrInvalidMode (mode : string).
Arguments ErrConstruct {E} e.
Arguments ErrInvalidMode {E} mode.

Definition AppNew {C S E : Type} (client_New : Config → result E C)
    (server_New : Config → result E S) (cfg : Config) : result (app_error E) (App C S) :=
  if IsClient cfg then
    match client_New cfg with Ok c => Ok (ClientApp c) | Err e => Err (ErrConstruct e) end
  else if IsServer cfg then
    match server_New cfg with Ok s => Ok (ServerApp s) | Err e => Err (ErrConstruct e) end
  else Err (ErrInvalidMode (Mode cfg)).

(** ** What the rest of the program relies on *)

Record config_ok (c : Config) : Prop := {
  ok_interval : 1 ≤ ReconnectInterval c;
  ok_max_interval : ReconnectInterval c ≤ ReconnectMaxInterval c;
  ok_jitter : 0 ≤ ReconnectJitterMs c;
  ok_timeout : 1 ≤ SessionTimeout c;
  ok_buffer : 1 ≤ BufferSize c;
  ok_packet : 1 ≤ MaxPacketSize c;
  ok_lanes : UpstreamLaneCount c = 4 ∧ DownstreamLaneCount c = 4;
  ok_queue : UpstreamQueueSize c = 8192;
  ok_up_batch : UpstreamBatchMaxPackets c = 256 ∧ UpstreamBatchMaxBytes c = 4194304 ∧
    UpstreamBatchMaxDelayMs c = 0;
  ok_down_batch : DownstreamBatchMaxPackets c = 128 ∧ DownstreamBatchMaxBytes c = 524288 ∧
    DownstreamBatchMaxDelayMs c = 1;
  ok_reorder : UpstreamStripeEnabled c = false ∧ UpstreamReorderWindow c = 128 ∧
    UpstreamReorderHoldMs c = 3;
  ok_heartbeat : HeartbeatIntervalMs c = 1000;
  ok_log : LogLevel c ≠ ""%string;
  ok_crypto : cc_Type (UpstreamCrypto c) ≠ ""%string ∧ cc_Type (DownstreamCrypto c) ≠ ""%string
}.

Lemma default_crypto_type c : cc_Type (default_crypto c) ≠ ""%string.
Proof. unfold default_crypto. by destruct (String.eqb_spec (cc_Type c) ""). Qed.

Lemma default_crypto_id c : cc_Type c ≠ ""%string → default_crypto c = c.
Proof. intros. unfold default_crypto. by destruct (String.eqb_spec (cc_Type c) ""). Qed.

Lemma default_crypto_password c : cc_Password (default_crypto c) = cc_Password c.
Proof. unfold default_crypto. by destruct (String.eqb_spec (cc_Type c) ""). Qed.

Lemma setDefaults_ok c : config_ok (setDefaults c).
Proof.
  split; cbn -[default_crypto]; auto using default_crypto_type.
  all: try (repeat case_match; lia).
  by destruct (String.eqb_spec (LogLevel c) "").
Qed.

(** On a configuration that is already right nothing changes. *)
Lemma setDefaults_id c : config_ok c → setDefaults c = c.
Proof.
  intros H. destruct c as [m la su sd up dp ba ri rmax rj st bs mp q ubp ubb ubd se rw rh ul dl
    dbp dbb dbd hb ll uc dc].
  destruct H; cbn in *. destruct_and!; subst.
  unfold setDefaults; cbn -[default_crypto].
  rewrite !default_crypto_id by done.
  rewrite (proj2 (Z.leb_gt ri 0)), (proj2 (Z.leb_gt rmax 0)), (proj2 (Z.ltb_ge rmax ri)),
    (proj2 (Z.ltb_ge rj 0)), (proj2 (Z.leb_gt st 0)), (proj2 (Z.leb_gt bs 0)),
    (proj2 (Z.leb_gt mp 0)) by lia.
  by destruct (String.eqb_spec ll "").
Qed.

(** ** Theorems *)

(** C36: loading normalises. Whatever the file decodes to, the configuration
    [Load] returns satisfies every bound the program relies on, a configuration
    that already does is returned unchanged (so loading is idempotent), valid
    user settings and all addresses are kept, and the only errors are those of
    reading and of decoding. *)
Theorem Load_normalises {E data : Type} (read : result E data) (decode : data → result E Config) :
  match Load read decode with
  | Err (ErrReadConfig e) => read = Err e
  | Err (ErrParseConfig e) => ∃ d, read = Ok d ∧ decode d = Err e
  | Ok c' => ∃ d c, read = Ok d ∧ decode d = Ok c ∧ config_ok c' ∧
      setDefaults c' = c' ∧ (c' = c ↔ config_ok c) ∧
      (0 < MaxPacketSize c → MaxPacketSize c' = MaxPacketSize c) ∧
      (0 < BufferSize c → BufferSize c' = BufferSize c) ∧
      (0 < SessionTimeout c → SessionTimeout c' = SessionTimeout c) ∧
      Mode c' = Mode c ∧ BackendAddr c' = BackendAddr c ∧
      cc_Password (UpstreamCrypto c') = cc_Password (UpstreamCrypto c) ∧
      cc_Password (DownstreamCrypto c') = cc_Password (DownstreamCrypto c)
  end.
Proof.
  unfold Load. destruct read as [d|e]; [|done]. destruct (decode d) as [c|e] eqn:Ed; [|by exists d].
  exists d, c. pose proof (setDefaults_ok c) as Hok.
  split_and!; auto using setDefaults_id.
  - split; [by intros <-|apply setDefaults_id].
  - intros. cbn. by rewrite (proj2 (Z.leb_gt _ _)) by lia.
  - intros. cbn. by rewrite (proj2 (Z.leb_gt _ _)) by lia.
  - intros. cbn. by rewrite (proj2 (Z.leb_gt _ _)) by lia.
  - apply default_crypto_password.
  - apply default_crypto_password.
Qed.
