(* ===== verification/Crypto.v ===== *)
(** * Ciphers (internal/crypto)

    The four implementations of the interface [Cipher], the factory [NewCipher]
    and the key derivation. The authenticated ciphers are library code: an
    [AEAD] is the record of the operations of Go's [cipher.AEAD] the source
    calls, and [AEADSpec] states what its documentation promises. The library
    functions that build one (and the hash) are a [CryptoLib].

    [CipherSpec] is the interface the forwarder relies on: encryption adds
    exactly [Overhead] bytes and decryption undoes it. Every cipher the factory
    returns implements it. *)

From S2P Require Import Prelude.
From S2P Require Import Words.
From S2P Require Import Config.

(** ** The library's interface *)

Section Library.
Context {E : Type}.

(** [cipher.AEAD]: [Seal] returns the bytes it appends to its destination. *)
Record AEAD := mkAEAD {
  NonceSize : nat;
  aead_Overhead : nat;
  Seal : list byte → list byte → list byte → list byte;
  Open : list byte → list byte → list byte → result E (list byte)
}.

(** The longest plaintext both AES-GCM and ChaCha20-Poly1305 accept. *)
Definition max_plaintext : Z := 2 ^ 36 - 32.

(** Documented behaviour: a sealed message is [Overhead] bytes longer than the
    plaintext, and opening it with the same nonce and additional data returns
    the plaintext. *)
Class AEADSpec (a : AEAD) : Prop := {
  length_Seal nonce p ad :
    length nonce = NonceSize a → Z.of_nat (length p) ≤ max_plaintext →
    length (Seal a nonce p ad) = (length p + aead_Overhead a)%nat;
  Open_Seal nonce p ad :
    length nonce = NonceSize a → Z.of_nat (length p) ≤ max_plaintext →
    Open a nonce (Seal a nonce p ad) ad = Ok p
}.

End Library.
Arguments AEAD E : clear implicits.

(** [sha256.Sum256], [aes.NewCipher], [cipher.NewGCM] and the constructors of
    [chacha20poly1305], with the errors [E] of the library. *)
Class CryptoLib (E Block : Type) := {
  Sum256 : list byte → list byte;
  aes_NewCipher : list byte → result E Block;
  NewGCM : Block → result E (AEAD E);
  chacha_New : list byte → result E (AEAD E);
  chacha_NewX : list byte → result E (AEAD E)
}.

Class CryptoLibSpec (E Block : Type) (L : CryptoLib E Block) : Prop := {
  length_Sum256 m : length (Sum256 m) = 32%nat;
  aes_NewCipher_ok key :
    length key ∈ [16%nat; 24%nat; 32%nat] → ∃ b, aes_NewCipher key = Ok b;
  NewGCM_ok key b : aes_NewCipher key = Ok b →
    ∃ a, NewGCM b = Ok a ∧ AEADSpec a ∧ NonceSize a = 12%nat ∧ aead_Overhead a = 16%nat;
  chacha_New_ok key : length key = 32%nat →
    ∃ a, chacha_New key = Ok a ∧ AEADSpec a ∧ NonceSize a = 12%nat ∧ aead_Overhead a = 16%nat;
  chacha_NewX_ok key : length key = 32%nat →
    ∃ a, chacha_NewX key = Ok a ∧ AEADSpec a ∧ NonceSize a = 24%nat ∧ aead_Overhead a = 16%nat
}.

(** ** Data *)

(** The dynamic types behind the interface [Cipher]. *)
Inductive Cipher (E : Type) :=
| NoneCipher
| XORCipher
| AESGCMCipher (gcm : AEAD E)
| ChaCha20Poly1305Cipher (aead : AEAD E) (isXChaCha : bool).
Arguments NoneCipher {E}.
Arguments XORCipher {E}.
Arguments AESGCMCipher {E} gcm.
Arguments ChaCha20Poly1305Cipher {E} aead isXChaCha.

Inductive cipher_error (E : Type) :=
| ErrPasswordRequired (name : string)
| ErrUnsupportedCipher (name : string)
| ErrKeySize
| ErrCiphertextTooShort
| ErrRandom
| ErrLibrary (e : E).
Arguments ErrPasswordRequired {E} name.
Arguments ErrUnsupportedCipher {E} name.
Arguments ErrKeySize {E}.
Arguments ErrCiphertextTooShort {E}.
Arguments ErrRandom {E}.
Arguments ErrLibrary {E} e.

Definition CipherAES256GCM : string := "aes-256-gcm".
Definition CipherAES128GCM : string := "aes-128-gcm".
Definition CipherChaCha20Poly1305 : string := "chacha20-poly1305".
Definition CipherXChaCha20Poly1305 : string := "xchacha20-poly1305".
Definition CipherNone : string := "none".
Definition CipherXOR : string := "xor".

(** ** Operations *)

(** [rand.Read] of one call: the bytes it fills a buffer of that size with, or
    an error. *)
Definition random := nat → option (list byte).
Definition random_ok (rand : random) : Prop := ∀ n l, rand n = Some l → length l = n.

Section Operations.
Context {E : Type}.

Definition lift_err {A} (r : result E A) : result (cipher_error E) A :=
  match r with Ok a => Ok a | Err e => Err (ErrLibrary e) end.

Definition XOREncrypt (plaintext : list byte) : list byte :=
  (λ b, byte_xor b xaa) <$> plaintext.

(** [Encrypt], [Decrypt] and [Overhead] of the AES-GCM cipher. *)
Definition AEADEncrypt (a : AEAD E) (rand : random) (plaintext : list byte)
    : result (cipher_error E) (list byte) :=
  match rand (NonceSize a) with
  | None => Err ErrRandom
  | Some nonce => Ok (nonce ++ Seal a nonce plaintext [])
  end.

Definition AEADDecrypt (a : AEAD E) (ciphertext : list byte)
    : result (cipher_error E) (list byte) :=
  let nonceSize := NonceSize a in
  if decide (length ciphertext < nonceSize)%nat then Err ErrCiphertextTooShort
  else
    let nonce := take nonceSize ciphertext in
    let ciphertext := drop nonceSize ciphertext in
    lift_err (Open a nonce ciphertext []).

(** Those of the ChaCha20-Poly1305 cipher. *)
Definition ChaChaEncrypt (aead : AEAD E) (rand : random) (plaintext : list byte)
    : result (cipher_error E) (list byte) :=
  match rand (NonceSize aead) with
  | None => Err ErrRandom
  | Some nonce => Ok (nonce ++ Seal aead nonce plaintext [])
  end.

Definition ChaChaDecrypt (aead : AEAD E) (ciphertext : list byte)
    : result (cipher_error E) (list byte) :=
  let nonceSize := NonceSize aead in
  if decide (length ciphertext < nonceSize)%nat then Err ErrCiphertextTooShort
  else
    let nonce := take nonceSize ciphertext in
    let ciphertext := drop nonceSize ciphertext in
    lift_err (Open aead nonce ciphertext []).

Definition ChaChaOverhead (aead : AEAD E) : nat := NonceSize aead + aead_Overhead aead.

Definition Encrypt (c : Cipher E) (rand : random) (plaintext : list byte)
    : result (cipher_error E) (list byte) :=
  match c with
  | NoneCipher => Ok plaintext
  | XORCipher => Ok (XOREncrypt plaintext)
  | AESGCMCipher gcm => AEADEncrypt gcm rand plaintext
  | ChaCha20Poly1305Cipher aead _ => ChaChaEncrypt aead rand plaintext
  end.

Definition Decrypt (c : Cipher E) (ciphertext : list byte)
    : result (cipher_error E) (list byte) :=
  match c with
  | NoneCipher => Ok ciphertext
  | XORCipher => Ok (XOREncrypt ciphertext)
  | AESGCMCipher gcm => AEADDecrypt gcm ciphertext
  | ChaCha20Poly1305Cipher aead _ => ChaChaDecrypt aead ciphertext
  end.

Definition Overhead (c : Cipher E) : nat :=
  match c with
  | NoneCipher | XORCipher => 0
  | AESGCMCipher gcm => NonceSize gcm + aead_Overhead gcm
  | ChaCha20Poly1305Cipher aead _ => ChaChaOverhead aead
  end.

Context {Block : Type} `{CryptoLib E Block}.

(** [hash[:keySize]] panics on a negative size. *)
Definition deriveKey (password : string) (keySize : Z) : exec (list byte) :=
  let hash := Sum256 (String.list_byte_of_string password) in
  if keySize <=? 32
  then (if keySize <? 0 then Panic else Ret (take (Z.to_nat keySize) hash))
  else Ret (take 32 hash).

Definition NewAESGCMCipher (keySize : Z) (password : string)
    : exec (result (cipher_error E) (Cipher E)) :=
  if negb (keySize =? 16) && negb (keySize =? 32) then Ret (Err ErrKeySize)
  else
    key ← deriveKey password keySize;
    Ret (block ← lift_err (aes_NewCipher key);
         gcm ← lift_err (NewGCM block);
         Ok (AESGCMCipher gcm)).

Definition NewChaCha20Poly1305Cipher (password : string) (useXChaCha : bool)
    : exec (result (cipher_error E) (Cipher E)) :=
  key ← deriveKey password 32;
  Ret (aead ← lift_err (if useXChaCha then chacha_NewX key else chacha_New key);
       Ok (ChaCha20Poly1305Cipher aead useXChaCha)).

Definition NewCipher (config : CryptoConfig) : exec (result (cipher_error E) (Cipher E)) :=
  let t := cc_Type config in
  let password := cc_Password config in
  if String.eqb t CipherNone then Ret (Ok NoneCipher)
  else if String.eqb t CipherXOR then Ret (Ok XORCipher)
  else if String.eqb t CipherAES256GCM then
    if String.eqb password "" then Ret (Err (ErrPasswordRequired "AES-256-GCM"))
    else NewAESGCMCipher 32 password
  else if String.eqb t CipherAES128GCM then
    if String.eqb password "" then Ret (Err (ErrPasswordRequired "AES-128-GCM"))
    else NewAESGCMCipher 16 password
  else if String.eqb t CipherChaCha20Poly1305 then
    if String.eqb password "" then Ret (Err (ErrPasswordRequired "ChaCha20-Poly1305"))
    else NewChaCha20Poly1305Cipher password false
  else if String.eqb t CipherXChaCha20Poly1305 then
    if String.eqb password "" then Ret (Err (ErrPasswordRequired "XChaCha20-Poly1305"))
    else NewChaCha20Poly1305Cipher password true
  else Ret (Err (ErrUnsupportedCipher t)).

End Operations.

(** The types that need a password. *)
Definition authenticated : list string :=
  [CipherAES256GCM; CipherAES128GCM; CipherChaCha20Poly1305; CipherXChaCha20Poly1305].

(** ** The interface *)

(** What the forwarder relies on: for plaintexts of any size a datagram can
    have, encryption adds exactly [Overhead] bytes, whatever the random source
    returns, and decryption inverts it. *)
Class CipherSpec {E} (c : Cipher E) : Prop := {
  length_Encrypt rand p ct :
    random_ok rand → Z.of_nat (length p) ≤ max_plaintext →
    Encrypt c rand p = Ok ct → length ct = (length p + Overhead c)%nat;
  Decrypt_Encrypt rand p ct :
    random_ok rand → Z.of_nat (length p) ≤ max_plaintext →
    Encrypt c rand p = Ok ct → Decrypt c ct = Ok p;
  Overhead_small : Z.of_nat (Overhead c) ≤ 2 ^ 16
}.

(** ** Lemmas *)

Section Lemmas.
Context {E : Type}.

Lemma XOREncrypt_involutive p : XOREncrypt (XOREncrypt p) = p.
Proof.
  unfold XOREncrypt. induction p as [|b p IH]; [done|].
  cbn [fmap list_fmap]. f_equal; [apply byte_xor_involutive|apply IH].
Qed.

Lemma AEADEncrypt_spec (a : AEAD E) `{!AEADSpec a} rand p ct :
  random_ok rand → Z.of_nat (length p) ≤ max_plaintext →
  AEADEncrypt a rand p = Ok ct →
  length ct = (length p + (NonceSize a + aead_Overhead a))%nat ∧ AEADDecrypt a ct = Ok p.
Proof.
  intros Hr Hp. unfold AEADEncrypt, AEADDecrypt.
  destruct (rand (NonceSize a)) as [nonce|] eqn:En; [|done]. intros [= <-].
  pose proof (Hr _ _ En) as Hn. split.
  - rewrite length_app, length_Seal by done. lia.
  - rewrite decide_False by len.
    rewrite take_app_length', drop_app_length' by done. by rewrite Open_Seal.
Qed.

#[export] Instance NoneCipher_spec : CipherSpec (@NoneCipher E).
Proof. split; cbn; [|by intros ????? [= <-]|done]. intros ????? [= <-]. lia. Qed.

#[export] Instance XORCipher_spec : CipherSpec (@XORCipher E).
Proof.
  split; cbn; [..|done]; intros ? p ct ?? [= <-].
  - unfold XOREncrypt. len.
  - by rewrite XOREncrypt_involutive.
Qed.

Lemma AESGCMCipher_spec (a : AEAD E) :
  AEADSpec a → Z.of_nat (NonceSize a + aead_Overhead a) ≤ 2 ^ 16 → CipherSpec (AESGCMCipher a).
Proof. intros Ha ?. split; [..|done]; intros ????? Hc; by apply (AEADEncrypt_spec a) in Hc as []. Qed.

Lemma ChaChaCipher_spec (a : AEAD E) x :
  AEADSpec a → Z.of_nat (NonceSize a + aead_Overhead a) ≤ 2 ^ 16 →
  CipherSpec (ChaCha20Poly1305Cipher a x).
Proof. intros Ha ?. split; [..|done]; intros ????? Hc; by apply (AEADEncrypt_spec a) in Hc as []. Qed.

Context {Block : Type} `{Lib : CryptoLib E Block} `{Spec : !CryptoLibSpec E Block Lib}.

Lemma deriveKey_ok password keySize :
  0 ≤ keySize ≤ 32 →
  ∃ key, deriveKey password keySize = Ret key ∧ length key = Z.to_nat keySize.
Proof.
  intros ?. unfold deriveKey. rewrite (proj2 (Z.leb_le _ _)), (proj2 (Z.ltb_ge _ _)) by lia.
  eexists. split; [done|]. rewrite length_take, length_Sum256. lia.
Qed.

Lemma NewAESGCMCipher_ok keySize password :
  keySize = 16 ∨ keySize = 32 →
  ∃ c, NewAESGCMCipher keySize password = Ret (Ok c) ∧ CipherSpec c ∧ Overhead c = 28%nat.
Proof.
  intros Hk. unfold NewAESGCMCipher.
  destruct (deriveKey_ok password keySize ltac:(lia)) as (key & -> & Hlen).
  destruct (aes_NewCipher_ok key) as [b Eb].
  { rewrite Hlen. destruct Hk as [-> | ->]; set_solver. }
  destruct (NewGCM_ok key b Eb) as (a & Ea & Ha & Hn & Ho).
  exists (AESGCMCipher a). split_and!.
  - destruct Hk as [-> | ->]; cbn; by rewrite Eb; cbn; rewrite Ea.
  - apply AESGCMCipher_spec; [done|]. rewrite Hn, Ho. lia.
  - cbn. by rewrite Hn, Ho.
Qed.

Lemma NewChaCha20Poly1305Cipher_ok password x :
  ∃ c, NewChaCha20Poly1305Cipher password x = Ret (Ok c) ∧ CipherSpec c ∧
    Overhead c = (if x then 40 else 28)%nat.
Proof.
  unfold NewChaCha20Poly1305Cipher.
  destruct (deriveKey_ok password 32 ltac:(lia)) as (key & -> & Hlen).
  assert (∃ a, (if x then chacha_NewX key else chacha_New key) = Ok a ∧ AEADSpec a ∧
    NonceSize a = (if x then 24 else 12)%nat ∧ aead_Overhead a = 16%nat) as (a & Ea & Ha & Hn & Ho).
  { destruct x; [by apply chacha_NewX_ok|by apply chacha_New_ok]. }
  exists (ChaCha20Poly1305Cipher a x). split_and!.
  - cbn. by rewrite Ea.
  - apply ChaChaCipher_spec; [done|]. rewrite Hn, Ho. destruct x; lia.
  - cbn. unfold ChaChaOverhead. rewrite Hn, Ho. by destruct x.
Qed.

End Lemmas.

(** ** A concrete library, for the witnesses

    A toy AEAD (masking and a constant tag) with the sizes of the real ones. *)

Definition toy_tag : list byte := replicate 16 x5a.

Definition toy_aead (nonceSize : nat) (key : list byte) : AEAD unit :=
  {| NonceSize := nonceSize; aead_Overhead := 16;
     Seal nonce p ad := ((λ b, byte_xor b (hd x00 key)) <$> p) ++ toy_tag;
     Open nonce ct ad :=
       if decide (drop (length ct - 16) ct = toy_tag)
       then Ok ((λ b, byte_xor b (hd x00 key)) <$> take (length ct - 16) ct) else Err tt |}.

#[export] Instance toy_lib : CryptoLib unit (list byte) :=
  {| Sum256 m := take 32 (m ++ replicate 32 x00);
     aes_NewCipher key := if decide (length key ∈ [16; 24; 32]%nat) then Ok key else Err tt;
     NewGCM key := Ok (toy_aead 12 key);
     chacha_New key := if decide (length key = 32%nat) then Ok (toy_aead 12 key) else Err tt;
     chacha_NewX key := if decide (length key = 32%nat) then Ok (toy_aead 24 key) else Err tt |}.

Lemma toy_aead_spec n key : AEADSpec (toy_aead n key).
Proof.
  split; cbn; intros nonce p ad _ _.
  - rewrite length_app, length_fmap. done.
  - rewrite length_app, length_fmap. cbn [length toy_tag replicate].
    replace (length p + 16 - 16)%nat with (length p) by lia.
    rewrite decide_True by by rewrite drop_app_length' by by rewrite length_fmap.
    rewrite take_app_length' by by rewrite length_fmap.
    f_equal. induction p as [|b p IH]; [done|].
    cbn [fmap list_fmap]. f_equal; [apply byte_xor_involutive|apply IH].
Qed.

#[export] Instance toy_lib_spec : CryptoLibSpec unit (list byte) toy_lib.
Proof.
  split; cbn; intros.
  - rewrite length_take, length_app. cbn [length]. lia.
  - rewrite decide_True by done. eauto.
  - eauto using toy_aead_spec.
  - rewrite decide_True by done. eauto using toy_aead_spec.
  - rewrite decide_True by done. eauto using toy_aead_spec.
Qed.

(** The whole case analysis of the factory. *)
Lemma NewCipher_cases {E Block} (L : CryptoLib E Block) `{!CryptoLibSpec E Block L} (cfg : CryptoConfig) :
  match NewCipher cfg with
  | Panic => False
  | Ret (Ok c) =>
      CipherSpec c ∧
      (cc_Type cfg ∈ [CipherNone; CipherXOR] ∧ Overhead c = 0%nat ∨
       cc_Type cfg ∈ authenticated ∧ cc_Password cfg ≠ ""%string ∧
       Overhead c = if String.eqb (cc_Type cfg) CipherXChaCha20Poly1305 then 40%nat else 28%nat)
  | Ret (Err e) =>
      e = ErrUnsupportedCipher (cc_Type cfg) ∧ cc_Type cfg ∉ CipherNone :: CipherXOR :: authenticated ∨
      (∃ name, e = ErrPasswordRequired name) ∧ cc_Type cfg ∈ authenticated ∧ cc_Password cfg = ""%string
  end.
Proof.
  unfold NewCipher, authenticated. destruct cfg as [t pw]; cbn [cc_Type cc_Password].
  destruct (String.eqb_spec t CipherNone) as [->|?].
  { split; [apply _|]. left. split; [set_solver|done]. }
  destruct (String.eqb_spec t CipherXOR) as [->|?].
  { split; [apply _|]. left. split; [set_solver|done]. }
  repeat match goal with
  | |- context [String.eqb t ?c] =>
      lazymatch goal with |- context [if String.eqb t c then (if String.eqb pw _ then _ else ?k) else _] =>
        destruct (String.eqb_spec t c) as [->|?];
        [destruct (String.eqb_spec pw "") as [->|?];
         [right; split; [eauto|split; [set_solver|done]]|]|]
      end
  end.
  - destruct (NewAESGCMCipher_ok 32 pw) as (c & -> & Hc & Ho); [auto|].
    split; [done|]. right. split_and!; [set_solver|done|by rewrite Ho].
  - destruct (NewAESGCMCipher_ok 16 pw) as (c & -> & Hc & Ho); [auto|].
    split; [done|]. right. split_and!; [set_solver|done|by rewrite Ho].
  - destruct (NewChaCha20Poly1305Cipher_ok pw false) as (c & -> & Hc & Ho).
    split; [done|]. right. split_and!; [set_solver|done|by rewrite Ho].
  - destruct (NewChaCha20Poly1305Cipher_ok pw true) as (c & -> & Hc & Ho).
    split; [done|]. right. split_and!; [set_solver|done|by rewrite Ho].
  - left. split; [done|]. set_solver.
Qed.

(** ** Theorems *)

(** C31: the factory's contract. [NewCipher] never panics; it fails exactly on an
    unknown type or an empty password for an authenticated cipher; and what it
    returns is a cipher whose encryption adds exactly [Overhead] bytes and whose
    decryption inverts it, with the overhead that the type determines. *)
Theorem NewCipher_contract {E Block} (L : CryptoLib E Block) (cfg : CryptoConfig) :
  CryptoLibSpec E Block L →
  match NewCipher cfg with
  | Panic => False
  | Ret (Ok c) =>
      CipherSpec c ∧
      (cc_Type cfg ∈ [CipherNone; CipherXOR] ∧ Overhead c = 0%nat ∨
       cc_Type cfg ∈ authenticated ∧ cc_Password cfg ≠ ""%string ∧
       Overhead c = if String.eqb (cc_Type cfg) CipherXChaCha20Poly1305 then 40%nat else 28%nat)
  | Ret (Err e) =>
      e = ErrUnsupportedCipher (cc_Type cfg) ∧ cc_Type cfg ∉ CipherNone :: CipherXOR :: authenticated ∨
      (∃ name, e = ErrPasswordRequired name) ∧ cc_Type cfg ∈ authenticated ∧ cc_Password cfg = ""%string
  end.
Proof. intros HL. apply NewCipher_cases, HL. Qed.

Lemma NewCipher_contract_witness :
  ∃ c : Cipher unit, NewCipher (mkCryptoConfig CipherXChaCha20Poly1305 "secret") = Ret (Ok c) ∧
    CipherSpec c ∧ Overhead c = 40%nat.
Proof.
  pose proof (NewCipher_contract toy_lib (mkCryptoConfig CipherXChaCha20Poly1305 "secret") _) as H.
  destruct (NewCipher _) as [[c|e]|] eqn:E.
  - exists c. split; [reflexivity|]. split; [apply H|].
    vm_compute in E. injection E as <-. reflexivity.
  - vm_compute in E. discriminate.
  - destruct H.
Defined.

(** C32: confidential in, identical out. Two ends that build their ciphers from
    equal configurations agree: whatever one encrypts, under any nonce the random
    source gives it, the other decrypts to the same datagram; a failing random
    source is an error of [Encrypt], never a ciphertext, and for an authenticated
    cipher an input shorter than the nonce is an error of [Decrypt]. *)
Theorem cipher_ends_agree {E Block} (L : CryptoLib E Block) (cfg : CryptoConfig) c1 c2 rand p :
  CryptoLibSpec E Block L → random_ok rand → Z.of_nat (length p) ≤ max_plaintext →
  NewCipher cfg = Ret (Ok c1) → NewCipher cfg = Ret (Ok c2) →
  match Encrypt c1 rand p with
  | Ok ct => Decrypt c2 ct = Ok p ∧ length ct = (length p + Overhead c2)%nat
  | Err e => e = ErrRandom ∧ ∃ n, rand n = None
  end ∧
  (∀ a ct, c2 = AESGCMCipher a ∨ (∃ x, c2 = ChaCha20Poly1305Cipher a x) →
     (length ct < NonceSize a)%nat → Decrypt c2 ct = Err ErrCiphertextTooShort).
Proof.
  intros HL Hr Hp E1 E2. rewrite E1 in E2. injection E2 as <-.
  assert (CipherSpec c1) as Hc.
  { pose proof (NewCipher_cases L cfg) as H. rewrite E1 in H. apply H. }
  split.
  - destruct (Encrypt c1 rand p) as [ct|e] eqn:Ee.
    + split; [by eapply Decrypt_Encrypt|by eapply length_Encrypt].
    + destruct c1 as [| |a|a x]; cbn in Ee; try done; unfold AEADEncrypt, ChaChaEncrypt in Ee;
        destruct (rand (NonceSize a)) eqn:En; simplify_eq; eauto.
  - intros a ct [-> |[x ->]] Hl; cbn; unfold AEADDecrypt, ChaChaDecrypt; by rewrite decide_True.
Qed.

Definition toy_random : random := λ n, Some (replicate n x07).

Lemma cipher_ends_agree_witness :
  let cfg := mkCryptoConfig CipherAES256GCM "secret" in
  ∃ c : Cipher unit, NewCipher cfg = Ret (Ok c) ∧
    match Encrypt c toy_random [x68; x69] with
    | Ok ct => Decrypt c ct = Ok [x68; x69] ∧ length ct = (2 + Overhead c)%nat
    | Err _ => False
    end.
Proof.
  intros cfg.
  assert (NewCipher cfg = Ret (Ok (AESGCMCipher (toy_aead 12 (String.list_byte_of_string "secret" ++ replicate 26 x00)))))
    as E by reflexivity.
  eexists. split; [exact E|].
  destruct (cipher_ends_agree toy_lib cfg _ _ toy_random [x68; x69] _ (λ n l, ltac:(intros [= <-]; apply length_replicate))
    ltac:(vm_compute; discriminate) E E) as [H _].
  destruct (Encrypt _ _ _) as [ct|e] eqn:Ee; [exact H|vm_compute in Ee; discriminate].
Defined.
