(* ===== verification/Session.v ===== *)
(** * Sessions (internal/session/session.go)

    The two session objects: a [UDPSession] of the client, keyed by the remote
    address of a local UDP peer, and a [BackendSession] of the server, which owns
    a socket to the backend. Sessions are shared through pointers by the tables
    of the client and of the server; those files keep the heap. Here each method
    is a function on the object.

    The first part is what the source uses of Go's [net/netip]. *)

From S2P Require Import Prelude.
From S2P Require Import Words.
From S2P Require Import Stats.

(** ** Addresses *)

(** [netip.Addr]: invalid, IPv4, or IPv6 with a zone. *)
Inductive Addr :=
| AddrZero
| Addr4 (ip : Z)
| Addr6 (ip : Z) (zone : string).

Record AddrPort := mkAddrPort {
  ap_Addr : Addr;
  ap_Port : Z
}.

#[export] Instance Addr_eq_dec : EqDecision Addr.
Proof. solve_decision. Defined.
#[export] Instance AddrPort_eq_dec : EqDecision AddrPort.
Proof. solve_decision. Defined.

#[export] Instance Addr_countable : Countable Addr.
Proof.
  apply (inj_countable'
    (λ a, match a with AddrZero => inl () | Addr4 ip => inr (inl ip) | Addr6 ip z => inr (inr (ip, z)) end)
    (λ s, match s with inl _ => AddrZero | inr (inl ip) => Addr4 ip | inr (inr (ip, z)) => Addr6 ip z end)).
  by intros [].
Defined.
#[export] Instance AddrPort_countable : Countable AddrPort.
Proof.
  apply (inj_countable' (λ a, (ap_Addr a, ap_Port a)) (λ p, mkAddrPort p.1 p.2)). by intros [].
Defined.

(** An IPv6 address wraps an IPv4 one when it starts with [::ffff]. *)
Definition Is4In6 (a : Addr) : bool :=
  match a with Addr6 ip _ => Z.shiftr ip 32 =? 0xffff | _ => false end.

Definition Unmap (a : Addr) : Addr :=
  match a with
  | Addr6 ip _ => if Is4In6 a then Addr4 (u32 ip) else a
  | _ => a
  end.

(** [net.UDPAddr]. *)
Record UDPAddr := mkUDPAddr {
  ua_IP : list byte;
  ua_Port : Z;
  ua_Zone : string
}.

Definition AsSlice (a : Addr) : list byte :=
  match a with AddrZero => [] | Addr4 ip => be_put 4 ip | Addr6 ip _ => be_put 16 ip end.

Definition UDPAddrFromAddrPort (ap : AddrPort) : UDPAddr :=
  {| ua_IP := AsSlice (ap_Addr ap);
     ua_Port := ap_Port ap;
     ua_Zone := match ap_Addr ap with Addr6 _ z => z | _ => "" end |}.

(** [addr.IP != nil && addr.IP.To4() != nil]: four bytes, or sixteen that
    wrap an IPv4 address. *)
Definition To4 (ip : list byte) : bool :=
  bool_decide (length ip = 4%nat) ||
  (bool_decide (length ip = 16%nat) && bool_decide (take 12 ip = replicate 10 x00 ++ [xff; xff])).

(** [UDPAddr.AddrPort]. *)
Definition UDPAddr_AddrPort (a : UDPAddr) : AddrPort :=
  let addr :=
    if decide (length (ua_IP a) = 4%nat) then Addr4 (be_get (ua_IP a))
    else if decide (length (ua_IP a) = 16%nat) then Addr6 (be_get (ua_IP a)) (ua_Zone a)
    else AddrZero in
  mkAddrPort addr (u16 (ua_Port a)).

Definition addr_wf (a : Addr) : Prop :=
  match a with AddrZero => True | Addr4 ip => in_word 32 ip | Addr6 ip _ => in_word 128 ip end.
Definition addrport_wf (a : AddrPort) : Prop := addr_wf (ap_Addr a) ∧ in_word 16 (ap_Port a).

Lemma Unmap_idem a : Unmap (Unmap a) = Unmap a.
Proof. destruct a; cbn [Unmap]; try done. case_match eqn:E; [done|]. cbn [Unmap]. by rewrite E. Qed.

Lemma Unmap_wf a : addr_wf a → addr_wf (Unmap a).
Proof.
  destruct a as [|ip|ip z]; cbn [Unmap]; [tauto..|]. destruct (Is4In6 _); [|tauto].
  intros _. apply in_word_wrap. lia.
Qed.

Lemma AddrPort_roundtrip ap : addrport_wf ap → UDPAddr_AddrPort (UDPAddrFromAddrPort ap) = ap.
Proof.
  destruct ap as [a p]. intros [Ha Hp]. cbn in Ha, Hp. unfold UDPAddr_AddrPort, UDPAddrFromAddrPort.
  cbn [ua_IP ua_Port ua_Zone ap_Addr ap_Port]. unfold u16. rewrite (wrap_small 16) by done. f_equal.
  destruct a; cbn [AsSlice addr_wf] in *; rewrite ?length_be_put; [done|..].
  - rewrite decide_True by done. by rewrite be_get_put_small.
  - rewrite decide_False, decide_True by done. by rewrite be_get_put_small.
Qed.

(** ** Data *)

(** A socket or a connection is named by a number. *)
Abbreviation conn_id := nat (only parsing).

(** What a handler does to the network, in order: bytes given to a TCP
    connection, a connection closed, a datagram given to the UDP socket for a local
    peer (also when that write then fails), a datagram sent on a backend socket. *)
Inductive effect :=
| TcpWrite (c : conn_id) (bs : list byte)
| TcpClose (c : conn_id)
| UdpWrite (to : AddrPort) (bs : list byte)
| BackendWrite (c : conn_id) (bs : list byte)
| BackendClose (c : conn_id).

(** The outcome of one write of a connection: all bytes accepted, or an error
    after some of them. *)
Inductive write_outcome :=
| Written
| WriteError (n : nat).

Record UDPSession := mkUDPSession {
  us_sessionID : Z;
  us_conn : option conn_id;
  us_remoteAddr : UDPAddr;
  us_remoteAddrPort : AddrPort;
  us_lastActiveUnixNano : Z;
  us_sequenceID : Z
}.

Record BackendSession := mkBackendSession {
  bs_sessionID : Z;
  bs_conn : option conn_id;
  bs_backendAddr : UDPAddr;
  bs_lastActiveUnixNano : Z;
  bs_sequenceID : Z;
  bs_downstreamConn : option conn_id
}.

(** ** Operations

    [now] is the wall clock in nanoseconds since the epoch, as an integer;
    [UnixNano] wraps it into an [int64]. *)

Definition UnixNano (now : Z) : Z := i64 now.

Definition NewUDPSessionAddrPort (now sessionID : Z) (conn : option conn_id) (ap : AddrPort) : UDPSession :=
  {| us_sessionID := sessionID; us_conn := conn; us_remoteAddr := UDPAddrFromAddrPort ap;
     us_remoteAddrPort := ap; us_lastActiveUnixNano := UnixNano now; us_sequenceID := 0 |}.

Definition NewUDPSession (now sessionID : Z) (conn : option conn_id) (a : UDPAddr) : UDPSession :=
  NewUDPSessionAddrPort now sessionID conn (UDPAddr_AddrPort a).

Definition us_UpdateLastActive (now : Z) (s : UDPSession) : UDPSession :=
  {| us_sessionID := us_sessionID s; us_conn := us_conn s; us_remoteAddr := us_remoteAddr s;
     us_remoteAddrPort := us_remoteAddrPort s; us_lastActiveUnixNano := UnixNano now;
     us_sequenceID := us_sequenceID s |}.

(** [atomic.AddUint32(&s.sequenceID, 1)]: the new value is the result. *)
Definition us_NextSequenceID (s : UDPSession) : Z * UDPSession :=
  let seq := u32 (us_sequenceID s + 1) in
  (seq, {| us_sessionID := us_sessionID s; us_conn := us_conn s; us_remoteAddr := us_remoteAddr s;
           us_remoteAddrPort := us_remoteAddrPort s;
           us_lastActiveUnixNano := us_lastActiveUnixNano s; us_sequenceID := seq |}).

Definition us_IsExpired (now timeout : Z) (s : UDPSession) : bool :=
  timeout <? time_Since now (us_lastActiveUnixNano s).

(** [Close]: the socket it closes, if any. *)
Definition us_Close (s : UDPSession) : option conn_id := us_conn s.

Definition NewBackendSession (now sessionID : Z) (conn : option conn_id) (addr : UDPAddr)
    (downstreamConn : option conn_id) : BackendSession :=
  {| bs_sessionID := sessionID; bs_conn := conn; bs_backendAddr := addr;
     bs_lastActiveUnixNano := UnixNano now; bs_sequenceID := 0;
     bs_downstreamConn := downstreamConn |}.

Definition SetDownstreamConn (c : option conn_id) (s : BackendSession) : BackendSession :=
  {| bs_sessionID := bs_sessionID s; bs_conn := bs_conn s; bs_backendAddr := bs_backendAddr s;
     bs_lastActiveUnixNano := bs_lastActiveUnixNano s; bs_sequenceID := bs_sequenceID s;
     bs_downstreamConn := c |}.

Definition bs_UpdateLastActive (now : Z) (s : BackendSession) : BackendSession :=
  {| bs_sessionID := bs_sessionID s; bs_conn := bs_conn s; bs_backendAddr := bs_backendAddr s;
     bs_lastActiveUnixNano := UnixNano now; bs_sequenceID := bs_sequenceID s;
     bs_downstreamConn := bs_downstreamConn s |}.

Definition bs_NextSequenceID (s : BackendSession) : Z * BackendSession :=
  let seq := u32 (bs_sequenceID s + 1) in
  (seq, {| bs_sessionID := bs_sessionID s; bs_conn := bs_conn s; bs_backendAddr := bs_backendAddr s;
           bs_lastActiveUnixNano := bs_lastActiveUnixNano s; bs_sequenceID := seq;
           bs_downstreamConn := bs_downstreamConn s |}).

Definition bs_IsExpired (now timeout : Z) (s : BackendSession) : bool :=
  timeout <? time_Since now (bs_lastActiveUnixNano s).

Definition bs_Close (s : BackendSession) : option conn_id := bs_conn s.

(** The accessors. *)
Definition us_GetSessionID (s : UDPSession) : Z := us_sessionID s.
Definition us_GetRemoteAddr (s : UDPSession) : UDPAddr := us_remoteAddr s.
Definition us_GetRemoteAddrPort (s : UDPSession) : AddrPort := us_remoteAddrPort s.
Definition us_GetLastActive (s : UDPSession) : Z := us_lastActiveUnixNano s.
Definition us_GetSequenceID (s : UDPSession) : Z := us_sequenceID s.
Definition bs_GetSessionID (s : BackendSession) : Z := bs_sessionID s.
Definition bs_GetBackendAddr (s : BackendSession) : UDPAddr := bs_backendAddr s.
Definition bs_GetDownstreamConn (s : BackendSession) : option conn_id := bs_downstreamConn s.
Definition bs_GetLastActive (s : BackendSession) : Z := bs_lastActiveUnixNano s.
Definition bs_GetSequenceID (s : BackendSession) : Z := bs_sequenceID s.
Definition bs_GetConn (s : BackendSession) : option conn_id := bs_conn s.

(** [time.Duration(seconds) * time.Second]. *)
Definition seconds (n : Z) : Z := i64 (n * 1000000000).
Definition milliseconds (n : Z) : Z := i64 (n * 1000000).

(** ** Lemmas *)

(** Saturation never changes the comparison with a timeout. *)
Lemma saturate_lt t d : - 2 ^ 63 ≤ t < 2 ^ 63 - 1 → (t <? saturate d) = (t <? d).
Proof. intros ?. unfold saturate. destruct (Z.ltb_spec t d), (Z.ltb_spec t (Z.max (- 2 ^ 63) (Z.min d (2 ^ 63 - 1)))); lia. Qed.

Lemma UnixNano_small now : - 2 ^ 63 ≤ now < 2 ^ 63 → UnixNano now = now.
Proof. intros ?. by apply swrap_small. Qed.

Lemma seconds_small n : 0 ≤ n ≤ 9223372036 → seconds n = n * 1000000000.
Proof. intros ?. apply swrap_small; lia. Qed.

(** The sequence numbers a session hands out, from its current state. *)
Fixpoint us_sequence (n : nat) (s : UDPSession) : list Z * UDPSession :=
  match n with
  | O => ([], s)
  | S n => let '(q, s) := us_NextSequenceID s in
           let '(qs, s) := us_sequence n s in (q :: qs, s)
  end.

Lemma us_sequence_spec n s i :
  in_word 32 (us_sequenceID s) → (i < n)%nat →
  (us_sequence n s).1 !! i = Some (u32 (us_sequenceID s + Z.of_nat i + 1)).
Proof.
  revert s i. induction n as [|n IH]; intros s i Hs Hi; [lia|].
  cbn [us_sequence us_NextSequenceID].
  match goal with |- context [us_sequence n ?s'] => specialize (IH s'); destruct (us_sequence n s') as [qs s''] eqn:E end.
  cbn [fst] in *. destruct i as [|i]; [cbn; do 2 f_equal; lia|].
  cbn [lookup list_lookup]. rewrite IH; [|apply in_word_wrap; lia|lia].
  cbn [us_sequenceID]. f_equal. unfold u32.
  rewrite <- Z.add_assoc, wrap_add_l. f_equal. lia.
Qed.

Lemma length_us_sequence n s : length (us_sequence n s).1 = n.
Proof.
  revert s. induction n as [|n IH]; intros s; [done|]. cbn [us_sequence us_NextSequenceID].
  match goal with |- context [us_sequence n ?s'] => specialize (IH s'); destruct (us_sequence n s') as [qs s''] end.
  cbn in *. by rewrite IH.
Qed.

(** ** Theorems *)

(** Sequence numbers. A new session hands out 1, 2, 3, ... and the [k]-th
    number is [k] modulo [2^32]; no number repeats within [2^32 - 1] consecutive
    packets, and the number after [2^32 - 1] is 0. *)
Theorem sequence_numbers now sid conn ap n :
  let qs := (us_sequence n (NewUDPSessionAddrPort now sid conn ap)).1 in
  length qs = n ∧
  (∀ i, (i < n)%nat → qs !! i = Some (u32 (Z.of_nat i + 1))) ∧
  (∀ i j q, (i < j)%nat → Z.of_nat (j - i) < 2 ^ 32 → qs !! i = Some q → qs !! j ≠ Some q).
Proof.
  intros qs. unfold qs. split_and!.
  - apply length_us_sequence.
  - intros i Hi. rewrite us_sequence_spec; [done..|done].
  - intros i j q Hij Hd Hi Hj.
    pose proof (lookup_lt_Some _ _ _ Hi) as Hi'. pose proof (lookup_lt_Some _ _ _ Hj) as Hj'.
    rewrite length_us_sequence in Hi', Hj'.
    rewrite us_sequence_spec in Hi, Hj by done.
    change (us_sequenceID _) with 0 in Hi, Hj. rewrite Z.add_0_l in Hi, Hj.
    assert (u32 (u32 (Z.of_nat j + 1) - u32 (Z.of_nat i + 1)) = Z.of_nat (j - i)) as E.
    { unfold u32. rewrite wrap_sub, wrap_small; [lia|]. unfold in_word. lia. }
    assert (u32 (Z.of_nat j + 1) = u32 (Z.of_nat i + 1)) as E' by congruence.
    rewrite E', Z.sub_diag in E. change (u32 0) with 0 in E. lia.
Qed.

(** Expiry. With the clock in the range of [UnixNano] and any timeout below
    the longest [Duration], a session is expired exactly when the time since its
    last activity exceeds the timeout: the saturating subtraction never changes
    the answer; in particular a session that has just been touched is not, and
    the same holds for a backend session. *)
Theorem expiry_exact now now' timeout (s : UDPSession) (b : BackendSession) :
  - 2 ^ 63 ≤ now < 2 ^ 63 → - 2 ^ 63 ≤ timeout < 2 ^ 63 - 1 →
  us_IsExpired now' timeout (us_UpdateLastActive now s) = (timeout <? now' - now) ∧
  bs_IsExpired now' timeout (bs_UpdateLastActive now b) = (timeout <? now' - now) ∧
  us_IsExpired now' timeout s = (timeout <? now' - us_lastActiveUnixNano s) ∧
  (0 ≤ timeout → us_IsExpired now timeout (us_UpdateLastActive now s) = false).
Proof.
  intros Hn Ht. unfold us_IsExpired, bs_IsExpired, time_Since. rewrite !saturate_lt by done.
  cbn. rewrite UnixNano_small by done. split_and!; try done. intros. apply Z.ltb_ge. lia.
Qed.

Lemma expiry_exact_witness :
  let s := NewUDPSessionAddrPort 0 1 None (mkAddrPort (Addr4 0x7f000001) 5000) in
  let b := NewBackendSession 0 1 None (mkUDPAddr [] 0 "") None in
  us_IsExpired 301000000001 (seconds 300) (us_UpdateLastActive 1000000000 s) = true ∧
  us_IsExpired 301000000000 (seconds 300) (us_UpdateLastActive 1000000000 s) = false.
Proof.
  intros s b.
  destruct (expiry_exact 1000000000 301000000001 (seconds 300) s b) as [-> _]; [by_compute..|].
  destruct (expiry_exact 1000000000 301000000000 (seconds 300) s b) as [-> _]; [by_compute..|].
  split; reflexivity.
Defined.
