(* ===== verification/Reorder.v ===== *)
(** * The upstream reorder window (internal/server/server.go)

    In stripe mode the client spreads the packets of one session over several TCP
    lanes by sequence number, so they reach the server out of order.
    [writeUpstreamToBackend] puts them back in order: it keeps the next expected
    number and a map of packets that arrived early, drops packets that are late,
    resets when a packet is further ahead than the window, and forces progress
    when the map is full or nothing was written for [hold].

    The write to the backend socket is a parameter: a function on an abstract
    world [W] that says whether it succeeded. [log] is the datagrams the backend
    has received; [Server.v] instantiates both. *)

From S2P Require Import Prelude.
From S2P Require Import Words.
From S2P Require Import Stats.

(** ** Data *)

Record upstreamReorderState := mkReorder {
  initialized : bool;
  expected : Z;
  rs_pending : gmap Z (list byte);
  lastDrain : Z
}.

(** The zero value with an empty map; a zero [time.Time] is never read before
    [initialized] is set. *)
Definition new_reorder : upstreamReorderState := mkReorder false 0 ∅ 0.

(** ** Operations *)

Section Reorder.
Context {W : Type}.
Variable write : list byte → W → bool * W.

(** The loop that writes the packets that are now in order. Each turn deletes an
    entry of the map, so its size bounds the number of turns. *)
Fixpoint drain_pending (fuel : nat) (now : Z) (st : upstreamReorderState) (w : W)
    : upstreamReorderState * W :=
  match fuel with
  | O => (st, w)
  | S fuel =>
      match rs_pending st !! expected st with
      | None => (st, w)
      | Some next =>
          let st := mkReorder (initialized st) (expected st)
                      (delete (expected st) (rs_pending st)) (lastDrain st) in
          let '(ok, w) := write next w in
          if negb ok then (st, w)
          else drain_pending fuel now
                 (mkReorder (initialized st) (u32 (expected st + 1)) (rs_pending st) now) w
      end
  end.

Definition drain_fuel (st : upstreamReorderState) : nat := S (size (rs_pending st)).

(** [for seq := range state.pending]: the least key, by the loop over the map. *)
Definition min_pending (m : gmap Z (list byte)) : option Z :=
  map_fold (λ seq _ acc, match acc with
                         | None => Some seq
                         | Some minSeq => if seq <? minSeq then Some seq else Some minSeq
                         end) None m.

Definition forceDrainReorderLocked (st : upstreamReorderState) (now : Z) (w : W)
    : upstreamReorderState * W :=
  if decide (size (rs_pending st) = 0%nat) then (st, w)
  else
    match min_pending (rs_pending st) with
    | None => (st, w)
    | Some minSeq =>
        let st := mkReorder (initialized st) minSeq (rs_pending st) (lastDrain st) in
        drain_pending (drain_fuel st) now st w
    end.

(** [writeUpstreamToBackend] once the session's state is loaded and locked. *)
Definition reorder_write (window hold : Z) (now seq : Z) (payload : list byte)
    (st : upstreamReorderState) (w : W) : upstreamReorderState * W :=
  let st := if negb (initialized st) then mkReorder true seq (rs_pending st) now else st in
  if seq <? expected st then (st, w)
  else if seq =? expected st then
    let '(ok, w) := write payload w in
    if negb ok then (st, w)
    else
      let st := mkReorder (initialized st) (u32 (expected st + 1)) (rs_pending st) now in
      drain_pending (drain_fuel st) now st w
  else if u32 (Z.max 1 window) <? u32 (seq - expected st) then
    let st := mkReorder (initialized st) (expected st) ∅ (lastDrain st) in
    let '(ok, w) := write payload w in
    if ok then (mkReorder (initialized st) (u32 (seq + 1)) (rs_pending st) now, w)
    else (st, w)
  else
    let st := match rs_pending st !! seq with
              | None => mkReorder (initialized st) (expected st)
                          (<[seq := payload]> (rs_pending st)) (lastDrain st)
              | Some _ => st
              end in
    if (Z.max 1 window <=? Z.of_nat (size (rs_pending st))) || (hold <=? saturate (now - lastDrain st))
    then forceDrainReorderLocked st now w
    else (st, w).

(** Whatever the writes keep, the whole operation keeps. *)
Lemma drain_pending_keeps (P : W → W → Prop) `{!PreOrder P} fuel now st w :
  (∀ d w, P w (write d w).2) → P w (drain_pending fuel now st w).2.
Proof.
  intros Hw. revert st w. induction fuel as [|fuel IH]; intros st w; cbn [drain_pending]; [done|].
  destruct (rs_pending st !! expected st) as [d|]; [|done].
  specialize (Hw d w). destruct (write d w) as [[] w1]; cbn [negb snd] in *; [|done].
  etrans; [done|apply IH].
Qed.

Lemma reorder_write_keeps (P : W → W → Prop) `{!PreOrder P} window hold now seq payload st w :
  (∀ d w, P w (write d w).2) → P w (reorder_write window hold now seq payload st w).2.
Proof.
  intros Hw. unfold reorder_write.
  generalize (if negb (initialized st) then mkReorder true seq (rs_pending st) now else st). clear st. intros st.
  destruct (seq <? expected st); [done|]. pose proof (Hw payload w) as H1.
  destruct (seq =? expected st).
  { destruct (write payload w) as [[] w1]; cbn [negb snd] in *; [|done].
    etrans; [done|]. by apply drain_pending_keeps. }
  destruct (_ <? _); [by destruct (write payload w) as [[] w1]|].
  destruct (_ || _); [|done]. unfold forceDrainReorderLocked. destruct (decide _); [done|].
  destruct (min_pending _); [|done]. by apply drain_pending_keeps.
Qed.

(** An arrival: its time, sequence number and decrypted payload. *)
Record arrival := mkArrival { a_now : Z; a_seq : Z; a_payload : list byte }.

Definition reorder_run (window hold : Z) (st : upstreamReorderState) (w : W)
    (arrivals : list arrival) : upstreamReorderState * W :=
  foldl (λ sw a, reorder_write window hold (a_now a) (a_seq a) (a_payload a) sw.1 sw.2)
    (st, w) arrivals.

(** ** The map *)

Lemma min_pending_spec (m : gmap Z (list byte)) :
  match min_pending m with
  | None => m = ∅
  | Some k => is_Some (m !! k) ∧ ∀ j, is_Some (m !! j) → k ≤ j
  end.
Proof.
  unfold min_pending. apply (map_fold_weak_ind (λ acc (m : gmap Z (list byte)),
    match acc with
    | None => m = ∅
    | Some k => is_Some (m !! k) ∧ ∀ j, is_Some (m !! j) → k ≤ j
    end)); [done|].
  intros i x m' [k|] Hi; cbn beta iota.
  - intros [Hk Hmin].
    assert (∀ j, is_Some (<[i:=x]> m' !! j) → j = i ∨ is_Some (m' !! j)) as Hins.
    { intros j Hj. destruct (decide (j = i)); [by left|right]. by rewrite lookup_insert_ne in Hj. }
    destruct (Z.ltb_spec i k); split.
    + rewrite lookup_insert_eq. eauto.
    + intros j [->|Hj%Hmin]%Hins; lia.
    + destruct (decide (i = k)) as [->|]; [rewrite lookup_insert_eq; eauto|by rewrite lookup_insert_ne].
    + intros j [->|Hj%Hmin]%Hins; lia.
  - intros ->. split; [rewrite lookup_insert_eq; eauto|].
    intros j Hj. destruct (decide (j = i)) as [->|]; [lia|].
    rewrite lookup_insert_ne, lookup_empty in Hj by done. by destruct Hj.
Qed.

(** ** Safety

    [R q p]: some packet with number [q] and payload [p] has arrived. *)

Variable log : W → list (list byte).
Hypothesis write_log : ∀ p w,
  log (write p w).2 = if (write p w).1 then log w ++ [p] else log w.

Section Safety.
Variable R : Z → list byte → Prop.
Variable bound : Z.

(** The datagrams the backend got are payloads of arrived packets in strictly
    increasing order of their numbers, all below [expected]; what is buffered is
    at or beyond [expected] and within the window. *)
Record reorder_inv (st : upstreamReorderState) (w : W) (base : list (list byte)) : Prop := {
  inv_expected : 0 ≤ expected st < 2 ^ 32;
  inv_pending k p : rs_pending st !! k = Some p →
    expected st ≤ k < 2 ^ 32 - 1 ∧ k ≤ expected st + bound ∧ R k p;
  inv_sorted : ∃ qs ps, log w = base ++ ps ∧ Forall2 R qs ps ∧ StronglySorted Z.lt qs ∧
    Forall (λ q, 0 ≤ q < expected st) qs;
  inv_uninit : initialized st = false → rs_pending st = ∅ ∧ log w = base
}.

Lemma sorted_snoc qs q :
  StronglySorted Z.lt qs → Forall (λ x, x < q) qs → StronglySorted Z.lt (qs ++ [q]).
Proof.
  induction 1 as [|x qs Hs IH Hx]; intros Hq; cbn; [repeat constructor|].
  inversion_clear Hq. constructor; [auto|]. apply Forall_app. split; [done|]. by repeat constructor.
Qed.

Lemma range_weaken e e' qs :
  e ≤ e' → Forall (λ x, 0 ≤ x < e) qs → Forall (λ x, 0 ≤ x < e') qs.
Proof. intros ?. induction 1; constructor; [lia|done]. Qed.

(** Advancing [expected] past a number that was just written keeps the log. *)
Lemma log_snoc w w' base p q e :
  log w' = log w ++ [p] → R q p → 0 ≤ e ≤ q →
  (∃ qs ps, log w = base ++ ps ∧ Forall2 R qs ps ∧ StronglySorted Z.lt qs ∧
     Forall (λ x, 0 ≤ x < e) qs) →
  ∃ qs ps, log w' = base ++ ps ∧ Forall2 R qs ps ∧ StronglySorted Z.lt qs ∧
     Forall (λ x, 0 ≤ x < q + 1) qs.
Proof.
  intros Hl HR He (qs & ps & E & HF & HS & Hlt).
  exists (qs ++ [q]), (ps ++ [p]). split_and!.
  - by rewrite Hl, E, app_assoc.
  - apply Forall2_app; [done|]. by repeat constructor.
  - apply sorted_snoc; [done|]. clear -Hlt He. induction Hlt; constructor; [lia|done].
  - apply Forall_app. split; [|repeat constructor; lia].
    apply (range_weaken e); [lia|done].
Qed.

Lemma log_weaken w w' base e e' :
  log w' = log w → e ≤ e' →
  (∃ qs ps, log w = base ++ ps ∧ Forall2 R qs ps ∧ StronglySorted Z.lt qs ∧
     Forall (λ x, 0 ≤ x < e) qs) →
  ∃ qs ps, log w' = base ++ ps ∧ Forall2 R qs ps ∧ StronglySorted Z.lt qs ∧
     Forall (λ x, 0 ≤ x < e') qs.
Proof.
  intros -> ? (qs & ps & ? & ? & ? & Hlt). exists qs, ps. split_and!; try done.
  by apply (range_weaken e).
Qed.

(** The drain loop keeps the invariant, never grows the map, shrinks it when it
    can, and stops where nothing is due. *)
Lemma drain_pending_inv fuel now st w base :
  reorder_inv st w base → initialized st = true → (size (rs_pending st) < fuel)%nat →
  let '(st', w') := drain_pending fuel now st w in
  reorder_inv st' w' base ∧ initialized st' = true ∧
  rs_pending st' !! expected st' = None ∧
  (size (rs_pending st') ≤ size (rs_pending st))%nat ∧
  (is_Some (rs_pending st !! expected st) → (size (rs_pending st') < size (rs_pending st))%nat).
Proof.
  revert st w. induction fuel as [|fuel IH]; intros st w Hi Hin Hf; cbn [drain_pending]; [lia|].
  destruct (rs_pending st !! expected st) as [p|] eqn:Ep.
  2: { split_and!; done. }
  pose proof (write_log p w) as Hl. destruct (write p w) as [ok w1]; cbn [fst snd] in Hl.
  destruct Hi as [He Hp Hs Hu]. pose proof (Hp _ _ Ep) as (Hk & _ & HR).
  assert ((size (delete (expected st) (rs_pending st)) < size (rs_pending st))%nat) as Hsz.
  { pose proof (map_size_ne_0_lookup_2 _ _ (mk_is_Some _ _ Ep)) as Hne.
    rewrite map_size_delete_Some by eauto. lia. }
  destruct ok; cbn [negb expected rs_pending initialized lastDrain].
  - rewrite u32_small_succ by lia.
    match goal with |- let '(_, _) := drain_pending _ _ ?s ?w in _ =>
      specialize (IH s w); destruct (drain_pending fuel now s w) as [st' w'] end.
    cbn [initialized rs_pending] in IH.
    destruct IH as (? & ? & ? & ? & _); [|done|lia|split_and!; [done..|lia|lia]].
    split; cbn [expected rs_pending initialized]; [lia| | |by rewrite Hin].
    + intros k q. rewrite lookup_delete_Some. intros [? Hq].
      destruct (Hp _ _ Hq) as (? & ? & ?). split_and!; [lia..|done].
    + apply (log_snoc w w1 base p (expected st) (expected st)); [done|done|lia|done].
  - split_and!; [|done|apply lookup_delete_eq|cbn; lia|cbn; lia].
    split; cbn [expected rs_pending initialized]; [done| | |by rewrite Hin].
    + intros k q. rewrite lookup_delete_Some. intros [? Hq]. by apply Hp.
    + apply (log_weaken w w1 base (expected st) (expected st)); [done|lia|done].
Qed.

(** What holds between two arrivals. *)
Definition reorder_ok (window : Z) (st : upstreamReorderState) (w : W) (base : list (list byte)) : Prop :=
  reorder_inv st w base ∧ rs_pending st !! expected st = None ∧
  Z.of_nat (size (rs_pending st)) < Z.max 1 window.

Lemma drain_pending_ok window fuel now st w base :
  reorder_inv st w base → initialized st = true → (size (rs_pending st) < fuel)%nat →
  Z.of_nat (size (rs_pending st)) < Z.max 1 window ∨
  (Z.of_nat (size (rs_pending st)) ≤ Z.max 1 window ∧ is_Some (rs_pending st !! expected st)) →
  let '(st', w') := drain_pending fuel now st w in
  reorder_ok window st' w' base ∧ initialized st' = true.
Proof.
  intros Hi Hin Hf Hsz. pose proof (drain_pending_inv fuel now st w base Hi Hin Hf) as H.
  destruct (drain_pending fuel now st w) as [st' w'].
  destruct H as (? & ? & ? & ? & Hlt). split; [|done]. split_and!; [done..|].
  destruct Hsz as [?|[? Hs]]; [lia|]. specialize (Hlt Hs). lia.
Qed.

Lemma forceDrain_ok window now st w base :
  reorder_inv st w base → initialized st = true →
  Z.of_nat (size (rs_pending st)) ≤ Z.max 1 window → rs_pending st !! expected st = None →
  let '(st', w') := forceDrainReorderLocked st now w in
  reorder_ok window st' w' base ∧ initialized st' = true.
Proof.
  intros Hi Hin Hsz Hn. unfold forceDrainReorderLocked.
  destruct (decide _) as [E0|E0]; [split_and!; [split_and!; [done..|lia]|done]|].
  pose proof (min_pending_spec (rs_pending st)) as Hmin.
  destruct (min_pending (rs_pending st)) as [k|]; [|by rewrite Hmin, map_size_empty in E0].
  destruct Hmin as [Hk Hleast]. pose proof Hi as [He Hp Hs Hu].
  destruct (Hk) as [p Ep]. destruct (Hp _ _ Ep) as (Hk1 & Hk2 & _).
  apply drain_pending_ok; cbn [rs_pending expected initialized]; [|done|unfold drain_fuel; cbn; lia|right; eauto].
  split; cbn [rs_pending expected initialized]; [lia| | |by rewrite Hin].
  - intros j q Hj. pose proof (Hleast j (mk_is_Some _ _ Hj)). 
    destruct (Hp _ _ Hj) as (? & ? & ?). split_and!; [lia..|done].
  - apply (log_weaken w w base (expected st) k); [done|lia|done].
Qed.

Lemma start_ok window seq now st w base :
  reorder_ok window st w base → 0 ≤ seq < 2 ^ 32 - 1 →
  let st := if negb (initialized st) then mkReorder true seq (rs_pending st) now else st in
  reorder_ok window st w base ∧ initialized st = true.
Proof.
  intros Hok Hseq st1. unfold st1. destruct (initialized st) eqn:Ei; cbn [negb]; [done|].
  destruct Hok as ([He Hp Hs Hu] & Hn & Hsz). destruct (Hu Ei) as [Hpe Hlog].
  split; [|done]. split_and!; cbn [expected rs_pending].
  - split; cbn [expected rs_pending initialized]; [lia| | |done].
    + intros k p. by rewrite Hpe, lookup_empty.
    + exists [], []. rewrite Hlog, app_nil_r. split_and!; constructor.
  - by rewrite Hpe, lookup_empty.
  - done.
Qed.

(** One arrival, on every branch. *)
Lemma reorder_write_ok window hold now seq payload st w base :
  reorder_ok window st w base → 0 ≤ seq < 2 ^ 32 - 1 → R seq payload →
  Z.max 1 window < 2 ^ 32 → bound = Z.max 1 window →
  let '(st', w') := reorder_write window hold now seq payload st w in
  reorder_ok window st' w' base ∧ initialized st' = true.
Proof.
  intros Hok Hseq HR Hwin ->.
  unfold reorder_write. destruct (start_ok window seq now st w base Hok Hseq) as [Hok1 Hin].
  generalize dependent (if negb (initialized st) then mkReorder true seq (rs_pending st) now else st).
  clear st Hok. intros st Hok Hin. pose proof Hok as ([He Hp Hs Hu] & Hn & Hsz).
  destruct (Z.ltb_spec seq (expected st)) as [|Hge]; [done|].
  destruct (Z.eqb_spec seq (expected st)) as [->|Hne].
  { pose proof (write_log payload w) as Hl. destruct (write payload w) as [[] w1]; cbn [negb fst snd] in *.
    - rewrite u32_small_succ by lia.
      apply drain_pending_ok; cbn [rs_pending initialized]; [|done|unfold drain_fuel; cbn; lia|by left].
      split; cbn [expected rs_pending initialized]; [lia| | |by rewrite Hin].
      + intros k q Hq. destruct (Hp _ _ Hq) as (? & ? & ?).
        assert (k ≠ expected st) by congruence. split_and!; [lia..|done].
      + apply (log_snoc w w1 base payload (expected st) (expected st)); [done|done|lia|done].
    - split; [|done]. split_and!; [|done..]. split; [done..| |by rewrite Hin].
      apply (log_weaken w w1 base (expected st) (expected st)); [done|lia|done]. }
  unfold u32 at 1 2. rewrite !wrap_small by (unfold in_word; lia).
  destruct (Z.ltb_spec (Z.max 1 window) (seq - expected st)).
  { pose proof (write_log payload w) as Hl. destruct (write payload w) as [[] w1]; cbn [fst snd] in *.
    - rewrite u32_small_succ by lia. split; [|done].
      split_and!; cbn [expected rs_pending]; [|done|rewrite map_size_empty; lia].
      split; cbn [expected rs_pending initialized]; [lia|by intros ??; rewrite lookup_empty| |by rewrite Hin].
      apply (log_snoc w w1 base payload seq (expected st)); [done|done|lia|done].
    - split; [|done]. split_and!; cbn [expected rs_pending]; [|done|rewrite map_size_empty; lia].
      split; cbn [expected rs_pending initialized]; [done|by intros ??; rewrite lookup_empty| |by rewrite Hin].
      apply (log_weaken w w1 base (expected st) (expected st)); [done|lia|done]. }
  set (st2 := match rs_pending st !! seq with None => _ | Some _ => _ end).
  assert (reorder_inv st2 w base ∧ rs_pending st2 !! expected st2 = None ∧ initialized st2 = true ∧
    Z.of_nat (size (rs_pending st2)) ≤ Z.max 1 window) as (Hi2 & Hn2 & Hin2 & Hsz2).
  { unfold st2. destruct (rs_pending st !! seq) eqn:Es; [split_and!; [done..|lia]|].
    cbn [expected rs_pending initialized]. split_and!; [|by rewrite lookup_insert_ne|done|].
    - split; cbn [expected rs_pending initialized]; [done| |done|by rewrite Hin].
      intros k q. destruct (decide (k = seq)) as [->|]; [|rewrite lookup_insert_ne by done; apply Hp].
      rewrite lookup_insert_eq. intros [= <-]. split_and!; [lia..|done].
    - rewrite map_size_insert_None by done. lia. }
  destruct (Z.leb_spec (Z.max 1 window) (Z.of_nat (size (rs_pending st2)))); cbn [orb].
  - by apply forceDrain_ok.
  - destruct (hold <=? _); [by apply forceDrain_ok|]. by split_and!.
Qed.

Lemma reorder_run_ok window hold arrivals st w base :
  reorder_ok window st w base →
  Forall (λ a, 0 ≤ a_seq a < 2 ^ 32 - 1 ∧ R (a_seq a) (a_payload a)) arrivals →
  Z.max 1 window < 2 ^ 32 → bound = Z.max 1 window →
  let '(st', w') := reorder_run window hold st w arrivals in reorder_ok window st' w' base.
Proof.
  intros Hok Ha Hwin Hb. revert st w Hok.
  induction Ha as [|a arrivals [Hs HR] _ IH]; intros st w Hok; cbn; [done|].
  pose proof (reorder_write_ok window hold (a_now a) (a_seq a) (a_payload a) st w base Hok Hs HR Hwin Hb) as H.
  destruct (reorder_write _ _ _ _ _ _ _) as [st' w']. destruct H as [H _]. by apply IH.
Qed.

Lemma new_reorder_ok window w : reorder_ok window new_reorder w (log w).
Proof.
  split_and!; [|done|cbn; rewrite map_size_empty; lia].
  split; cbn; [lia|by intros ??; rewrite lookup_empty| |done].
  exists [], []. rewrite app_nil_r. split_and!; constructor.
Qed.

End Safety.

(** ** Completeness

    When the writes succeed, the numbers are a permutation of an interval and no
    packet is more than a window ahead of one that is still missing, everything
    is written in order. [P] is the numbers that have arrived. *)

Section Restore.
Variables (s t0 : Z) (f : Z → list byte) (window : Z).
Hypothesis write_ok : ∀ p w, (write p w).1 = true.
Hypothesis Hs0 : 0 ≤ s.

Record restore_inv (P : list Z) (st : upstreamReorderState) (w : W) (base : list (list byte)) : Prop := {
  res_init : initialized st = true;
  res_expected : s ≤ expected st < 2 ^ 32;
  res_done k : s ≤ k < expected st → k ∈ P;
  res_log : log w = base ++ (f <$> seqZ s (expected st - s));
  res_pending k : rs_pending st !! k = if decide (k ∈ P ∧ expected st ≤ k) then Some (f k) else None;
  res_time : t0 ≤ lastDrain st;
  res_range k : k ∈ P → s ≤ k < 2 ^ 32 - 1
}.

(** Writing the packet that is due, when [P] grows to [P']. *)
Lemma restore_write P P' st w base now k m :
  restore_inv P st w base → t0 ≤ now → k = expected st →
  P ⊆ P' → k ∈ P' → (∀ k, k ∈ P' → s ≤ k < 2 ^ 32 - 1) →
  (∀ j, m !! j = if decide (j ∈ P' ∧ k + 1 ≤ j) then Some (f j) else None) →
  restore_inv P' (mkReorder true (u32 (k + 1)) m now) (write (f k) w).2 base.
Proof.
  intros [Hi He Hd Hl Hp Ht _] Hnow -> HP Hk Hr Hm. pose proof (Hr _ Hk).
  rewrite u32_small_succ by lia.
  split; cbn [initialized expected rs_pending lastDrain]; try done; [lia|..].
  - intros k Hk'. destruct (decide (k = expected st)) as [->|]; [done|]. apply HP, Hd. lia.
  - rewrite write_log, write_ok, Hl, <- app_assoc. f_equal.
    replace (expected st + 1 - s) with ((expected st - s) + 1) by lia.
    rewrite seqZ_app, fmap_app by lia. f_equal. by replace (s + (expected st - s)) with (expected st) by lia.
Qed.

Lemma drain_restore P fuel now st w base :
  restore_inv P st w base → t0 ≤ now → (size (rs_pending st) < fuel)%nat →
  let '(st', w') := drain_pending fuel now st w in
  restore_inv P st' w' base ∧ expected st' ∉ P ∧ expected st ≤ expected st'.
Proof.
  revert st w. induction fuel as [|fuel IH]; intros st w Hi Hnow Hf; cbn [drain_pending]; [lia|].
  pose proof (res_pending _ _ _ _ Hi (expected st)) as Hp.
  case_decide as Hd; rewrite Hp.
  2: { split; [done|]. split; [|lia]. intros ?. apply Hd. split; [done|lia]. }
  destruct Hd as [Hd _].
  pose proof (write_ok (f (expected st)) w) as Hok. destruct (write _ w) as [ok w1] eqn:Ew.
  cbn [fst] in Hok; subst ok. cbn [negb expected rs_pending initialized lastDrain].
  assert (restore_inv P (mkReorder true (u32 (expected st + 1)) (delete (expected st) (rs_pending st)) now)
    w1 base) as Hi1.
  { pose proof (restore_write P P st w base now (expected st) (delete (expected st) (rs_pending st))
      Hi Hnow eq_refl ltac:(done) Hd (res_range _ _ _ _ Hi)) as H.
    rewrite Ew in H. apply H. intros j. destruct (decide (j = expected st)) as [->|].
    - rewrite lookup_delete_eq, decide_False; [done|lia].
    - rewrite lookup_delete_ne, (res_pending _ _ _ _ Hi) by done.
      apply decide_ext. split; intros [? ?]; (split; [done|lia]). }
  rewrite (res_init _ _ _ _ Hi).
  match goal with |- let '(_, _) := drain_pending _ _ ?s ?w in _ =>
    specialize (IH s w); destruct (drain_pending fuel now s w) as [st' w'] end.
  destruct IH as (? & ? & Hle); [done|done| |].
  - cbn [rs_pending]. rewrite map_size_delete_Some by (rewrite Hp; eauto).
    pose proof (map_size_ne_0_lookup_2 _ _ (mk_is_Some _ _ Hp)). lia.
  - split_and!; [done..|]. cbn [expected] in Hle. pose proof (res_range _ _ _ _ Hi _ Hd).
    rewrite u32_small_succ in Hle by lia. lia.
Qed.

(** The map is smaller than the window when everything in it is within it. *)
Lemma pending_size (m : gmap Z (list byte)) e n :
  1 ≤ n → (∀ k, is_Some (m !! k) → e < k < e + n) → Z.of_nat (size m) < n.
Proof.
  intros Hn Hm. rewrite <- size_dom.
  assert (dom m ⊆ (list_to_set (seqZ (e + 1) (n - 1)) : gset Z)) as Hsub%subseteq_size.
  { intros k Hk%elem_of_dom%Hm. apply elem_of_list_to_set, elem_of_seqZ. lia. }
  rewrite size_list_to_set, length_seqZ in Hsub by apply NoDup_seqZ. lia.
Qed.

Definition within (P : list Z) (st : upstreamReorderState) : Prop :=
  expected st ∉ P ∧ ∀ k, k ∈ P → expected st < k → k - expected st < Z.max 1 window.

Lemma within_snoc q P st st' w base :
  restore_inv P st w base → within P st → expected st ≤ expected st' → expected st' ∉ P ++ [q] →
  (∀ m, s ≤ m < q → m ∉ P → q - m < Z.max 1 window) →
  within (P ++ [q]) st'.
Proof.
  intros Hi [_ Hwin] Hle Hn Hdisp. split; [done|]. intros k [Hk| ->%list_elem_of_singleton]%elem_of_app Hlt.
  - specialize (Hwin k Hk ltac:(lia)). lia.
  - pose proof (res_expected _ _ _ _ Hi). apply Hdisp; [lia|]. set_solver.
Qed.

Lemma restore_arrival hold now q P st w base :
  restore_inv P st w base → within P st → t0 ≤ now < t0 + hold →
  s ≤ q < 2 ^ 32 - 1 → q ∉ P → Z.max 1 window < 2 ^ 32 →
  (∀ m, s ≤ m < q → m ∉ P → q - m < Z.max 1 window) →
  let '(st', w') := reorder_write window hold now q (f q) st w in
  restore_inv (P ++ [q]) st' w' base ∧ within (P ++ [q]) st'.
Proof.
  intros Hi Hwith Hnow Hq HqP Hw32 Hdisp. pose proof Hi as [Hin He Hd Hl Hp Ht Hr].
  assert (∀ k, k ∈ P ++ [q] → s ≤ k < 2 ^ 32 - 1) as Hr'.
  { intros k [Hk| ->%list_elem_of_singleton]%elem_of_app; [by apply Hr|done]. }
  assert (expected st ≤ q) as Hge.
  { destruct (decide (expected st ≤ q)); [done|]. exfalso. apply HqP, Hd. lia. }
  unfold reorder_write. rewrite Hin. cbn [negb]. rewrite (proj2 (Z.ltb_ge _ _)) by done.
  destruct (Z.eqb_spec q (expected st)) as [->|Hne].
  - pose proof (restore_write P (P ++ [expected st]) st w base now (expected st) (rs_pending st) Hi) as H.
    pose proof (write_ok (f (expected st)) w) as Hok. destruct (write _ w) as [ok w1].
    cbn [fst snd] in *; subst ok. cbn [negb]. rewrite Hin.
    assert (restore_inv (P ++ [expected st])
      (mkReorder true (u32 (expected st + 1)) (rs_pending st) now) w1 base) as Hi1.
    { apply H; [lia|done|set_solver|set_solver|done|].
      intros j. rewrite Hp. apply decide_ext. rewrite elem_of_app, list_elem_of_singleton.
      split; [intros [? ?]; split; [by left|]|intros [[?| ->] ?]; [split; [done|lia]|lia]].
      assert (j ≠ expected st) by by intros ->. lia. }
    pose proof (drain_restore _ (drain_fuel (mkReorder true (u32 (expected st + 1)) (rs_pending st) now))
      now _ _ _ Hi1 ltac:(lia) ltac:(unfold drain_fuel; lia)) as H2.
    destruct (drain_pending _ _ _ _) as [st' w']. destruct H2 as (? & ? & Hle). split; [done|].
    cbn [expected] in Hle. rewrite u32_small_succ in Hle by lia.
    eapply within_snoc; [done..|lia|done|done].
  - destruct Hwith as [Hnext Hwin]. assert (q - expected st < Z.max 1 window) by (apply Hdisp; [lia|done]).
    unfold u32 at 1 2. rewrite !wrap_small by (unfold in_word; lia).
    rewrite (proj2 (Z.ltb_ge _ _)) by lia. rewrite (Hp q), decide_False by naive_solver.
    set (m := <[q := f q]> (rs_pending st)).
    assert (∀ k, m !! k = if decide (k ∈ P ++ [q] ∧ expected st ≤ k) then Some (f k) else None) as Hm.
    { intros k. unfold m. destruct (decide (k = q)) as [->|].
      - rewrite lookup_insert_eq, decide_True; [done|]. split; [set_solver|lia].
      - rewrite lookup_insert_ne, Hp by done. apply decide_ext. set_solver. }
    cbn [rs_pending lastDrain].
    rewrite (proj2 (Z.leb_gt _ _)).
    2: { apply (pending_size m (expected st)); [lia|]. intros k [v Hk]. rewrite Hm in Hk.
         case_decide as Hd'; [|done]. destruct Hd' as [[Hk'| ->%list_elem_of_singleton]%elem_of_app ?]; [|lia].
         assert (k ≠ expected st) by by intros ->. specialize (Hwin k Hk'). lia. }
    rewrite (proj2 (Z.leb_gt _ _)) by (unfold saturate; lia). cbn [orb].
    split; [split; cbn [initialized expected rs_pending lastDrain]; try done; set_solver|].
    eapply within_snoc; [done..| |set_solver|done]. cbn; lia.
Qed.

Lemma restore_run hold arrivals P st w base :
  restore_inv P st w base → within P st → Z.max 1 window < 2 ^ 32 →
  Forall (λ a, a_payload a = f (a_seq a) ∧ t0 ≤ a_now a < t0 + hold ∧ s ≤ a_seq a < 2 ^ 32 - 1) arrivals →
  NoDup (P ++ (a_seq <$> arrivals)) →
  (∀ i q m, (a_seq <$> arrivals) !! i = Some q → s ≤ m < q → m ∉ P ++ take i (a_seq <$> arrivals) →
    q - m < Z.max 1 window) →
  let '(st', w') := reorder_run window hold st w arrivals in
  restore_inv (P ++ (a_seq <$> arrivals)) st' w' base ∧ within (P ++ (a_seq <$> arrivals)) st'.
Proof.
  intros Hi Hw Hw32 Ha. revert P st w Hi Hw.
  induction Ha as [|a arrivals (Hf & Hn & Hq) _ IH]; intros P st w Hi Hw HN Hdisp.
  { cbn. by rewrite app_nil_r. }
  cbn [fmap list_fmap] in *. pose proof HN as (_ & Hnin & _)%NoDup_app.
  pose proof (restore_arrival hold (a_now a) (a_seq a) P st w base Hi Hw Hn Hq) as H.
  rewrite <- Hf in H. cbn [reorder_run foldl fst snd].
  destruct (reorder_write _ _ _ _ _ _ _) as [st' w'] eqn:E.
  destruct H as [Hi' Hw'].
  - intros ?. apply (Hnin (a_seq a)); set_solver.
  - done.
  - intros m Hm HmP. apply (Hdisp 0%nat (a_seq a) m); [done|done|]. cbn. by rewrite app_nil_r.
  - specialize (IH (P ++ [a_seq a]) st' w' Hi' Hw'). rewrite <- !app_assoc in IH. cbn [app] in IH.
    apply IH; [done|]. intros i q m Hiq Hm Hnot.
    apply (Hdisp (S i) q m); [done|done|]. by rewrite <- app_assoc in Hnot.
Qed.

Lemma restore_start now w :
  t0 ≤ now → s < 2 ^ 32 → restore_inv [] (mkReorder true s ∅ now) w (log w).
Proof.
  intros ??. split; cbn [initialized expected rs_pending lastDrain]; try done.
  - lia.
  - rewrite Z.sub_diag. symmetry. apply app_nil_r.
  - by intros k ?%elem_of_nil.
Qed.

End Restore.

End Reorder.

(** The first arrival sets the origin. *)
Lemma reorder_write_first {W} (write : list byte → W → bool * W) window hold now seq p w :
  reorder_write write window hold now seq p new_reorder w =
  reorder_write write window hold now seq p (mkReorder true seq ∅ now) w.
Proof. done. Qed.

(** ** A concrete backend, for the witnesses

    The world is a script of outcomes and the datagrams received so far; when
    the script is exhausted writes succeed. *)

Definition script_write (p : list byte) (w : list bool * list (list byte))
    : bool * (list bool * list (list byte)) :=
  match w.1 with
  | [] => (true, ([], w.2 ++ [p]))
  | true :: s => (true, (s, w.2 ++ [p]))
  | false :: s => (false, (s, w.2))
  end.

Lemma script_write_log p w :
  (script_write p w).2.2 = if (script_write p w).1 then w.2 ++ [p] else w.2.
Proof. destruct w as [[|[] s] l]; done. Qed.

Definition always_write (p : list byte) (w : list (list byte)) : bool * list (list byte) :=
  (true, w ++ [p]).

(** ** Theorems *)

(** The backend sees each session in order. For any sequence of arrivals
    (late, duplicated, out of order, far ahead), any pattern of failing writes, any
    window and hold time, and as long as the numbers have not wrapped, what the
    backend receives is a sequence of arrived payloads with strictly increasing
    sequence numbers: nothing is reordered or delivered twice; and between two
    arrivals the buffer holds fewer packets than the window, all of them ahead of
    the expected number by at most the window. *)
Theorem reorder_in_order {W} (write : list byte → W → bool * W) (log : W → list (list byte))
    window hold arrivals w :
  (∀ p w, log (write p w).2 = if (write p w).1 then log w ++ [p] else log w) →
  Forall (λ a, 0 ≤ a_seq a < 2 ^ 32 - 1) arrivals → Z.max 1 window < 2 ^ 32 →
  let '(st', w') := reorder_run write window hold new_reorder w arrivals in
  (∃ qs ps, log w' = log w ++ ps ∧ StronglySorted Z.lt qs ∧
     Forall2 (λ q p, ∃ now, mkArrival now q p ∈ arrivals) qs ps) ∧
  Z.of_nat (size (rs_pending st')) < Z.max 1 window ∧
  (∀ k p, rs_pending st' !! k = Some p → expected st' < k ≤ expected st' + Z.max 1 window).
Proof.
  intros Hlog Ha Hw.
  pose proof (reorder_run_ok write log Hlog (λ q p, ∃ now, mkArrival now q p ∈ arrivals) (Z.max 1 window)
    window hold arrivals new_reorder w (log w)) as H.
  destruct (reorder_run _ _ _ _ _ _) as [st' w'].
  destruct H as ([He Hp (qs & ps & Hl & HF & HS & _) _] & Hn & Hsz).
  - by apply new_reorder_ok.
  - rewrite Forall_forall in Ha |- *. intros [n q p] Hin. split; [by apply (Ha _ Hin)|]. by exists n.
  - done.
  - done.
  - split_and!; [by exists qs, ps|done|]. intros k p Hk.
    assert (k ≠ expected st') by congruence. destruct (Hp _ _ Hk) as (? & ? & _). lia.
Qed.

(** Two lanes out of step, a duplicate, a failing write and a late packet. *)
Definition sample_arrivals : list arrival :=
  [mkArrival 10 5 [x05]; mkArrival 11 7 [x07]; mkArrival 12 7 [x07]; mkArrival 13 6 [x06];
   mkArrival 14 5 [x05]; mkArrival 15 9 [x09]].

Lemma reorder_in_order_witness :
  let '(st', w') := reorder_run script_write 128 3000000 new_reorder ([], []) sample_arrivals in
  w'.2 = [[x05]; [x06]; [x07]] ∧
  ∃ qs ps, w'.2 = [] ++ ps ∧ StronglySorted Z.lt qs ∧
     Forall2 (λ q p, ∃ now, mkArrival now q p ∈ sample_arrivals) qs ps.
Proof.
  pose proof (reorder_in_order script_write snd 128 3000000 sample_arrivals ([], []) script_write_log
    ltac:(by_compute) ltac:(vm_compute; reflexivity)) as H.
  destruct (reorder_run _ _ _ _ _ _) as [st' w'] eqn:E. split; [|apply H].
  vm_compute in E. apply (f_equal snd) in E. cbn in E. by rewrite <- E.
Defined.

(** C22: nothing within the window is lost. When the packets of an interval of
    numbers arrive each once, starting with the first, none of them more than the
    window ahead of one still missing, within the hold time, and the backend
    accepts the writes, the backend receives exactly the interval, in order. *)
Theorem reorder_restores {W} (write : list byte → W → bool * W) (log : W → list (list byte))
    window hold (f : Z → list byte) s n t0 arrivals w :
  (∀ p w, log (write p w).2 = log w ++ [p]) → (∀ p w, (write p w).1 = true) →
  0 ≤ s → s + n < 2 ^ 32 → Z.max 1 window < 2 ^ 32 →
  a_seq <$> arrivals ≡ₚ seqZ s n → head (a_seq <$> arrivals) = Some s →
  Forall (λ a, a_payload a = f (a_seq a) ∧ t0 ≤ a_now a < t0 + hold) arrivals →
  (∀ i q m, (a_seq <$> arrivals) !! i = Some q → s ≤ m < q → m ∉ take i (a_seq <$> arrivals) →
     q - m < Z.max 1 window) →
  log (reorder_run write window hold new_reorder w arrivals).2 = log w ++ (f <$> seqZ s n).
Proof.
  intros Hlog Hok Hs Hn Hw Hperm Hhd Ha Hdisp.
  assert (∀ p w, log (write p w).2 = if (write p w).1 then log w ++ [p] else log w) as Hlog'.
  { intros p w'. by rewrite Hok. }
  assert (reorder_run write window hold new_reorder w arrivals =
    reorder_run write window hold (mkReorder true s ∅ t0) w arrivals ∨ a_now <$> arrivals = []) as [E|E].
  { destruct arrivals as [|a arrivals]; [by right|left]. injection Hhd as Hhd.
    unfold reorder_run; cbn [foldl fst snd].
    rewrite reorder_write_first, Hhd. f_equal. unfold reorder_write; cbn [initialized negb expected].
    rewrite Z.ltb_irrefl, Z.eqb_refl. pose proof (Hok (a_payload a) w) as Ho.
    destruct (write (a_payload a) w) as [ok w1]. cbn in Ho. by subst ok. }
  2: { by destruct arrivals. }
  rewrite E.
  pose proof (restore_run write log Hlog' s t0 f window Hok Hs hold arrivals [] (mkReorder true s ∅ t0) w (log w)) as H.
  assert (∀ q, q ∈ a_seq <$> arrivals ↔ s ≤ q < s + n) as Hin.
  { intros q. rewrite Hperm, elem_of_seqZ. lia. }
  assert (s ∈ a_seq <$> arrivals) as Hsn%Hin.
  { destruct arrivals; [done|]. injection Hhd as <-. by left. }
  clear E. destruct (reorder_run _ _ _ _ _ _) as [st' w']. cbn [snd].
  destruct H as [Hi [Hnot _]]; [| |done|..].
  - apply restore_start; lia.
  - split; [set_solver|by intros k ?%elem_of_nil].
  - rewrite Forall_forall in Ha |- *. intros a Hain. destruct (Ha a Hain).
    assert (s ≤ a_seq a < s + n) by (apply Hin, list_elem_of_fmap; eauto). split_and!; first [done|lia].
  - cbn. rewrite Hperm. apply NoDup_seqZ.
  - done.
  - cbn in Hi, Hnot. rewrite (res_log _ _ _ _ _ _ _ _ Hi). do 2 f_equal. f_equal.
    pose proof (res_expected _ _ _ _ _ _ _ _ Hi).
    destruct (decide (expected st' < s + n)).
    + exfalso. apply Hnot, Hin. lia.
    + destruct (decide (expected st' = s + n)); [lia|]. exfalso.
      pose proof (res_done _ _ _ _ _ _ _ _ Hi (s + n) ltac:(lia)) as Hd. cbn in Hd. apply Hin in Hd. lia.
Qed.

Lemma reorder_restores_witness :
  (reorder_run always_write 4 1000 new_reorder []
    (mkArrival 0 1 [x01] :: mkArrival 1 3 [x03] :: mkArrival 2 4 [x04] :: mkArrival 3 2 [x02] :: [])).2 =
  [[x01]; [x02]; [x03]; [x04]].
Proof.
  apply (reorder_restores always_write (λ w, w) 4 1000 (λ q, [to_byte q]) 1 4 0 _ []);
    try reflexivity; try lia; try done.
  - by_compute.
  - by_compute.
  - intros i q m Hi. do 4 (destruct i as [|i]; [injection Hi as <-; cbn; lia|]). done.
Defined.

(** The window does not survive the wrap of the sequence numbers. Once the
    expected number has passed [2^32 - 1] and is small again, a single late packet
    from before the wrap is taken for one far ahead: it is written out of order,
    the buffer is emptied, the expected number jumps to the end of the range, and
    every following packet of the session up to that number is dropped. *)
Theorem reorder_wrap_silences {W} (write : list byte → W → bool * W) window hold now q p st w arrivals :
  initialized st = true → 0 ≤ expected st → expected st + Z.max 1 window < q →
  q < 2 ^ 32 - 1 → Z.max 1 window < 2 ^ 32 →
  (write p w).1 = true → Forall (λ a, a_seq a ≤ q) arrivals →
  reorder_run write window hold st w (mkArrival now q p :: arrivals) =
  (mkReorder true (q + 1) ∅ now, (write p w).2).
Proof.
  intros Hi He Hfar Hq Hw Hok Ha. unfold reorder_run. cbn [foldl fst snd a_now a_seq a_payload].
  assert (reorder_write write window hold now q p st w = (mkReorder true (q + 1) ∅ now, (write p w).2)) as ->.
  { unfold reorder_write. rewrite Hi. cbn [negb]. rewrite (proj2 (Z.ltb_ge _ _)) by lia.
    rewrite (proj2 (Z.eqb_neq _ _)) by lia.
    unfold u32 at 1 2. rewrite !wrap_small by (unfold in_word; lia).
    rewrite (proj2 (Z.ltb_lt _ _)) by lia. destruct (write p w) as [ok w1]. cbn in Hok. subst ok.
    by rewrite Hi, u32_small_succ by lia. }
  induction Ha as [|a arrivals Hle _ IH]; [done|]. cbn [foldl fst snd].
  assert (∀ w', reorder_write write window hold (a_now a) (a_seq a) (a_payload a)
    (mkReorder true (q + 1) ∅ now) w' = (mkReorder true (q + 1) ∅ now, w')) as E.
  { intros w'. unfold reorder_write. cbn [initialized negb expected].
    by rewrite (proj2 (Z.ltb_lt _ _)) by lia. }
  by rewrite E.
Qed.

(** Expected number 2, the packet before the wrap, then the numbers 2, 3, 4. *)
Lemma reorder_wrap_silences_witness :
  (reorder_run always_write 128 3000000 (mkReorder true 2 ∅ 0) []
    [mkArrival 1 (2 ^ 32 - 3) [xff]; mkArrival 2 2 [x02]; mkArrival 3 3 [x03]; mkArrival 4 4 [x04]]).2 =
  [[xff]].
Proof.
  rewrite (reorder_wrap_silences always_write 128 3000000 1 (2 ^ 32 - 3) [xff] (mkReorder true 2 ∅ 0) []
    [mkArrival 2 2 [x02]; mkArrival 3 3 [x03]; mkArrival 4 4 [x04]]);
    [reflexivity|reflexivity|by_compute..|reflexivity|by_compute].
Defined.
