(* ===== verification/ClientTable.v ===== *)
(** * The client's session table is consistent

    [getOrCreateSession] (on the goroutine that reads UDP), the session updates of
    the upstream and downstream paths, and [cleanupSessions] run concurrently on
    the two maps. The cleaner is split at its map operations: it collects the
    expired keys, then for each key deletes it from [sessions] and only later from
    [sessionsByID]. Creating a session is one step: the cleaner can interfere with
    it only if a session expires while it is being created. *)

From S2P Require Import Prelude.
From S2P Require Import Words.
From S2P Require Import Stats.
From S2P Require Import Config.
From S2P Require Import Crypto.
From S2P Require Import Session.
From S2P Require Import Ring.
From S2P Require Import Client.

(** ** Steps *)

(** The cleaner: idle, with keys left, or holding a session it has removed from
    [sessions] but not yet from [sessionsByID]. *)
Inductive cleaner :=
| KIdle
| KKeys (keys : list AddrPort)
| KForget (p : ptr) (keys : list AddrPort).

Definition held (k : cleaner) : option ptr :=
  match k with KForget p _ => Some p | _ => None end.

Section Table.
Context {E : Type}.
Implicit Types c : Client E.

Inductive table_step : Client E * cleaner → Client E * cleaner → Prop :=
| t_packet c k now addr p c' :
    getOrCreateSession now addr c = Ret (p, c') → table_step (c, k) (c', k)
| t_touch c k now p : table_step (c, k) (upd_session c p (us_UpdateLastActive now), k)
| t_sequence c k p : table_step (c, k) (upd_session c p (λ s, (us_NextSequenceID s).2), k)
| t_lanes c k ups downs :
    length ups = length (upstreamLanes c) → length downs = length (downstreamLanes c) →
    table_step (c, k) (set_downLanes (set_upLanes c ups) downs, k)
| k_range c now : table_step (c, KIdle) (c, KKeys (expired_keys now c))
| k_hit c key keys p c' :
    load_and_delete key c = (Some p, c') → table_step (c, KKeys (key :: keys)) (c', KForget p keys)
| k_miss c key keys c' :
    load_and_delete key c = (None, c') → table_step (c, KKeys (key :: keys)) (c', KKeys keys)
| k_forget c p keys : table_step (c, KForget p keys) (forget p c, KKeys keys)
| k_done c : table_step (c, KKeys []) (c, KIdle).

(** ** The invariant *)

(** Both tables name the same live sessions, except that the one the cleaner
    holds is only in [sessionsByID]. Session ids are the allocation numbers. *)
Record table_inv c (h : option ptr) : Prop := {
  ti_lanes : (0 < length (downstreamLanes c))%nat ∧ Z.of_nat (length (downstreamLanes c)) < 2 ^ 32;
  ti_counter : sessionCounter c = Z.of_nat (next c);
  ti_heap p s : heap c !! p = Some s → us_sessionID s = Z.of_nat p ∧ (1 ≤ p ≤ next c)%nat;
  ti_sessions a p : sessions c !! a = Some p →
    h ≠ Some p ∧ Unmap (ap_Addr a) = ap_Addr a ∧
    ∃ s, heap c !! p = Some s ∧ us_remoteAddrPort s = a ∧ sessionsByID c !! Z.of_nat p = Some p;
  ti_byID i p : sessionsByID c !! i = Some p →
    i = Z.of_nat p ∧ ∃ s, heap c !! p = Some s ∧
      (h = Some p ∨ sessions c !! us_remoteAddrPort s = Some p);
  ti_held p : h = Some p → sessionsByID c !! Z.of_nat p = Some p;
  ti_gauge : ActiveSessions (stats c) =
    i32 (Z.of_nat (size (sessions c)) + match h with Some _ => 1 | None => 0 end)
}.

(** What the tables say of a session depends only on its id and address. *)
Definition same_identity (f : UDPSession → UDPSession) : Prop :=
  ∀ s, us_sessionID (f s) = us_sessionID s ∧ us_remoteAddrPort (f s) = us_remoteAddrPort s.

Lemma lookup_alter_identity f p (m : gmap ptr UDPSession) q s :
  same_identity f → m !! q = Some s →
  ∃ s', alter f p m !! q = Some s' ∧ us_remoteAddrPort s' = us_remoteAddrPort s.
Proof.
  intros Hf Hq. destruct (decide (p = q)) as [->|].
  - rewrite lookup_alter_eq, Hq. eexists. split; [done|]. apply Hf.
  - rewrite lookup_alter_ne by done. eauto.
Qed.

Lemma upd_session_inv c h p f :
  same_identity f → table_inv c h → table_inv (upd_session c p f) h.
Proof.
  intros Hf [Hl Hc Hh Hs Hb Hd Hg]. split; cbn; try done.
  - intros q s Hq. apply lookup_alter_Some in Hq as [(-> & s0 & Hs0 & ->)|[_ Hq]]; [|by apply Hh].
    destruct (Hf s0) as [-> _]. by apply Hh.
  - intros a q Hq. destruct (Hs a q Hq) as (? & ? & s & Hqs & Ha & ?).
    destruct (lookup_alter_identity f p _ _ _ Hf Hqs) as (s' & ? & ?).
    split_and!; [done..|]. exists s'. split_and!; [done|congruence|done].
  - intros i q Hq. destruct (Hb i q Hq) as (-> & s & Hqs & Hor).
    destruct (lookup_alter_identity f p _ _ _ Hf Hqs) as (s' & ? & Ea).
    split; [done|]. exists s'. rewrite Ea. done.
Qed.

Lemma lane_index_total x n :
  (0 < n)%nat → Z.of_nat n < 2 ^ 32 → 0 ≤ x → ∃ i, lane_index x n = Ret i ∧ (i < n)%nat.
Proof.
  intros Hn Hn32 Hx. unfold lane_index. rewrite u32_small by (unfold in_word; lia).
  rewrite (proj2 (Z.eqb_neq _ _)) by lia. eexists. split; [done|].
  pose proof (Z.mod_pos_bound x (Z.of_nat n) ltac:(lia)). lia.
Qed.

(** [getOrCreateSession], on both branches. *)
Lemma getOrCreate_cases now addr c h :
  table_inv c h → Z.of_nat (next c) + 1 < 2 ^ 32 →
  let key := mkAddrPort (Unmap (ap_Addr addr)) (ap_Port addr) in
  (∃ p, sessions c !! key = Some p ∧
     getOrCreateSession now addr c = Ret (p, upd_session c p (us_UpdateLastActive now))) ∨
  (sessions c !! key = None ∧ ∃ i l,
     lane_index (Z.of_nat (S (next c))) (length (downstreamLanes c)) = Ret i ∧
     downstreamLanes c !! i = Some l ∧
     getOrCreateSession now addr c = Ret (S (next c),
       mkClient (params c)
         (<[S (next c) := NewUDPSessionAddrPort now (Z.of_nat (S (next c)))
              (cp_udpListener (params c)) key]> (heap c))
         (S (next c)) (<[key := S (next c)]> (sessions c))
         (<[Z.of_nat (S (next c)) := S (next c)]> (sessionsByID c)) (Z.of_nat (S (next c)))
         (upstreamLanes c) (alter (push_register (Z.of_nat (S (next c)))) i (downstreamLanes c))
         (downstreamHeartbeat c) (AddActiveSession (stats c)))).
Proof.
  intros Hi Hb key. unfold getOrCreateSession. fold key.
  destruct (sessions c !! key) as [p|] eqn:Ek; [left; eauto|right]. split; [done|].
  destruct (ti_lanes _ _ Hi) as [Hl0 Hl32].
  destruct (lane_index_total (Z.of_nat (S (next c))) (length (downstreamLanes c))) as (i & Ei & Hil);
    [done|done|lia|].
  destruct (lookup_lt_is_Some_2 (downstreamLanes c) i Hil) as [l El].
  exists i, l. split_and!; [done|done|].
  rewrite (ti_counter _ _ Hi), u32_small_succ by lia.
  replace (Z.of_nat (next c) + 1) with (Z.of_nat (S (next c))) by lia.
  unfold registerSessionOnLane, downstreamLaneForSession. cbn. by rewrite Ei.
Qed.

Lemma i32_succ n k : i32 (i32 n + k) = i32 (n + k).
Proof. apply swrap_add_l. Qed.

Lemma getOrCreate_next now addr c p c' :
  getOrCreateSession now addr c = Ret (p, c') → (next c ≤ next c')%nat.
Proof.
  unfold getOrCreateSession, registerSessionOnLane. destruct (sessions c !! _).
  - by intros [= _ <-].
  - cbn. destruct (downstreamLaneForSession _ _); [|done]. intros [= _ <-]. cbn. lia.
Qed.

Lemma getOrCreate_inv now addr c h p c' :
  table_inv c h → Z.of_nat (next c') < 2 ^ 32 →
  getOrCreateSession now addr c = Ret (p, c') → table_inv c' h ∧ (next c ≤ next c')%nat.
Proof.
  intros Hi Hb Heq. destruct (decide (Z.of_nat (next c) + 1 < 2 ^ 32)) as [Hb'|Hb'].
  2: { unfold getOrCreateSession in Heq.
       destruct (sessions c !! _) as [q|] eqn:Eq.
       - injection Heq as <- <-. split; [|done]. by apply upd_session_inv.
       - exfalso. unfold registerSessionOnLane in Heq. cbn in Heq.
         destruct (downstreamLaneForSession _ _); [|done]. injection Heq as <- <-. cbn in Hb. lia. }
  destruct (getOrCreate_cases now addr c h Hi Hb') as [(q & Hq & E1)|(Hn & i & l & Ei & El & E1)];
    rewrite E1 in Heq; injection Heq as <- <-.
  { split; [by apply upd_session_inv|done]. }
  pose proof Hi as [Hl Hc Hh Hs Hby Hd Hg].
  set (n := S (next c)) in *. set (key := mkAddrPort _ _) in *.
  assert (heap c !! n = None) as Hfresh.
  { destruct (heap c !! n) as [s|] eqn:Es; [|done]. apply Hh in Es. lia. }
  assert (∀ q s, heap c !! q = Some s → q ≠ n) as Hold.
  { intros q s Hq ->. by rewrite Hfresh in Hq. }
  split; [|cbn; lia]. split; cbn [heap next sessions sessionsByID sessionCounter downstreamLanes stats];
    try done.
  - by rewrite length_alter.
  - intros q s. destruct (decide (q = n)) as [->|].
    + rewrite lookup_insert_eq. intros [= <-]. split; [done|lia].
    + rewrite lookup_insert_ne by done. intros Hq%Hh. lia.
  - intros a q. destruct (decide (a = key)) as [->|].
    + rewrite lookup_insert_eq. intros [= <-]. split_and!.
      * intros ->. specialize (Hd _ eq_refl). apply Hby in Hd as (_ & s & Hs0 & _). by apply Hold in Hs0.
      * apply Unmap_idem.
      * eexists. rewrite !lookup_insert_eq. done.
    + rewrite lookup_insert_ne by done. intros Hq. destruct (Hs a q Hq) as (? & ? & s & Hqs & ? & ?).
      pose proof (Hold _ _ Hqs). split_and!; [done..|]. exists s.
      rewrite !lookup_insert_ne by (done || lia). done.
  - intros j q. destruct (decide (j = Z.of_nat n)) as [->|].
    + rewrite lookup_insert_eq. intros [= <-]. split; [done|]. eexists.
      rewrite !lookup_insert_eq. split; [done|]. right. apply lookup_insert_eq.
    + rewrite lookup_insert_ne by done. intros Hq. destruct (Hby j q Hq) as (-> & s & Hqs & Hor).
      split; [done|]. exists s. pose proof (Hold _ _ Hqs).
      rewrite lookup_insert_ne by done. split; [done|].
      destruct Hor as [?|Hsq]; [by left|right]. rewrite lookup_insert_ne; [done|].
      intros Ek. rewrite Ek in Hn. congruence.
  - intros q ->. pose proof (Hd q eq_refl) as Hq. destruct (Hby _ _ Hq) as (_ & s & Hqs & _).
    rewrite lookup_insert_ne; [done|]. pose proof (Hold _ _ Hqs). lia.
  - rewrite map_size_insert_None by done. cbn [ActiveSessions AddActiveSession].
    rewrite Hg, i32_succ. f_equal. lia.
Qed.

Lemma forget_inv c p : table_inv c (Some p) → table_inv (forget p c) None.
Proof.
  intros [Hl Hc Hh Hs Hb Hd Hg]. pose proof (Hd p eq_refl) as Hp.
  destruct (Hb _ _ Hp) as (_ & s & Hps & _). unfold forget. rewrite Hps.
  destruct (Hh _ _ Hps) as [Hid _]. rewrite Hid.
  split; cbn [heap next sessions sessionsByID sessionCounter downstreamLanes stats set_stats set_table];
    try done.
  - intros a q Hq. destruct (Hs a q Hq) as (Hne & ? & t & ? & ? & ?). split_and!; [done..|].
    exists t. split_and!; [done..|]. rewrite lookup_delete_ne; [done|].
    assert (q ≠ p) by congruence. lia.
  - intros i q. rewrite lookup_delete_Some. intros [Hne Hq]. destruct (Hb i q Hq) as (-> & t & ? & Hor).
    split; [done|]. exists t. split; [done|]. right. destruct Hor as [[= ->]|?]; done.
  - cbn [ActiveSessions RemoveActiveSession]. rewrite Hg, i32_succ. f_equal. lia.
Qed.

Lemma load_and_delete_inv c key v c' :
  table_inv c None → load_and_delete key c = (v, c') → table_inv c' v.
Proof.
  intros [Hl Hc Hh Hs Hb Hd Hg] [= <- <-].
  split; cbn [heap next sessions sessionsByID sessionCounter downstreamLanes stats set_table]; try done.
  - intros a q. rewrite lookup_delete_Some. intros [Hne Hq].
    destruct (Hs a q Hq) as (_ & ? & t & Ht & Ha & ?). split_and!; [|done|by exists t].
    intros Hk. destruct (Hs key q Hk) as (_ & _ & t' & Ht' & Ha' & _). congruence.
  - intros i q Hq. destruct (Hb i q Hq) as (-> & t & Ht & [?|Hor]); [done|].
    split; [done|]. exists t. split; [done|].
    destruct (decide (us_remoteAddrPort t = key)) as [<-|]; [by left|right].
    by rewrite lookup_delete_ne.
  - intros p Hp. by destruct (Hs key p Hp) as (_ & _ & t & ? & ? & ?).
  - rewrite Hg. f_equal. rewrite map_size_delete. destruct (sessions c !! key) as [p|] eqn:Ek; [|done].
    pose proof (map_size_ne_0_lookup_2 _ _ (mk_is_Some _ _ Ek)). cbn. lia.
Qed.

Lemma table_step_inv c k c' k' :
  table_step (c, k) (c', k') → table_inv c (held k) → Z.of_nat (next c') < 2 ^ 32 →
  table_inv c' (held k') ∧ (next c ≤ next c')%nat.
Proof.
  intros Hst Hi Hb. inversion Hst; subst; cbn [held] in *.
  - by eapply getOrCreate_inv.
  - split; [by apply upd_session_inv|done].
  - split; [by apply upd_session_inv|done].
  - split; [|done]. destruct Hi as [Hl ? ? ? ? ? ?]. split; cbn; try done.
    match goal with HL : length _ = length (downstreamLanes _) |- _ => by rewrite HL end.
  - done.
  - split; [by eapply load_and_delete_inv|]. match goal with HL : load_and_delete _ _ = _ |- _ => by injection HL as _ <- end.
  - split; [by eapply load_and_delete_inv|]. match goal with HL : load_and_delete _ _ = _ |- _ => by injection HL as _ <- end.
  - split; [by apply forget_inv|]. unfold forget. by destruct (heap c !! p).
  - done.
Qed.

Lemma table_steps_inv s s' :
  rtc table_step s s' → table_inv s.1 (held s.2) → Z.of_nat (next s'.1) < 2 ^ 32 →
  table_inv s'.1 (held s'.2) ∧ (next s.1 ≤ next s'.1)%nat.
Proof.
  intros Hr Hi. revert s' Hr.
  apply (rtc_ind_r (λ s', Z.of_nat (next s'.1) < 2 ^ 32 →
    table_inv s'.1 (held s'.2) ∧ (next s.1 ≤ next s'.1)%nat) s); [done|].
  intros [c k] [c' k'] Hr Hst IH Hb. cbn [fst snd] in *.
  assert (next c ≤ next c')%nat as Hle.
  { clear -Hst. inversion Hst; subst; cbn; try done.
    - by eapply getOrCreate_next.
    - by injection H0 as _ <-.
    - by injection H0 as _ <-.
    - unfold forget. by destruct (heap c !! p). }
  destruct (IH ltac:(lia)) as [Hi' ?].
  destruct (table_step_inv _ _ _ _ Hst Hi' Hb). split; [done|lia].
Qed.

(** ** One tick of the cleaner, alone *)

Lemma load_and_delete_held c key : table_inv c None →
  table_inv (load_and_delete key c).2 (sessions c !! key).
Proof. intros Hi. by eapply load_and_delete_inv. Qed.

Lemma forget_tables p c :
  heap (forget p c) = heap c ∧ sessions (forget p c) = sessions c ∧ params (forget p c) = params c.
Proof. unfold forget. by destruct (heap c !! p). Qed.

Lemma cleanup_key_spec key c :
  table_inv c None →
  table_inv (cleanup_key key c) None ∧ heap (cleanup_key key c) = heap c ∧
  sessions (cleanup_key key c) = delete key (sessions c) ∧ params (cleanup_key key c) = params c.
Proof.
  intros Hi. pose proof (load_and_delete_held c key Hi) as Hd. unfold cleanup_key.
  cbn [load_and_delete] in *. destruct (sessions c !! key) as [p|] eqn:Ek; [|done].
  split; [by apply forget_inv|]. match goal with |- context [forget p ?x] => apply (forget_tables p x) end.
Qed.

Lemma cleanup_keys_spec keys c :
  table_inv c None →
  let c' := foldl (λ c key, cleanup_key key c) c keys in
  table_inv c' None ∧ heap c' = heap c ∧ params c' = params c ∧
  (∀ a, sessions c' !! a = if decide (a ∈ keys) then None else sessions c !! a).
Proof.
  revert c. induction keys as [|key keys IH]; intros c Hi; cbn [foldl].
  - split_and!; try done.
  - destruct (cleanup_key_spec key c Hi) as (Hi1 & Hh & Hs & Hp).
    destruct (IH _ Hi1) as (Hi2 & Hh2 & Hp2 & Hs2). split_and!; [done|congruence|congruence|].
    intros a. rewrite Hs2, Hs. destruct (decide (a = key)) as [->|].
    + rewrite lookup_delete_eq, (decide_True (P := key ∈ key :: keys)) by by left. by destruct (decide _).
    + rewrite lookup_delete_ne by done. apply decide_ext. set_solver.
Qed.

Lemma elem_of_expired_keys now c a :
  a ∈ expired_keys now c ↔ ∃ p, sessions c !! a = Some p ∧ ptr_expired now c p = true.
Proof.
  unfold expired_keys. rewrite list_elem_of_fmap. split.
  - intros ([a' p] & -> & [Hx Hin%elem_of_map_to_list]%list_elem_of_filter). eauto.
  - intros (p & Hin & Hx). exists (a, p). split; [done|].
    apply list_elem_of_filter. split; [done|]. by apply elem_of_map_to_list.
Qed.

Lemma cleanup_tick_spec now c :
  table_inv c None →
  table_inv (cleanup_tick now c) None ∧ heap (cleanup_tick now c) = heap c ∧
  ∀ a p, sessions (cleanup_tick now c) !! a = Some p ↔
    sessions c !! a = Some p ∧ ptr_expired now c p = false.
Proof.
  intros Hi. destruct (cleanup_keys_spec (expired_keys now c) c Hi) as (Hi' & Hh & _ & Hs).
  split_and!; [done..|]. intros a p. unfold cleanup_tick. rewrite Hs. case_decide as Hd.
  - split; [done|]. intros [Ha Hx]. apply elem_of_expired_keys in Hd as (q & Hq & Hqx). congruence.
  - split; [|tauto]. intros Ha. split; [done|]. destruct (ptr_expired now c p) eqn:Ex; [|done].
    exfalso. apply Hd, elem_of_expired_keys. eauto.
Qed.

(** ** A new client *)

Lemma make_downLanes_length n : length (make_downLanes n) = n.
Proof. unfold make_downLanes. by rewrite length_fmap, length_seq. Qed.

Lemma empty_table_inv c :
  heap c = ∅ → sessions c = ∅ → sessionsByID c = ∅ → next c = 0%nat → sessionCounter c = 0 →
  ActiveSessions (stats c) = 0 → (0 < length (downstreamLanes c))%nat →
  Z.of_nat (length (downstreamLanes c)) < 2 ^ 32 → table_inv c None.
Proof.
  intros Hh Hs Hb Hn Hc Hg Hl0 Hl. split; rewrite ?Hh, ?Hs, ?Hb; try done.
  by rewrite Hc, Hn.
Qed.

Lemma ClientNew_inv `{IntWidth} {Block} `{CryptoLib E Block} now cfg c :
  ClientNew now cfg = Ret (Some (Ok c)) → DownstreamLaneCount cfg < 2 ^ 32 →
  table_inv c None.
Proof.
  intros Hn Hl. unfold ClientNew in Hn.
  destruct (NewCipher (UpstreamCrypto cfg)) as [[uc|]|]; try done. cbn [mbind exec_bind] in Hn.
  destruct (NewCipher (DownstreamCrypto cfg)) as [[dc|]|]; try done. cbn [mbind exec_bind] in Hn.
  destruct (make_upLanes _ _ _ _) as [[ups|]|]; try done. injection Hn as <-.
  apply empty_table_inv; try done; cbn [downstreamLanes]; rewrite make_downLanes_length; lia.
Qed.

End Table.

(** ** A concrete client, for the witnesses *)

Definition sample_config : Config :=
  {| Mode := "client"; ListenAddr := ""; ServerUpstream := ""; ServerDownstream := "";
     UpstreamPort := ""; DownstreamPort := ""; BackendAddr := "";
     ReconnectInterval := 1; ReconnectMaxInterval := 30; ReconnectJitterMs := 0;
     SessionTimeout := 300; BufferSize := 128; MaxPacketSize := 64;
     UpstreamQueueSize := 4; UpstreamBatchMaxPackets := 256; UpstreamBatchMaxBytes := 4194304;
     UpstreamBatchMaxDelayMs := 0; UpstreamStripeEnabled := false; UpstreamReorderWindow := 128;
     UpstreamReorderHoldMs := 3; UpstreamLaneCount := 4; DownstreamLaneCount := 4;
     DownstreamBatchMaxPackets := 128; DownstreamBatchMaxBytes := 524288;
     DownstreamBatchMaxDelayMs := 1; HeartbeatIntervalMs := 1000; LogLevel := "info";
     UpstreamCrypto := mkCryptoConfig "none" ""; DownstreamCrypto := mkCryptoConfig "xor" "" |}.

Definition sample_client : Client unit :=
  match @ClientNew unit int64_target (list byte) toy_lib 0 sample_config with
  | Ret (Some (Ok c)) => c
  | _ => mkClient (mkClientParams sample_config None 0 0 0 0 false false NoneCipher NoneCipher)
           ∅ 0%nat ∅ ∅ 0 [] [] 0 (NewStats 0)
  end.

Definition sample_peer : AddrPort := mkAddrPort (Addr6 0xffff0a000001 "") 5353.
Definition sample_peer4 : AddrPort := mkAddrPort (Addr4 0x0a000001) 5353.

(** ** Theorems *)

(** C23: the two tables agree. From a new client, after any interleaving of
    packets, session updates and cleaning (with the cleaner's two deletions apart),
    and until [2^32] sessions have been created: every session in the address table
    is found under its own address and, by its id, in the other table; every id
    leads to a session that is still in the address table, or to the one the
    cleaner is just removing; and the gauge counts exactly these. *)
Theorem session_tables_agree `{IntWidth} {E Block} `{CryptoLib E Block} now cfg (c0 c : Client E) k :
  ClientNew now cfg = Ret (Some (Ok c0)) → DownstreamLaneCount cfg < 2 ^ 32 →
  rtc table_step (c0, KIdle) (c, k) → Z.of_nat (next c) < 2 ^ 32 →
  (∀ a p, sessions c !! a = Some p → ∃ s, heap c !! p = Some s ∧
     us_remoteAddrPort s = a ∧ sessionsByID c !! us_sessionID s = Some p) ∧
  (∀ i p, sessionsByID c !! i = Some p → ∃ s, heap c !! p = Some s ∧ us_sessionID s = i ∧
     (sessions c !! us_remoteAddrPort s = Some p ∨ held k = Some p)) ∧
  ActiveSessions (stats c) =
    i32 (Z.of_nat (size (sessions c)) + match held k with Some _ => 1 | None => 0 end).
Proof.
  intros Hn Hl Hr Hb.
  destruct (table_steps_inv (c0, KIdle) (c, k) Hr) as [[Hl' Hc Hh Hs Hby Hd Hg] _];
    [by eapply ClientNew_inv|done|]. cbn [fst snd] in *. split_and!; [| |done].
  - intros a p Hp. destruct (Hs a p Hp) as (_ & _ & s & Hps & Ha & Hi).
    destruct (Hh _ _ Hps) as [Hid _]. exists s. by rewrite Hid.
  - intros i p Hp. destruct (Hby i p Hp) as (-> & s & Hps & Hor).
    destruct (Hh _ _ Hps) as [Hid _]. exists s. split_and!; [done..|]. tauto.
Qed.

(** One datagram from an IPv4 peer seen through an IPv6 socket. *)
Lemma session_tables_agree_witness :
  ∃ c, rtc table_step (sample_client, KIdle) (c, KIdle) ∧ sessions c !! sample_peer4 = Some 1%nat ∧
    ∃ s, heap c !! 1%nat = Some s ∧ us_remoteAddrPort s = sample_peer4 ∧
      sessionsByID c !! us_sessionID s = Some 1%nat.
Proof.
  destruct (getOrCreateSession 7 sample_peer sample_client) as [[p c]|] eqn:E; [|vm_compute in E; discriminate].
  assert (rtc table_step (sample_client, KIdle) (c, KIdle)) as Hr by (eapply rtc_once, t_packet, E).
  assert (sessions c !! sample_peer4 = Some 1%nat ∧ next c = 1%nat) as [Hs Hn].
  { vm_compute in E. injection E as _ <-. split; vm_compute; reflexivity. }
  exists c. split; [exact Hr|]. split; [exact Hs|].
  apply (@session_tables_agree int64_target unit (list byte) toy_lib 0 sample_config sample_client c KIdle).
  - vm_compute. reflexivity.
  - vm_compute. reflexivity.
  - exact Hr.
  - rewrite Hn. vm_compute. reflexivity.
  - exact Hs.
Defined.

(** A peer keeps its session. On consistent tables, the lookup always
    succeeds; it returns the session of the peer, an IPv4 peer being the same
    through an IPv6 socket, and touches it; the sessions of all other peers are
    unchanged. A new peer gets an id no session has, and the id is queued for
    registration on the downstream lane its number selects, when the queue has
    room; for a known peer, ids and queues do not change. *)
Theorem getOrCreateSession_spec {E} now addr (c : Client E) h :
  table_inv c h → Z.of_nat (next c) + 1 < 2 ^ 32 →
  let key := mkAddrPort (Unmap (ap_Addr addr)) (ap_Port addr) in
  ∃ p c', getOrCreateSession now addr c = Ret (p, c') ∧ table_inv c' h ∧
    sessions c' !! key = Some p ∧ (∀ a, a ≠ key → sessions c' !! a = sessions c !! a) ∧
    (∃ s, heap c' !! p = Some s ∧ us_remoteAddrPort s = key ∧ us_lastActiveUnixNano s = UnixNano now) ∧
    (sessions c !! key = Some p ∧ sessionsByID c' = sessionsByID c ∧
       downstreamLanes c' = downstreamLanes c ∧ stats c' = stats c ∨
     sessions c !! key = None ∧ sessionsByID c !! Z.of_nat p = None ∧
       stats c' = AddActiveSession (stats c) ∧
       ∃ l, let i := (p mod length (downstreamLanes c))%nat in
         downstreamLanes c !! i = Some l ∧
         downstreamLanes c' = <[i := push_register (Z.of_nat p) l]> (downstreamLanes c)).
Proof.
  intros Hi Hb key. pose proof Hi as [[Hl0 Hl32] Hc Hh Hs Hby Hd Hg].
  destruct (getOrCreate_cases now addr c h Hi Hb) as [(p & Hp & E1)|(Hn & i & l & Ei & El & E1)];
    fold key in E1; eexists _, _; (split; [exact E1|]).
  - split; [by apply upd_session_inv|]. split; [done|]. split; [done|]. split.
    + destruct (Hs key p Hp) as (_ & _ & s & Hps & Ha & _). cbn. rewrite lookup_alter_eq, Hps.
      eexists. by split_and!.
    + by left.
  - destruct (λ b, getOrCreate_inv now addr c h _ _ Hi b E1) as [Hi' _]; [cbn; lia|].
    split; [exact Hi'|]. cbn [sessions]. split; [apply lookup_insert_eq|].
    split; [intros; by apply lookup_insert_ne|]. split.
    { eexists. cbn [heap]. rewrite lookup_insert_eq. by split_and!. }
    right. split; [done|]. split.
    + destruct (sessionsByID c !! _) as [q|] eqn:Eq; [|done].
      destruct (Hby _ _ Eq) as (Eqq & s & Hqs & _). apply Hh in Hqs. lia.
    + split; [done|]. exists l. unfold lane_index in Ei. rewrite u32_small in Ei by (unfold in_word; lia).
      rewrite (proj2 (Z.eqb_neq _ _)) in Ei by lia. injection Ei as Ei.
      rewrite <- Nat2Z.inj_mod, Nat2Z.id in Ei. rewrite Ei. split; [done|]. cbn [downstreamLanes].
      by apply list_alter_insert.
Qed.

Lemma getOrCreateSession_spec_witness :
  ∃ p c', getOrCreateSession 7 sample_peer sample_client = Ret (p, c') ∧
    sessions c' !! sample_peer4 = Some p ∧ sessions c' !! sample_peer = None.
Proof.
  destruct (getOrCreateSession_spec 7 sample_peer sample_client None) as (p & c' & E & _ & Hs & Ho & _).
  - apply (ClientNew_inv (H := int64_target) (H0 := toy_lib) 0 sample_config); vm_compute; reflexivity.
  - vm_compute. reflexivity.
  - exists p, c'. split; [exact E|]. split; [exact Hs|]. rewrite Ho; [vm_compute; reflexivity|discriminate].
Defined.

(** C35: cleaning removes exactly the idle sessions. On consistent tables, a tick
    of the cleaner (alone) leaves in the address table the sessions whose last
    activity is at most [SessionTimeout] seconds ago and no others; the id table
    names the same sessions, the gauge is their number, and no session object is
    modified. *)
Theorem cleanup_exact {E} now (c : Client E) :
  table_inv c None → 0 ≤ SessionTimeout (cp_config (params c)) ≤ 9223372035 →
  let c' := cleanup_tick now c in
  (∀ a p, sessions c' !! a = Some p ↔ sessions c !! a = Some p ∧
     ∃ s, heap c !! p = Some s ∧
       now - us_lastActiveUnixNano s ≤ SessionTimeout (cp_config (params c)) * 1000000000) ∧
  (∀ p, sessionsByID c' !! Z.of_nat p = Some p ↔ ∃ a, sessions c' !! a = Some p) ∧
  ActiveSessions (stats c') = i32 (Z.of_nat (size (sessions c'))) ∧ heap c' = heap c.
Proof.
  intros Hi Ht c'. destruct (cleanup_tick_spec now c Hi) as (Hi' & Hh & Hs). fold c' in Hi', Hh, Hs.
  split_and!; [| | |done].
  - intros a p. rewrite Hs. split; intros [Ha Hx]; (split; [done|]).
    + destruct (ti_sessions _ _ Hi a p Ha) as (_ & _ & s & Hps & _). exists s. split; [done|].
      unfold ptr_expired, us_IsExpired, time_Since, session_timeout in Hx. rewrite Hps in Hx.
      rewrite seconds_small, saturate_lt in Hx by lia. by apply Z.ltb_ge in Hx.
    + destruct Hx as (s & Hps & Hx). unfold ptr_expired, us_IsExpired, time_Since, session_timeout.
      rewrite Hps, seconds_small, saturate_lt by lia. by apply Z.ltb_ge.
  - intros p. split.
    + intros (_ & s & Hps & [?|?])%(ti_byID _ _ Hi'); [done|eauto].
    + intros [a Ha]. by destruct (ti_sessions _ _ Hi' a p Ha) as (_ & _ & s & _ & _ & ?).
  - rewrite (ti_gauge _ _ Hi'). f_equal. lia.
Qed.

(** Two sessions, created at second 0 and second 200; at second 301 the first is
    idle too long. *)
Definition sample_client2 : Client unit :=
  match (getOrCreateSession 0 sample_peer sample_client ≫= λ r,
         getOrCreateSession 200000000000 (mkAddrPort (Addr4 0x0a000002) 53) (snd r)) with
  | Ret (_, c) => c
  | Panic => sample_client
  end.

Lemma cleanup_exact_witness :
  let c' := cleanup_tick 301000000000 sample_client2 in
  sessions c' !! sample_peer4 = None ∧ sessions c' !! mkAddrPort (Addr4 0x0a000002) 53 = Some 2%nat ∧
  ActiveSessions (stats c') = i32 (Z.of_nat (size (sessions c'))).
Proof.
  assert (table_inv sample_client2 None) as Hi.
  { assert (rtc table_step (sample_client, KIdle) (sample_client2, KIdle)) as Hr.
    { eapply rtc_l; [|eapply rtc_once].
      - eapply (t_packet _ _ 0 sample_peer). reflexivity.
      - eapply (t_packet _ _ 200000000000 (mkAddrPort (Addr4 0x0a000002) 53)). vm_compute. reflexivity. }
    apply (table_steps_inv _ _ Hr); [|vm_compute; reflexivity].
    apply (ClientNew_inv (H := int64_target) (H0 := toy_lib) 0 sample_config); vm_compute; reflexivity. }
  destruct (cleanup_exact 301000000000 sample_client2 Hi) as (_ & _ & Hg & _); [by_compute|].
  split; [vm_compute; reflexivity|]. split; [vm_compute; reflexivity|exact Hg].
Defined.
