(* ===== verification/Upstream.v ===== *)
(** * The client's upstream path (internal/client/client.go)

    [handleUDP] reads a datagram, finds its session and calls [sendToUpstream],
    which encrypts it, frames it into a packet of the lane's ring and submits it.
    [handleUpstreamWrites] takes packets from the ring in batches and
    [writeUpstreamBatch] writes them to the lane's TCP connection.

    Both goroutines are given as functions on the client state; [Ring.v] treats
    their interleaving. The environment's answers (what was read, whether a write
    succeeds, what happens while a goroutine sleeps) are arguments. *)

From S2P Require Import Prelude.
From S2P Require Import Words.
From S2P Require Import Packet.
From S2P Require Import Ring.
From S2P Require Import Stats.
From S2P Require Import Config.
From S2P Require Import Crypto.
From S2P Require Import Session.
From S2P Require Import Client.
From S2P Require Import ClientTable.

Section Upstream.
Context `{IntWidth} {E : Type}.
Implicit Types c : Client E.

(** ** Operations *)

Definition with_ring (l : upstreamLane) (r : upstreamRing) : upstreamLane :=
  mkUpLane (ul_id l) r (ul_reconnect l) (ul_conn l).

Definition upd_ring (i : nat) (f : upstreamRing → upstreamRing) c : Client E :=
  set_upLanes c (alter (λ l, with_ring l (f (ul_ring l))) i (upstreamLanes c)).

(** The frame that [sendToUpstream] is about to submit. *)
Record outgoing := mkOutgoing {
  og_lane : nat;
  og_header : PacketHeader;
  og_data : list byte
}.

(** [sendToUpstream] up to the call of [acquire]: [None] when encryption fails. *)
Definition prepare_upstream (p : ptr) (data : list byte) (rand : random) c
    : exec (option outgoing * Client E) :=
  match Encrypt (cp_upstreamCipher (params c)) rand data with
  | Err _ => Ret (None, set_stats c (AddError (stats c)))
  | Ok encryptedData =>
      match heap c !! p with
      | None => Panic
      | Some s =>
          let '(sequenceID, s') := us_NextSequenceID s in
          let c := set_heap c (<[p := s']> (heap c)) in
          let header := NewDataPacket (us_sessionID s) sequenceID
                          (u32 (Z.of_nat (length encryptedData))) in
          lane ← selectUpstreamLane c (us_sessionID s) sequenceID;
          Ret (Some (mkOutgoing lane header encryptedData), c)
      end
  end.

(** Writing the packet into the slot [i] of the ring. *)
Definition fill_slot (header : PacketHeader) (data : list byte) (pk : upstreamPacket)
    : exec upstreamPacket :=
  head ← MarshalTo header (take HeaderSize (p_buf pk));
  let buf := head ++ drop HeaderSize (p_buf pk) in
  let n := Nat.min (length data) (length buf - HeaderSize) in
  buf ← put_slice HeaderSize (take n data) buf;
  Ret {| p_buf := buf; p_data_len := HeaderSize + length data |}.

(** The rest of [sendToUpstream], for one turn of [acquire]'s loop: [None] when
    the ring is full and the goroutine waits. *)
Definition submit_upstream (o : outgoing) c : exec (option (Client E)) :=
  match upstreamLanes c !! og_lane o with
  | None => Panic
  | Some lane =>
      let packetLen := go_int (Z.of_nat HeaderSize + Z.of_nat (length (og_data o))) in
      let '(t, r) := acquire (ul_ring lane) in
      match t with
      | TurnWait => Ret None
      | TurnNil => Ret (Some c)
      | TurnPacket i =>
          let c := upd_ring (og_lane o) (λ _, r) c in
          match slots r !! i with
          | None => Panic
          | Some pk =>
              if Z.of_nat (length (p_buf pk)) <? packetLen then
                let c := set_stats c (AddError (stats c)) in
                Ret (Some (upd_ring (og_lane o) (λ r, discard r (Some i)) c))
              else
                pk ← fill_slot (og_header o) (og_data o) pk;
                let r := upd_slot r i (λ _, pk) in
                let '(ok, r) := submit r (Some i) in
                let r := if negb ok then discard r (Some i) else r in
                Ret (Some (upd_ring (og_lane o) (λ _, r) c))
          end
      end
  end.

Definition sendToUpstream (p : ptr) (data : list byte) (rand : random) c
    : exec (option (Client E)) :=
  r ← prepare_upstream p data rand c;
  let '(o, c) := r in
  match o with
  | None => Ret (Some c)
  | Some o => submit_upstream o c
  end.

(** What [ReadFromUDPAddrPort] returns: a datagram, truncated to the buffer, or
    an error. *)
Inductive udp_read :=
| Datagram (addr : AddrPort) (data : list byte)
| ReadError (closed : bool).

(** One turn of [handleUDPZeroCopy]'s loop: the datagram is framed as it is. *)
Definition handleUDPZeroCopy (now : Z) (rd : udp_read) c : exec (option (Client E)) :=
  match rd with
  | ReadError closed => Ret (Some (if closed then c else set_stats c (AddError (stats c))))
  | Datagram addr data =>
      let data := take (Z.to_nat (MaxPacketSize (cp_config (params c)))) data in
      let c := set_stats c (AddBytesReceived (stats c) (u64 (Z.of_nat (length data)))) in
      let c := set_stats c (AddPacketsReceived (stats c) 1) in
      r ← getOrCreateSession now addr c;
      let '(p, c) := r in
      match heap c !! p with
      | None => Panic
      | Some s =>
          let '(sequenceID, s') := us_NextSequenceID s in
          let c := set_heap c (<[p := s']> (heap c)) in
          i ← selectUpstreamLane c (us_sessionID s) sequenceID;
          match upstreamLanes c !! i with
          | None => Panic
          | Some lane =>
              let '(t, r) := acquire (ul_ring lane) in
              match t with
              | TurnWait => Ret None
              | TurnNil => Ret (Some c)
              | TurnPacket j =>
                  let header := NewDataPacket (us_sessionID s) sequenceID (u32 (Z.of_nat (length data))) in
                  match slots r !! j with
                  | None => Panic
                  | Some pk =>
                      pk ← fill_slot header data pk;
                      (* [packet.buf[:HeaderSize+n]] *)
                      if decide (length (p_buf pk) < p_data_len pk)%nat then Panic
                      else
                        let r := upd_slot r j (λ _, pk) in
                        let '(ok, r) := submit r (Some j) in
                        let r := if negb ok then discard r (Some j) else r in
                        Ret (Some (upd_ring i (λ _, r) c))
                  end
              end
          end
      end
  end.

(** One turn of [handleUDP]'s loop (the context is not done). *)
Definition handleUDP (now : Z) (rd : udp_read) (rand : random) c : exec (option (Client E)) :=
  if cp_upstreamZeroCopy (params c) then handleUDPZeroCopy now rd c else
  match rd with
  | ReadError closed => Ret (Some (if closed then c else set_stats c (AddError (stats c))))
  | Datagram addr data =>
      let data := take (Z.to_nat (MaxPacketSize (cp_config (params c)))) data in
      let c := set_stats c (AddBytesReceived (stats c) (u64 (Z.of_nat (length data)))) in
      let c := set_stats c (AddPacketsReceived (stats c) 1) in
      r ← getOrCreateSession now addr c;
      let '(p, c) := r in
      sendToUpstream p data rand c
  end.

(** [int] division truncates. *)
Definition adaptive_delay (maxDelay maxPackets pending : Z) : Z :=
  if maxDelay <=? 0 then 0
  else if maxPackets <=? pending then 0
  else if Z.quot maxPackets 2 <=? pending then Z.quot maxDelay 4
  else if Z.quot maxPackets 4 <=? pending then Z.quot maxDelay 2
  else maxDelay.

Definition adaptiveUpstreamDelay (lane : upstreamLane) c : Z :=
  adaptive_delay (cp_upstreamBatchMaxDelay (params c)) (cp_upstreamBatchMaxPackets (params c))
    (go_int (inflight (ul_ring lane))).

(** A non-blocking send of a token. *)
Definition notifyReconnect_up (l : upstreamLane) : upstreamLane :=
  mkUpLane (ul_id l) (ul_ring l) true (ul_conn l).

Definition writeUpstreamBatch (i : nat) (batch : list (list byte)) (packetCount : Z)
    (out : write_outcome) c : exec (Client E * list effect) :=
  match upstreamLanes c !! i with
  | None => Panic
  | Some lane =>
      match ul_conn lane with
      | None => Ret (set_stats c (AddError (stats c)), [])
      | Some conn =>
          let bytes := concat batch in
          let '(written, err) := match out with
                                 | Written => (length bytes, false)
                                 | WriteError n => (Nat.min n (length bytes), true)
                                 end in
          let c := if decide (0 < written)%nat
                   then set_stats c (AddBytesSent (stats c) (u64 (Z.of_nat written))) else c in
          if (err : bool) then
            let c := set_stats c (AddError (stats c)) in
            let lane := notifyReconnect_up (mkUpLane (ul_id lane) (ul_ring lane) (ul_reconnect lane) None) in
            Ret (set_upLanes c (<[i := lane]> (upstreamLanes c)),
                 [TcpWrite conn (take written bytes); TcpClose conn])
          else
            Ret (set_stats c (AddPacketsSent (stats c) (u64 packetCount)),
                 [TcpWrite conn bytes])
      end
  end.

(** The inner loop: [tryPop] until the batch is full or the ring is empty. The
    batch is a list of slots; at most [maxPackets] turns are taken. *)
Fixpoint fill_batch (fuel : nat) (maxPackets maxBytes : Z) (r : upstreamRing)
    (batch : list nat) (batchBytes : Z) : upstreamRing * list nat * Z :=
  match fuel with
  | O => (r, batch, batchBytes)
  | S fuel =>
      if (Z.of_nat (length batch) <? maxPackets) && (batchBytes <? maxBytes) then
        match tryPop r with
        | (None, r) => (r, batch, batchBytes)
        | (Some i, r) =>
            let n := match slots r !! i with Some pk => p_data_len pk | None => 0%nat end in
            fill_batch fuel maxPackets maxBytes r (batch ++ [i]) (go_int (batchBytes + Z.of_nat n))
        end
      else (r, batch, batchBytes)
  end.

(** [flush]: write the batch, then release its packets in order. *)
Definition flush_upstream (i : nat) (batch : list nat) (out : write_outcome) c
    : exec (Client E * list effect) :=
  match batch with
  | [] => Ret (c, [])
  | _ =>
      match upstreamLanes c !! i with
      | None => Panic
      | Some lane =>
          let writev := slot_data (ul_ring lane) <$> batch in
          w ← writeUpstreamBatch i writev (Z.of_nat (length batch)) out c;
          let '(c, eff) := w in
          Ret (upd_ring i (λ r, foldl (λ r s, release r (Some s)) r batch) c, eff)
      end
  end.

(** What one turn of the outer loop ends with. *)
Inductive writer_turn :=
| WriterStops              (* the ring is closed and empty, or the context done *)
| WriterWaits              (* [pop] spins *)
| WriterContinues.

(** One turn of [handleUpstreamWrites]. [sleep d] is what the timer of duration
    [d] and the other goroutines do: the client afterwards, or [None] when the
    context is done first. *)
Definition handleUpstreamWrites (i : nat) (sleep : Z → Client E → option (Client E))
    (out : write_outcome) c : exec (Client E * list effect * writer_turn) :=
  match upstreamLanes c !! i with
  | None => Panic
  | Some lane =>
      let maxPackets := cp_upstreamBatchMaxPackets (params c) in
      let maxBytes := cp_upstreamBatchMaxBytes (params c) in
      match pop (ul_ring lane) with
      | (TurnNil, _) => Ret (c, [], WriterStops)
      | (TurnWait, _) => Ret (c, [], WriterWaits)
      | (TurnPacket s, r) =>
          let c := upd_ring i (λ _, r) c in
          let bytes := go_int (Z.of_nat (length (slot_data r s))) in
          let delay := adaptiveUpstreamDelay (with_ring lane r) c in
          let waits := (1 <? maxPackets) && (bytes <? maxBytes) && (0 <? delay) in
          match (if waits then sleep delay c else Some c) with
          | None =>
              w ← flush_upstream i [s] out c;
              Ret (w, WriterStops)
          | Some c =>
              match upstreamLanes c !! i with
              | None => Panic
              | Some lane =>
                  let '(r, batch, _) :=
                    fill_batch (Z.to_nat maxPackets) maxPackets maxBytes (ul_ring lane) [s] bytes in
                  w ← flush_upstream i batch out (upd_ring i (λ _, r) c);
                  Ret (w, WriterContinues)
              end
          end
      end
  end.

(** ** The lane as a queue

    Between two calls a lane's ring is a bounded FIFO queue of frames: [ring_at r
    size R q] says that it holds the frames [q], the first at position [R] of the
    counters. *)

Record ring_at (size : nat) (r : upstreamRing) (R : nat) (q : list (list byte)) : Prop := {
  ra_wf : ring_wf r;
  ra_tail : tail r = u64 (Z.of_nat (R + length q));
  ra_read : readHead r = u64 (Z.of_nat R);
  ra_free : freeHead r = u64 (Z.of_nat R);
  ra_room : (length q ≤ length (slots r))%nat;
  ra_data k d : q !! k = Some d → slot_data r ((R + k) mod length (slots r))%nat = d;
  ra_size : Forall (λ p, length (p_buf p) = size ∧ (p_data_len p ≤ size)%nat) (slots r)
}.

Lemma ring_at_cap size r R q : ring_at size r R q → Z.of_nat (length (slots r)) ≤ 2 ^ 62.
Proof. intros Hr. pose proof (ring_wf_cap _ (ra_wf _ _ _ _ Hr)). lia. Qed.

(** A fresh ring is the empty queue. *)
Lemma ring_at_fresh size r :
  ring_fresh r → Forall (λ p, length (p_buf p) = size) (slots r) →
  Forall (λ p, p_data_len p = 0%nat) (slots r) → ring_at size r 0 [].
Proof.
  intros (Hwf & Ht & Hf & Hr) Hb Hn. split; try done; cbn; [lia|].
  rewrite Forall_forall in Hb, Hn |- *. intros p Hp. rewrite (Hb p Hp), (Hn p Hp). split; [done|lia].
Qed.

Lemma fill_slot_spec h data pk :
  (HeaderSize + length data ≤ length (p_buf pk))%nat →
  ∃ pk', fill_slot h data pk = Ret pk' ∧ p_data pk' = frame_bytes h data ∧
    length (p_buf pk') = length (p_buf pk) ∧ p_data_len pk' = (HeaderSize + length data)%nat.
Proof.
  intros Hl. unfold fill_slot.
  rewrite MarshalTo_spec by (rewrite length_take; lia). cbn [mbind exec_bind].
  rewrite (drop_ge (take _ _)) by (rewrite length_take; lia). rewrite app_nil_r.
  assert (length (header_bytes h ++ drop HeaderSize (p_buf pk)) = length (p_buf pk)) as El.
  { rewrite length_app, length_header_bytes, length_drop. lia. }
  rewrite El, Nat.min_l, firstn_all by lia.
  rewrite <- (take_drop (length data) (drop HeaderSize (p_buf pk))).
  pose proof (put_slice_app (header_bytes h) (take (length data) (drop HeaderSize (p_buf pk)))
    (drop (length data) (drop HeaderSize (p_buf pk))) data) as Hput.
  rewrite length_header_bytes in Hput. rewrite Hput by (rewrite length_take, length_drop; lia).
  cbn [mbind exec_bind].
  eexists. split; [done|]. cbn [p_buf p_data_len]. split_and!; [|len|done].
  unfold p_data, frame_bytes; cbn [p_buf p_data_len]. rewrite app_assoc.
  rewrite take_app_length'; [done|]. len.
Qed.

Lemma slot_data_upd r i f pk :
  slots r !! i = Some pk → slot_data (upd_slot r i f) i = p_data (f pk).
Proof. intros Hi. unfold slot_data, upd_slot. cbn. by rewrite list_lookup_alter_eq, Hi. Qed.

Lemma upd_slot_lookup r i f pk :
  slots r !! i = Some pk → slots (upd_slot r i f) !! i = Some (f pk).
Proof. intros Hi. unfold upd_slot; cbn. by rewrite list_lookup_alter_eq, Hi. Qed.

Lemma Forall_upd_slot (P : upstreamPacket → Prop) r i f :
  Forall P (slots r) → (∀ pk, slots r !! i = Some pk → P (f pk)) → Forall P (slots (upd_slot r i f)).
Proof.
  intros HP Hf. apply Forall_lookup. intros j pk. unfold upd_slot; cbn.
  rewrite list_lookup_alter. destruct (decide (i = j)) as [->|].
  - intros (x & Hx & ->)%fmap_Some. by apply Hf.
  - by apply Forall_lookup.
Qed.

Lemma upd_ring_insert i f c lane :
  upstreamLanes c !! i = Some lane →
  upd_ring i f c = set_upLanes c (<[i := with_ring lane (f (ul_ring lane))]> (upstreamLanes c)).
Proof. intros Hi. unfold upd_ring. by erewrite list_alter_insert. Qed.

Lemma upd_ring_twice i f g c :
  upd_ring i g (upd_ring i f c) = upd_ring i (λ r, g (f r)) c.
Proof.
  unfold upd_ring. cbn. f_equal. apply list_eq. intros j. rewrite !list_lookup_alter.
  destruct (decide (i = j)) as [<-|]; [|done]. rewrite decide_True by done.
  by destruct (upstreamLanes c !! i).
Qed.

(** The slot the next frame goes to is not one of the queue's. *)
Lemma ring_at_free size r R q k :
  ring_at size r R q → (k < length q)%nat → (length q < length (slots r))%nat →
  ((R + length q) mod length (slots r))%nat ≠ ((R + k) mod length (slots r))%nat.
Proof. intros Hr Hk Hl. apply not_eq_sym, mod_ne. lia. Qed.

Lemma ring_at_slot size r R q :
  ring_at size r R q → (0 < length (slots r))%nat →
  ∃ pk, slots r !! ((R + length q) mod length (slots r))%nat = Some pk ∧ length (p_buf pk) = size.
Proof.
  intros Hr Hl. destruct (lookup_lt_is_Some_2 (slots r) ((R + length q) mod length (slots r))) as [pk Hpk].
  { apply Nat.mod_upper_bound. lia. }
  exists pk. split; [done|]. pose proof (ra_size _ _ _ _ Hr) as Hs. eapply Forall_lookup in Hs as [? _]; done.
Qed.

(** Filling the free slot and advancing the tail appends to the queue. *)
Lemma ring_at_push size r R q d f :
  ring_at size r R q → (length q < length (slots r))%nat →
  let i := ((R + length q) mod length (slots r))%nat in
  (∀ pk, slots r !! i = Some pk → p_data (f pk) = d ∧ length (p_buf (f pk)) = length (p_buf pk) ∧
     (p_data_len (f pk) ≤ length (p_buf pk))%nat) →
  ring_at size (set_tail (upd_slot r i f) (u64 (tail r + 1))) R (q ++ [d]).
Proof.
  intros Hr Hl i Hf. destruct (ring_at_slot _ _ _ _ Hr ltac:(lia)) as (pk & Hpk & Hsz). fold i in Hpk.
  destruct (Hf pk Hpk) as (Hd & Hb & Hn).
  pose proof Hr as [Hwf Ht Hrd Hfr Hroom Hdat Hsize].
  pose proof (length_upd_slot r i f) as Hlen.
  assert (slots (set_tail (upd_slot r i f) (u64 (tail r + 1))) = slots (upd_slot r i f)) as Hsl by done.
  split; rewrite ?Hsl, ?Hlen; try done.
  - by apply ring_wf_upd.
  - cbn [tail set_tail]. rewrite Ht, u64_succ, length_app. cbn [length]. do 2 f_equal. lia.
  - rewrite length_app. cbn [length]. lia.
  - intros k e Hk. change (slot_data (set_tail (upd_slot r i f) (u64 (tail r + 1)))) with (slot_data (upd_slot r i f)).
    apply lookup_app_Some in Hk as [Hk|[Hge Hk]].
    + pose proof (lookup_lt_Some _ _ _ Hk). rewrite <- (Hdat _ _ Hk).
      apply slot_data_upd_ne. by apply (ring_at_free size r R q k).
    + apply list_lookup_singleton_Some in Hk as [Hk0 ->].
      replace (R + k)%nat with (R + length q)%nat by lia. fold i. rewrite <- Hd. by apply slot_data_upd.
  - apply Forall_upd_slot; [done|]. intros pk' Hpk'. rewrite Hpk in Hpk'. injection Hpk' as <-.
    rewrite Hb, Hsz. split; [done|lia].
Qed.

(** Truncating a slot that is not in the queue changes nothing. *)
Lemma ring_at_truncate size r R q :
  ring_at size r R q → (length q < length (slots r))%nat →
  ring_at size (upd_slot r ((R + length q) mod length (slots r)) truncate) R q.
Proof.
  intros Hr Hl. pose proof (length_upd_slot r ((R + length q) mod length (slots r)) truncate) as Hlen.
  pose proof Hr as [Hwf Ht Hrd Hfr Hroom Hdat Hsize]. split; try done.
  - by apply ring_wf_upd.
  - by rewrite Hlen.
  - intros k d Hk. rewrite Hlen, <- (Hdat _ _ Hk). apply slot_data_upd_ne.
    pose proof (lookup_lt_Some _ _ _ Hk). by apply (ring_at_free size r R q k).
  - apply Forall_upd_slot; [done|]. intros pk Hpk. eapply Forall_lookup in Hsize as [? _]; [|done].
    split; [done|]. cbn. lia.
Qed.

Lemma acquire_at size r R q :
  ring_at size r R q →
  acquire r = if closed r then (TurnNil, r)
              else if decide (length q < length (slots r))%nat
              then let i := ((R + length q) mod length (slots r))%nat in (TurnPacket i, upd_slot r i truncate)
              else (TurnWait, r).
Proof.
  intros Hr. pose proof Hr as [Hwf Ht Hrd Hfr Hroom _ _]. pose proof (ring_at_cap _ _ _ _ Hr).
  pose proof (ring_wf_cap _ Hwf) as (_ & Hcap & _).
  unfold acquire. destruct (closed r); [done|].
  rewrite Ht, Hfr, (u64_sub (length (slots r))) by lia. rewrite <- slot_of_counter by done.
  replace (Z.of_nat (R + length q - R)) with (Z.of_nat (length q)) by lia.
  destruct (decide _); [rewrite (proj2 (Z.ltb_lt _ _))|rewrite (proj2 (Z.ltb_ge _ _))]; try done; lia.
Qed.

(** [submit_upstream] on a lane that is a queue: it waits when the queue is full,
    drops the frame when the ring is closed, appends it otherwise. *)
Lemma submit_upstream_at c o lane size R q :
  upstreamLanes c !! og_lane o = Some lane → ring_at size (ul_ring lane) R q →
  (HeaderSize + length (og_data o) ≤ size)%nat → Z.of_nat size < 2 ^ 31 →
  if closed (ul_ring lane) then submit_upstream o c = Ret (Some c)
  else if decide (length q < length (slots (ul_ring lane)))%nat then
    ∃ r', submit_upstream o c =
        Ret (Some (set_upLanes c (<[og_lane o := with_ring lane r']> (upstreamLanes c)))) ∧
      ring_at size r' R (q ++ [frame_bytes (og_header o) (og_data o)]) ∧ closed r' = false ∧
      length (slots r') = length (slots (ul_ring lane))
  else submit_upstream o c = Ret None.
Proof.
  intros Hlane Hr Hfit Hsz. unfold submit_upstream. rewrite Hlane, (acquire_at _ _ _ _ Hr).
  set (r := ul_ring lane) in *. destruct (closed r) eqn:Ecl; [done|].
  destruct (decide _) as [Hroom|]; [|done].
  set (i := ((R + length q) mod length (slots r))%nat).
  destruct (ring_at_slot _ _ _ _ Hr ltac:(lia)) as (pk & Hpk & Hb). fold i in Hpk.
  cbv beta zeta iota. rewrite (upd_slot_lookup r i truncate pk Hpk).
  rewrite go_int_small by lia. rewrite (proj2 (Z.ltb_ge _ _)) by (cbn [p_buf truncate]; lia).
  destruct (fill_slot_spec (og_header o) (og_data o) (truncate pk)) as (pk' & -> & Hd & Hb' & Hn).
  { cbn [p_buf truncate]. lia. }
  cbn [p_buf truncate] in Hb'.
  cbn [mbind exec_bind submit]. cbn [closed upd_slot set_slots]. rewrite Ecl. cbn [negb].
  rewrite upd_ring_twice, (upd_ring_insert _ _ _ lane) by done.
  eexists. split; [done|]. split; [|split; [done|]].
  2: { etrans; [apply (length_upd_slot (upd_slot r i truncate) i (λ _, pk'))|apply length_upd_slot]. }
  pose proof (ring_at_truncate _ _ _ _ Hr Hroom) as Ht. fold i in Ht.
  pose proof (length_upd_slot r i truncate) as Hlen.
  apply (ring_at_push size (upd_slot r i truncate) R q (frame_bytes (og_header o) (og_data o)) (λ _, pk')) in Ht.
  - rewrite Hlen in Ht. fold i in Ht. done.
  - by rewrite Hlen.
  - intros pk2. rewrite Hlen. fold i. rewrite (upd_slot_lookup r i truncate pk Hpk). intros [= <-]. split_and!; [done|done|]. rewrite Hn. cbn [p_buf truncate]. lia.
Qed.

(** ** The consumer

    [ring_read size r R q k]: the queue [q] of which the first [k] frames have been
    popped and not yet released. *)

Definition ring_read (size : nat) (r : upstreamRing) (R : nat) (q : list (list byte)) (k : nat) : Prop :=
  ring_at size (set_readHead r (u64 (Z.of_nat R))) R q ∧
  readHead r = u64 (Z.of_nat (R + k)) ∧ (k ≤ length q)%nat.

Lemma ring_read_0 size r R q : ring_read size r R q 0 ↔ ring_at size r R q.
Proof.
  unfold ring_read. rewrite Nat.add_0_r. split.
  - intros (Hr & Hrd & _). rewrite <- Hrd in Hr. by destruct r.
  - intros Hr. split_and!; [|by apply Hr|lia]. rewrite <- (ra_read _ _ _ _ Hr). by destruct r.
Qed.

Lemma ring_read_next size r R q k :
  ring_read size r R q k → (k < length q)%nat →
  ring_read size (set_readHead r (u64 (readHead r + 1))) R q (S k) ∧
  slot_of r (readHead r) = ((R + k) mod length (slots r))%nat.
Proof.
  intros (Hr & Hrd & Hk) Hlt. split.
  - split_and!; [by destruct r|cbn|lia]. rewrite Hrd, u64_succ. do 2 f_equal. lia.
  - rewrite Hrd. apply (slot_of_counter r (R + k)). by apply (ra_wf _ _ _ _ Hr).
Qed.

Lemma ring_read_empty size r R q k :
  ring_read size r R q k → (readHead r =? tail r) = bool_decide (k = length q).
Proof.
  intros (Hr & Hrd & Hk). pose proof (ring_at_cap _ _ _ _ Hr) as Hcap. cbn in Hcap.
  pose proof (ra_tail _ _ _ _ Hr) as Ht. cbn in Ht. pose proof (ra_room _ _ _ _ Hr) as Hroom. cbn in Hroom.
  rewrite Hrd, Ht, (u64_eq (length (slots r))) by lia. apply bool_decide_ext. lia.
Qed.

(** The frame at position [k] of the queue, and its length. *)
Lemma ring_read_slot size r R q k d :
  ring_read size r R q k → q !! k = Some d →
  let i := ((R + k) mod length (slots r))%nat in
  slot_data r i = d ∧ ∃ pk, slots r !! i = Some pk ∧ p_data_len pk = length d ∧ (length d ≤ size)%nat.
Proof.
  intros (Hr & _ & _) Hd i. pose proof (ra_data _ _ _ _ Hr k d Hd) as Hdat. cbn in Hdat.
  change (slot_data r i = d) in Hdat. split; [done|].
  assert (0 < length (slots r))%nat as Hpos.
  { pose proof (ra_room _ _ _ _ Hr) as Hroom. pose proof (lookup_lt_Some _ _ _ Hd). cbn in Hroom. lia. }
  destruct (lookup_lt_is_Some_2 (slots r) i) as [pk Hpk]; [apply Nat.mod_upper_bound; lia|].
  exists pk. split; [done|]. pose proof (ra_size _ _ _ _ Hr) as Hs.
  eapply Forall_lookup in Hs as [Hb Hn]; [|exact Hpk].
  unfold slot_data in Hdat. rewrite Hpk in Hdat. rewrite <- Hdat. unfold p_data. rewrite length_take. lia.
Qed.

Definition bytes_of (q : list (list byte)) : Z := Z.of_nat (length (concat q)).

Lemma bytes_of_take_S q k d :
  q !! k = Some d → bytes_of (take (S k) q) = bytes_of (take k q) + Z.of_nat (length d).
Proof. intros Hd. unfold bytes_of. rewrite (take_S_r _ _ _ Hd), concat_app. cbn. rewrite app_nil_r. len. Qed.

(** The batch loop takes frames off the queue, in order, until it is full, over
    the byte limit, or the queue is empty. *)
Lemma fill_batch_at size fuel maxPackets maxBytes r R q k :
  ring_read size r R q k → (Z.to_nat maxPackets - k ≤ fuel)%nat →
  Z.of_nat size + maxBytes < 2 ^ 31 →
  ∃ k', fill_batch fuel maxPackets maxBytes r (window (length (slots r)) R k) (bytes_of (take k q)) =
      (set_readHead r (u64 (Z.of_nat (R + k'))), window (length (slots r)) R k', bytes_of (take k' q)) ∧
    (k ≤ k' ≤ length q)%nat ∧ (k = k' ∨ Z.of_nat k' ≤ maxPackets) ∧
    (k = k' ∨ bytes_of (take (k' - 1) q) < maxBytes) ∧
    (k' = length q ∨ maxPackets ≤ Z.of_nat k' ∨ maxBytes ≤ bytes_of (take k' q)).
Proof.
  revert r k. induction fuel as [|fuel IH]; intros r k Hr Hf Hsz;
    pose proof Hr as (_ & Hrd & Hk); cbn [fill_batch].
  { exists k. rewrite <- Hrd. split; [by destruct r|]. split_and!; auto; lia. }
  assert (length (window (length (slots r)) R k) = k) as Hwl
    by (unfold window; by rewrite length_fmap, length_seq).
  rewrite Hwl. destruct (Z.ltb_spec (Z.of_nat k) maxPackets) as [Hp|Hp]; cbn [andb].
  2: { exists k. rewrite <- Hrd. split; [by destruct r|]. split_and!; auto; lia. }
  destruct (Z.ltb_spec (bytes_of (take k q)) maxBytes) as [Hb|Hb].
  2: { exists k. rewrite <- Hrd. split; [by destruct r|]. split_and!; auto; lia. }
  unfold tryPop. rewrite (ring_read_empty _ _ _ _ _ Hr). case_bool_decide as He.
  { exists k. rewrite <- Hrd. split; [by destruct r|]. split_and!; auto; lia. }
  destruct (lookup_lt_is_Some_2 q k) as [d Hd]; [lia|].
  destruct (ring_read_next _ _ _ _ _ Hr ltac:(lia)) as [Hr' Hslot].
  destruct (ring_read_slot _ _ _ _ _ _ Hr Hd) as (_ & pk & Hpk & Hn & Hds).
  unfold take_next. cbv beta iota zeta. rewrite Hslot.
  change (slots (set_readHead r (u64 (readHead r + 1)))) with (slots r). rewrite Hpk, Hn.
  rewrite <- window_snoc. 
  assert (0 ≤ bytes_of (take k q)) by (unfold bytes_of; lia).
  rewrite go_int_small by lia.
  rewrite <- bytes_of_take_S by done.
  destruct (IH _ _ Hr' ltac:(lia) Hsz) as (k' & E1 & Hk1 & Hk2 & Hk3 & Hk4).
  exists k'. change (slots (set_readHead r (u64 (readHead r + 1)))) with (slots r) in E1. rewrite E1.
  split; [done|]. split; [lia|]. split; [lia|]. split; [|done].
  right. destruct Hk3 as [<-|?]; [|done]. by replace (S k - 1)%nat with k by lia.
Qed.

Lemma release_at size r R d q k :
  ring_read size r R (d :: q) (S k) →
  ring_read size (release r (Some (R mod length (slots r))%nat)) (S R) q k.
Proof.
  intros (Hr & Hrd & Hk). pose proof Hr as [Hwf Ht _ Hfr Hroom Hdat Hsize].
  cbn [length] in *. pose proof (length_upd_slot r (R mod length (slots r)) truncate) as Hlen.
  assert (slots (release r (Some (R mod length (slots r))%nat)) =
    slots (upd_slot r (R mod length (slots r)) truncate)) as Hsl by done.
  split_and!; [|cbn; rewrite Hrd; do 2 f_equal; lia|lia].
  change (slots (set_readHead r (u64 (Z.of_nat R)))) with (slots r) in *.
  split; cbn [tail readHead freeHead set_readHead release set_freeHead upd_slot set_slots] in *; try done.
  - apply (ring_wf_upd r (R mod length (slots r)) truncate). exact Hwf.
  - rewrite Ht. do 2 f_equal. lia.
  - rewrite Hfr, u64_succ. done.
  - change (length q ≤ length (slots (upd_slot r (R mod length (slots r)) truncate)))%nat. lia.
  - intros j e Hj. pose proof (lookup_lt_Some _ _ _ Hj).
    change (slot_data (upd_slot r (R mod length (slots r)) truncate)
      ((S R + j) mod length (slots (upd_slot r (R mod length (slots r)) truncate))) = e).
    rewrite Hlen, slot_data_upd_ne by (apply mod_ne; lia).
    replace (S R + j)%nat with (R + S j)%nat by lia. by apply (Hdat (S j)).
  - apply (Forall_upd_slot _ r); [exact Hsize|]. intros pk Hpk.
    eapply Forall_lookup in Hsize as [? ?]; [|exact Hpk]. split; [done|]. cbn. lia.
Qed.

Lemma release_all size r R q k :
  ring_read size r R q k →
  ring_at size (foldl (λ r s, release r (Some s)) r (window (length (slots r)) R k)) (R + k) (drop k q).
Proof.
  revert r R q. induction k as [|k IH]; intros r R q Hr.
  { rewrite Nat.add_0_r, drop_0. by apply ring_read_0. }
  destruct q as [|d q]; [destruct Hr as (_ & _ & ?); cbn in *; lia|].
  assert (window (length (slots r)) R (S k) =
    (R mod length (slots r))%nat :: window (length (slots r)) (S R) k) as -> by done.
  cbn [foldl drop]. apply release_at, IH in Hr.
  assert (length (slots (release r (Some (R mod length (slots r))%nat))) = length (slots r)) as Hl
    by apply length_upd_slot.
  rewrite Hl in Hr. by replace (R + S k)%nat with (S R + k)%nat by lia.
Qed.

Lemma ring_read_data size r R q k :
  ring_read size r R q k → slot_data r <$> window (length (slots r)) R k = take k q.
Proof.
  intros (Hr & _ & Hk). revert Hk. induction k as [|k IH]; intros Hk; [done|].
  destruct (lookup_lt_is_Some_2 q k) as [d Hd]; [lia|].
  rewrite window_snoc, fmap_app, IH, (take_S_r _ _ _ Hd) by lia. f_equal. cbn. f_equal.
  apply (ra_data _ _ _ _ Hr k d Hd).
Qed.

Lemma pop_at size r R q :
  ring_at size r R q →
  pop r = match q with
          | [] => (if closed r then TurnNil else TurnWait, r)
          | _ => (TurnPacket (R mod length (slots r))%nat, set_readHead r (u64 (readHead r + 1)))
          end.
Proof.
  intros Hr%ring_read_0. unfold pop. rewrite (ring_read_empty _ _ _ _ _ Hr).
  destruct q as [|d q]; cbn [length]; [by destruct (closed r)|]. rewrite bool_decide_false by lia. cbn [negb].
  unfold take_next. destruct (ring_read_next _ _ _ _ _ Hr) as [_ ->]; [cbn; lia|].
  by rewrite Nat.add_0_r.
Qed.

(** What a turn of the writer does to the lane and the network. *)
Definition written_lane (out : write_outcome) (lane : upstreamLane) (r : upstreamRing) : upstreamLane :=
  match ul_conn lane, out with
  | Some _, WriteError _ => mkUpLane (ul_id lane) r true None
  | _, _ => with_ring lane r
  end.

Definition written_effects (out : write_outcome) (lane : upstreamLane) (bytes : list byte) : list effect :=
  match ul_conn lane, out with
  | None, _ => []
  | Some conn, Written => [TcpWrite conn bytes]
  | Some conn, WriteError n => [TcpWrite conn (take n bytes); TcpClose conn]
  end.

Lemma flush_at size c i lane R q k out :
  upstreamLanes c !! i = Some lane → ring_read size (ul_ring lane) R q k → (0 < k)%nat →
  ∃ c' r', flush_upstream i (window (length (slots (ul_ring lane))) R k) out c =
      Ret (c', written_effects out lane (concat (take k q))) ∧
    upstreamLanes c' = <[i := written_lane out lane r']> (upstreamLanes c) ∧
    ring_at size r' (R + k) (drop k q) ∧ closed r' = closed (ul_ring lane) ∧ params c' = params c.
Proof.
  intros Hlane Hr Hk. pose proof (release_all _ _ _ _ _ Hr) as Hrel.
  set (r := ul_ring lane) in *. set (batch := window (length (slots r)) R k) in *.
  assert (closed (foldl (λ r s, release r (Some s)) r batch) = closed r) as Hcl.
  { generalize batch r. clear. induction batch as [|s b IH]; intros r; cbn; [done|]. by rewrite IH. }
  assert (flush_upstream i batch out c =
    (w ← writeUpstreamBatch i (slot_data r <$> batch) (Z.of_nat (length batch)) out c;
     let '(c, eff) := w in
     Ret (upd_ring i (λ r, foldl (λ r s, release r (Some s)) r batch) c, eff))) as ->.
  { unfold flush_upstream. fold r in Hlane. rewrite Hlane. destruct k; [lia|]. done. }
  assert (slot_data r <$> batch = take k q) as -> by apply (ring_read_data _ _ _ _ _ Hr).
  unfold writeUpstreamBatch, written_lane, written_effects. rewrite Hlane.
  destruct (ul_conn lane) as [conn|] eqn:Ec.
  - destruct out as [|n]; cbn [mbind exec_bind].
    + case_decide; cbn [mbind exec_bind]; eexists _, _; (split; [done|]);
        (split; [unfold upd_ring; cbn [upstreamLanes set_upLanes set_stats];
          by erewrite list_alter_insert|]); done.
    + assert (take (n `min` length (concat (take k q))) (concat (take k q)) = take n (concat (take k q))) as ->.
      { destruct (decide (n ≤ length (concat (take k q)))%nat); [by rewrite Nat.min_l by lia|].
        rewrite (take_ge (concat (take k q)) n) by lia. by rewrite Nat.min_r, firstn_all by lia. }
      set (c1 := if decide _ then _ else _).
      assert (upstreamLanes c1 = upstreamLanes c ∧ params c1 = params c) as [Hu Hp] by (unfold c1; by case_decide).
      clearbody c1. eexists _, _; (split; [done|]).
      unfold upd_ring; cbn [upstreamLanes set_upLanes set_stats params]. rewrite Hu, Hp.
      erewrite list_alter_insert by (apply list_lookup_insert_eq; by eapply lookup_lt_Some).
      rewrite list_insert_insert_eq. by split_and!.
  - cbn [mbind exec_bind]; eexists _, _; (split; [done|]).
    split; [unfold upd_ring; cbn [upstreamLanes set_upLanes set_stats]; by erewrite list_alter_insert|done].
Qed.

(** ** A client that is ready to send *)

(** What [New] establishes for the upstream path and nothing changes: at least one
    lane, and slots with room for the longest datagram encrypted and framed. *)
Record upstream_ok c : Prop := {
  uo_lanes : (0 < length (upstreamLanes c))%nat ∧ Z.of_nat (length (upstreamLanes c)) < 2 ^ 32;
  uo_max : cp_maxUpstreamPacket (params c) = Z.of_nat HeaderSize +
    MaxPacketSize (cp_config (params c)) + Z.of_nat (Overhead (cp_upstreamCipher (params c)));
  uo_size : 0 ≤ MaxPacketSize (cp_config (params c)) ∧ cp_maxUpstreamPacket (params c) < 2 ^ 31
}.

(** The lane of a packet: by session, or by sequence number in stripe mode. *)
Definition lane_of c (sid seq : Z) : nat :=
  Z.to_nat ((if cp_upstreamStripeEnabled (params c) then seq else sid) mod
    Z.of_nat (length (upstreamLanes c))).

Lemma selectUpstreamLane_ok c sid seq :
  upstream_ok c → selectUpstreamLane c sid seq = Ret (lane_of c sid seq).
Proof.
  intros [[H1 H2] _ _]. unfold selectUpstreamLane, upstreamLaneForSession, lane_index, lane_of.
  rewrite u32_small by (unfold in_word; lia). rewrite (proj2 (Z.eqb_neq _ _)) by lia.
  by destruct (cp_upstreamStripeEnabled (params c)).
Qed.

Lemma max_plaintext_small n : n < 2 ^ 31 → n ≤ max_plaintext.
Proof. unfold max_plaintext. lia. Qed.

Lemma prepare_upstream_ok c p s data rand `{!CipherSpec (cp_upstreamCipher (params c))} :
  upstream_ok c → random_ok rand → heap c !! p = Some s → in_word 32 (us_sessionID s) →
  Z.of_nat (length data) ≤ MaxPacketSize (cp_config (params c)) →
  match Encrypt (cp_upstreamCipher (params c)) rand data with
  | Err _ => prepare_upstream p data rand c = Ret (None, set_stats c (AddError (stats c)))
  | Ok ct =>
      let seq := u32 (us_sequenceID s + 1) in
      let header := NewDataPacket (us_sessionID s) seq (Z.of_nat (length ct)) in
      prepare_upstream p data rand c =
        Ret (Some (mkOutgoing (lane_of c (us_sessionID s) seq) header ct),
             set_heap c (<[p := (us_NextSequenceID s).2]> (heap c))) ∧
      Decrypt (cp_upstreamCipher (params c)) ct = Ok data ∧
      Z.of_nat (HeaderSize + length ct) ≤ cp_maxUpstreamPacket (params c) ∧ header_wf header
  end.
Proof.
  intros Hok Hr Hp Hsid Hlen. pose proof Hok as [_ Hmax [Hm0 Hm]].
  destruct (Encrypt _ rand data) as [ct|e] eqn:Ee; [|by unfold prepare_upstream; rewrite Ee].
  cbv zeta. pose proof (max_plaintext_small (Z.of_nat (length data)) ltac:(lia)) as Hpl.
  pose proof (length_Encrypt _ _ _ Hr Hpl Ee) as Hct. split_and!.
  - unfold prepare_upstream. rewrite Ee, Hp. cbn [us_NextSequenceID].
    rewrite (u32_small (Z.of_nat (length ct))) by (unfold in_word; lia). 
    match goal with |- context [selectUpstreamLane (set_heap c ?h) ?a ?b] =>
      change (selectUpstreamLane (set_heap c h) a b) with (selectUpstreamLane c a b) end.
    by rewrite selectUpstreamLane_ok.
  - by eapply Decrypt_Encrypt.
  - lia.
  - apply NewDataPacket_wf; [done|apply u32_word|unfold in_word; lia].
Qed.

Lemma make_upLanes_spec n i queue size ls :
  0 ≤ size → queue ≤ 2 ^ (int_bits - 2) → make_upLanes i n queue size = Ret (Some ls) →
  length ls = n ∧ Forall (λ l, ring_at (Z.to_nat size) (ul_ring l) 0 [] ∧ closed (ul_ring l) = false ∧
    ul_conn l = None) ls.
Proof.
  intros Hs Hq. revert i ls. induction n as [|n IH]; intros i ls; cbn [make_upLanes].
  { intros [= <-]. split; [done|constructor]. }
  rewrite (proj2 (Z.ltb_ge _ _)) by lia.
  destruct (newUpstreamRing_spec queue (Z.to_nat size) Hq) as (r & Er & Hwf & _ & _ & Ht & Hf & Hr & Hc & Hb).
  rewrite Er. destruct (make_upLanes (S i) n queue size) as [[rest|]|] eqn:E1; cbn; try done.
  intros [= <-]. destruct (IH _ _ E1) as [Hl HF]. split; [cbn; lia|]. constructor; [|done].
  cbn. split_and!; [|done|done]. apply ring_at_fresh; [done|done|].
  unfold newUpstreamRing in Er. destruct (nextPowerOfTwo _) in Er; [|done]. injection Er as <-.
  cbn. by apply Forall_replicate.
Qed.

(** [New] makes a client that is ready, with every lane an empty queue. *)
Lemma ClientNew_upstream {Block} `{CryptoLib E Block, !CryptoLibSpec E Block _} now cfg c :
  ClientNew now cfg = Ret (Some (Ok c)) → UpstreamLaneCount cfg < 2 ^ 32 →
  UpstreamQueueSize cfg ≤ 2 ^ 30 → 0 ≤ MaxPacketSize cfg < 2 ^ 30 →
  upstream_ok c ∧ CipherSpec (cp_upstreamCipher (params c)) ∧ cp_upstreamZeroCopy (params c) = false ∧
  cp_config (params c) = cfg ∧
  Forall (λ l, ring_at (Z.to_nat (cp_maxUpstreamPacket (params c))) (ul_ring l) 0 [] ∧
    closed (ul_ring l) = false ∧ ul_conn l = None) (upstreamLanes c).
Proof.
  intros Hn Hl Hq Hm. unfold ClientNew in Hn.
  pose proof (NewCipher_cases _ (UpstreamCrypto cfg)) as Hc.
  destruct (NewCipher (UpstreamCrypto cfg)) as [[uc|]|]; try done. cbn [mbind exec_bind] in Hn.
  destruct Hc as [Hc _]. pose proof (Overhead_small (c := uc)) as Ho.
  destruct (NewCipher (DownstreamCrypto cfg)) as [[dc|]|]; try done. cbn [mbind exec_bind] in Hn.
  unfold HeaderSize in Hn. rewrite go_int_small in Hn by lia.
  destruct (make_upLanes _ _ _ _) as [[ups|]|] eqn:Eu; try done. injection Hn as <-.
  apply make_upLanes_spec in Eu as [Hul HF]; [|lia|].
  2: { transitivity (2 ^ 30); [done|]. destruct int_bits_cases as [-> | ->]; lia. }
  split_and!; try done. split; cbn [upstreamLanes params cp_maxUpstreamPacket cp_config cp_upstreamCipher]; unfold HeaderSize; lia.
Qed.

(** The client after [sendToUpstream] took a sequence number. *)
Definition next_seq c (p : ptr) (s : UDPSession) : Client E :=
  set_heap c (<[p := (us_NextSequenceID s).2]> (heap c)).

(** [sendToUpstream] as an operation on the queue of the lane. *)
Lemma sendToUpstream_at c p s data rand ct lane R q `{!CipherSpec (cp_upstreamCipher (params c))} :
  upstream_ok c → random_ok rand → heap c !! p = Some s → in_word 32 (us_sessionID s) →
  Z.of_nat (length data) ≤ MaxPacketSize (cp_config (params c)) →
  Encrypt (cp_upstreamCipher (params c)) rand data = Ok ct →
  let seq := u32 (us_sequenceID s + 1) in
  let i := lane_of c (us_sessionID s) seq in
  let header := NewDataPacket (us_sessionID s) seq (Z.of_nat (length ct)) in
  upstreamLanes c !! i = Some lane →
  ring_at (Z.to_nat (cp_maxUpstreamPacket (params c))) (ul_ring lane) R q →
  Decrypt (cp_upstreamCipher (params c)) ct = Ok data ∧ header_wf header ∧
  if closed (ul_ring lane) then sendToUpstream p data rand c = Ret (Some (next_seq c p s))
  else if decide (length q < length (slots (ul_ring lane)))%nat then
    ∃ r', sendToUpstream p data rand c =
        Ret (Some (set_upLanes (next_seq c p s) (<[i := with_ring lane r']> (upstreamLanes c)))) ∧
      ring_at (Z.to_nat (cp_maxUpstreamPacket (params c))) r' R (q ++ [frame_bytes header ct]) ∧
      closed r' = false ∧ length (slots r') = length (slots (ul_ring lane))
  else sendToUpstream p data rand c = Ret None.
Proof.
  intros Hok Hr Hp Hsid Hlen Ee seq i header Hlane Hq.
  pose proof (prepare_upstream_ok c p s data rand Hok Hr Hp Hsid Hlen) as H1. rewrite Ee in H1.
  destruct H1 as (E1 & Hdec & Hfit & Hwf). split; [done|]. split; [done|].
  unfold sendToUpstream. rewrite E1. cbn [mbind exec_bind]. fold (next_seq c p s).
  destruct (uo_size _ Hok) as [_ Hsz].
  apply (submit_upstream_at (next_seq c p s) (mkOutgoing i header ct) lane _ R q); cbn [og_lane og_data]; try done; lia.
Qed.

(** One turn of the writer that does not sleep. *)
Lemma writer_turn_at size c i sleep out lane R q :
  cp_upstreamBatchMaxDelay (params c) ≤ 0 → 1 ≤ cp_upstreamBatchMaxPackets (params c) →
  Z.of_nat size + Z.max 0 (cp_upstreamBatchMaxBytes (params c)) < 2 ^ 31 →
  upstreamLanes c !! i = Some lane → ring_at size (ul_ring lane) R q → q ≠ [] →
  ∃ c' r' k, handleUpstreamWrites i sleep out c =
      Ret (c', written_effects out lane (concat (take k q)), WriterContinues) ∧
    upstreamLanes c' = <[i := written_lane out lane r']> (upstreamLanes c) ∧ params c' = params c ∧
    ring_at size r' (R + k) (drop k q) ∧ closed r' = closed (ul_ring lane) ∧
    (1 ≤ k ≤ length q)%nat ∧ Z.of_nat k ≤ cp_upstreamBatchMaxPackets (params c) ∧
    (k = 1%nat ∨ bytes_of (take (k - 1) q) < cp_upstreamBatchMaxBytes (params c)) ∧
    (k = length q ∨ Z.of_nat k = cp_upstreamBatchMaxPackets (params c) ∨
     cp_upstreamBatchMaxBytes (params c) ≤ bytes_of (take k q)).
Proof.
  intros Hdelay Hmax Hsz Hlane Hr Hq. unfold handleUpstreamWrites. rewrite Hlane, (pop_at _ _ _ _ Hr).
  destruct q as [|d q']; [done|]. set (q := d :: q') in *.
  set (r := ul_ring lane) in *. set (r1 := set_readHead r (u64 (readHead r + 1))).
  destruct (ring_read_next _ _ _ _ _ (proj2 (ring_read_0 _ _ _ _) Hr) ltac:(cbn; lia)) as [Hr1 _]. fold r1 in Hr1.
  destruct (ring_read_slot _ _ _ _ _ d (proj2 (ring_read_0 _ _ _ _) Hr) eq_refl) as (Hd & _ & _ & _ & Hds).
  rewrite Nat.add_0_r in Hd. fold r in Hd.
  change (slot_data r1) with (slot_data r). rewrite Hd.
  assert (adaptiveUpstreamDelay (with_ring lane r1) (upd_ring i (λ _, r1) c) = 0) as ->.
  { unfold adaptiveUpstreamDelay, adaptive_delay. by rewrite (proj2 (Z.leb_le _ _)). }
  rewrite !andb_false_r. rewrite (upd_ring_insert _ _ _ lane) by done.
  cbn [upstreamLanes set_upLanes params]. rewrite list_lookup_insert_eq by by eapply lookup_lt_Some.
  cbn [ul_ring with_ring]. rewrite go_int_small by lia.
  pose proof (fill_batch_at size (Z.to_nat (cp_upstreamBatchMaxPackets (params c)))
    (cp_upstreamBatchMaxPackets (params c)) (cp_upstreamBatchMaxBytes (params c)) r1 R q 1 Hr1
    ltac:(lia) ltac:(lia)) as (k & E1 & Hk1 & Hk2 & Hk3 & Hk4).
  change (window (length (slots r1)) R 1) with [(R mod length (slots r))%nat] in E1.
  assert (bytes_of (take 1 q) = Z.of_nat (length d)) as Eb by (unfold bytes_of, q; cbn; by rewrite app_nil_r).
  rewrite Eb in E1. rewrite E1.
  set (r2 := set_readHead r1 (u64 (Z.of_nat (R + k)))).
  assert (ring_read size r2 R q k) as Hr2.
  { destruct Hr1 as (Hra & _ & _). split_and!; [|done|lia]. unfold r2. by destruct r1. }
  unfold upd_ring at 1. cbn [upstreamLanes set_upLanes].
  erewrite list_alter_insert by by (apply list_lookup_insert_eq; eapply lookup_lt_Some).
  rewrite list_insert_insert_eq. cbn [with_ring ul_id ul_ring ul_reconnect ul_conn].
  change (with_ring (with_ring lane r1) r2) with (with_ring lane r2).
  match goal with |- context [flush_upstream i _ out ?cc] => set (c2 := cc) end.
  destruct (flush_at size c2 i (with_ring lane r2) R q k out) as (c' & r' & E2 & Hu & Hr' & Hcl & Hp).
  { cbn. apply list_lookup_insert_eq. by eapply lookup_lt_Some. }
  { done. }
  { lia. }
  change (window (length (slots r1)) R k) with (window (length (slots (ul_ring (with_ring lane r2)))) R k).
  rewrite E2. cbn [mbind exec_bind]. exists c', r', k. split_and!; try done; try lia.
  rewrite Hu. cbn. by rewrite list_insert_insert_eq.
Qed.

End Upstream.

(** ** A concrete session that sends, for the witnesses *)

Lemma sample_upstream :
  upstream_ok sample_client ∧ CipherSpec (cp_upstreamCipher (params sample_client)) ∧
  Forall (λ l, ring_at 84 (ul_ring l) 0 [] ∧ closed (ul_ring l) = false) (upstreamLanes sample_client).
Proof.
  destruct (ClientNew_upstream (H := int64_target) (H0 := toy_lib) 0 sample_config sample_client)
    as (Hok & Hc & _ & _ & HF); try by_compute; [vm_compute; reflexivity|].
  split; [done|]. split; [done|]. eapply Forall_impl; [exact HF|]. cbn. tauto.
Qed.

(** The client after its first datagram created session 1. *)
Definition sample_client1 : Client unit :=
  match getOrCreateSession 0 sample_peer sample_client with
  | Ret (_, c) => c
  | Panic => sample_client
  end.

(** ** Theorems *)

(** C24: sending is appending to the lane's queue. On a client that [New] made
    (or any with the same sizes) and for every datagram up to [MaxPacketSize]:
    the packet is encrypted to something that decrypts to the datagram, given the
    session's next number, and framed under a valid header whose length is that of
    the ciphertext; the frame always fits its slot and is appended, unmodified, to
    the queue of the lane that the session (or in stripe mode the number) selects,
    every other lane, and the counters, being unchanged. A full queue makes the
    sender wait without losing the frame; a closed one drops it. *)
Theorem sendToUpstream_queues `{IntWidth} {E} (c : Client E) p s data rand ct lane R q :
  CipherSpec (cp_upstreamCipher (params c)) → upstream_ok c → random_ok rand →
  heap c !! p = Some s → in_word 32 (us_sessionID s) →
  Z.of_nat (length data) ≤ MaxPacketSize (cp_config (params c)) →
  Encrypt (cp_upstreamCipher (params c)) rand data = Ok ct →
  let seq := u32 (us_sequenceID s + 1) in
  let i := lane_of c (us_sessionID s) seq in
  let header := NewDataPacket (us_sessionID s) seq (Z.of_nat (length ct)) in
  upstreamLanes c !! i = Some lane →
  ring_at (Z.to_nat (cp_maxUpstreamPacket (params c))) (ul_ring lane) R q →
  (Decrypt (cp_upstreamCipher (params c)) ct = Ok data ∧ header_wf header ∧ Validate header = None) ∧
  if closed (ul_ring lane) then sendToUpstream p data rand c = Ret (Some (next_seq c p s))
  else if decide (length q < length (slots (ul_ring lane)))%nat then
    ∃ r', sendToUpstream p data rand c =
        Ret (Some (set_upLanes (next_seq c p s) (<[i := with_ring lane r']> (upstreamLanes c)))) ∧
      ring_at (Z.to_nat (cp_maxUpstreamPacket (params c))) r' R (q ++ [frame_bytes header ct]) ∧
      closed r' = false ∧ length (slots r') = length (slots (ul_ring lane))
  else sendToUpstream p data rand c = Ret None.
Proof.
  intros Hc Hok Hr Hp Hsid Hlen Ee seq i header Hlane Hq.
  destruct (sendToUpstream_at c p s data rand ct lane R q Hok Hr Hp Hsid Hlen Ee Hlane Hq) as (? & ? & ?).
  done.
Qed.

Lemma sendToUpstream_queues_witness :
  ∃ c' lane', @sendToUpstream int64_target unit 1 [x68; x69] (λ _, None) sample_client1 = Ret (Some c') ∧
    upstreamLanes c' !! 1%nat = Some lane' ∧
    ring_at 84 (ul_ring lane') 0 [frame_bytes (NewDataPacket 1 1 2) [x68; x69]].
Proof.
  destruct sample_upstream as (Hok & Hc & HF).
  destruct (upstreamLanes sample_client !! 1%nat) as [lane|] eqn:El; [|vm_compute in El; discriminate].
  pose proof El as Hl. eapply Forall_lookup in HF as [Hq Hcl]; [|exact Hl].
  assert (∃ s, heap sample_client1 !! 1%nat = Some s ∧ us_sessionID s = 1 ∧ us_sequenceID s = 0)
    as (s & Hs & Hid & Hsq) by (eexists; vm_compute; auto).
  assert (upstreamLanes sample_client1 = upstreamLanes sample_client) as Eul by reflexivity.
  assert (length (slots (ul_ring lane)) = 4%nat) as Hn.
  { vm_compute in El. injection El as <-. reflexivity. }
  destruct (@sendToUpstream_queues int64_target unit sample_client1 1 s [x68; x69] (λ _, None) [x68; x69] lane 0 [])
    as [_ H2].
  - exact Hc.
  - destruct Hok. by split.
  - done.
  - exact Hs.
  - rewrite Hid. by_compute.
  - by_compute.
  - reflexivity.
  - rewrite Hid, Hsq. exact El.
  - exact Hq.
  - rewrite Hcl, decide_True in H2 by (rewrite Hn; cbn; lia). destruct H2 as (r' & E1 & Hr' & _).
    rewrite Hid, Hsq in *.
    assert (lane_of sample_client1 1 (u32 (0 + 1)) = 1%nat) as Hi by (vm_compute; reflexivity).
    rewrite Hi in E1. exists (set_upLanes (next_seq sample_client1 1 s)
      (<[1%nat := with_ring lane r']> (upstreamLanes sample_client1))), (with_ring lane r').
    split; [exact E1|]. split; [|exact Hr'].
    cbn [upstreamLanes set_upLanes]. apply list_lookup_insert_eq. rewrite Eul. by eapply lookup_lt_Some.
Defined.

(** C25: the writer drains the queue in order. When the delay is off (as
    [setDefaults] fixes it) and the queue is not empty, one turn of the writer
    never sleeps, takes a non-empty prefix of the queue that respects the packet
    limit and stops at the byte limit or at the end of the queue, hands exactly
    those frames, concatenated, to the connection in one write, and returns the
    slots; after a write error the connection is closed and cleared and a
    reconnect is signalled, and a lane with no connection drops the batch. When
    the queue is empty it waits, or stops if the ring is closed. *)
Theorem writer_drains `{IntWidth} {E} size (c : Client E) i sleep out lane R q :
  cp_upstreamBatchMaxDelay (params c) ≤ 0 → 1 ≤ cp_upstreamBatchMaxPackets (params c) →
  Z.of_nat size + Z.max 0 (cp_upstreamBatchMaxBytes (params c)) < 2 ^ 31 →
  upstreamLanes c !! i = Some lane → ring_at size (ul_ring lane) R q →
  match q with
  | [] => handleUpstreamWrites i sleep out c =
      Ret (c, [], if closed (ul_ring lane) then WriterStops else WriterWaits)
  | _ :: _ =>
      ∃ c' r' k, handleUpstreamWrites i sleep out c =
          Ret (c', written_effects out lane (concat (take k q)), WriterContinues) ∧
        upstreamLanes c' = <[i := written_lane out lane r']> (upstreamLanes c) ∧
        ring_at size r' (R + k) (drop k q) ∧ closed r' = closed (ul_ring lane) ∧
        (1 ≤ k ≤ length q)%nat ∧ Z.of_nat k ≤ cp_upstreamBatchMaxPackets (params c) ∧
        (k = 1%nat ∨ bytes_of (take (k - 1) q) < cp_upstreamBatchMaxBytes (params c)) ∧
        (k = length q ∨ Z.of_nat k = cp_upstreamBatchMaxPackets (params c) ∨
         cp_upstreamBatchMaxBytes (params c) ≤ bytes_of (take k q))
  end.
Proof.
  intros Hd Hm Hs Hl Hr. destruct q as [|d q].
  - unfold handleUpstreamWrites. rewrite Hl, (pop_at _ _ _ _ Hr). by destruct (closed (ul_ring lane)).
  - destruct (writer_turn_at size c i sleep out lane R (d :: q) Hd Hm Hs Hl Hr)
      as (c' & r' & k & ? & ? & _ & ?); [done|]. by exists c', r', k.
Qed.

(** A lane with a connection and two frames, the write failing after three bytes. *)
Definition sample_lane : upstreamLane :=
  mkUpLane 0 (mkRing [mkPacket [x01; x02] 2; mkPacket [x03; x04] 2] 1 2 2 0 false 0) false (Some 9%nat).

Definition sample_writer : Client unit := set_upLanes sample_client [sample_lane].

Lemma sample_lane_at : ring_at 2 (ul_ring sample_lane) 0 [[x01; x02]; [x03; x04]].
Proof.
  split; try reflexivity; try (cbn; lia).
  - exists 1%nat. split; [lia|]. split_and!; reflexivity.
  - intros [|[|k]] d; cbn; [by intros [= <-]|by intros [= <-]|done].
  - repeat constructor.
Qed.

Lemma writer_drains_witness :
  ∃ c' lane', @handleUpstreamWrites int64_target unit 0 (λ _ _, None) (WriteError 3) sample_writer =
      Ret (c', [TcpWrite 9 [x01; x02; x03]; TcpClose 9], WriterContinues) ∧
    upstreamLanes c' = [lane'] ∧ ring_at 2 (ul_ring lane') 2 [] ∧ ul_reconnect lane' = true.
Proof.
  pose proof (@writer_drains int64_target unit 2 sample_writer 0 (λ _ _, None) (WriteError 3) sample_lane 0
    [[x01; x02]; [x03; x04]] ltac:(by_compute) ltac:(by_compute) ltac:(by_compute) eq_refl sample_lane_at)
    as (c' & r' & k & E1 & Hu & Hr & _ & Hk & _ & _ & Hmax).
  assert (k = 2%nat) as ->.
  { destruct Hmax as [->|[Hmax|Hmax]]; [done| |].
    - vm_compute in Hmax. destruct k as [|[|[|k]]]; cbn in *; lia.
    - exfalso. apply Hmax. destruct Hk as [_ Hk]. cbn in Hk.
      destruct k as [|[|[|k]]]; [vm_compute; reflexivity..|lia]. }
  exists c', (written_lane (WriteError 3) sample_lane r'). split; [exact E1|].
  split; [exact Hu|]. split; [exact Hr|reflexivity].
Defined.
