(* ===== verification/Downstream.v ===== *)
(** * The client's downstream path (internal/client/client.go)

    [handleDownstream] reads a lane's TCP connection, reassembles frames with
    [StreamBuffer] and hands the data frames to [handleDownstreamPacket], which
    decrypts them, finds the session by its id and sends the datagram to the local
    peer. [downstreamControlLoop] registers sessions and sends heartbeats on the
    same connection through [sendLaneControl].

    The answers of the environment at the [k]-th frame (the clock, whether the
    datagram could be sent) are [env k]. *)

From S2P Require Import Prelude.
From S2P Require Import Words.
From S2P Require Import Packet.
From S2P Require Import Control.
From S2P Require Import Stream.
From S2P Require Import Stats.
From S2P Require Import Config.
From S2P Require Import Crypto.
From S2P Require Import Session.
From S2P Require Import Ring.
From S2P Require Import Client.
From S2P Require Import ClientTable.

(** The control loop's events are the cases of its select. *)
Inductive control_event :=
| EvRegister
| EvFlush
| EvHeartbeat.

#[export] Instance control_event_eq_dec : EqDecision control_event.
Proof. solve_decision. Defined.

Section Downstream.
Context `{IntWidth} {E : Type}.
Implicit Types c : Client E.

(** ** Receiving *)

Record dl_env := mkEnv {
  e_now : Z;
  e_udp_ok : bool
}.

(** [handleDownstreamPacket]. Pointers in [sessionsByID] are never dangling; the
    case is there because the heap is a map. *)
Definition handleDownstreamPacket (e : dl_env) (header : PacketHeader) (data : list byte) c
    : Client E * list effect :=
  if h_Type header =? PacketTypeHeartbeat then (c, [])
  else
    match Decrypt (cp_downstreamCipher (params c)) data with
    | Err _ => (set_stats c (AddError (stats c)), [])
    | Ok decryptedData =>
        match sessionsByID c !! h_SessionID header with
        | None => (c, [])
        | Some p =>
            match heap c !! p with
            | None => (c, [])
            | Some targetSession =>
                let eff := [UdpWrite (us_remoteAddrPort targetSession) decryptedData] in
                if negb (e_udp_ok e) then (set_stats c (AddError (stats c)), eff)
                else
                  let c := set_stats c (AddBytesSent (stats c) (u64 (Z.of_nat (length decryptedData)))) in
                  let c := set_stats c (AddPacketsSent (stats c) 1) in
                  (upd_session c p (us_UpdateLastActive (e_now e)), eff)
            end
        end
    end.

(** The state of the reading goroutine: the client, what it did to the network,
    and the number of frames so far. *)
Record dl_state := mkDl {
  dl_client : Client E;
  dl_effects : list effect;
  dl_ticks : nat
}.

Variable env : nat → dl_env.

(** The body of the frame loop. *)
Definition dl_handle (f : Frame) (s : dl_state) : dl_state :=
  if h_Type (f_Header f) =? PacketTypeControl
  then mkDl (dl_client s) (dl_effects s) (S (dl_ticks s))
  else
    let '(c, eff) := handleDownstreamPacket (env (dl_ticks s)) (f_Header f) (f_Payload f) (dl_client s) in
    mkDl c (dl_effects s ++ eff) (S (dl_ticks s)).

Definition dl_on_read (chunk : list byte) (s : dl_state) : dl_state :=
  mkDl (set_stats (dl_client s) (AddBytesReceived (stats (dl_client s)) (u64 (Z.of_nat (length chunk)))))
    (dl_effects s) (dl_ticks s).

Definition downstream_max_payload c : Z :=
  go_int (MaxPacketSize (cp_config (params c)) + Z.of_nat (Overhead (cp_downstreamCipher (params c))) + 2048).

(** What ends the read loop. *)
Inductive read_end :=
| ReadTimeoutOrClosed
| ReadFailed
| ContextDone.

(** The deferred cleanup: close the connection, clear it if it is still the
    lane's, and signal a reconnect. *)
Definition downstream_exit (i : nat) (conn : conn_id) c : Client E * list effect :=
  let f l := mkDownLane (dl_id l) true (dl_registerCh l)
               (if decide (dl_conn l = Some conn) then None else dl_conn l) in
  (set_downLanes c (alter f i (downstreamLanes c)), [TcpClose conn]).

(** [handleDownstream]: the reads [chunks] arrive, then the loop ends. *)
Definition handleDownstream (grow : nat → nat → nat) (i : nat) (conn : conn_id)
    (chunks : list (list byte)) (ending : read_end) c : exec (Client E * list effect) :=
  let readBuf := NewStreamBuffer (BufferSize (cp_config (params c))) (downstream_max_payload c) in
  r ← feed grow dl_handle dl_on_read readBuf (mkDl c [] 0) chunks;
  let '(_, s) := r in
  let c := dl_client s in
  let c := match ending with
           | ReadFailed => set_stats c (AddError (stats c))
           | _ => c
           end in
  let '(c, eff) := downstream_exit i conn c in
  Ret (c, dl_effects s ++ eff).

(** ** Control *)

(** [sendLaneControl], with the outcome [out] of the write. *)
Definition sendLaneControl (i : nat) (subtype : Z) (sessionIDs : list Z) (out : write_outcome) c
    : exec (Client E * list effect) :=
  match downstreamLanes c !! i with
  | None => Panic
  | Some lane =>
      match dl_conn lane with
      | None => Ret (c, [])
      | Some conn =>
          let ctrl := mkControl subtype (u16 (Z.of_nat (dl_id lane)))
                        (u16 (Z.of_nat (length (downstreamLanes c)))) sessionIDs in
          r ← NewControlPacketPayload 0 ctrl;
          match r with
          | Err _ => Ret (set_stats c (AddError (stats c)), [])
          | Ok (header, payload) =>
              head ← MarshalTo header (replicate HeaderSize x00);
              let frame := head ++ payload in
              match out with
              | Written => Ret (c, [TcpWrite conn frame])
              | WriteError n =>
                  let c := set_stats c (AddError (stats c)) in
                  let lane := mkDownLane (dl_id lane) true (dl_registerCh lane) None in
                  Ret (set_downLanes c (<[i := lane]> (downstreamLanes c)),
                       [TcpWrite conn (take n frame); TcpClose conn])
              end
          end
      end
  end.

(** [registerAllSessionsForLane]. *)
Definition registerAllSessionsForLane (i : nat) (out : write_outcome) c
    : exec (Client E * list effect) :=
  match downstreamLanes c !! i with
  | None => Panic
  | Some lane =>
      ids ← session_ids_for_lane c (dl_id lane);
      match ids with
      | [] => Ret (c, [])
      | _ => sendLaneControl i ControlSubtypeLaneRegister ids out c
      end
  end.

(** The control loop's local state is the set [pending]. *)
Definition flushPending (i : nat) (pending : gset Z) (out : write_outcome) c
    : exec (Client E * list effect * gset Z) :=
  if decide (size pending = 0%nat) then Ret (c, [], pending)
  else
    let ids := merge_sort Z.le (elements pending) in
    r ← sendLaneControl i ControlSubtypeLaneRegister ids out c;
    Ret (r, ∅).

(** [case sid := <-lane.registerCh]; [None] when nothing is queued. *)
Definition pop_register (i : nat) c : option (Z * Client E) :=
  match downstreamLanes c !! i with
  | Some lane =>
      match dl_registerCh lane with
      | [] => None
      | sid :: rest =>
          Some (sid, set_downLanes c
            (<[i := mkDownLane (dl_id lane) (dl_reconnect lane) rest (dl_conn lane)]> (downstreamLanes c)))
      end
  | None => None
  end.

Definition control_step (i : nat) (ev : control_event) (out1 out2 : write_outcome)
    (pending : gset Z) c : exec (Client E * list effect * gset Z) :=
  match ev with
  | EvRegister =>
      match pop_register i c with
      | None => Ret (c, [], pending)
      | Some (sid, c) => Ret (c, [], {[sid]} ∪ pending)
      end
  | EvFlush => flushPending i pending out1 c
  | EvHeartbeat =>
      r ← flushPending i pending out1 c;
      let '(c, eff1, pending) := r in
      r ← sendLaneControl i ControlSubtypeLaneHeartbeat [] out2 c;
      let '(c, eff2) := r in
      Ret (c, eff1 ++ eff2, pending)
  end.

(** The period: [downstreamControlLoop] repairs a non-positive heartbeat. *)
Definition fix_heartbeat c : Client E :=
  if downstreamHeartbeat c <=? 0
  then mkClient (params c) (heap c) (next c) (sessions c) (sessionsByID c) (sessionCounter c)
         (upstreamLanes c) (downstreamLanes c) (seconds 1) (stats c)
  else c.

(** [downstreamControlLoop] on a list of events, each with the outcomes of its
    writes; the first [sendLaneControl] is the hello. *)
Fixpoint control_run (i : nat) (evs : list (control_event * write_outcome * write_outcome))
    (pending : gset Z) c : exec (Client E * list effect * gset Z) :=
  match evs with
  | [] => Ret (c, [], pending)
  | (ev, out1, out2) :: evs =>
      r ← control_step i ev out1 out2 pending c;
      let '(c, eff1, pending) := r in
      r ← control_run i evs pending c;
      let '(c, eff2, pending) := r in
      Ret (c, eff1 ++ eff2, pending)
  end.

Definition downstreamControlLoop (i : nat) (hello : write_outcome)
    (evs : list (control_event * write_outcome * write_outcome)) c
    : exec (Client E * list effect * gset Z) :=
  let c := fix_heartbeat c in
  r ← sendLaneControl i ControlSubtypeHello [] hello c;
  let '(c, eff1) := r in
  r ← control_run i evs ∅ c;
  let '(c, eff2, pending) := r in
  Ret (c, eff1 ++ eff2, pending).

(** ** What reaches the peers *)

(** What a frame makes the client send, from the tables. *)
Definition deliver c (f : Frame) : list effect :=
  if (h_Type (f_Header f) =? PacketTypeControl) || (h_Type (f_Header f) =? PacketTypeHeartbeat) then []
  else
    match Decrypt (cp_downstreamCipher (params c)) (f_Payload f) with
    | Err _ => []
    | Ok data =>
        match sessionsByID c !! h_SessionID (f_Header f) ≫= (heap c !!.) with
        | Some s => [UdpWrite (us_remoteAddrPort s) data]
        | None => []
        end
    end.

(** The tables and the peers of the sessions do not change while reading. *)
Definition same_peers c0 c : Prop :=
  params c = params c0 ∧ sessionsByID c = sessionsByID c0 ∧
  ∀ p, us_remoteAddrPort <$> (heap c !! p) = us_remoteAddrPort <$> (heap c0 !! p).

Lemma same_peers_deliver c0 c f : same_peers c0 c → deliver c f = deliver c0 f.
Proof.
  intros (Hp & Hb & Hh). unfold deliver. rewrite Hp, Hb. destruct (_ || _); [done|].
  destruct (Decrypt _ _); [|done]. destruct (sessionsByID c0 !! _) as [p|]; [|done]. cbn.
  specialize (Hh p). destruct (heap c !! p), (heap c0 !! p); cbn in Hh; congruence.
Qed.

Lemma same_peers_touch c0 c p now :
  same_peers c0 c → same_peers c0 (upd_session c p (us_UpdateLastActive now)).
Proof.
  intros (? & ? & Hh). split_and!; try done. intros q. rewrite <- Hh. cbn.
  destruct (decide (p = q)) as [<-|]; [|by rewrite lookup_alter_ne].
  rewrite lookup_alter_eq. by destruct (heap c !! p).
Qed.

Lemma dl_handle_log c0 f s :
  same_peers c0 (dl_client s) →
  same_peers c0 (dl_client (dl_handle f s)) ∧
  dl_effects (dl_handle f s) = dl_effects s ++ deliver c0 f.
Proof.
  intros Hi. rewrite <- (same_peers_deliver c0 (dl_client s) f Hi).
  destruct s as [c eff t]; cbn [dl_client dl_effects] in *.
  unfold dl_handle, deliver; cbn [dl_client dl_effects dl_ticks].
  destruct (h_Type (f_Header f) =? PacketTypeControl); cbn [orb dl_client dl_effects]; [by rewrite app_nil_r|].
  unfold handleDownstreamPacket.
  destruct (h_Type (f_Header f) =? PacketTypeHeartbeat); [by rewrite app_nil_r|].
  destruct (Decrypt _ _) as [d|e]; [|by rewrite app_nil_r].
  destruct (sessionsByID c !! _) as [p|]; cbn [mbind option_bind]; [|by rewrite app_nil_r].
  destruct (heap c !! p) as [u|]; [|by rewrite app_nil_r].
  destruct (e_udp_ok (env t)); cbn [negb dl_client dl_effects]; [|done].
  split; [|done]. apply (same_peers_touch c0 (set_stats (set_stats c _) _)). done.
Qed.

Lemma dl_on_read_log c0 chunk s :
  same_peers c0 (dl_client s) →
  same_peers c0 (dl_client (dl_on_read chunk s)) ∧ dl_effects (dl_on_read chunk s) = dl_effects s.
Proof. done. Qed.

(** Only known peers are ever written to. *)
Definition to_known_peer c (e : effect) : Prop :=
  ∃ i p s d, sessionsByID c !! i = Some p ∧ heap c !! p = Some s ∧ e = UdpWrite (us_remoteAddrPort s) d.

Lemma deliver_known c f : Forall (to_known_peer c) (deliver c f).
Proof.
  unfold deliver. destruct (_ || _); [constructor|]. destruct (Decrypt _ _) as [d|]; [|constructor].
  destruct (sessionsByID c !! _) as [p|] eqn:Ei; [|constructor]. cbn.
  destruct (heap c !! p) as [s|] eqn:Es; [|constructor].
  repeat constructor. by exists (h_SessionID (f_Header f)), p, s, d.
Qed.

End Downstream.
Arguments dl_state : clear implicits.

Section ControlLoop.
Context {E : Type}.
Implicit Types c : Client E.

(** ** Control frames *)

(** The frame of a control message. *)
Definition control_frame (lane count subtype : Z) (ids : list Z) : Frame :=
  mkFrame
    {| h_Magic := MagicNumber; h_Version := Version; h_Type := PacketTypeControl; h_Flags := 0;
       h_SessionID := lane; h_SequenceID := 0; h_Length := 8 + 4 * Z.of_nat (length ids) |}
    (control_encode x00 (mkControl subtype lane count ids)).

(** Lane [i] of [c] is connected by [conn], with [queue] waiting in its channel. *)
Record lane_ready c (i : nat) (conn : conn_id) (queue : list Z) (n : nat) : Prop := {
  lr_count : length (downstreamLanes c) = n;
  lr_lane : ∃ r, downstreamLanes c !! i = Some (mkDownLane i r queue (Some conn))
}.

Lemma control_wf_ids i n subtype ids :
  in_word 8 subtype → (i < n)%nat → Z.of_nat n ≤ 65535 → Forall (in_word 32) ids →
  Z.of_nat (length ids) ≤ 65535 →
  control_wf (mkControl subtype (Z.of_nat i) (Z.of_nat n) ids) ∧
  control_valid (mkControl subtype (Z.of_nat i) (Z.of_nat n) ids).
Proof.
  intros ? ? ? ? ?. split.
  - unfold control_wf, in_word in *; cbn. split_and!; try done; lia.
  - unfold control_valid; cbn. lia.
Qed.

(** [sendLaneControl] on a connected lane, when the write succeeds. *)
Lemma sendLaneControl_ok c i conn queue n subtype ids :
  lane_ready c i conn queue n → (i < n)%nat → Z.of_nat n ≤ 65535 → in_word 8 subtype →
  Forall (in_word 32) ids → Z.of_nat (length ids) ≤ 65535 →
  sendLaneControl i subtype ids Written c =
    Ret (c, [TcpWrite conn (wire (control_frame (Z.of_nat i) (Z.of_nat n) subtype ids))]).
Proof.
  intros [Hn (r & Hl)] Hi Hn16 Hsub Hids Hlen. unfold sendLaneControl. rewrite Hl. cbn [dl_conn dl_id].
  rewrite Hn. unfold u16. rewrite !wrap_small by (unfold in_word; lia).
  destruct (control_wf_ids i n subtype ids) as [Hwf Hv]; try done.
  rewrite NewControlPacketPayload_ok by done. cbn [mbind exec_bind c_LaneID c_SessionIDs].
  rewrite MarshalTo_spec by by rewrite length_replicate. cbn [mbind exec_bind].
  rewrite drop_ge, app_nil_r by by rewrite length_replicate. done.
Qed.

(** A receiver with room for it accepts the frame and decodes the message. *)
Lemma control_frame_ok max i n subtype ids :
  (i < n)%nat → Z.of_nat n ≤ 65535 → in_word 8 subtype → Forall (in_word 32) ids →
  Z.of_nat (length ids) ≤ 65535 → (0 < max → 8 + 4 * Z.of_nat (length ids) ≤ max) →
  frame_ok max (control_frame (Z.of_nat i) (Z.of_nat n) subtype ids) ∧
  UnmarshalLaneControl (f_Payload (control_frame (Z.of_nat i) (Z.of_nat n) subtype ids)) =
    Ok (mkControl subtype (Z.of_nat i) (Z.of_nat n) ids).
Proof.
  intros Hi Hn Hsub Hids Hlen Hmax. destruct (control_wf_ids i n subtype ids) as [Hwf Hv]; try done.
  split; [|by apply Unmarshal_encode]. unfold frame_ok; cbn [control_frame f_Header f_Payload h_Length].
  split_and!; [|done| |done].
  - unfold header_wf, in_word; cbn. unfold MagicNumber, Version, PacketTypeControl. lia.
  - rewrite length_control_encode. cbn [c_SessionIDs]. lia.
Qed.

(** ** Registrations *)

(** The ids an effect registers, as the server decodes it. *)
Definition registered (e : effect) : list Z :=
  match e with
  | TcpWrite _ bs =>
      match UnmarshalLaneControl (drop HeaderSize bs) with
      | Ok p => if c_Subtype p =? ControlSubtypeLaneRegister then c_SessionIDs p else []
      | Err _ => []
      end
  | _ => []
  end.

Lemma registered_frame conn i n subtype ids :
  (i < n)%nat → Z.of_nat n ≤ 65535 → in_word 8 subtype → Forall (in_word 32) ids →
  Z.of_nat (length ids) ≤ 65535 →
  registered (TcpWrite conn (wire (control_frame (Z.of_nat i) (Z.of_nat n) subtype ids))) =
    if subtype =? ControlSubtypeLaneRegister then ids else [].
Proof.
  intros. unfold registered, wire, frame_bytes.
  rewrite drop_app_length' by by rewrite length_header_bytes.
  by destruct (control_frame_ok 0 i n subtype ids) as [_ ->].
Qed.

Definition all_words (queue : list Z) (pending : gset Z) : Prop :=
  Forall (in_word 32) queue ∧ set_Forall (in_word 32) pending ∧
  Z.of_nat (length queue + size pending) ≤ 65535.

Lemma flushPending_ok c i conn queue n pending :
  lane_ready c i conn queue n → (i < n)%nat → Z.of_nat n ≤ 65535 → all_words queue pending →
  ∃ eff, flushPending i pending Written c = Ret (c, eff, ∅) ∧
    ∀ sid, sid ∈ eff ≫= registered ↔ sid ∈ pending.
Proof.
  intros Hr Hi Hn (_ & Hp & Hsz). unfold flushPending. case_decide as H0.
  { apply size_empty_inv in H0. exists []. apply leibniz_equiv in H0 as ->. split; [done|]. set_solver. }
  set (ids := merge_sort Z.le (elements pending)).
  assert (ids ≡ₚ elements pending) as Hperm by apply merge_sort_Permutation.
  assert (Forall (in_word 32) ids) as Hids.
  { rewrite Hperm. apply Forall_forall. intros x Hx%elem_of_elements. by apply Hp. }
  assert (Z.of_nat (length ids) ≤ 65535) as Hlen.
  { rewrite Hperm. change (length (elements pending)) with (size pending). lia. }
  rewrite (sendLaneControl_ok _ _ _ _ _ _ _ Hr) by done. cbn [mbind exec_bind].
  eexists. split; [done|]. intros sid. cbn [mbind list_bind]. rewrite app_nil_r.
  rewrite registered_frame by done. cbn. by rewrite Hperm, elem_of_elements.
Qed.

(** Nothing registered is lost by an event, and a flush leaves nothing pending. *)
Lemma control_step_ok c i conn queue n pending ev :
  lane_ready c i conn queue n → (i < n)%nat → Z.of_nat n ≤ 65535 → all_words queue pending →
  ∃ c' eff queue' pending', control_step i ev Written Written pending c = Ret (c', eff, pending') ∧
    lane_ready c' i conn queue' n ∧ all_words queue' pending' ∧
    (∀ sid, sid ∈ queue ∨ sid ∈ pending ↔
       sid ∈ queue' ∨ sid ∈ pending' ∨ sid ∈ eff ≫= registered) ∧
    (ev ≠ EvRegister → pending' = ∅ ∧ queue' = queue) ∧
    (ev = EvRegister → queue' = tl queue).
Proof.
  intros Hr Hi Hn Hw. destruct ev; cbn [control_step].
  - pose proof Hr as [Hc (r & Hl)]. unfold pop_register. rewrite Hl. cbn [dl_registerCh dl_id dl_reconnect dl_conn].
    destruct queue as [|sid queue].
    { exists c, [], [], pending. split_and!; try done. set_solver. }
    eexists _, [], queue, ({[sid]} ∪ pending). split; [done|]. split_and!.
    + split; cbn [downstreamLanes set_downLanes]; [by rewrite length_insert|].
      exists r. apply list_lookup_insert_eq. by eapply lookup_lt_Some.
    + destruct Hw as (Hq & Hp & Hsz). inversion Hq; subst. split_and!; [done|set_solver|].
      pose proof (size_union_alt ({[sid]} : gset Z) pending). rewrite size_singleton in *.
      assert (size (pending ∖ {[sid]}) ≤ size pending)%nat by (apply subseteq_size; set_solver).
      cbn [length] in *. lia.
    + set_solver.
    + done.
    + done.
  - destruct (flushPending_ok c i conn queue n pending Hr Hi Hn Hw) as (eff & -> & He).
    exists c, eff, queue, ∅. split_and!; try done.
    + destruct Hw as (? & _ & ?). split_and!; [done|done|]. rewrite size_empty. lia.
    + intros sid. rewrite He. set_solver.
  - destruct (flushPending_ok c i conn queue n pending Hr Hi Hn Hw) as (eff & -> & He).
    cbn [mbind exec_bind]. rewrite (sendLaneControl_ok _ _ _ _ _ _ _ Hr) by (done || by_compute || (cbn; lia)).
    cbn [mbind exec_bind]. eexists c, _, queue, ∅. split; [done|]. split_and!; try done.
    + destruct Hw as (? & _ & ?). split_and!; [done|done|]. rewrite size_empty. lia.
    + intros sid. rewrite bind_app, elem_of_app, He. cbn [mbind list_bind]. rewrite app_nil_r.
      rewrite registered_frame by (done || by_compute || (cbn; lia)). cbn. set_solver.
Qed.

Lemma control_run_ok evs c i conn queue n pending :
  lane_ready c i conn queue n → (i < n)%nat → Z.of_nat n ≤ 65535 → all_words queue pending →
  ∃ c' eff queue' pending',
    control_run i ((λ ev, (ev, Written, Written)) <$> evs) pending c = Ret (c', eff, pending') ∧
    lane_ready c' i conn queue' n ∧ all_words queue' pending' ∧
    (∀ sid, sid ∈ queue ∨ sid ∈ pending ↔
       sid ∈ queue' ∨ sid ∈ pending' ∨ sid ∈ eff ≫= registered) ∧
    (∀ evs' ev, evs = evs' ++ [ev] → ev ≠ EvRegister → pending' = ∅) ∧
    (length (filter (λ ev, ev = EvRegister) evs) + length queue' ≥ length queue ∧
     (length queue ≤ length (filter (λ ev, ev = EvRegister) evs) → queue' = []))%nat.
Proof.
  intros Hr Hi Hn Hw. revert c queue pending Hr Hw. induction evs as [|ev evs IH]; intros c queue pending Hr Hw.
  - exists c, [], queue, pending. split_and!; try done; [set_solver|by intros []|cbn; lia|].
    cbn. intros ?. destruct queue; [done|cbn in *; lia].
  - destruct (control_step_ok c i conn queue n pending ev Hr Hi Hn Hw)
      as (c1 & eff1 & queue1 & pending1 & E1 & Hr1 & Hw1 & Hids1 & Hfl1 & Hreg1).
    destruct (IH c1 queue1 pending1 Hr1 Hw1)
      as (c2 & eff2 & queue2 & pending2 & E2 & Hr2 & Hw2 & Hids2 & Hfl2 & Hlen2 & Hq2).
    cbn [fmap list_fmap control_run]. rewrite E1. cbn [mbind exec_bind].
    change (control_run i ((λ ev, (ev, Written, Written)) <$> evs) pending1 c1 = Ret (c2, eff2, pending2)) in E2.
    rewrite E2. cbn [mbind exec_bind]. eexists c2, _, queue2, pending2. split; [done|]. split_and!; try done.
    + intros sid. rewrite Hids1, bind_app, elem_of_app. specialize (Hids2 sid). tauto.
    + intros [|ev' evs'] evl [= -> ->] Hne; [|by eapply Hfl2].
      cbn in E2. injection E2 as <- _ <-. by apply Hfl1.
    + rewrite filter_cons. case_decide as Hev; cbn [length].
      * specialize (Hreg1 Hev). subst queue1. destruct queue; cbn in *; lia.
      * destruct (Hfl1 Hev) as [_ ->]. lia.
    + rewrite filter_cons. case_decide as Hev; cbn [length]; intros Hle; apply Hq2.
      * specialize (Hreg1 Hev). subst queue1. destruct queue; cbn in *; lia.
      * destruct (Hfl1 Hev) as [_ ->]. lia.
Qed.

End ControlLoop.

(** ** Theorems *)

(** The whole read of a stream of accepted frames. *)
Lemma handleDownstream_effects `{IntWidth} {E} env grow i conn (c : Client E) fs chunks rest ending :
  int_bits = 64 → Forall (frame_ok (downstream_max_payload c)) fs →
  concat chunks = (fs ≫= wire) ++ rest → spec_next (downstream_max_payload c) rest = (NextNone, rest) →
  Z.of_nat (length (concat chunks)) < 2 ^ 63 →
  ∃ c', handleDownstream env grow i conn chunks ending c =
    Ret (c', (fs ≫= deliver c) ++ [TcpClose conn]).
Proof.
  intros H64 Hok Hcat Hrest Hlen. unfold handleDownstream.
  set (max := downstream_max_payload c) in *.
  destruct (NewStreamBuffer_spec (BufferSize (cp_config (params c))) max) as (Hinv & Hp & Hm & _).
  destruct (feed_parses grow (dl_handle env) dl_on_read
    (NewStreamBuffer (BufferSize (cp_config (params c))) max) (mkDl c [] 0) chunks fs rest)
    as (b' & fss & -> & Hfs & Hl & _ & _); try done.
  - rewrite H64. simpl. lia.
  - rewrite Hp, Hm, Hcat. cbn [app].
    pose proof (parses_wire max fs rest None [] rest Hok (parses_none max rest Hrest)) as Hw.
    by rewrite app_nil_r in Hw.
  - cbn [mbind exec_bind].
    destruct (read_all_log (dl_handle env) dl_on_read (λ s, same_peers c (dl_client s)) dl_effects (deliver c)
      (dl_handle_log env c) (dl_on_read_log c) chunks fss (mkDl c [] 0) Hl) as [_ ->]; [done|].
    rewrite Hfs. cbn [dl_effects app]. by eexists.
Qed.


(** Nothing but known peers. Whatever bytes the server (or anyone who can
    write on the connection) sends, and however they are cut, on a 64-bit target
    the reading goroutine does not panic, and every datagram it sends goes to the
    peer of a session in the table. *)
Theorem downstream_robust `{IntWidth} {E} env grow i conn (c : Client E) chunks ending :
  int_bits = 64 → 0 < downstream_max_payload c →
  Z.of_nat (length (concat chunks)) < 2 ^ 63 →
  ∃ c' eff, handleDownstream env grow i conn chunks ending c = Ret (c', eff ++ [TcpClose conn]) ∧
    Forall (to_known_peer c) eff.
Proof.
  intros H64 Hmax Hlen. unfold handleDownstream.
  set (max := downstream_max_payload c) in *.
  destruct (NewStreamBuffer_spec (BufferSize (cp_config (params c))) max) as (Hinv & Hp & Hm & _).
  destruct (feed_total grow (dl_handle env) dl_on_read
    (NewStreamBuffer (BufferSize (cp_config (params c))) max) (mkDl c [] 0) chunks)
    as (b' & s' & E1 & _); try done.
  - rewrite H64. simpl. lia.
  - unfold Len, HeaderSize; simpl. lia.
  - rewrite E1. cbn [mbind exec_bind].
    assert (same_peers c (dl_client s') ∧ Forall (to_known_peer c) (dl_effects s')) as [_ Hf].
    { refine (feed_invariant grow (dl_handle env) dl_on_read
        (λ s, same_peers c (dl_client s) ∧ Forall (to_known_peer c) (dl_effects s)) _ _ _ _ _ _ _ E1 _); [|done|done].
      intros f s [Hs Hf]. destruct (dl_handle_log env c f s Hs) as [? ->].
      split; [done|]. apply Forall_app. split; [done|]. apply deliver_known. }
    by eexists _, _.
Qed.

(** A client with one session and no password on the downstream lanes. *)
Definition sample_down : Client unit :=
  match getOrCreateSession 0 sample_peer sample_client with Ret (_, c) => c | Panic => sample_client end.

(** A data frame for session 1 (masked by the xor cipher), a heartbeat, then the
    start of another frame. *)
Definition sample_frames : list Frame :=
  [mkFrame (NewDataPacket 1 1 2) (XOREncrypt [x68; x69]); mkFrame (NewHeartbeatPacket 0) []].


Lemma downstream_robust_witness :
  ∃ c' eff, @handleDownstream int64_target unit (λ _, mkEnv 5 false) (λ _ n, n) 0 9
      [wire (mkFrame (NewDataPacket 1 7 1) [x00]); replicate 25 xff] ReadFailed sample_down =
    Ret (c', eff ++ [TcpClose 9]) ∧ Forall (to_known_peer sample_down) eff.
Proof. apply (@downstream_robust int64_target); [reflexivity|by_compute|by_compute]. Defined.

(** Control frames are understood. On a connected lane, [sendLaneControl]
    writes one frame; a receiver whose limit is at least [8 + 4 n] for [n] session
    ids cuts exactly this frame off the stream, whatever follows, accepts it as a
    control frame and decodes it to the message: the subtype, the lane's index,
    the number of lanes and the ids. *)
Theorem control_frame_delivered {E} (c : Client E) i conn queue n subtype ids max rest :
  lane_ready c i conn queue n → (i < n)%nat → Z.of_nat n ≤ 65535 → in_word 8 subtype →
  Forall (in_word 32) ids → Z.of_nat (length ids) ≤ 65535 →
  (0 < max → 8 + 4 * Z.of_nat (length ids) ≤ max) →
  ∃ f, sendLaneControl i subtype ids Written c = Ret (c, [TcpWrite conn (wire f)]) ∧
    spec_next max (wire f ++ rest) = (NextFrame f, rest) ∧
    h_Type (f_Header f) = PacketTypeControl ∧
    UnmarshalLaneControl (f_Payload f) = Ok (mkControl subtype (Z.of_nat i) (Z.of_nat n) ids).
Proof.
  intros Hr Hi Hn Hsub Hids Hlen Hmax. eexists. split; [by eapply sendLaneControl_ok|].
  destruct (control_frame_ok max i n subtype ids) as [Hok Hdec]; try done.
  split; [by apply spec_next_frame|done].
Qed.

Definition sample_lanes : list downstreamLane :=
  [mkDownLane 0 false [4; 8; 4] (Some 9%nat); mkDownLane 1 false [] None].
Definition sample_control : Client unit := set_downLanes sample_client sample_lanes.

Lemma sample_control_ready : lane_ready sample_control 0 9 [4; 8; 4] 2.
Proof. split; [done|]. by exists false. Qed.

Lemma control_frame_delivered_witness :
  ∃ f, sendLaneControl 0 ControlSubtypeLaneRegister [4; 8] Written sample_control =
      Ret (sample_control, [TcpWrite 9 (wire f)]) ∧
    spec_next 65536 (wire f ++ [x00]) = (NextFrame f, [x00]) ∧
    h_Type (f_Header f) = PacketTypeControl ∧
    UnmarshalLaneControl (f_Payload f) = Ok (mkControl 2 0 2 [4; 8]).
Proof.
  apply (control_frame_delivered sample_control 0 9 [4; 8; 4] 2 ControlSubtypeLaneRegister [4; 8] 65536 [x00]);
    [exact sample_control_ready|lia|by_compute..|cbn; lia].
Defined.

(** Registrations are not lost. While a lane's connection accepts writes, for
    any sequence of events of the control loop: every id that was queued or pending
    is still queued, still pending, or in a register message the server decodes, and
    nothing else is registered; after as many register events as ids were queued
    the queue is empty, and after a flush or a heartbeat nothing is pending. *)
Theorem registrations_kept {E} (c : Client E) i conn queue n pending evs :
  lane_ready c i conn queue n → (i < n)%nat → Z.of_nat n ≤ 65535 → all_words queue pending →
  ∃ c' eff queue' pending',
    control_run i ((λ ev, (ev, Written, Written)) <$> evs) pending c = Ret (c', eff, pending') ∧
    lane_ready c' i conn queue' n ∧
    (∀ sid, sid ∈ queue ∨ sid ∈ pending ↔
       sid ∈ queue' ∨ sid ∈ pending' ∨ sid ∈ eff ≫= registered) ∧
    ((length queue ≤ length (filter (λ ev, ev = EvRegister) evs))%nat → queue' = []) ∧
    (∀ evs' ev, evs = evs' ++ [ev] → ev ≠ EvRegister → pending' = ∅).
Proof.
  intros Hr Hi Hn Hw.
  destruct (control_run_ok evs c i conn queue n pending Hr Hi Hn Hw)
    as (c' & eff & queue' & pending' & ? & ? & _ & ? & ? & _ & ?).
  by exists c', eff, queue', pending'.
Qed.

Lemma registrations_kept_witness :
  ∃ c' eff, control_run 0 ((λ ev, (ev, Written, Written)) <$> [EvRegister; EvRegister; EvRegister; EvHeartbeat])
      ∅ sample_control = Ret (c', eff, ∅) ∧
    ∀ sid, sid ∈ [4; 8; 4] ↔ sid ∈ eff ≫= registered.
Proof.
  destruct (registrations_kept sample_control 0 9 [4; 8; 4] 2 ∅ [EvRegister; EvRegister; EvRegister; EvHeartbeat]
    sample_control_ready ltac:(lia) ltac:(lia)) as (c' & eff & queue' & pending' & E1 & _ & Hids & Hq & Hp).
  - split_and!; by_compute.
  - rewrite (Hp [EvRegister; EvRegister; EvRegister] EvHeartbeat) in E1, Hids by done.
    rewrite (Hq ltac:(by_compute)) in Hids.
    exists c', eff. split; [exact E1|]. clear E1 Hq Hp. intros sid. split.
    + intros Hs. destruct (proj1 (Hids sid) (or_introl Hs)) as [H|[H|H]]; [inversion H| |exact H].
      destruct (not_elem_of_empty sid H).
    + intros Hs. destruct (proj2 (Hids sid) (or_intror (or_intror Hs))) as [H|H]; [exact H|].
      destruct (not_elem_of_empty sid H).
Defined.
