(* ===== verification/Reconnect.v ===== *)
(** * Connection management (internal/client/client.go)

    [reconnectDelay] is the capped exponential back-off with jitter. The rest is
    the protocol by which a lane keeps a TCP connection: [manageUpstreamConnection]
    dials and stores the connection and then sleeps on the [reconnect] channel,
    [watchUpstreamConn] (one goroutine per connection) notices a passive close,
    [writeUpstreamBatch] clears the connection after a failed write. They share
    [lane.conn] (under a mutex) and the one-token channel. The protocol is a step
    relation whose steps are the accesses to these two; dialling and the network
    are non-deterministic. *)

From S2P Require Import Prelude.
From S2P Require Import Words.
From S2P Require Import Config.
From S2P Require Import Session.

(** ** The delay *)

(** [for i := 0; i < attempt && delay < maxDelay; i++]: at most [attempt] turns. *)
Fixpoint backoff (attempt : nat) (delay maxDelay : Z) : Z :=
  match attempt with
  | O => delay
  | S attempt =>
      if delay <? maxDelay then
        let delay := i64 (delay * 2) in
        let delay := if maxDelay <? delay then maxDelay else delay in
        backoff attempt delay maxDelay
      else delay
  end.

Definition base_delay (cfg : Config) : Z :=
  let base := seconds (ReconnectInterval cfg) in
  if base <=? 0 then seconds 1 else base.

Definition max_delay (cfg : Config) : Z :=
  let maxDelay := seconds (ReconnectMaxInterval cfg) in
  if maxDelay <? base_delay cfg then base_delay cfg else maxDelay.

(** [rand.Int63n n] panics unless [n] is positive; [rnd] is what it returns. *)
Definition reconnectDelay (cfg : Config) (attempt : nat) (rnd : Z → Z) : exec Z :=
  let delay := backoff attempt (base_delay cfg) (max_delay cfg) in
  if 0 <? ReconnectJitterMs cfg then
    let jitterMax := i64 (ReconnectJitterMs cfg * 1000000) in
    let n := i64 (jitterMax + 1) in
    if n <=? 0 then Panic else Ret (i64 (delay + rnd n))
  else Ret delay.

Lemma backoff_spec attempt delay maxDelay :
  0 < delay ≤ maxDelay → 2 * maxDelay < 2 ^ 63 →
  backoff attempt delay maxDelay = Z.min maxDelay (delay * 2 ^ Z.of_nat attempt).
Proof.
  intros Hd Hm. revert delay Hd. induction attempt as [|k IH]; intros delay Hd; cbn [backoff].
  { rewrite Z.pow_0_r. lia. }
  rewrite Nat2Z.inj_succ, Z.pow_succ_r by lia.
  assert (1 ≤ 2 ^ Z.of_nat k) by lia.
  destruct (Z.ltb_spec delay maxDelay) as [Hlt|Hge].
  - unfold i64. rewrite swrap_small by lia. destruct (Z.ltb_spec maxDelay (delay * 2)) as [H2|H2].
    + rewrite IH by lia. rewrite !Z.min_l by nia. done.
    + rewrite IH by lia. f_equal. ring.
  - rewrite Z.min_l by nia. lia.
Qed.

(** ** The reconnect channel *)

(** A channel of capacity one is the presence of a token. [notifyReconnect] is a
    non-blocking send; [drainReconnect] receives until the channel is empty. *)
Definition notifyReconnect (token : bool) : bool := true.
Definition drainReconnect (token : bool) : bool := false.

(** The case of a select that fires. *)
Inductive wakeup := WakeDone | WakeToken | WakeTimer.

(** [waitReconnectDelay]: its result and whether a token is left, or [None] when
    the case is not ready. *)
Definition waitReconnectDelay (delay : Z) (done token : bool) (w : wakeup) : option (bool * bool) :=
  if delay <=? 0 then Some (negb done, token)
  else
    match w with
    | WakeDone => if done then Some (false, token) else None
    | WakeToken => if token then Some (true, false) else None
    | WakeTimer => Some (true, token)
    end.

(** ** An upstream lane *)

(** Where the manager is. *)
Inductive manager :=
| MCheck                       (* loop head: the context *)
| MGet                         (* [getUpstreamConn] *)
| MWait                        (* the select on Done and [reconnect] *)
| MDial                        (* [dialTCP] *)
| MBackoff                     (* [waitReconnectDelay] *)
| MStore (c : conn_id)         (* dialled, about to store the connection *)
| MSpawn (c : conn_id)         (* stored, about to start the watcher *)
| MDrain                       (* about to drain the channel *)
| MDone.

(** [watching] are the connections a watcher reads from, [closing] those whose
    watcher's read has returned, [notifying] the number of goroutines that have
    cleared (or looked at) the connection and are about to notify; [open] are the
    connections dialled and not yet closed by this process. *)
Record lane_state := mkLane {
  l_conn : option conn_id;
  l_token : bool;
  l_done : bool;
  l_manager : manager;
  l_watching : list conn_id;
  l_closing : list conn_id;
  l_notifying : nat;
  l_dialled : nat;
  l_open : gset conn_id
}.

Definition set_manager (s : lane_state) (m : manager) : lane_state :=
  mkLane (l_conn s) (l_token s) (l_done s) m (l_watching s) (l_closing s) (l_notifying s)
    (l_dialled s) (l_open s).
Definition set_token (s : lane_state) (m : manager) (t : bool) : lane_state :=
  mkLane (l_conn s) t (l_done s) m (l_watching s) (l_closing s) (l_notifying s)
    (l_dialled s) (l_open s).

(** [lane.conn.Close()] on whatever the lane's connection is, or nothing. *)
Definition close_conn (conn : option conn_id) (open : gset conn_id) : gset conn_id :=
  match conn with Some c => open ∖ {[c]} | None => open end.

(** The steps of the lane's goroutines. *)
Inductive goroutine_step : lane_state → lane_state → Prop :=
(* the manager *)
| m_stop s : l_manager s = MCheck → l_done s = true → goroutine_step s (set_manager s MDone)
| m_check s : l_manager s = MCheck → l_done s = false → goroutine_step s (set_manager s MGet)
| m_connected s c : l_manager s = MGet → l_conn s = Some c → goroutine_step s (set_manager s MWait)
| m_disconnected s : l_manager s = MGet → l_conn s = None → goroutine_step s (set_manager s MDial)
| m_wait_done s : l_manager s = MWait → l_done s = true → goroutine_step s (set_manager s MDone)
| m_wait_token s : l_manager s = MWait → l_token s = true → goroutine_step s (set_token s MCheck false)
| m_dial_ok s :
    l_manager s = MDial →
    goroutine_step s (mkLane (l_conn s) (l_token s) (l_done s) (MStore (l_dialled s)) (l_watching s)
                   (l_closing s) (l_notifying s) (S (l_dialled s)) ({[l_dialled s]} ∪ l_open s))
| m_dial_err s : l_manager s = MDial → goroutine_step s (set_manager s MBackoff)
| m_backoff_timer s : l_manager s = MBackoff → goroutine_step s (set_manager s MCheck)
| m_backoff_token s : l_manager s = MBackoff → l_token s = true → goroutine_step s (set_token s MCheck false)
| m_backoff_done s : l_manager s = MBackoff → l_done s = true → goroutine_step s (set_manager s MDone)
| m_store s c :
    l_manager s = MStore c →
    goroutine_step s (mkLane (Some c) (l_token s) (l_done s) (MSpawn c) (l_watching s) (l_closing s)
                   (l_notifying s) (l_dialled s) (l_open s))
| m_spawn s c :
    l_manager s = MSpawn c →
    goroutine_step s (mkLane (l_conn s) (l_token s) (l_done s) MDrain (c :: l_watching s) (l_closing s)
                   (l_notifying s) (l_dialled s) (l_open s))
| m_drain s :
    l_manager s = MDrain → goroutine_step s (set_token s MCheck (drainReconnect (l_token s)))
(* a watcher: after its read it looks at the context first *)
| w_read s c l1 l2 :
    l_watching s = l1 ++ c :: l2 →
    goroutine_step s (mkLane (l_conn s) (l_token s) (l_done s) (l_manager s) (l1 ++ l2)
                   (if l_done s then l_closing s else c :: l_closing s) (l_notifying s) (l_dialled s) (l_open s))
| w_clear s c l1 l2 :
    l_closing s = l1 ++ c :: l2 →
    goroutine_step s
      (mkLane (if decide (l_conn s = Some c) then None else l_conn s) (l_token s) (l_done s)
         (l_manager s) (l_watching s) (l1 ++ l2) (S (l_notifying s)) (l_dialled s)
         (if decide (l_conn s = Some c) then close_conn (l_conn s) (l_open s) else l_open s))
| w_notify s n :
    l_notifying s = S n →
    goroutine_step s (mkLane (l_conn s) (notifyReconnect (l_token s)) (l_done s) (l_manager s) (l_watching s)
                   (l_closing s) n (l_dialled s) (l_open s))
(* the writer, after a failed write: it holds the mutex, so clears the current one *)
| b_write_error s c :
    l_conn s = Some c →
    goroutine_step s (mkLane None (l_token s) (l_done s) (l_manager s) (l_watching s) (l_closing s)
                   (S (l_notifying s)) (l_dialled s) (close_conn (l_conn s) (l_open s))).

(** The three ways out of the back-off are those of [waitReconnectDelay]. *)
Lemma backoff_waits s delay w r t :
  l_manager s = MBackoff → waitReconnectDelay delay (l_done s) (l_token s) w = Some (r, t) →
  goroutine_step s (set_token s (if r then MCheck else MDone) t).
Proof.
  intros Hm. unfold waitReconnectDelay. destruct (delay <=? 0).
  { intros [= <- <-]. destruct (l_done s) eqn:Ed; [by apply m_backoff_done|by apply m_backoff_timer]. }
  destruct w.
  - destruct (l_done s) eqn:Ed; [|done]. intros [= <- <-]. by apply m_backoff_done.
  - destruct (l_token s) eqn:Et; [|done]. intros [= <- <-]. by apply m_backoff_token.
  - intros [= <- <-]. by apply m_backoff_timer.
Qed.

(** [Stop]: cancel the context, then, under the mutex, close the connection. *)
Definition cancel (s : lane_state) : lane_state :=
  mkLane (l_conn s) (l_token s) true (l_manager s) (l_watching s) (l_closing s)
    (l_notifying s) (l_dialled s) (l_open s).

Definition close_lane (s : lane_state) : lane_state :=
  mkLane None (l_token s) (l_done s) (l_manager s) (l_watching s) (l_closing s)
    (l_notifying s) (l_dialled s) (close_conn (l_conn s) (l_open s)).

Inductive stop_step : lane_state → lane_state → Prop :=
| s_cancel s : stop_step s (cancel s)
| s_close s : l_done s = true → stop_step s (close_lane s).

Definition lane_step (s s' : lane_state) : Prop := goroutine_step s s' ∨ stop_step s s'.

Definition lane_init : lane_state := mkLane None false false MCheck [] [] 0 0 ∅.
Definition lane_reachable : lane_state → Prop := rtc lane_step lane_init.

(** ** The invariant *)

(** A waiting manager has a connection, or a token, or somebody about to send
    one; the connection is watched from when it is stored until it is cleared; the
    only open connections are the lane's and the one about to become it. *)
Record lane_inv (s : lane_state) : Prop := {
  li_wait : l_manager s = MWait → l_done s = false →
    is_Some (l_conn s) ∨ l_token s = true ∨ (0 < l_notifying s)%nat;
  li_watched c : l_conn s = Some c → l_done s = false →
    l_manager s = MSpawn c ∨ c ∈ l_watching s ∨ c ∈ l_closing s;
  li_store c : l_manager s = MStore c → l_conn s = None;
  li_dial : l_manager s = MDial → l_conn s = None;
  li_open c : c ∈ l_open s → l_conn s = Some c ∨ l_manager s = MStore c
}.

Ltac lane_cbn := cbn [l_conn l_token l_done l_manager l_watching l_closing l_notifying l_dialled l_open
  set_manager set_token cancel close_lane notifyReconnect drainReconnect close_conn] in *.

(** Where a connection is watched, after a step that keeps the other goroutines. *)
Lemma not_removed {A} (x c : A) l l1 l2 : l = l1 ++ c :: l2 → x ≠ c → x ∈ l → x ∈ l1 ++ l2.
Proof. intros -> ?. rewrite !elem_of_app, elem_of_cons. naive_solver. Qed.

Lemma goroutine_step_wait s s' : goroutine_step s s' → lane_inv s →
  l_manager s' = MWait → l_done s' = false →
  is_Some (l_conn s') ∨ l_token s' = true ∨ (0 < l_notifying s')%nat.
Proof.
  intros Hst [Hw _ _ _ _]. destruct Hst; lane_cbn; intros; try congruence; eauto;
    right; right; lia.
Qed.

Lemma goroutine_step_watched s s' : goroutine_step s s' → lane_inv s →
  ∀ c, l_conn s' = Some c → l_done s' = false →
    l_manager s' = MSpawn c ∨ c ∈ l_watching s' ∨ c ∈ l_closing s'.
Proof.
  intros Hst [_ Hc Hm Hd _].
  destruct Hst; lane_cbn; intros x Hx Hdn; try congruence;
    try (match goal with Hl : l_manager s = _ |- _ =>
           try (rewrite (Hm _ Hl) in Hx; done); try (rewrite (Hd Hl) in Hx; done) end);
    try (destruct (Hc x Hx Hdn) as [?|?]; [congruence|by right]; fail); eauto.
  - left. congruence.
  - right. destruct (Hc x Hx Hdn) as [?|[?|?]]; [left|left; by right|by right].
    assert (x = c) as -> by congruence. by left.
  - rewrite Hdn. destruct (decide (x = c)) as [->|Hne]; [by right; right; left|].
    destruct (Hc x Hx Hdn) as [?|[Hin|?]]; [by left|right; left|by right; right; right].
    by eapply not_removed.
  - case_decide as Hd'; [done|].
    destruct (Hc x Hx Hdn) as [?|[?|Hin]]; [by left|by right; left|right; right].
    eapply not_removed; [done| |done]. intros ->. done.
Qed.

Lemma goroutine_step_open s s' : goroutine_step s s' → lane_inv s →
  (∀ c, l_manager s' = MStore c → l_conn s' = None) ∧ (l_manager s' = MDial → l_conn s' = None) ∧
  (∀ c, c ∈ l_open s' → l_conn s' = Some c ∨ l_manager s' = MStore c).
Proof.
  intros Hst [_ _ Hm Hd Ho].
  destruct Hst; lane_cbn; (split; [|split]);
    try (intros; try congruence; eauto; fail);
    try (intros x Hx; destruct (Ho x Hx); [by left|congruence]; fail).
  - intros x [->%elem_of_singleton|Hx]%elem_of_union; [by right|].
    destruct (Ho x Hx); [by left|congruence].
  - intros x Hx. left. destruct (Ho x Hx) as [Hs|Hs]; [rewrite (Hm c) in Hs by done; done|congruence].
  - intros x Hx. case_decide; eauto.
  - intros x. case_decide; eauto.
  - intros x Hx. case_decide as Hc; [|eauto]. rewrite Hc in *. lane_cbn.
    apply elem_of_difference in Hx as [Hx Hn]. destruct (Ho x Hx); [set_solver|by right].
  - intros x Hx. rewrite H in Hx. lane_cbn. apply elem_of_difference in Hx as [Hx Hn].
    destruct (Ho x Hx); [set_solver|by right].
Qed.

Lemma stop_step_inv s s' : stop_step s s' → lane_inv s → lane_inv s'.
Proof.
  intros Hst [Hw Hc Hm Hd Ho]. destruct Hst; split; lane_cbn; intros; try congruence; eauto.
  match goal with Hx : _ ∈ close_conn _ _ |- _ => destruct (l_conn s) as [c'|] eqn:Ec; lane_cbn end.
  - match goal with Hx : ?c ∈ _ ∖ _ |- _ => apply elem_of_difference in Hx as [Hx Hn];
      destruct (Ho c Hx); [set_solver|by right] end.
  - eauto.
Qed.

Lemma lane_step_inv s s' : lane_step s s' → lane_inv s → lane_inv s'.
Proof.
  intros [Hst|Hst] Hi; [|by eapply stop_step_inv].
  destruct (goroutine_step_open s s' Hst Hi) as (? & ? & ?).
  split; [by eapply goroutine_step_wait|by eapply goroutine_step_watched|done..].
Qed.

Lemma lane_reachable_inv s : lane_reachable s → lane_inv s.
Proof.
  unfold lane_reachable. revert s. apply rtc_ind_r.
  - split; set_solver.
  - intros s s' _ Hst Hi. by eapply lane_step_inv.
Qed.

(** ** Shutting down

    Once the context is cancelled the manager only moves towards its end, and every
    other goroutine of the lane has a bounded number of steps left. *)

Definition manager_rank (m : manager) : nat :=
  match m with
  | MDone => 0 | MCheck => 1 | MWait | MBackoff | MDrain => 2 | MSpawn _ => 3 | MStore _ => 4 | MDial => 5
  | MGet => 6
  end.

Definition lane_measure (s : lane_state) : nat :=
  4 * manager_rank (l_manager s) + (if l_conn s is Some _ then 2 else 0) + length (l_watching s) +
  2 * length (l_closing s) + l_notifying s.

Lemma goroutine_step_measure s s' :
  l_done s = true → goroutine_step s s' → l_done s' = true ∧ (lane_measure s' < lane_measure s)%nat.
Proof.
  intros Hd Hst. unfold lane_measure.
  destruct Hst; lane_cbn; try congruence; (split; [done|]);
    repeat match goal with Hx : l_manager s = _ |- _ => rewrite Hx; clear Hx
      | Hx : l_watching s = _ |- _ => rewrite Hx; clear Hx
      | Hx : l_closing s = _ |- _ => rewrite Hx; clear Hx
      | Hx : l_notifying s = _ |- _ => rewrite Hx; clear Hx
      | Hx : l_conn s = _ |- _ => rewrite Hx; clear Hx end;
    rewrite ?Hd, ?length_app; cbn [manager_rank length]; try (destruct (l_conn s); lia).
  case_decide; destruct (l_conn s); lia.
Qed.

(** The manager can always take its next step by itself. *)
Lemma manager_moves s :
  l_done s = true → l_manager s ≠ MDone →
  ∃ s', goroutine_step s s' ∧ (manager_rank (l_manager s') < manager_rank (l_manager s))%nat.
Proof.
  intros Hd Hm. destruct (l_manager s) eqn:E; try done.
  - eexists. split; [by apply m_stop|cbn; lia].
  - destruct (l_conn s) as [c|] eqn:Ec; eexists;
      (split; [first [by eapply m_connected|by apply m_disconnected]|cbn; lia]).
  - eexists. split; [by apply m_wait_done|cbn; lia].
  - eexists. split; [by apply m_dial_err|cbn; lia].
  - eexists. split; [by apply m_backoff_done|cbn; lia].
  - eexists. split; [by apply m_store|cbn; lia].
  - eexists. split; [by eapply m_spawn|cbn; lia].
  - eexists. split; [by apply m_drain|cbn; lia].
Qed.

(** Neither past the test of the context on its way to dialling, nor dialling, nor
    about to store what it dialled. *)
Definition settled (m : manager) : Prop :=
  match m with MGet | MDial | MStore _ => False | _ => True end.

Definition closed_down (s : lane_state) : Prop :=
  l_done s = true ∧ l_conn s = None ∧ l_open s = ∅ ∧ settled (l_manager s).

Lemma closed_down_step s s' : closed_down s → goroutine_step s s' → closed_down s'.
Proof.
  intros (Hd & Hc & Ho & Hm) Hst. unfold closed_down.
  destruct Hst; lane_cbn; try congruence; try (by rewrite H in Hm);
    try (split_and!; try done; by rewrite ?H in *).
  rewrite Hc, Ho. split_and!; try done; by case_decide.
Qed.

(** ** Waking up

    A step of the manager or of a goroutine that notifies. *)
Definition wake_step (s s' : lane_state) : Prop :=
  goroutine_step s s' ∧ (l_manager s' ≠ l_manager s ∨ (l_notifying s' < l_notifying s)%nat).

(** Sleeping or back at the loop head; also past the test of the context. *)
Definition asleep (s : lane_state) : Prop :=
  l_manager s = MWait ∨ l_manager s = MCheck.
Definition waking (s : lane_state) : Prop := asleep s ∨ l_manager s = MGet.

Definition wake_rank (m : manager) : nat :=
  match m with MWait => 3 | MCheck => 2 | MGet => 1 | _ => 0 end.

Definition wake_measure (s : lane_state) : nat :=
  wake_rank (l_manager s) + 3 * length (l_watching s) + 2 * length (l_closing s) + l_notifying s.

(** While there is no connection, the other goroutines run out of steps and do not
    disturb the manager, which can only go on to dial. *)
Lemma goroutine_step_waking s s' :
  waking s → l_conn s = None → l_done s = false → goroutine_step s s' →
  l_conn s' = None ∧ l_done s' = false ∧
  (l_manager s' = MDial ∨ waking s' ∧ (wake_measure s' < wake_measure s)%nat).
Proof.
  unfold waking, asleep, wake_measure. intros Hm Hc Hd Hst.
  destruct Hst; lane_cbn; try congruence; try (destruct Hm as [[|]|]; congruence);
    rewrite ?Hc, ?Hd; repeat match goal with Hx : l_manager s = _ |- _ => rewrite Hx; clear Hx
      | Hx : l_watching s = _ |- _ => rewrite Hx; clear Hx
      | Hx : l_closing s = _ |- _ => rewrite Hx; clear Hx
      | Hx : l_notifying s = _ |- _ => rewrite Hx; clear Hx end;
    rewrite ?length_app; cbn [wake_rank length];
    (split; [try case_decide; done|split; [done|]]); auto;
    right; (split; [tauto|lia]).
Qed.

Lemma asleep_dials s :
  lane_reachable s ∧ waking s ∧ l_conn s = None ∧ l_done s = false →
  inevitably lane_step wake_step (λ s', l_done s' = true ∨ l_manager s' = MDial ∧ l_conn s' = None) s.
Proof.
  revert s. apply inevitably_measure with (f := wake_measure).
  intros s (Hr & Ha & Hc & Hd). right. split.
  - unfold wake_step. destruct Ha as [[Hm|Hm]|Hm].
    + destruct (li_wait s (lane_reachable_inv s Hr) Hm Hd) as [[c Hs]|[Ht|Hn]]; [congruence| |].
      * eexists. split; [by apply m_wait_token|]. left. cbn. congruence.
      * destruct (l_notifying s) as [|n] eqn:En; [lia|].
        eexists. split; [by apply (w_notify s n)|]. right. cbn. lia.
    + eexists. split; [by apply m_check|]. left. cbn. congruence.
    + eexists. split; [by apply m_disconnected|]. left. cbn. congruence.
  - intros s' Hst. assert (lane_reachable s') as Hr' by (by eapply rtc_r).
    destruct Hst as [Hst|Hst].
    + destruct (goroutine_step_waking s s' Ha Hc Hd Hst) as (Hc' & Hd' & [Hm|[Ha' Hlt]]); [by auto|right; by split_and!].
    + left. left. by destruct Hst.
Qed.

Lemma asleep_returns s :
  asleep s ∧ l_done s = true →
  inevitably goroutine_step wake_step (λ s', l_manager s' = MDone) s.
Proof.
  revert s. apply inevitably_measure with (f := lane_measure).
  intros s (Ha & Hd). right. split.
  - unfold wake_step. destruct Ha as [Hm|Hm]; eexists;
      (split; [first [by apply m_wait_done|by apply m_stop]|left; cbn; congruence]).
  - intros s' Hst. destruct (goroutine_step_measure s s' Hd Hst) as [Hd' Hlt].
    assert (l_manager s' = MDone ∨ asleep s') as [?|?]; [|by auto|by auto].
    unfold asleep in *. destruct Hst; lane_cbn; auto; destruct Ha; congruence.
Qed.

(** ** Theorems *)

(** C34: the back-off. For any configured intervals up to 10^9 seconds and any
    number of failed attempts, the delay is the smaller of the maximum and the base
    doubled once per attempt, plus a jitter of at most [ReconnectJitterMs]; it never
    panics, never overflows, and is never below the base interval. *)
Theorem reconnectDelay_exact (cfg : Config) attempt rnd :
  1 ≤ ReconnectInterval cfg ≤ ReconnectMaxInterval cfg → ReconnectMaxInterval cfg ≤ 1000000000 →
  0 ≤ ReconnectJitterMs cfg ≤ 1000000000 → (∀ n, 0 < n → 0 ≤ rnd n < n) →
  let base := ReconnectInterval cfg * 1000000000 in
  let maximum := ReconnectMaxInterval cfg * 1000000000 in
  ∃ d j, reconnectDelay cfg attempt rnd = Ret d ∧
    d = Z.min maximum (base * 2 ^ Z.of_nat attempt) + j ∧
    0 ≤ j ≤ ReconnectJitterMs cfg * 1000000 ∧ base ≤ d ≤ maximum + ReconnectJitterMs cfg * 1000000.
Proof.
  intros Hi Hm Hj Hrnd base maximum.
  assert (base_delay cfg = base) as Eb.
  { unfold base_delay. rewrite !seconds_small by lia. by rewrite (proj2 (Z.leb_gt _ _)) by lia. }
  assert (max_delay cfg = maximum) as Em.
  { unfold max_delay. rewrite Eb, seconds_small by lia.
    by rewrite (proj2 (Z.ltb_ge _ _)) by (unfold base; lia). }
  unfold reconnectDelay. rewrite Eb, Em, backoff_spec by (unfold base, maximum; lia).
  assert (1 ≤ 2 ^ Z.of_nat attempt) by lia.
  assert (base ≤ Z.min maximum (base * 2 ^ Z.of_nat attempt) ≤ maximum) as Hb.
  { unfold base, maximum in *. split; [apply Z.min_glb; nia|apply Z.le_min_l]. }
  destruct (Z.ltb_spec 0 (ReconnectJitterMs cfg)).
  - unfold i64. rewrite (swrap_small _ (_ * 1000000)), (swrap_small _ (_ + 1)) by lia.
    rewrite (proj2 (Z.leb_gt _ _)) by lia.
    pose proof (Hrnd (ReconnectJitterMs cfg * 1000000 + 1) ltac:(lia)).
    rewrite swrap_small by (unfold base, maximum in *; lia).
    eexists _, _. split; [done|]. split; [done|]. lia.
  - eexists _, 0. split; [done|]. rewrite Z.add_0_r. split; [done|]. lia.
Qed.

Definition backoff_config : Config :=
  {| Mode := "client"; ListenAddr := ""; ServerUpstream := ""; ServerDownstream := "";
     UpstreamPort := ""; DownstreamPort := ""; BackendAddr := "";
     ReconnectInterval := 1; ReconnectMaxInterval := 30; ReconnectJitterMs := 250;
     SessionTimeout := 300; BufferSize := 65536; MaxPacketSize := 65536;
     UpstreamQueueSize := 8192; UpstreamBatchMaxPackets := 256; UpstreamBatchMaxBytes := 4194304;
     UpstreamBatchMaxDelayMs := 0; UpstreamStripeEnabled := false; UpstreamReorderWindow := 128;
     UpstreamReorderHoldMs := 3; UpstreamLaneCount := 4; DownstreamLaneCount := 4;
     DownstreamBatchMaxPackets := 128; DownstreamBatchMaxBytes := 524288;
     DownstreamBatchMaxDelayMs := 1; HeartbeatIntervalMs := 1000; LogLevel := "info";
     UpstreamCrypto := mkCryptoConfig "none" ""; DownstreamCrypto := mkCryptoConfig "none" "" |}.

Lemma reconnectDelay_exact_witness :
  reconnectDelay backoff_config 3 (λ n, n - 1) = Ret 8250000000 ∧
  ∃ d j, reconnectDelay backoff_config 3 (λ n, n - 1) = Ret d ∧
    d = Z.min 30000000000 (1000000000 * 2 ^ 3) + j ∧ 0 ≤ j ≤ 250000000 ∧
    1000000000 ≤ d ≤ 30250000000.
Proof.
  split; [vm_compute; reflexivity|].
  apply (reconnectDelay_exact backoff_config 3 (λ n, n - 1)); cbn; lia.
Defined.

(** A lane whose manager sleeps on an established connection, then [cancel]. *)
Definition lane_connected : lane_state := mkLane (Some 0%nat) false false MWait [0%nat] [] 0 1 {[0%nat]}.
Definition lane_cancelled : lane_state := mkLane (Some 0%nat) false true MWait [0%nat] [] 0 1 {[0%nat]}.

Lemma lane_connected_reachable : lane_reachable lane_connected.
Proof.
  eapply rtc_l; [by left; apply m_check|]. eapply rtc_l; [by left; apply m_disconnected|]. eapply rtc_l; [by left; apply m_dial_ok|].
  eapply rtc_l; [by left; apply m_store|]. eapply rtc_l; [by left; apply m_spawn|].
  eapply rtc_l; [by left; apply m_drain|]. eapply rtc_l; [by left; apply m_check|].
  eapply rtc_l; [by left; eapply m_connected|].
  cbn. rewrite union_empty_r_L. apply rtc_refl.
Qed.

Lemma lane_cancelled_reachable : lane_reachable lane_cancelled.
Proof. eapply rtc_r; [exact lane_connected_reachable|]. right. apply s_cancel. Qed.

(** C33: no wake-up is lost. In every reachable state of a lane in which the manager
    sleeps on the channel and the lane has no connection: unless the context is
    cancelled, a token is in the channel or a goroutine is about to put one there,
    and, whatever the other goroutines and [Stop] do, every run of the lane brings
    the manager to dialling with no connection, or is cancelled on the way; until
    then a step of the manager or of a notifier, which waits for no network event,
    is always enabled. If the context is cancelled, the manager can return at once,
    and every run of the goroutines ends with its return. In every reachable state,
    a stored connection has a watcher unless the context is cancelled, and the
    manager never overwrites a connection. *)
Theorem no_lost_wakeup s :
  lane_reachable s →
  (l_manager s = MWait → l_conn s = None →
     (l_done s = false →
        (l_token s = true ∨ (0 < l_notifying s)%nat) ∧
        inevitably lane_step wake_step
          (λ s', l_done s' = true ∨ l_manager s' = MDial ∧ l_conn s' = None) s) ∧
     (l_done s = true →
        goroutine_step s (set_manager s MDone) ∧
        inevitably goroutine_step wake_step (λ s', l_manager s' = MDone) s)) ∧
  (∀ c, l_conn s = Some c → l_done s = false →
     l_manager s = MSpawn c ∨ c ∈ l_watching s ∨ c ∈ l_closing s) ∧
  (∀ c, l_manager s = MStore c → l_conn s = None).
Proof.
  intros Hr. pose proof (lane_reachable_inv s Hr) as Hi. split_and!.
  - intros Hm Hc. split; intros Hd; (split; [|]).
    + destruct (li_wait s Hi Hm Hd) as [[c Hs]|Htok]; [congruence|done].
    + apply asleep_dials. by split_and!; [|left; left| |].
    + by apply m_wait_done.
    + apply asleep_returns. split; [by left|done].
  - exact (li_watched s Hi).
  - exact (li_store s Hi).
Qed.

(** Connected, then a failed write while the manager sleeps; then cancelled. *)
Definition lane_broken : lane_state := mkLane None false false MWait [0%nat] [] 1 1 ∅.

Lemma lane_broken_reachable : lane_reachable lane_broken.
Proof.
  eapply rtc_r; [exact lane_connected_reachable|]. left.
  replace lane_broken with
    (mkLane None (l_token lane_connected) (l_done lane_connected) (l_manager lane_connected)
       (l_watching lane_connected) (l_closing lane_connected) (S (l_notifying lane_connected))
       (l_dialled lane_connected) (close_conn (l_conn lane_connected) (l_open lane_connected)))
    by (unfold lane_broken; cbn; f_equal; set_solver).
  by apply (b_write_error lane_connected 0%nat).
Qed.

Lemma lane_broken_cancelled : lane_reachable (cancel lane_broken).
Proof. eapply rtc_r; [exact lane_broken_reachable|]. right. apply s_cancel. Qed.

Lemma no_lost_wakeup_witness :
  inevitably lane_step wake_step
    (λ s', l_done s' = true ∨ l_manager s' = MDial ∧ l_conn s' = None) lane_broken ∧
  inevitably goroutine_step wake_step (λ s', l_manager s' = MDone) (cancel lane_broken).
Proof.
  destruct (no_lost_wakeup lane_broken lane_broken_reachable) as [H _].
  destruct (no_lost_wakeup (cancel lane_broken) lane_broken_cancelled) as [H' _].
  split.
  - destruct (H eq_refl eq_refl) as [Hgo _]. apply (Hgo eq_refl).
  - destruct (H' eq_refl eq_refl) as [_ Hgo]. apply (Hgo eq_refl).
Defined.

(** C19: an upstream lane shuts down. Once the context is cancelled, in any
    reachable state: the lane's goroutines can take at most [lane_measure] steps
    together, whatever the network does, and as long as the manager has not
    returned it can take one by itself, which brings it closer to its end; if
    [Stop] closes the lane while the manager is not between the test of the context
    and the storing of the connection it dials, then the lane never has an open connection again. *)
Theorem upstream_lane_stops s :
  lane_reachable s → l_done s = true →
  (∀ n s', nsteps goroutine_step n s s' → (n ≤ lane_measure s)%nat) ∧
  (l_manager s ≠ MDone →
     ∃ s', goroutine_step s s' ∧ (manager_rank (l_manager s') < manager_rank (l_manager s))%nat) ∧
  (settled (l_manager s) →
     ∀ s', rtc goroutine_step (close_lane s) s' → l_conn s' = None ∧ l_open s' = ∅).
Proof.
  intros Hr Hd. split; [|split].
  - intros n s' Hn.
    destruct (nsteps_measure goroutine_step (λ s, l_done s = true) lane_measure
      goroutine_step_measure n s s' Hd Hn). lia.
  - by apply manager_moves.
  - intros Hm s' Hs'.
    assert (closed_down s') as (_ & ? & ? & _); [|done].
    apply (rtc_preserves _ closed_down closed_down_step _ _ Hs').
    split_and!; [done|done| |done]. cbn. apply set_eq. intros c. split; [|set_solver].
    pose proof (li_open s (lane_reachable_inv s Hr) c) as Ho.
    destruct (l_conn s) as [c'|] eqn:Ec; cbn.
    + intros [Hin Hne]%elem_of_difference. destruct (Ho Hin) as [Hs|Hs]; [set_solver|by rewrite Hs in Hm].
    + intros Hin. destruct (Ho Hin) as [Hs|Hs]; [done|by rewrite Hs in Hm].
Qed.

Lemma upstream_lane_stops_witness :
  (∀ n s', nsteps goroutine_step n lane_cancelled s' → (n ≤ 11)%nat) ∧
  ∀ s', rtc goroutine_step (close_lane lane_cancelled) s' → l_conn s' = None ∧ l_open s' = ∅.
Proof.
  destruct (upstream_lane_stops lane_cancelled lane_cancelled_reachable eq_refl) as (Hn & _ & Hc).
  split; [exact Hn|apply Hc, I].
Defined.

(** C39: what [Stop] misses. If the dial succeeds just before the context is
    cancelled, [Stop] finds no connection to close; the manager stores the new one
    afterwards, starts a watcher on it, sees the context and returns. The lane has
    shut down, and the connection stays open, with a goroutine reading from it,
    until the server closes it. *)
Theorem stop_misses_dialled :
  ∃ s s', lane_reachable s ∧ l_done s = false ∧ rtc goroutine_step (close_lane (cancel s)) s' ∧
    l_manager s' = MDone ∧ l_conn s' = Some 0%nat ∧ 0%nat ∈ l_open s' ∧
    l_watching s' = [0%nat] ∧ l_closing s' = [] ∧ l_notifying s' = 0%nat.
Proof.
  exists (mkLane None false false (MStore 0%nat) [] [] 0 1 {[0%nat]}). eexists. split_and!.
  - eapply rtc_l; [by left; apply m_check|]. eapply rtc_l; [by left; apply m_disconnected|]. eapply rtc_l; [by left; apply m_dial_ok|].
    cbn. rewrite union_empty_r_L. apply rtc_refl.
  - done.
  - eapply rtc_l; [by apply m_store|]. eapply rtc_l; [by apply m_spawn|].
    eapply rtc_l; [by apply m_drain|]. eapply rtc_l; [by apply m_stop|]. apply rtc_refl.
  - done.
  - done.
  - cbn. set_solver.
  - done.
  - done.
  - done.
Qed.
