(* ===== verification/SockOpts.v ===== *)
(** * Socket options and dialling (internal/tcpopt/tcpopt.go, client.dialTCP)

    What the program asks of a new TCP connection, and what it does with the
    answers. [answer] is the operating system: the error, if any, of each call. *)

From S2P Require Import Prelude.
From S2P Require Import Words.
From S2P Require Import Session.

(** The methods of the connection that are called. *)
Inductive conn_call :=
| SetReadBuffer (n : Z)
| SetWriteBuffer (n : Z)
| SetKeepAlive (b : bool)
| SetKeepAlivePeriod (d : Z).

Definition DefaultTCPBuffer : Z := 16 * 1024 * 1024.
Definition DefaultTCPKeepAliveSeconds : Z := 30.

Inductive Direction := DirectionUpstream | DirectionDownstream.

Inductive opt_error (E : Type) :=
| ErrSetReadBuffer (e : E)
| ErrSetWriteBuffer (e : E).
Arguments ErrSetReadBuffer {E} e.
Arguments ErrSetWriteBuffer {E} e.

(** A line of the log, as far as the options are concerned. *)
Inductive warning (E : Type) :=
| WarnSkipped (who : string) (d : Direction) (e : opt_error E)
| WarnKeepAlive (d : Direction) (e : E)
| WarnKeepAlivePeriod (d : Direction) (e : E).
Arguments WarnSkipped {E} who d e.
Arguments WarnKeepAlive {E} d e.
Arguments WarnKeepAlivePeriod {E} d e.

Section SockOpts.
Context {E : Type} (answer : conn_call → option E).

(** The calls made, in order, and the error returned. *)
Definition ApplyTCPConn (conn : option conn_id) : list conn_call * option (opt_error E) :=
  match conn with
  | None => ([], None)
  | Some _ =>
      match answer (SetReadBuffer DefaultTCPBuffer) with
      | Some e => ([SetReadBuffer DefaultTCPBuffer], Some (ErrSetReadBuffer e))
      | None =>
          match answer (SetWriteBuffer DefaultTCPBuffer) with
          | Some e =>
              ([SetReadBuffer DefaultTCPBuffer; SetWriteBuffer DefaultTCPBuffer], Some (ErrSetWriteBuffer e))
          | None => ([SetReadBuffer DefaultTCPBuffer; SetWriteBuffer DefaultTCPBuffer], None)
          end
      end
  end.

(** The same for gnet's connections, behind an interface with the two methods. *)
Definition ApplyGnetConn (conn : option conn_id) : list conn_call * option (opt_error E) :=
  match conn with
  | None => ([], None)
  | Some _ =>
      match answer (SetReadBuffer DefaultTCPBuffer) with
      | Some e => ([SetReadBuffer DefaultTCPBuffer], Some (ErrSetReadBuffer e))
      | None =>
          match answer (SetWriteBuffer DefaultTCPBuffer) with
          | Some e =>
              ([SetReadBuffer DefaultTCPBuffer; SetWriteBuffer DefaultTCPBuffer], Some (ErrSetWriteBuffer e))
          | None => ([SetReadBuffer DefaultTCPBuffer; SetWriteBuffer DefaultTCPBuffer], None)
          end
      end
  end.

Definition WarnIfUnsupported (err : option (opt_error E)) (who : string) (d : Direction) : list (warning E) :=
  match err with Some e => [WarnSkipped who d e] | None => [] end.

(** [applyConnOptions] of the server. *)
Definition applyConnOptions (conn : option conn_id) (d : Direction) : list conn_call * list (warning E) :=
  let '(calls, err) := ApplyGnetConn conn in (calls, WarnIfUnsupported err "server" d).

(** The upstream handler's [OnOpen]; the downstream one also sets the context
    (Handlers.v). *)
Definition OnOpen_upstream (conn : conn_id) : list conn_call * list (warning E) :=
  applyConnOptions (Some conn) DirectionUpstream.

(** [dialTCP]: [dial] is what [DialContext] returns, with whether the connection is
    a [*net.TCPConn]. *)
Definition dialTCP (d : Direction) (dial : result E (conn_id * bool))
    : result E conn_id * list conn_call * list (warning E) :=
  match dial with
  | Err e => (Err e, [], [])
  | Ok (conn, is_tcp) =>
      if is_tcp then
        let '(calls, err) := ApplyTCPConn (Some conn) in
        let warnings := WarnIfUnsupported err "client" d in
        let warnings := warnings ++
          match answer (SetKeepAlive true) with Some e => [WarnKeepAlive d e] | None => [] end in
        let period := SetKeepAlivePeriod (seconds DefaultTCPKeepAliveSeconds) in
        let warnings := warnings ++
          match answer period with Some e => [WarnKeepAlivePeriod d e] | None => [] end in
        (Ok conn, calls ++ [SetKeepAlive true; period], warnings)
      else (Ok conn, [], [])
  end.

(** ** What an option can do *)

Definition refused (call : conn_call) : bool := match answer call with Some _ => true | None => false end.

(** Options never decide: [dialTCP] returns what the dial returned, whatever the
    operating system says of the options; on a TCP connection the read buffer and
    both keep-alive settings are always tried, the write buffer exactly when the
    read buffer was accepted; and the log has one warning for each call made that
    was refused. *)
Lemma dialTCP_spec d dial :
  let '(r, calls, warnings) := dialTCP d dial in
  r = match dial with Err e => Err e | Ok (conn, _) => Ok conn end ∧
  length warnings = length (filter (λ c, refused c = true) calls) ∧
  (∀ conn, dial = Ok (conn, true) →
     calls = [SetReadBuffer DefaultTCPBuffer] ++
       (if refused (SetReadBuffer DefaultTCPBuffer) then [] else [SetWriteBuffer DefaultTCPBuffer]) ++
       [SetKeepAlive true; SetKeepAlivePeriod 30000000000]).
Proof.
  unfold dialTCP. destruct dial as [[conn []]|e]; [|done..]. unfold ApplyTCPConn.
  change (seconds DefaultTCPKeepAliveSeconds) with 30000000000.
  assert (∀ c, refused c = match answer c with Some _ => true | None => false end) as Hr by done.
  destruct (answer (SetReadBuffer DefaultTCPBuffer)) as [e1|] eqn:E1;
    [|destruct (answer (SetWriteBuffer DefaultTCPBuffer)) as [e2|] eqn:E2];
    destruct (answer (SetKeepAlive true)) as [e3|] eqn:E3;
    destruct (answer (SetKeepAlivePeriod 30000000000)) as [e4|] eqn:E4;
    (split; [done|]); split; try (intros ? _; rewrite Hr, E1; done);
    cbn [app WarnIfUnsupported]; rewrite !filter_cons; rewrite !Hr, ?E1, ?E2, ?E3, ?E4; reflexivity.
Qed.

(** The server's connections are treated alike, but for the keep-alive settings,
    which are gnet's. *)
Lemma applyConnOptions_spec conn d :
  let '(calls, warnings) := applyConnOptions (Some conn) d in
  calls = (ApplyTCPConn (Some conn)).1 ∧ length warnings = length (filter (λ c, refused c = true) calls).
Proof.
  unfold applyConnOptions, ApplyGnetConn, ApplyTCPConn.
  assert (∀ c, refused c = match answer c with Some _ => true | None => false end) as Hr by done.
  destruct (answer (SetReadBuffer _)) eqn:E1; [|destruct (answer (SetWriteBuffer _)) eqn:E2];
    (split; [done|]); rewrite !filter_cons, ?Hr, ?E1, ?E2; reflexivity.
Qed.

End SockOpts.
