(* ===== verification/Lifecycle.v ===== *)
(** * The client's life cycle (internal/client/client.go)

    [Start] opens the UDP socket and starts the goroutines, [Stop] cancels the
    context, closes every lane and the socket, [Run] is the two around a signal.
    The goroutines themselves are modelled elsewhere (Reconnect.v, DownLane.v,
    Upstream.v, Downstream.v); here is which of them are started, what [Stop] does
    to the state they share, and that the lane writers come to an end. *)

From S2P Require Import Prelude.
From S2P Require Import Words.
From S2P Require Import Packet.
From S2P Require Import Ring.
From S2P Require Import Stats.
From S2P Require Import Config.
From S2P Require Import Crypto.
From S2P Require Import Session.
From S2P Require Import Client.
From S2P Require Import ClientTable.
From S2P Require Import Upstream.

(** ** Starting *)

Inductive goroutine :=
| GUpstreamWrites (lane : nat)
| GUpstreamManager (lane : nat)
| GDownstreamManager (lane : nat)
| GHandleUDP
| GCleanupSessions
| GPrintStats.

#[export] Instance goroutine_eq_dec : EqDecision goroutine.
Proof. solve_decision. Defined.

Definition DefaultSocketBuffer : Z := 16 * 1024 * 1024.

(** The outside world: [resolve] is [net.ResolveUDPAddr] of the listen address,
    [listen] opens a socket on a network, [buffer] is the answer to setting a
    buffer size. *)
Record start_env (E : Type) := mkStartEnv {
  se_resolve : result E UDPAddr;
  se_listen : string → UDPAddr → result E conn_id;
  se_read_buffer : Z → option E;
  se_write_buffer : Z → option E
}.
Arguments se_resolve {E}.
Arguments se_listen {E}.
Arguments se_read_buffer {E}.
Arguments se_write_buffer {E}.

Section Start.
Context {E X : Type}.
Implicit Types c : Client E.

Definition set_listener c (l : option conn_id) : Client E :=
  let p := params c in
  mkClient
    (mkClientParams (cp_config p) l (cp_maxUpstreamPacket p) (cp_upstreamBatchMaxPackets p)
       (cp_upstreamBatchMaxBytes p) (cp_upstreamBatchMaxDelay p) (cp_upstreamStripeEnabled p)
       (cp_upstreamZeroCopy p) (cp_upstreamCipher p) (cp_downstreamCipher p))
    (heap c) (next c) (sessions c) (sessionsByID c) (sessionCounter c) (upstreamLanes c)
    (downstreamLanes c) (downstreamHeartbeat c) (stats c).

(** The two loops over the lanes, then the three others. *)
Definition started c : list goroutine :=
  (upstreamLanes c ≫= λ l, [GUpstreamWrites (ul_id l); GUpstreamManager (ul_id l)]) ++
  (downstreamLanes c ≫= λ l, [GDownstreamManager (dl_id l)]) ++
  [GHandleUDP; GCleanupSessions; GPrintStats].

(** [Start]: the client, the goroutines started, the number of warnings and the
    error. *)
Definition clientStart (env : start_env X) c : Client E * list goroutine * nat * option X :=
  match se_resolve env with
  | Err e => (c, [], 0%nat, Some e)
  | Ok udpAddr =>
      let udpNetwork : string := if To4 (ua_IP udpAddr) then "udp4" else "udp" in
      match se_listen env udpNetwork udpAddr with
      | Err e => (set_listener c None, [], 0%nat, Some e)
      | Ok l =>
          let c := set_listener c (Some l) in
          let warn (r : option X) : nat := match r with Some _ => 1%nat | None => 0%nat end in
          (c, started c,
           (warn (se_read_buffer env DefaultSocketBuffer) + warn (se_write_buffer env DefaultSocketBuffer))%nat,
           None)
      end
  end.

(** ** Stopping *)

Inductive stop_action :=
| StopCancel
| StopRing (lane : nat)
| StopConn (c : conn_id)
| StopListener (l : conn_id).

Definition close_action (conn : option conn_id) : list stop_action :=
  match conn with Some c => [StopConn c] | None => [] end.

Definition stop_upstream (l : upstreamLane) : upstreamLane :=
  mkUpLane (ul_id l) (close (ul_ring l)) (ul_reconnect l) None.

Definition stop_downstream (l : downstreamLane) : downstreamLane :=
  mkDownLane (dl_id l) (dl_reconnect l) (dl_registerCh l) None.

(** [Stop]: what it does, in order. *)
Definition clientStop c : Client E * list stop_action :=
  (set_downLanes (set_upLanes c (stop_upstream <$> upstreamLanes c)) (stop_downstream <$> downstreamLanes c),
   [StopCancel] ++
   (upstreamLanes c ≫= λ l, StopRing (ul_id l) :: close_action (ul_conn l)) ++
   (downstreamLanes c ≫= λ l, close_action (dl_conn l)) ++
   match cp_udpListener (params c) with Some l => [StopListener l] | None => [] end).

(** [Run]: start, wait for a signal, stop. *)
Definition clientRun (env : start_env X) (until_signal : Client E → Client E) c
    : Client E * list goroutine * list stop_action * option X :=
  match clientStart env c with
  | (c, gs, _, Some e) => (c, gs, [], Some e)
  | (c, gs, _, None) =>
      let '(c, acts) := clientStop (until_signal c) in (c, gs, acts, None)
  end.

End Start.

(** ** The writers end *)

Section Writers.
Context `{IntWidth} {E : Type}.
Implicit Types c : Client E.

(** [handleUpstreamWrites] until it returns: [outs] are the outcomes of its writes
    and [None] means that it is still running when the fuel runs out. *)
Fixpoint run_writer (fuel : nat) (i : nat) (sleep : Z → Client E → option (Client E))
    (outs : nat → write_outcome) c : exec (option (Client E * list effect)) :=
  match fuel with
  | O => Ret None
  | S fuel =>
      r ← handleUpstreamWrites i sleep (outs fuel) c;
      let '(c, eff, turn) := r in
      match turn with
      | WriterStops => Ret (Some (c, eff))
      | WriterWaits => run_writer fuel i sleep outs c
      | WriterContinues =>
          w ← run_writer fuel i sleep outs c;
          Ret (w ≫= λ w, Some (w.1, eff ++ w.2))
      end
  end.

(** Everything a turn sends goes to the lane's connection. *)
Definition effects_on (conn : option conn_id) (eff : list effect) : Prop :=
  Forall (λ e, ∃ k, conn = Some k ∧ ((∃ bs, e = TcpWrite k bs) ∨ e = TcpClose k)) eff.

Lemma written_effects_on out lane bytes : effects_on (ul_conn lane) (written_effects out lane bytes).
Proof.
  unfold written_effects, effects_on. destruct (ul_conn lane) as [k|]; [|constructor].
  destruct out; repeat constructor; exists k; eauto.
Qed.

Lemma written_lane_conn out lane r :
  ul_conn (written_lane out lane r) = ul_conn lane ∨ ul_conn (written_lane out lane r) = None.
Proof. unfold written_lane. destruct (ul_conn lane) eqn:Ec, out; auto. Qed.

Lemma run_writer_stops size fuel i sleep outs c lane R q :
  cp_upstreamBatchMaxDelay (params c) ≤ 0 → 1 ≤ cp_upstreamBatchMaxPackets (params c) →
  Z.of_nat size + Z.max 0 (cp_upstreamBatchMaxBytes (params c)) < 2 ^ 31 →
  upstreamLanes c !! i = Some lane → ring_at size (ul_ring lane) R q →
  closed (ul_ring lane) = true → (length q < fuel)%nat →
  ∃ c' eff lane', run_writer fuel i sleep outs c = Ret (Some (c', eff)) ∧
    upstreamLanes c' !! i = Some lane' ∧ ring_at size (ul_ring lane') (R + length q) [] ∧
    closed (ul_ring lane') = true ∧ effects_on (ul_conn lane) eff.
Proof.
  intros Hd Hm Hs. revert c lane R q Hd Hm Hs.
  induction fuel as [|fuel IH]; intros c lane R q Hd Hm Hs Hl Hr Hcl Hf; [lia|]. cbn [run_writer].
  destruct q as [|f q].
  { unfold handleUpstreamWrites. rewrite Hl, (pop_at _ _ _ _ Hr), Hcl. cbn [mbind exec_bind].
    exists c, [], lane. rewrite Nat.add_0_r. split_and!; try done. constructor. }
  destruct (writer_turn_at size c i sleep (outs fuel) lane R (f :: q) Hd Hm Hs Hl Hr ltac:(done))
    as (c1 & r1 & k & -> & Hl1 & Hp1 & Hr1 & Hc1 & Hk & _ & _ & _). cbn [mbind exec_bind].
  assert (ul_ring (written_lane (outs fuel) lane r1) = r1) as Er.
  { unfold written_lane. by destruct (ul_conn lane), (outs fuel). }
  destruct (IH c1 (written_lane (outs fuel) lane r1) (R + k)%nat (drop k (f :: q)))
    as (c' & eff & lane' & -> & Hl' & Hr' & Hcl' & He); rewrite ?Hp1, ?Er; try done.
  - rewrite Hl1. apply list_lookup_insert_eq. by eapply lookup_lt_Some.
  - congruence.
  - rewrite length_drop. lia.
  - cbn [mbind exec_bind]. eexists c', _, lane'. split; [done|]. split; [done|]. split; [|split; [done|]].
    + rewrite length_drop in Hr'. replace (R + length (f :: q))%nat with (R + k + (length (f :: q) - k))%nat by lia. done.
    + apply Forall_app. split; [apply written_effects_on|].
      destruct (written_lane_conn (outs fuel) lane r1) as [Ew|Ew]; rewrite Ew in He; [done|].
      eapply Forall_impl; [exact He|]. by intros e (k1 & [=] & _).
Qed.

End Writers.

(** ** Theorems *)

(** The bounds under which the writers are modelled, and every ring a queue. *)
Record stoppable {E} (c : Client E) (size : nat) (queue : nat → list (list byte)) : Prop := {
  st_delay : cp_upstreamBatchMaxDelay (params c) ≤ 0;
  st_packets : 1 ≤ cp_upstreamBatchMaxPackets (params c);
  st_bytes : Z.of_nat size + Z.max 0 (cp_upstreamBatchMaxBytes (params c)) < 2 ^ 31;
  st_rings i lane : upstreamLanes c !! i = Some lane → ∃ R, ring_at size (ul_ring lane) R (queue i)
}.

Lemma ring_at_close size r R q : ring_at size r R q → ring_at size (close r) R q.
Proof. by intros []. Qed.

Lemma in_close_action k conn : StopConn k ∈ close_action conn ↔ conn = Some k.
Proof.
  destruct conn as [c|]; cbn; [rewrite list_elem_of_singleton; split; congruence|].
  split; [intros H; inversion H|done].
Qed.

Lemma stop_conns {E} (c : Client E) k :
  StopConn k ∈ (clientStop c).2 ↔
    (∃ l, l ∈ upstreamLanes c ∧ ul_conn l = Some k) ∨ (∃ l, l ∈ downstreamLanes c ∧ dl_conn l = Some k).
Proof.
  cbn [clientStop snd]. rewrite !elem_of_app, list_elem_of_singleton, !list_elem_of_bind.
  setoid_rewrite elem_of_cons. setoid_rewrite in_close_action.
  assert (StopConn k ∉ match cp_udpListener (params c) with Some l => [StopListener l] | None => [] end) as Hn.
  { destruct (cp_udpListener (params c)); [by intros ?%list_elem_of_singleton|intros H; inversion H]. }
  naive_solver.
Qed.

Lemma length_bind_const {A B} (n : nat) (f : A → list B) (l : list A) :
  (∀ x, length (f x) = n) → length (l ≫= f) = (n * length l)%nat.
Proof.
  intros Hf. induction l as [|x l IH]; cbn [mbind list_bind length] in *; [lia|].
  rewrite length_app, Hf, IH. lia.
Qed.

(** [Start] is all or nothing: on an error no goroutine has been started, and
    otherwise the socket is open, on "udp4" exactly when the listen address is an
    IPv4 address, and each lane has its goroutines. *)
Lemma clientStart_spec {E X} (env : start_env X) (c : Client E) :
  let '(c', gs, _, err) := clientStart env c in
  sessions c' = sessions c ∧ upstreamLanes c' = upstreamLanes c ∧ downstreamLanes c' = downstreamLanes c ∧
  match err with
  | Some _ => gs = []
  | None =>
      ∃ a l, se_resolve env = Ok a ∧ se_listen env (if To4 (ua_IP a) then "udp4" else "udp")%string a = Ok l ∧
        cp_udpListener (params c') = Some l ∧
        length gs = (2 * length (upstreamLanes c) + length (downstreamLanes c) + 3)%nat ∧
        (∀ lane, lane ∈ upstreamLanes c → GUpstreamWrites (ul_id lane) ∈ gs ∧ GUpstreamManager (ul_id lane) ∈ gs) ∧
        (∀ lane, lane ∈ downstreamLanes c → GDownstreamManager (dl_id lane) ∈ gs) ∧
        GHandleUDP ∈ gs ∧ GCleanupSessions ∈ gs ∧ GPrintStats ∈ gs
  end.
Proof.
  unfold clientStart. destruct (se_resolve env) as [a|e]; [|done].
  destruct (se_listen env _ a) as [l|e] eqn:El; [|done]. do 3 (split; [done|]).
  exists a, l. split; [done|]. split; [done|]. split; [done|].
  unfold started. cbn [upstreamLanes downstreamLanes set_listener]. split; [|split; [|split]].
  - rewrite !length_app. cbn [length].
    rewrite (length_bind_const 2), (length_bind_const 1) by done. lia.
  - intros lane Hin. split; apply elem_of_app; left; apply list_elem_of_bind; exists lane; (split; [|done]).
    + by left.
    + right. by left.
  - intros lane Hin. apply elem_of_app; right. apply elem_of_app; left. apply list_elem_of_bind.
    exists lane. split; [by left|done].
  - rewrite !elem_of_app. split_and!; right; right; [by left|right; by left|right; right; by left].
Qed.

(** C20: the client stops. [Stop] closes exactly the connections the lanes have
    and the listening socket, and afterwards, whatever the state was: no lane has a
    connection and every ring is closed, the sessions are as before, a packet for a
    lane is dropped at once instead of waiting, and the writer of each lane
    terminates within one turn more than it has packets, without writing anything,
    and leaves its ring empty. *)
Theorem client_stops `{IntWidth} {E} (c : Client E) size queue :
  stoppable c size queue →
  let c' := (clientStop c).1 in
  (∀ k, StopConn k ∈ (clientStop c).2 ↔
     (∃ l, l ∈ upstreamLanes c ∧ ul_conn l = Some k) ∨ (∃ l, l ∈ downstreamLanes c ∧ dl_conn l = Some k)) ∧
  (∀ l, cp_udpListener (params c) = Some l → StopListener l ∈ (clientStop c).2) ∧
  sessions c' = sessions c ∧ sessionsByID c' = sessionsByID c ∧
  Forall (λ l, dl_conn l = None) (downstreamLanes c') ∧
  ∀ i lane, upstreamLanes c' !! i = Some lane →
    ul_conn lane = None ∧ closed (ul_ring lane) = true ∧
    (∀ o, og_lane o = i → submit_upstream o c' = Ret (Some c')) ∧
    ∀ sleep outs fuel, (length (queue i) < fuel)%nat →
      ∃ c'' lane', run_writer fuel i sleep outs c' = Ret (Some (c'', [])) ∧
        upstreamLanes c'' !! i = Some lane' ∧ ∃ R, ring_at size (ul_ring lane') R [].
Proof.
  intros [Hd Hm Hs Hr] c'. split; [apply stop_conns|]. split; [|split; [done|split; [done|split]]].
  - intros l Hl. cbn [clientStop snd]. rewrite Hl, !elem_of_app, !list_elem_of_singleton. tauto.
  - cbn. apply Forall_fmap, Forall_forall. done.
  - intros i lane Hlane. cbn [c' clientStop fst upstreamLanes set_downLanes set_upLanes] in Hlane.
    rewrite list_lookup_fmap in Hlane. destruct (upstreamLanes c !! i) as [l0|] eqn:El; [|done].
    injection Hlane as <-. split; [done|]. split; [done|]. destruct (Hr i l0 El) as [R HR].
    assert (upstreamLanes c' !! i = Some (stop_upstream l0)) as Hl'.
    { cbn. by rewrite list_lookup_fmap, El. }
    split.
    + intros o Ho. unfold submit_upstream. rewrite Ho, Hl'. done.
    + intros sleep outs fuel Hf.
      destruct (run_writer_stops size fuel i sleep outs c' (stop_upstream l0) R (queue i))
        as (c'' & eff & lane' & -> & Hl'' & Hr' & _ & He); try done.
      { by apply ring_at_close. }
      assert (eff = []) as ->.
      { destruct eff as [|e eff]; [done|]. inversion He as [|? ? (k & [=] & _)]. }
      exists c'', lane'. split; [done|]. split; [done|]. by eexists.
Qed.

(** Two packets wait on a connected lane. *)
Lemma sample_stoppable : stoppable sample_writer 2 (λ i, match i with O => [[x01; x02]; [x03; x04]] | _ => [] end).
Proof.
  split; [by_compute..|]. intros [|i] lane; [|done]. intros [= <-]. exists 0%nat. exact sample_lane_at.
Qed.

Lemma client_stops_witness :
  (clientStop sample_writer).2 = [StopCancel; StopRing 0; StopConn 9] ∧
  ∃ c'' lane', @run_writer int64_target unit 3 0 (λ _ _, None) (λ _, Written) (clientStop sample_writer).1 =
      Ret (Some (c'', [])) ∧
    upstreamLanes c'' !! 0%nat = Some lane' ∧ ∃ R, ring_at 2 (ul_ring lane') R [].
Proof.
  split; [vm_compute; reflexivity|].
  destruct (@client_stops int64_target unit sample_writer 2 _ sample_stoppable) as (_ & _ & _ & _ & _ & H).
  destruct (H 0%nat (stop_upstream sample_lane) eq_refl) as (_ & _ & _ & Hw).
  apply (Hw (λ _ _, None) (λ _, Written) 3%nat). cbn. lia.
Defined.
