(* ===== verification/DownLane.v ===== *)
(** * A downstream lane over its whole life (internal/client/client.go)

    [manageDownstreamConnection] dials, stores the connection, registers every
    session of the lane and then reads frames in the same goroutine
    ([handleDownstream]); for each connection it starts a control loop
    ([downstreamControlLoop]) that takes new session ids from [registerCh] and
    registers them. An old control loop may outlive its connection: it sends on
    whatever connection the lane has. The goroutine that reads UDP stores new
    sessions and offers their ids, the cleaner removes sessions, [Stop] cancels
    the context and closes the connection. They interleave at every access to the
    lane, as a step relation.

    The lane is the record of the client ([downstreamLane]); [lane_operations]
    relates the steps on it to the operations of Downstream.v. *)

From S2P Require Import Prelude.
From S2P Require Import Words.
From S2P Require Import Packet.
From S2P Require Import Control.
From S2P Require Import Stream.
From S2P Require Import Session.
From S2P Require Import Client.
From S2P Require Import Downstream.
From S2P Require Import Reconnect.

(** ** Data *)

(** Where the manager is; from [DDrain] on it holds the connection it dialled, and
    from [DLoop] to [DNotify] it is inside [handleDownstream]. *)
Inductive dmanager :=
| DCheck                           (* loop head: the context *)
| DGet                             (* [getDownstreamConn] *)
| DWait                            (* the select on Done and [reconnect] *)
| DDial
| DBackoff
| DStore (c : conn_id)
| DDrain (c : conn_id)
| DCollect (c : conn_id)           (* [Range] over [sessionsByID] *)
| DRegister (c : conn_id) (ids : list Z)
| DSpawn (c : conn_id)             (* about to start the control loop *)
| DLoop (c : conn_id)              (* the select on Done before a read *)
| DRead (c : conn_id)              (* in [conn.Read] *)
| DStopLoop (c : conn_id)          (* deferred: [close(done)] *)
| DClose (c : conn_id)             (* deferred: [conn.Close()] *)
| DClear (c : conn_id)
| DNotify
| DDone.

Inductive loop_point := LHello | LSelect | LBeat.

(** A control loop: the connection it was started for, whether its [done] channel
    is closed, where it is, and the set [pending]. *)
Record loop := mkLoop {
  lp_conn : conn_id;
  lp_done : bool;
  lp_point : loop_point;
  lp_pending : gset Z
}.

(** [d_sessions] are the ids in [sessionsByID] that belong to this lane and
    [d_publishing] the one that is stored but not yet offered. The rest records
    what happened: [d_registered] the ids sent in a register message on the current
    connection, [d_overflow] those given up since the last collection because the
    channel was full or a message would have had too many, [d_stale] those that a
    control loop took and gave up by returning, [d_clean] whether no older control
    loop was left at the last collection. *)
Record dlane := mkDLane {
  d_lane : downstreamLane;
  d_ctx : bool;
  d_stopped : bool;
  d_manager : dmanager;
  d_loops : list loop;
  d_open : gset conn_id;
  d_dialled : nat;
  d_sessions : gset Z;
  d_publishing : option Z;
  d_registered : gset Z;
  d_overflow : gset Z;
  d_stale : gset Z;
  d_clean : bool
}.

Definition d_conn (s : dlane) : option conn_id := dl_conn (d_lane s).
Definition d_queue (s : dlane) : list Z := dl_registerCh (d_lane s).
Definition d_token (s : dlane) : bool := dl_reconnect (d_lane s).

Definition with_manager (m : dmanager) (s : dlane) : dlane :=
  mkDLane (d_lane s) (d_ctx s) (d_stopped s) m (d_loops s) (d_open s) (d_dialled s) (d_sessions s)
    (d_publishing s) (d_registered s) (d_overflow s) (d_stale s) (d_clean s).
Definition with_lane (l : downstreamLane) (s : dlane) : dlane :=
  mkDLane l (d_ctx s) (d_stopped s) (d_manager s) (d_loops s) (d_open s) (d_dialled s) (d_sessions s)
    (d_publishing s) (d_registered s) (d_overflow s) (d_stale s) (d_clean s).
Definition with_loops (ls : list loop) (s : dlane) : dlane :=
  mkDLane (d_lane s) (d_ctx s) (d_stopped s) (d_manager s) ls (d_open s) (d_dialled s) (d_sessions s)
    (d_publishing s) (d_registered s) (d_overflow s) (d_stale s) (d_clean s).
Definition with_open (o : gset conn_id) (s : dlane) : dlane :=
  mkDLane (d_lane s) (d_ctx s) (d_stopped s) (d_manager s) (d_loops s) o (d_dialled s) (d_sessions s)
    (d_publishing s) (d_registered s) (d_overflow s) (d_stale s) (d_clean s).
Definition with_history (reg over stale : gset Z) (clean : bool) (s : dlane) : dlane :=
  mkDLane (d_lane s) (d_ctx s) (d_stopped s) (d_manager s) (d_loops s) (d_open s) (d_dialled s) (d_sessions s)
    (d_publishing s) reg over stale clean.
Definition with_sessions (ids : gset Z) (p : option Z) (s : dlane) : dlane :=
  mkDLane (d_lane s) (d_ctx s) (d_stopped s) (d_manager s) (d_loops s) (d_open s) (d_dialled s) ids
    p (d_registered s) (d_overflow s) (d_stale s) (d_clean s).

(** ** Operations on the lane *)

Definition lane_with_conn (conn : option conn_id) (l : downstreamLane) : downstreamLane :=
  mkDownLane (dl_id l) (dl_reconnect l) (dl_registerCh l) conn.
Definition lane_with_token (t : bool) (l : downstreamLane) : downstreamLane :=
  mkDownLane (dl_id l) t (dl_registerCh l) (dl_conn l).
Definition lane_with_queue (q : list Z) (l : downstreamLane) : downstreamLane :=
  mkDownLane (dl_id l) (dl_reconnect l) q (dl_conn l).

(** [sendLaneControl] as the lane sees it: without a connection nothing happens; a
    message of more than 65535 ids cannot be built; a failed write closes and clears
    the connection and notifies. *)
Inductive sent :=
| NoConn
| TooMany
| Sent (c : conn_id)
| Broken (c : conn_id).

Definition lane_send (ids : list Z) (out : write_outcome) (l : downstreamLane) : downstreamLane * sent :=
  match dl_conn l with
  | None => (l, NoConn)
  | Some c =>
      if 65535 <? Z.of_nat (length ids) then (l, TooMany)
      else match out with
           | Written => (l, Sent c)
           | WriteError _ => (lane_with_conn None (lane_with_token (notifyReconnect (dl_reconnect l)) l), Broken c)
           end
  end.

(** A send by any goroutine. *)
Definition do_send (ids : list Z) (out : write_outcome) (s : dlane) : dlane :=
  let '(l, r) := lane_send ids out (d_lane s) in
  let s := with_lane l s in
  match r with
  | NoConn => s
  | TooMany => with_history (d_registered s) (list_to_set ids ∪ d_overflow s) (d_stale s) (d_clean s) s
  | Sent _ => with_history (list_to_set ids ∪ d_registered s) (d_overflow s) (d_stale s) (d_clean s) s
  | Broken c => with_open (d_open s ∖ {[c]}) s
  end.

(** [registerAllSessionsForLane] sends nothing when there is nothing to register,
    and so does [flushPending]. *)
Definition send_ids (ids : list Z) (out : write_outcome) (s : dlane) : dlane :=
  match ids with [] => s | _ => do_send ids out s end.

Definition sorted_ids (ids : gset Z) : list Z := merge_sort Z.le (elements ids).

(** The non-blocking send of a new session's id. *)
Definition offer (sid : Z) (s : dlane) : dlane :=
  let full := registerCh_cap <=? Z.of_nat (length (d_queue s)) in
  let s := with_lane (push_register sid (d_lane s)) s in
  if full
  then with_history (d_registered s) ({[sid]} ∪ d_overflow s) (d_stale s) (d_clean s) s
  else s.

(** [close(done)] on the control loop of connection [c]. *)
Definition end_loop (c : conn_id) (l : loop) : loop :=
  if decide (lp_conn l = c) then mkLoop (lp_conn l) true (lp_point l) (lp_pending l) else l.

(** ** Steps *)

(** The manager, [handleDownstream] included. *)
Inductive manager_step : dlane → dlane → Prop :=
| dm_stop s : d_manager s = DCheck → d_ctx s = true → manager_step s (with_manager DDone s)
| dm_check s : d_manager s = DCheck → d_ctx s = false → manager_step s (with_manager DGet s)
| dm_connected s c : d_manager s = DGet → d_conn s = Some c → manager_step s (with_manager DWait s)
| dm_disconnected s : d_manager s = DGet → d_conn s = None → manager_step s (with_manager DDial s)
| dm_wait_done s : d_manager s = DWait → d_ctx s = true → manager_step s (with_manager DDone s)
| dm_wait_token s :
    d_manager s = DWait → d_token s = true →
    manager_step s (with_manager DCheck (with_lane (lane_with_token false (d_lane s)) s))
| dm_dial_ok s :
    d_manager s = DDial →
    manager_step s
      (mkDLane (d_lane s) (d_ctx s) (d_stopped s) (DStore (d_dialled s)) (d_loops s)
         ({[d_dialled s]} ∪ d_open s) (S (d_dialled s)) (d_sessions s) (d_publishing s)
         (d_registered s) (d_overflow s) (d_stale s) (d_clean s))
| dm_dial_err s : d_manager s = DDial → manager_step s (with_manager DBackoff s)
| dm_backoff_timer s : d_manager s = DBackoff → manager_step s (with_manager DCheck s)
| dm_backoff_token s :
    d_manager s = DBackoff → d_token s = true →
    manager_step s (with_manager DCheck (with_lane (lane_with_token false (d_lane s)) s))
| dm_backoff_done s : d_manager s = DBackoff → d_ctx s = true → manager_step s (with_manager DDone s)
| dm_store s c :
    d_manager s = DStore c →
    manager_step s (with_manager (DDrain c) (with_history ∅ (d_overflow s) (d_stale s) (d_clean s)
      (with_lane (lane_with_conn (Some c) (d_lane s)) s)))
| dm_drain s c :
    d_manager s = DDrain c →
    manager_step s
      (with_manager (DCollect c) (with_lane (lane_with_token (drainReconnect (d_token s)) (d_lane s)) s))
| dm_collect s c :
    d_manager s = DCollect c →
    manager_step s (with_manager (DRegister c (sorted_ids (d_sessions s)))
      (with_history (d_registered s) ∅ ∅ (bool_decide (d_loops s = [])) s))
| dm_register s c ids out :
    d_manager s = DRegister c ids → manager_step s (with_manager (DSpawn c) (send_ids ids out s))
| dm_spawn s c :
    d_manager s = DSpawn c →
    manager_step s (with_manager (DLoop c) (with_loops (d_loops s ++ [mkLoop c false LHello ∅]) s))
| dm_loop_done s c : d_manager s = DLoop c → d_ctx s = true → manager_step s (with_manager (DStopLoop c) s)
| dm_loop s c : d_manager s = DLoop c → d_ctx s = false → manager_step s (with_manager (DRead c) s)
| dm_read_data s c : d_manager s = DRead c → c ∈ d_open s → manager_step s (with_manager (DLoop c) s)
| dm_read_err s c : d_manager s = DRead c → manager_step s (with_manager (DStopLoop c) s)
| dm_stop_loop s c :
    d_manager s = DStopLoop c →
    manager_step s (with_manager (DClose c) (with_loops (end_loop c <$> d_loops s) s))
| dm_close s c :
    d_manager s = DClose c → manager_step s (with_manager (DClear c) (with_open (d_open s ∖ {[c]}) s))
| dm_clear s c :
    d_manager s = DClear c →
    manager_step s (with_manager DNotify
      (with_lane (if decide (d_conn s = Some c) then lane_with_conn None (d_lane s) else d_lane s) s))
| dm_notify s :
    d_manager s = DNotify →
    manager_step s (with_manager DCheck (with_lane (lane_with_token (notifyReconnect (d_token s)) (d_lane s)) s)).

(** The three ways out of the back-off are those of [waitReconnectDelay]. *)
Lemma dbackoff_waits s delay w r t :
  d_manager s = DBackoff → waitReconnectDelay delay (d_ctx s) (d_token s) w = Some (r, t) →
  manager_step s (with_manager (if r then DCheck else DDone) (with_lane (lane_with_token t (d_lane s)) s)).
Proof.
  intros Hm. assert (with_lane (lane_with_token (d_token s) (d_lane s)) s = s) as Es.
  { destruct s as [l]. destruct l. done. }
  unfold waitReconnectDelay. destruct (delay <=? 0).
  { intros [= <- <-]. rewrite Es. destruct (d_ctx s) eqn:Ed; [by apply dm_backoff_done|by apply dm_backoff_timer]. }
  destruct w.
  - destruct (d_ctx s) eqn:Ed; [|done]. intros [= <- <-]. rewrite Es. by apply dm_backoff_done.
  - destruct (d_token s) eqn:Et; [|done]. intros [= <- <-]. by apply dm_backoff_token.
  - intros [= <- <-]. rewrite Es. by apply dm_backoff_timer.
Qed.

(** One of the control loops. *)
Inductive loop_step : dlane → dlane → Prop :=
| lp_hello s l1 l2 c dn p out :
    d_loops s = l1 ++ mkLoop c dn LHello p :: l2 →
    loop_step s (with_loops (l1 ++ mkLoop c dn LSelect p :: l2) (do_send [] out s))
| lp_take s l1 l2 c dn p sid q :
    d_loops s = l1 ++ mkLoop c dn LSelect p :: l2 → d_queue s = sid :: q →
    loop_step s (with_loops (l1 ++ mkLoop c dn LSelect ({[sid]} ∪ p) :: l2)
                   (with_lane (lane_with_queue q (d_lane s)) s))
| lp_flush s l1 l2 c dn p out beat :
    d_loops s = l1 ++ mkLoop c dn LSelect p :: l2 →
    loop_step s (with_loops (l1 ++ mkLoop c dn (if beat : bool then LBeat else LSelect) ∅ :: l2)
                   (send_ids (sorted_ids p) out s))
| lp_heartbeat s l1 l2 c dn p out :
    d_loops s = l1 ++ mkLoop c dn LBeat p :: l2 →
    loop_step s (with_loops (l1 ++ mkLoop c dn LSelect p :: l2) (do_send [] out s))
| lp_exit s l1 l2 c dn p :
    d_loops s = l1 ++ mkLoop c dn LSelect p :: l2 → dn || d_ctx s = true →
    loop_step s (with_loops (l1 ++ l2)
      (with_history (d_registered s) (d_overflow s) (p ∪ d_stale s) (d_clean s) s)).

(** The rest of the program: [getOrCreateSession], [cleanupSessions] and [Stop]. *)
Inductive other_step : dlane → dlane → Prop :=
| u_store s sid :
    d_publishing s = None → other_step s (with_sessions ({[sid]} ∪ d_sessions s) (Some sid) s)
| u_offer s sid :
    d_publishing s = Some sid → other_step s (with_sessions (d_sessions s) None (offer sid s))
| u_forget s sid : other_step s (with_sessions (d_sessions s ∖ {[sid]}) (d_publishing s) s)
| st_cancel s :
    other_step s
      (mkDLane (d_lane s) true (d_stopped s) (d_manager s) (d_loops s) (d_open s) (d_dialled s)
         (d_sessions s) (d_publishing s) (d_registered s) (d_overflow s) (d_stale s) (d_clean s))
| st_close s :
    d_ctx s = true →
    other_step s
      (mkDLane (lane_with_conn None (d_lane s)) true true (d_manager s) (d_loops s)
         (close_conn (d_conn s) (d_open s)) (d_dialled s) (d_sessions s) (d_publishing s)
         (d_registered s) (d_overflow s) (d_stale s) (d_clean s)).

Inductive dstep : dlane → dlane → Prop :=
| by_manager s s' : manager_step s s' → dstep s s'
| by_loop s s' : loop_step s s' → dstep s s'
| by_other s s' : other_step s s' → dstep s s'.

Definition d_init (i : nat) : dlane :=
  mkDLane (mkDownLane i false [] None) false false DCheck [] ∅ 0 ∅ None ∅ ∅ ∅ true.
Definition d_reachable (i : nat) : dlane → Prop := rtc dstep (d_init i).

(** ** The connection *)

(** The connection the manager has stored and not yet closed. *)
Definition held (m : dmanager) : option conn_id :=
  match m with
  | DDrain c | DCollect c | DRegister c _ | DSpawn c | DLoop c | DRead c | DStopLoop c | DClose c => Some c
  | _ => None
  end.

(** The manager between collecting the sessions and leaving [handleDownstream]:
    what is not registered by then is registered by the control loop or not. *)
Definition serving (m : dmanager) : bool :=
  match m with DRegister _ _ | DSpawn _ | DLoop _ | DRead _ => true | _ => false end.

(** Reading, with a control loop beside it. *)
Definition reading (m : dmanager) : option conn_id :=
  match m with DLoop c | DRead c | DStopLoop c => Some c | _ => None end.

(** What other goroutines know of the control loops. *)
Definition shape (ls : list loop) : list (conn_id * bool) := (λ l, (lp_conn l, lp_done l)) <$> ls.

(** The manager's connection is the lane's and the only open one; a control loop
    that has not been told to stop belongs to it. *)
Record conn_inv (s : dlane) : Prop := {
  cv_lane c : d_conn s = Some c → held (d_manager s) = Some c ∨ d_manager s = DClear c;
  cv_open c : c ∈ d_open s →
    d_manager s = DStore c ∨ (d_conn s = Some c ∧ held (d_manager s) = Some c);
  cv_wait : d_manager s ≠ DWait;
  cv_stopped : d_stopped s = true → d_ctx s = true;
  cv_closed c : d_stopped s = true → d_manager s = DRead c → c ∉ d_open s
}.

Record loops_inv (s : dlane) : Prop := {
  lv_live c : (c, false) ∈ shape (d_loops s) → reading (d_manager s) = Some c;
  lv_reader c : reading (d_manager s) = Some c → d_ctx s = false → (c, false) ∈ shape (d_loops s);
  lv_one : (length (filter (λ p, p.2 = false) (shape (d_loops s))) ≤ 1)%nat
}.

Ltac d_cbn := cbn [d_lane d_ctx d_stopped d_manager d_loops d_open d_dialled d_sessions d_publishing
  d_registered d_overflow d_stale d_clean with_manager with_lane with_loops with_open with_history
  with_sessions lane_with_conn lane_with_token lane_with_queue dl_id dl_reconnect dl_registerCh dl_conn
  lp_conn lp_done lp_point lp_pending held serving reading notifyReconnect drainReconnect close_conn] in *.

(** ** What a send changes *)

(** The connection stays, or is closed and cleared. *)
Definition conn_kept (s s' : dlane) : Prop :=
  (d_conn s' = d_conn s ∧ d_open s' = d_open s) ∨
  (d_conn s' = None ∧ d_open s' = close_conn (d_conn s) (d_open s)).

(** Nothing but the connection, the token and the history of registrations. *)
Record only_lane (s s' : dlane) : Prop := {
  ol_conn : conn_kept s s';
  ol_ctx : d_ctx s' = d_ctx s;
  ol_stopped : d_stopped s' = d_stopped s;
  ol_manager : d_manager s' = d_manager s;
  ol_loops : d_loops s' = d_loops s;
  ol_queue : d_queue s' = d_queue s;
  ol_sessions : d_sessions s' = d_sessions s;
  ol_publishing : d_publishing s' = d_publishing s;
  ol_stale : d_stale s' = d_stale s;
  ol_clean : d_clean s' = d_clean s
}.

Lemma do_send_only ids out s : only_lane s (do_send ids out s).
Proof.
  unfold do_send, lane_send, conn_kept.
  destruct (dl_conn (d_lane s)) as [c|] eqn:Ec; [|split; try done; by left].
  destruct (65535 <? _); [split; try done; by left|].
  destruct out; [split; try done; by left|].
  split; try done. right. unfold d_conn. rewrite Ec. done.
Qed.

Lemma send_ids_only ids out s : only_lane s (send_ids ids out s).
Proof. destruct ids; [split; try done; by left|apply do_send_only]. Qed.

(** The sent ids are registered on the connection, given up, or the connection is
    gone. *)
Lemma do_send_covers ids out s sid :
  let s' := do_send ids out s in
  (sid ∈ d_registered s → sid ∈ d_registered s') ∧ (sid ∈ d_overflow s → sid ∈ d_overflow s') ∧
  (sid ∈ ids → d_conn s' = None ∨ sid ∈ d_registered s' ∨ sid ∈ d_overflow s').
Proof.
  unfold do_send, lane_send, d_conn.
  destruct (dl_conn (d_lane s)) as [c|] eqn:Ec; d_cbn; [|by split_and!; auto].
  destruct (65535 <? _); d_cbn; [set_solver|]. destruct out; d_cbn; set_solver.
Qed.

Lemma send_ids_covers ids out s sid :
  let s' := send_ids ids out s in
  (sid ∈ d_registered s → sid ∈ d_registered s') ∧ (sid ∈ d_overflow s → sid ∈ d_overflow s') ∧
  (sid ∈ ids → d_conn s' = None ∨ sid ∈ d_registered s' ∨ sid ∈ d_overflow s').
Proof. destruct ids; [set_solver|apply do_send_covers]. Qed.

Lemma elem_of_sorted_ids sid ids : sid ∈ sorted_ids ids ↔ sid ∈ ids.
Proof. unfold sorted_ids. by rewrite merge_sort_Permutation, elem_of_elements. Qed.

(** ** The connection invariant *)

Lemma conn_inv_kept s s' :
  conn_inv s → conn_kept s s' → d_manager s' = d_manager s → d_ctx s' = d_ctx s →
  d_stopped s' = d_stopped s → conn_inv s'.
Proof.
  intros [Hl Ho Hw Hs Hc] Hk Em Ec Es.
  destruct Hk as [[E1 E2]|[E1 E2]]; split; rewrite ?E1, ?E2, ?Em, ?Ec, ?Es; try done.
  - intros c Hin. destruct (d_conn s) as [c'|] eqn:E; d_cbn;
      [apply elem_of_difference in Hin as [Hin Hn]|]; destruct (Ho c Hin) as [?|[[= ->] _]];
      try (by left); set_solver.
  - intros c Hst Hr. destruct (d_conn s); d_cbn; [|by apply Hc].
    intros [Hin _]%elem_of_difference. by eapply Hc.
Qed.

Lemma conn_inv_register s c ids out :
  d_manager s = DRegister c ids → conn_inv s → conn_inv (with_manager (DSpawn c) (send_ids ids out s)).
Proof.
  intros Em Hi. destruct (send_ids_only ids out s) as [Hk Ec Es Ems _ _ _ _ _ _].
  destruct (conn_inv_kept s _ Hi Hk Ems Ec Es) as [Hl Ho Hw Hs Hc].
  rewrite Ems, Em in *. split; unfold d_conn in *; d_cbn; try done.
  - intros x Hx. left. by destruct (Hl x Hx).
  - intros x Hx. right. by destruct (Ho x Hx).
Qed.

Lemma manager_step_conn s s' : manager_step s s' → conn_inv s → conn_inv s'.
Proof.
  intros Hst Hi. destruct Hst; try by apply conn_inv_register.
  all: destruct Hi as [Hl Ho Hw Hs Hc]; match goal with Em : d_manager _ = _ |- _ => rewrite Em in * end;
    split; unfold d_conn, d_token in *; d_cbn; try done;
    try (intros x Hx; destruct (Hl x Hx); try congruence; simplify_eq; auto; fail);
    try (intros x Hx; destruct (Ho x Hx) as [?|[??]]; try congruence; simplify_eq; auto; fail).
  - destruct (Hl c); done.
  - intros x [->%elem_of_singleton|Hx]%elem_of_union; [by left|]. by destruct (Ho x Hx) as [|[]].
  - intros x [= <-]. by left.
  - intros x Hst. specialize (Hs Hst). congruence.
  - intros x [Hx Hn]%elem_of_difference. destruct (Ho x Hx) as [|[? [= ->]]]; [done|set_solver].
  - intros x. destruct (decide (dl_conn (d_lane s) = Some c)); d_cbn; [done|]. intros Hx. destruct (Hl x Hx) as [|[= ->]]; done.
Qed.

Lemma loop_step_conn s s' : loop_step s s' → conn_inv s → conn_inv s'.
Proof.
  intros Hst Hi. destruct Hst.
  1, 4: destruct (do_send_only [] out s); by eapply conn_inv_kept.
  2: destruct (send_ids_only (sorted_ids p) out s); by eapply conn_inv_kept.
  1, 2: eapply conn_inv_kept; [exact Hi|by left|done..].
Qed.

Lemma other_step_conn s s' : other_step s s' → conn_inv s → conn_inv s'.
Proof.
  intros Hst Hi. destruct Hst.
  1, 3: eapply conn_inv_kept; [exact Hi|by left|done..].
  - eapply conn_inv_kept; [exact Hi| |unfold offer; by case_match..]. left.
    unfold offer, push_register, d_conn, d_queue. by repeat case_match.
  - destruct Hi as [Hl Ho Hw Hs Hc]. by split.
  - assert (conn_inv (with_open (close_conn (d_conn s) (d_open s)) (with_lane (lane_with_conn None (d_lane s)) s)))
      as [Hl Ho Hw Hs Hc] by (eapply conn_inv_kept; [exact Hi|by right|done..]).
    split; try done. d_cbn. intros c _ Em Hin. destruct (Ho c Hin) as [?|[? _]]; d_cbn; [congruence|done].
Qed.

(** ** The control loops *)

Lemma loops_inv_same s s' :
  loops_inv s → shape (d_loops s') = shape (d_loops s) → d_ctx s' = d_ctx s →
  reading (d_manager s') = reading (d_manager s) → loops_inv s'.
Proof. intros [Hl Hr H1] Es Ec Em. split; rewrite ?Es, ?Ec, ?Em; eauto. Qed.

Lemma shape_app l1 l2 : shape (l1 ++ l2) = shape l1 ++ shape l2.
Proof. apply fmap_app. Qed.

Lemma shape_end_loop c ls :
  shape (end_loop c <$> ls) = (λ p, (p.1, if decide (p.1 = c) then true else p.2)) <$> shape ls.
Proof.
  unfold shape. rewrite <- !list_fmap_compose. apply list_fmap_ext. intros _ l _. cbn.
  unfold end_loop. by case_decide.
Qed.

Lemma no_live_filter (l : list (conn_id * bool)) :
  (∀ c, (c, false) ∉ l) → filter (λ p, p.2 = false) l = [].
Proof.
  intros Hn. induction l as [|[c b] l IH]; [done|].
  rewrite filter_cons_False; [|intros E; cbn in E; subst; apply (Hn c); by left].
  apply IH. intros x Hx. apply (Hn x). by right.
Qed.

Lemma manager_step_loops s s' : manager_step s s' → loops_inv s → loops_inv s'.
Proof.
  intros Hst Hi. destruct Hst.
  1-14, 17-20, 22-24: eapply loops_inv_same; [exact Hi|done|done|]; d_cbn;
    match goal with Em : d_manager _ = _ |- _ => by rewrite Em end.
  - destruct (send_ids_only ids out s) as [_ Ec _ Em El _ _ _ _ _].
    eapply loops_inv_same; [exact Hi|..]; d_cbn; rewrite ?El, ?Ec, ?H; done.
  - destruct Hi as [Hl Hr H1]. rewrite H in *. d_cbn.
    assert (∀ x, (x, false) ∉ shape (d_loops s)) as Hn by (intros x Hx%Hl; done).
    split; d_cbn; rewrite shape_app.
    + intros x [Hx|Hx]%elem_of_app; [by destruct (Hn x)|]. by apply list_elem_of_singleton in Hx as [= ->].
    + intros x [= <-] _. apply elem_of_app. right. by left.
    + rewrite filter_app, no_live_filter by done. etrans; [apply length_filter|done].
  - destruct Hi as [Hl Hr H1]. rewrite H in *. d_cbn.
    assert (∀ x, (x, false) ∉ shape (end_loop c <$> d_loops s)) as Hn.
    { intros x. rewrite shape_end_loop. intros ([y b] & E & Hin)%list_elem_of_fmap. cbn in E.
      case_decide; [done|]. injection E as -> <-. apply Hl in Hin. congruence. }
    split; d_cbn; [by intros x Hx%Hn|done|]. rewrite no_live_filter by done. cbn. lia.
Qed.

Lemma loop_step_loops s s' : loop_step s s' → loops_inv s → loops_inv s'.
Proof.
  intros Hst Hi.
  assert (∀ l1 l2 l l', lp_conn l = lp_conn l' → lp_done l = lp_done l' →
    shape (l1 ++ l' :: l2) = shape (l1 ++ l :: l2)) as Hsh.
  { intros. rewrite !shape_app. unfold shape. cbn. congruence. }
  destruct Hst.
  1, 4: destruct (do_send_only [] out s) as [_ Ec _ Em _ _ _ _ _ _];
    eapply loops_inv_same; [exact Hi|d_cbn; rewrite H; by apply Hsh|done|by d_cbn; rewrite Em].
  - eapply loops_inv_same; [exact Hi|d_cbn; rewrite H; by apply Hsh|done..].
  - destruct (send_ids_only (sorted_ids p) out s) as [_ Ec _ Em _ _ _ _ _ _].
    eapply loops_inv_same; [exact Hi|d_cbn; rewrite H; by apply Hsh|done|by d_cbn; rewrite Em].
  - destruct Hi as [Hl Hr H1]. d_cbn. rewrite H, shape_app in *. cbn [shape fmap list_fmap lp_conn lp_done] in *.
    change ((λ l, (lp_conn l, lp_done l)) <$> l2) with (shape l2) in *.
    split; d_cbn; rewrite shape_app.
    + intros x Hx. apply Hl. rewrite elem_of_app, elem_of_cons in *. tauto.
    + intros x Hx Hc. specialize (Hr x Hx Hc). rewrite Hc, orb_false_r in H0. subst dn.
      rewrite elem_of_app, elem_of_cons in *. destruct Hr as [?|[?|?]]; [by left|congruence|by right].
    + rewrite filter_app, length_app in *. rewrite filter_cons in H1.
      case_decide; cbn [length] in H1; lia.
Qed.

Lemma other_step_loops s s' : other_step s s' → loops_inv s → loops_inv s'.
Proof.
  intros Hst Hi. destruct Hst.
  1, 3: by eapply loops_inv_same; [exact Hi|..].
  - eapply loops_inv_same; [exact Hi|..]; unfold offer; by case_match.
  - destruct Hi as [Hl Hr H1]. by split.
  - destruct Hi as [Hl Hr H1]. by split.
Qed.

(** ** Registrations *)

Definition in_pending (sid : Z) (ls : list loop) : Prop := ∃ l, l ∈ ls ∧ sid ∈ lp_pending l.

(** Nothing needs to be done for [sid], or it is on its way to the server, or it
    has been given up since the last collection. *)
Definition on_its_way (s : dlane) (sid : Z) : Prop :=
  sid ∈ d_registered s ∨ (∃ c ids, d_manager s = DRegister c ids ∧ sid ∈ ids) ∨
  sid ∈ d_queue s ∨ in_pending sid (d_loops s) ∨ d_publishing s = Some sid.

Definition given_up (s : dlane) (sid : Z) : Prop := sid ∈ d_overflow s ∨ sid ∈ d_stale s.

(** Once the sessions have been collected for a connection that still stands,
    none is forgotten; only a control loop left over from an earlier connection can
    give one up. *)
Record cover_inv (s : dlane) : Prop := {
  rv_cover sid : serving (d_manager s) = true → is_Some (d_conn s) → sid ∈ d_sessions s →
    on_its_way s sid ∨ given_up s sid;
  rv_clean : serving (d_manager s) = true → d_clean s = true →
    (∀ p, p ∈ shape (d_loops s) → p.2 = false) ∧ (d_ctx s = false → d_stale s = ∅)
}.

Lemma in_pending_app sid l1 l2 : in_pending sid (l1 ++ l2) ↔ in_pending sid l1 ∨ in_pending sid l2.
Proof. unfold in_pending. setoid_rewrite elem_of_app. naive_solver. Qed.

Lemma in_pending_cons sid l ls : in_pending sid (l :: ls) ↔ sid ∈ lp_pending l ∨ in_pending sid ls.
Proof. unfold in_pending. setoid_rewrite elem_of_cons. naive_solver. Qed.

(** What survives a send: everything, as long as the connection does. *)
Lemma send_keeps s s' (ids : list Z) sid :
  only_lane s s' →
  ((sid ∈ d_registered s → sid ∈ d_registered s') ∧ (sid ∈ d_overflow s → sid ∈ d_overflow s') ∧
   (sid ∈ ids → d_conn s' = None ∨ sid ∈ d_registered s' ∨ sid ∈ d_overflow s')) →
  is_Some (d_conn s') →
  (is_Some (d_conn s) ∧ (on_its_way s sid → on_its_way s' sid) ∧ (given_up s sid → given_up s' sid) ∧
   (sid ∈ ids → sid ∈ d_registered s' ∨ sid ∈ d_overflow s')).
Proof.
  intros [Hk _ _ Em El Eq _ Ep Est _] (Hr & Ho & Hi) [c Hc]. unfold on_its_way, given_up.
  rewrite Em, El, Eq, Ep, Est. split_and!; try tauto.
  - destruct Hk as [[E _]|[E _]]; [|congruence]. exists c. congruence.
  - intros H. destruct (Hi H) as [E|?]; [congruence|done].
Qed.

Lemma serving_move s m :
  serving m = serving (d_manager s) → serving m = true →
  (∀ c ids, d_manager s = DRegister c ids → m = DRegister c ids) →
  cover_inv s → cover_inv (with_manager m s).
Proof.
  intros E1 E2 Hreg [Hc Hcl]. rewrite <- E1 in *. split; d_cbn; [|by apply Hcl].
  intros sid Hs Hco Hin. destruct (Hc sid Hs Hco Hin) as [Hw|?]; [left|by right].
  destruct Hw as [?|[(c & ids & Em & ?)|?]]; [by left| |by right; right].
  right; left. exists c, ids. by rewrite (Hreg _ _ Em).
Qed.

Lemma cover_idle s : serving (d_manager s) = false → cover_inv s.
Proof. intros E. split; rewrite E; done. Qed.

Lemma manager_step_cover s s' : loops_inv s → manager_step s s' → cover_inv s → cover_inv s'.
Proof.
  intros Hli Hst Hi. destruct Hst; try by apply cover_idle.
  - split; d_cbn.
    + intros sid _ _ Hin. left. right; left. exists c, (sorted_ids (d_sessions s)).
      by rewrite elem_of_sorted_ids.
    + intros _ Hb%bool_decide_eq_true. rewrite Hb. split; [|done]. intros p Hp. inversion Hp.
  - destruct Hi as [Hc Hcl]. rewrite H in *. d_cbn.
    pose proof (send_ids_only ids out s) as Hol.
    split; d_cbn.
    + intros sid _ Hco Hin.
      destruct (send_keeps s _ ids sid Hol (send_ids_covers ids out s sid) Hco) as (Hco0 & Hw & Hg & Hids).
      destruct Hol as [_ _ _ Em El Eq Es Ep _ _]. rewrite Es in Hin.
      destruct (Hc sid eq_refl Hco0 Hin) as [Hwy|?]; [|by right; apply Hg].
      destruct (decide (sid ∈ ids)) as [Hd|Hd].
      { destruct (Hids Hd); [by left; left|by right; left]. }
      left. unfold on_its_way in *. rewrite Em in Hw. d_cbn.
      destruct (Hw Hwy) as [?|[(c' & ids' & E & ?)|?]]; [by left|congruence|by right; right].
    + destruct Hol as [_ Ec _ _ El _ _ _ Est Ecl]. rewrite El, Ec, Est, Ecl. intros _. by apply Hcl.
  - destruct Hi as [Hc Hcl]. rewrite H in *. d_cbn. split; d_cbn.
    + intros sid _ Hco Hin. destruct (Hc sid eq_refl Hco Hin) as [Hw|?]; [left|by right].
      unfold on_its_way in *. d_cbn. rewrite in_pending_app.
      destruct Hw as [?|[(c' & ids' & E & ?)|[?|[?|?]]]]; [by left|congruence|tauto..].
    + intros _ Hclean. destruct (Hcl eq_refl Hclean) as [Hf Hs]. split; [|done].
      intros p. rewrite shape_app, elem_of_app. intros [?|Hp]; [by apply Hf|].
      apply list_elem_of_singleton in Hp. by subst.
  - apply serving_move; try done; rewrite H; done.
  - apply serving_move; try done; rewrite H; done.
Qed.

(** Replacing one control loop by one that holds at least as much. *)
Lemma in_pending_mono sid l1 l2 l l' :
  (sid ∈ lp_pending l → sid ∈ lp_pending l') →
  in_pending sid (l1 ++ l :: l2) → in_pending sid (l1 ++ l' :: l2).
Proof. rewrite !in_pending_app, !in_pending_cons. tauto. Qed.

(** A send by a control loop, which may clear its [pending]. *)
Lemma loop_send_cover s s1 (ids : list Z) l1 l2 l l' :
  cover_inv s → only_lane s s1 →
  (∀ sid, (sid ∈ d_registered s → sid ∈ d_registered s1) ∧ (sid ∈ d_overflow s → sid ∈ d_overflow s1) ∧
     (sid ∈ ids → d_conn s1 = None ∨ sid ∈ d_registered s1 ∨ sid ∈ d_overflow s1)) →
  d_loops s = l1 ++ l :: l2 → lp_conn l' = lp_conn l → lp_done l' = lp_done l →
  (∀ sid, sid ∈ lp_pending l → sid ∈ lp_pending l' ∨ sid ∈ ids) →
  cover_inv (with_loops (l1 ++ l' :: l2) s1).
Proof.
  intros [Hc Hcl] Hol Hcov El Ecl Edl Hp. split; d_cbn.
  - intros sid Hs Hco Hin.
    destruct (send_keeps s s1 ids sid Hol (Hcov sid) Hco) as (Hco0 & Hw & Hg & Hids).
    destruct Hol as [_ _ _ Em El1 _ Es _ _ _]. rewrite Es in Hin. rewrite Em in Hs.
    destruct (Hc sid Hs Hco0 Hin) as [Hwy|?]; [|by right; apply Hg].
    destruct (decide (sid ∈ ids)) as [Hd|Hd].
    { destruct (Hids Hd); [by left; left|by right; left]. }
    left. specialize (Hw Hwy). unfold on_its_way in *. d_cbn. rewrite El1, El in Hw.
    destruct Hw as [?|[?|[?|[Hpe|?]]]]; [by left|by right; left|by right; right; left| |by do 4 right].
    do 3 right. left. revert Hpe. apply in_pending_mono. intros Hx. by destruct (Hp sid Hx).
  - destruct Hol as [_ Ec _ Em El1 _ _ _ Est Ecl'].
    rewrite Em, Ec, Est, Ecl'. intros Hs Hclean. destruct (Hcl Hs Hclean) as [Hf ?]. split; [|done].
    intros p Hp'. apply Hf. rewrite El. revert Hp'. rewrite !shape_app. unfold shape. cbn.
    by rewrite Ecl, Edl.
Qed.

Lemma loop_step_cover s s' : loop_step s s' → cover_inv s → cover_inv s'.
Proof.
  intros Hst Hi. destruct Hst as [s l1 l2 c dn p out E|s l1 l2 c dn p sid q E Eq|s l1 l2 c dn p out beat E
    |s l1 l2 c dn p out E|s l1 l2 c dn p E Hd].
  - eapply (loop_send_cover s _ []); [done|apply do_send_only|intros; apply do_send_covers|done..|].
    intros; by left.
  - destruct Hi as [Hc Hcl]. split; d_cbn.
    + intros x Hs Hco Hin. destruct (Hc x Hs Hco Hin) as [Hw|?]; [left|by right].
      unfold on_its_way in *. d_cbn. rewrite E, Eq in Hw. unfold d_queue. d_cbn.
      rewrite in_pending_app, in_pending_cons in *. d_cbn. rewrite elem_of_cons in Hw.
      rewrite elem_of_union, elem_of_singleton. tauto.
    + intros Hs Hclean. destruct (Hcl Hs Hclean) as [Hf ?]. split; [|done].
      intros x Hx. apply Hf. rewrite E. revert Hx. by rewrite !shape_app.
  - eapply (loop_send_cover s _ (sorted_ids p));
      [done|apply send_ids_only|intros; apply send_ids_covers|done..|].
    intros x Hx. right. by apply elem_of_sorted_ids.
  - eapply (loop_send_cover s _ []); [done|apply do_send_only|intros; apply do_send_covers|done..|].
    intros; by left.
  - destruct Hi as [Hc Hcl]. split; d_cbn.
    + intros x Hs Hco Hin. destruct (Hc x Hs Hco Hin) as [Hw|[?|?]]; [|by right; left|right; right; set_solver].
      unfold on_its_way in Hw. rewrite E in Hw. rewrite in_pending_app, in_pending_cons in Hw. d_cbn.
      destruct (decide (x ∈ p)); [right; right; set_solver|].
      left. unfold on_its_way. d_cbn. rewrite in_pending_app. tauto.
    + intros Hs Hclean. destruct (Hcl Hs Hclean) as [Hf Hst]. split.
      * intros x Hx. apply Hf. rewrite E. revert Hx. rewrite !shape_app, !elem_of_app.
        unfold shape. rewrite fmap_cons, elem_of_cons. tauto.
      * intros Hctx. exfalso. rewrite Hctx, orb_false_r in Hd. subst dn.
        specialize (Hf (c, true)). cbn in Hf. discriminate Hf. rewrite E, shape_app, elem_of_app.
        right. by left.
Qed.


(** Offering an id to [registerCh]: it is queued, or given up when it is full. *)
Lemma offer_eq sid s :
  (offer sid s = with_history (d_registered s) ({[sid]} ∪ d_overflow s) (d_stale s) (d_clean s) s) ∨
  (offer sid s = with_lane (lane_with_queue (d_queue s ++ [sid]) (d_lane s)) s).
Proof.
  unfold offer, push_register, d_queue.
  destruct (Z.leb_spec registerCh_cap (Z.of_nat (length (dl_registerCh (d_lane s))))) as [Hf|Hf].
  - left. rewrite (proj2 (Z.ltb_ge _ _)) by lia. by destruct s.
  - right. by rewrite (proj2 (Z.ltb_lt _ _)) by lia.
Qed.

Lemma offer_frame sid s : d_manager (offer sid s) = d_manager s ∧ d_conn (offer sid s) = d_conn s.
Proof. by destruct (offer_eq sid s) as [->| ->]. Qed.

Lemma offer_covers sid s x :
  let s' := with_sessions (d_sessions s) None (offer sid s) in
  (d_publishing s ≠ Some x → on_its_way s x → on_its_way s' x) ∧
  (given_up s x → given_up s' x) ∧ (on_its_way s' sid ∨ given_up s' sid).
Proof.
  unfold on_its_way, given_up. destruct (offer_eq sid s) as [->| ->]; unfold d_queue; d_cbn.
  - split; [tauto|]. rewrite !elem_of_union, !elem_of_singleton. tauto.
  - rewrite !elem_of_app, !list_elem_of_singleton. tauto.
Qed.

Lemma other_step_cover s s' : other_step s s' → cover_inv s → cover_inv s'.
Proof.
  intros Hst [Hc Hcl]. destruct Hst as [s sid E|s sid E|s sid|s|s E]; split; d_cbn; try by apply Hcl.
  - intros x Hs Hco [->%elem_of_singleton|Hin]%elem_of_union; [left; by do 4 right|].
    destruct (Hc x Hs Hco Hin) as [Hw|?]; [left|by right].
    unfold on_its_way in *. rewrite E in Hw. naive_solver.
  - intros x Hs Hco Hin. destruct (offer_frame sid s) as [Em Ec].
    rewrite Em in Hs. change (is_Some (d_conn (offer sid s))) in Hco. rewrite Ec in Hco.
    destruct (offer_covers sid s x) as (Hway & Hg & Hsid).
    destruct (Hc x Hs Hco Hin) as [Hw|?]; [|right; by apply Hg].
    destruct (decide (x = sid)) as [->|Hne]; [done|]. left. apply Hway; [congruence|done].
  - destruct (offer_eq sid s) as [->| ->]; d_cbn; apply Hcl.
  - intros x Hs Hco [Hin _]%elem_of_difference. by apply Hc.
  - intros x Hs Hco Hin. by apply (Hc x).
  - intros Hs Hclean. split; [by apply Hcl|done].
  - intros x _ [? [=]].
  - intros Hs Hclean. split; [by apply Hcl|done].
Qed.

(** ** Reachable states *)

Record dlane_inv (s : dlane) : Prop := {
  di_conn : conn_inv s;
  di_loops : loops_inv s;
  di_cover : cover_inv s
}.

Lemma dlane_inv_init i : dlane_inv (d_init i).
Proof.
  split; split; try done.
  - intros c Hc. inversion Hc.
  - apply Nat.le_0_l.
Qed.

Lemma dstep_inv s s' : dlane_inv s → dstep s s' → dlane_inv s'.
Proof.
  intros [Hc Hl Hr] Hd. destruct Hd as [s s' Hst|s s' Hst|s s' Hst]; split.
  - by eapply manager_step_conn.
  - by eapply manager_step_loops.
  - by eapply manager_step_cover.
  - by eapply loop_step_conn.
  - by eapply loop_step_loops.
  - by eapply loop_step_cover.
  - by eapply other_step_conn.
  - by eapply other_step_loops.
  - by eapply other_step_cover.
Qed.

Lemma d_reachable_inv i s : d_reachable i s → dlane_inv s.
Proof. intros Hr. apply (rtc_preserves dstep _ dstep_inv _ _ Hr), dlane_inv_init. Qed.

(** ** Shutting down *)

Definition dmanager_rank (m : dmanager) : nat :=
  match m with
  | DDone => 0 | DCheck => 1 | DWait | DBackoff | DNotify => 2 | DClear _ => 3 | DClose _ => 4
  | DStopLoop _ => 5 | DLoop _ => 6 | DRead _ => 7 | DSpawn _ => 8 | DRegister _ _ => 9
  | DCollect _ => 10 | DDrain _ => 11 | DStore _ => 12 | DDial => 13
  | DGet => 14
  end.

Lemma manager_step_rank s s' :
  d_ctx s = true → manager_step s s' → (dmanager_rank (d_manager s') < dmanager_rank (d_manager s))%nat.
Proof.
  intros Hd Hst. destruct Hst; try congruence; d_cbn;
    match goal with Em : d_manager _ = _ |- _ => rewrite Em; cbn; lia end.
Qed.

(** Steps of the others leave the manager where it is; nothing uncancels. *)
Lemma loop_step_frame s s' : loop_step s s' → d_manager s' = d_manager s ∧ d_ctx s' = d_ctx s.
Proof.
  intros Hst. destruct Hst; d_cbn; try done.
  1, 3: destruct (do_send_only [] out s); done.
  destruct (send_ids_only (sorted_ids p) out s); done.
Qed.

Lemma other_step_frame s s' :
  other_step s s' → d_manager s' = d_manager s ∧ (d_ctx s = true → d_ctx s' = true) ∧
    (d_stopped s = true → d_stopped s' = true).
Proof.
  intros Hst. destruct Hst; d_cbn; try done.
  by destruct (offer_eq sid s) as [->| ->].
Qed.

Lemma manager_step_frame s s' :
  manager_step s s' → d_ctx s' = d_ctx s.
Proof. intros Hst. destruct Hst; try done. d_cbn. by destruct (send_ids_only ids out s). Qed.

(** A run in which the manager takes [n] steps, interleaved with the others'. *)
Inductive managed_run : nat → dlane → dlane → Prop :=
| run_nil s : managed_run 0 s s
| run_manager n s s1 s' : manager_step s s1 → managed_run n s1 s' → managed_run (S n) s s'
| run_loop n s s1 s' : loop_step s s1 → managed_run n s1 s' → managed_run n s s'
| run_other n s s1 s' : other_step s s1 → managed_run n s1 s' → managed_run n s s'.

Lemma managed_run_rank n s s' :
  managed_run n s s' → d_ctx s = true →
  (n + dmanager_rank (d_manager s') ≤ dmanager_rank (d_manager s))%nat.
Proof.
  intros Hr. induction Hr as [s|n s s1 s' Hst _ IH|n s s1 s' Hst _ IH|n s s1 s' Hst _ IH]; intros Hd.
  - lia.
  - pose proof (manager_step_rank _ _ Hd Hst). rewrite (manager_step_frame _ _ Hst) in IH. specialize (IH Hd). lia.
  - destruct (loop_step_frame _ _ Hst) as [Em Ec]. rewrite Em, Ec in IH. by apply IH.
  - destruct (other_step_frame _ _ Hst) as (Em & Ec & _). rewrite Em in IH. by apply IH, Ec.
Qed.

Lemma managed_run_inv n s s' : managed_run n s s' → dlane_inv s → dlane_inv s'.
Proof.
  intros Hr. induction Hr as [s|n s s1 s' Hst _ IH|n s s1 s' Hst _ IH|n s s1 s' Hst _ IH]; intros Hi; [done|..];
    apply IH; eapply dstep_inv; eauto; by constructor.
Qed.

(** The manager waits for data on an open connection. (Reading from a connection
    this process has closed fails at once, and so does dialling with a cancelled
    context. A control message is written under the lane's mutex and the write is
    taken to return: it succeeds or fails.) *)
Definition waits_for_read (s : dlane) : Prop :=
  match d_manager s with DRead c => c ∈ d_open s | _ => False end.

Lemma dmanager_moves s :
  d_ctx s = true → d_manager s ≠ DDone → ∃ s', manager_step s s'.
Proof.
  intros Hd Hm. destruct (d_manager s) eqn:E; try done.
  - eexists. by apply dm_stop.
  - destruct (d_conn s) as [c|] eqn:Ec; eexists; [by eapply dm_connected|by apply dm_disconnected].
  - eexists. by apply dm_wait_done.
  - eexists. by apply dm_dial_err.
  - eexists. by apply dm_backoff_done.
  - eexists. by apply dm_store.
  - eexists. by apply dm_drain.
  - eexists. by apply dm_collect.
  - eexists. by apply (dm_register s c ids Written).
  - eexists. by apply dm_spawn.
  - eexists. by apply dm_loop_done.
  - eexists. by eapply dm_read_err.
  - eexists. by apply dm_stop_loop.
  - eexists. by apply dm_close.
  - eexists. by apply dm_clear.
  - eexists. by apply dm_notify.
Qed.

(** ** Theorems *)

(** C8: one connection at a time. In every reachable state of a downstream lane,
    whatever the network, the old control loops and [Stop] do: the lane's connection
    is the one the manager is serving, so the manager never sleeps on the
    [reconnect] channel; no other connection is open, apart from one just dialled
    and about to be stored; at most one control loop has not been told to stop, it
    belongs to the connection being read, and while that is read there is one; a
    manager that has returned leaves no connection behind. *)
Theorem downstream_lane_safe i s :
  d_reachable i s →
  d_manager s ≠ DWait ∧
  (∀ c, d_conn s = Some c → held (d_manager s) = Some c ∨ d_manager s = DClear c) ∧
  (∀ c, c ∈ d_open s → d_manager s = DStore c ∨ (d_conn s = Some c ∧ held (d_manager s) = Some c)) ∧
  (∀ c, (c, false) ∈ shape (d_loops s) → reading (d_manager s) = Some c) ∧
  (length (filter (λ p, p.2 = false) (shape (d_loops s))) ≤ 1)%nat ∧
  (∀ c, reading (d_manager s) = Some c → d_ctx s = false → (c, false) ∈ shape (d_loops s)) ∧
  (d_manager s = DDone → d_conn s = None ∧ d_open s = ∅).
Proof.
  intros Hr. destruct (d_reachable_inv i s Hr) as [[Hl Ho Hw _ _] [Hlive Hread H1] _].
  do 6 (split; [done|]). intros Em. rewrite Em in *. split.
  - destruct (d_conn s) as [c|]; [|done]. by destruct (Hl c).
  - apply set_eq. intros c. split; [|set_solver]. intros Hc. by destruct (Ho c Hc) as [|[]].
Qed.

(** C14: every session gets registered. In every reachable state of a downstream
    lane whose manager has collected the sessions for a connection that still
    stands: each session of the lane is in the register message about to be sent,
    or registered on this connection, or in the channel, or taken by a control
    loop, or about to be offered, or it has been given up since the collection; and
    if no control loop of an earlier connection was left at the collection and the
    context is not cancelled, every control loop there is belongs to this
    connection and a session is given up only because the channel was full or a
    message too long. *)
Theorem sessions_registered i s :
  d_reachable i s → serving (d_manager s) = true → is_Some (d_conn s) →
  (∀ sid, sid ∈ d_sessions s → on_its_way s sid ∨ given_up s sid) ∧
  (d_clean s = true → d_ctx s = false →
     (∀ l, l ∈ d_loops s → reading (d_manager s) = Some (lp_conn l)) ∧
     ∀ sid, sid ∈ d_sessions s → sid ∉ d_overflow s → on_its_way s sid).
Proof.
  intros Hr Hs Hco. destruct (d_reachable_inv i s Hr) as [_ [Hlive _ _] [Hc Hcl]].
  split; [intros; by apply Hc|]. intros Hclean Hctx.
  destruct (Hcl Hs Hclean) as [Hf Hst]. specialize (Hst Hctx). split.
  - intros l Hl. apply Hlive. assert ((lp_conn l, lp_done l) ∈ shape (d_loops s)) as Hin
      by by apply (list_elem_of_fmap_2 (λ l, (lp_conn l, lp_done l))).
    by rewrite <- (Hf _ Hin).
  - intros sid Hin Hov. destruct (Hc sid Hs Hco Hin) as [?|[?|Hx]]; [done|done|].
    rewrite Hst in Hx. by apply elem_of_empty in Hx.
Qed.

(** ** Sample runs *)

(** Evaluate the state reached so far. *)
Ltac eval_state :=
  lazymatch goal with
  | |- rtc ?R ?x ?z => let y := eval vm_compute in x in change (rtc R y z)
  end.
Ltac m_step H := eapply rtc_l; [apply by_manager; eapply H; reflexivity|]; eval_state.
Ltac l_step H := eapply rtc_l; [apply by_loop; eapply H; reflexivity|]; eval_state.
Ltac o_step H := eapply rtc_l; [apply by_other; eapply H; reflexivity|]; eval_state.

(** The manager from its loop head, with no connection, to reading. *)
Ltac connect :=
  m_step dm_check; m_step dm_disconnected; m_step dm_dial_ok; m_step dm_store; m_step dm_drain; m_step dm_collect;
  m_step (λ s c ids, dm_register s c ids Written); m_step dm_spawn; m_step dm_loop.

Ltac hello l1 := l_step (λ s l2 c dn p, lp_hello s l1 l2 c dn p Written).

(** A session is stored and its id put in the channel. *)
Ltac new_session sid :=
  o_step (λ s, u_store s sid); o_step u_offer.

(** Session 4 exists before the lane is connected; session 8 appears afterwards. *)
Lemma sample_lane :
  ∃ s, d_reachable 0 s ∧ d_manager s = DRead 0 ∧ d_conn s = Some 0%nat ∧ d_clean s = true ∧
    d_ctx s = false ∧ d_overflow s = ∅ ∧ d_sessions s = {[8; 4]}.
Proof.
  eexists. split.
  { new_session 4. connect. new_session 8. apply rtc_refl. }
  split_and!; reflexivity.
Qed.

Lemma downstream_lane_safe_witness :
  ∃ s, d_reachable 0 s ∧ d_manager s = DRead 0 ∧ (0%nat, false) ∈ shape (d_loops s).
Proof.
  destruct sample_lane as (s & Hr & Hm & Hc & _ & Hctx & _). exists s. split; [exact Hr|]. split; [exact Hm|].
  destruct (downstream_lane_safe 0 s Hr) as (_ & _ & _ & _ & _ & Hread & _).
  apply Hread; [by rewrite Hm|exact Hctx].
Defined.

Lemma sessions_registered_witness :
  ∃ s, d_reachable 0 s ∧ serving (d_manager s) = true ∧ on_its_way s 4 ∧ on_its_way s 8.
Proof.
  destruct sample_lane as (s & Hr & Hm & Hc & Hclean & Hctx & Hov & Hs).
  destruct (sessions_registered 0 s Hr) as [_ H]; [by rewrite Hm|by rewrite Hc|].
  destruct (H Hclean Hctx) as [_ Hway].
  exists s. split; [exact Hr|]. split; [by rewrite Hm|].
  split; apply Hway; rewrite ?Hs, ?Hov; set_solver.
Defined.

(** C18: a downstream lane shuts down. Once the context is cancelled, in any
    reachable state: in every run, whatever the others do in between, the manager
    takes at most as many steps as its rank, at most 14, and as long as it has not
    returned it can take one; after [Stop] has closed the lane that step is not a
    read that waits for the network; a manager that has returned leaves no open connection
    (unlike the upstream lane's, [stop_misses_dialled]); and every control loop in
    its select can return. *)
Theorem downstream_lane_stops i s :
  d_reachable i s → d_ctx s = true →
  (∀ n s', managed_run n s s' →
     (n + dmanager_rank (d_manager s') ≤ dmanager_rank (d_manager s) ≤ 14)%nat) ∧
  (d_manager s ≠ DDone → ∃ s', manager_step s s') ∧
  (d_stopped s = true → ¬ waits_for_read s) ∧
  (∀ n s', managed_run n s s' → d_manager s' = DDone → d_conn s' = None ∧ d_open s' = ∅) ∧
  (∀ l1 l2 c dn p, d_loops s = l1 ++ mkLoop c dn LSelect p :: l2 →
     ∃ s', loop_step s s' ∧ d_loops s' = l1 ++ l2).
Proof.
  intros Hr Hd. split_and!.
  - intros n s' Hn. split; [by apply managed_run_rank|]. clear. destruct (d_manager s); cbn; lia.
  - intros. by apply dmanager_moves.
  - intros Hs. unfold waits_for_read. destruct (d_manager s) eqn:E; try by intros [].
    by apply (cv_closed s (di_conn s (d_reachable_inv i s Hr))).
  - intros n s' Hn Em. pose proof (managed_run_inv n s s' Hn (d_reachable_inv i s Hr)) as [[Hl Ho _ _ _] _ _].
    rewrite Em in *. split.
    + destruct (d_conn s') as [c|]; [|done]. by destruct (Hl c).
    + apply set_eq. intros c. split; [|set_solver]. intros Hc. by destruct (Ho c Hc) as [|[]].
  - intros l1 l2 c dn p El. eexists. split; [eapply (lp_exit s l1 l2 c dn p El); by rewrite Hd, orb_true_r|done].
Qed.

(** [Stop] while a connection that was just dialled is not stored yet. *)
Lemma downstream_lane_stops_witness :
  ∃ s, d_reachable 0 s ∧ d_manager s = DStore 0 ∧ d_stopped s = true ∧ ¬ waits_for_read s ∧
    ∀ n s', managed_run n s s' → d_manager s' = DDone → d_conn s' = None ∧ d_open s' = ∅.
Proof.
  assert (∃ s, d_reachable 0 s ∧ d_manager s = DStore 0 ∧ d_stopped s = true ∧ d_ctx s = true)
    as (s & Hr & Hm & Hst & Hd).
  { eexists. split.
    - m_step dm_check. m_step dm_disconnected. m_step dm_dial_ok. eapply rtc_l; [apply by_other, st_cancel|]. eval_state.
      o_step st_close. apply rtc_refl.
    - split_and!; reflexivity. }
  destruct (downstream_lane_stops 0 s Hr Hd) as (_ & _ & Hw & Hend & _).
  exists s. split_and!; [exact Hr|exact Hm|exact Hst|exact (Hw Hst)|exact Hend].
Defined.

(** What a left-over control loop loses. [close(done)] and a filled channel
    are both ready in the loop's select, which picks either: a control loop of an
    earlier connection can take a new session's id after the sessions were
    collected for the next connection, and then return. Nothing was too long or too
    full, the lane is connected and its control loop runs, and the session is
    neither registered nor on its way. *)
Theorem stale_loop_loses :
  ∃ s c, d_reachable 0 s ∧ d_manager s = DRead c ∧ d_conn s = Some c ∧ d_ctx s = false ∧
    (c, false) ∈ shape (d_loops s) ∧ 8 ∈ d_sessions s ∧ d_overflow s = ∅ ∧ ¬ on_its_way s 8.
Proof.
  eexists _, 1%nat. split.
  { connect. hello (@nil loop).
    m_step dm_read_err. m_step dm_stop_loop. m_step dm_close. m_step dm_clear. m_step dm_notify.
    connect. hello [mkLoop 0 true LSelect ∅].
    new_session 8.
    l_step (λ s, lp_take s []). l_step (λ s, lp_exit s []). apply rtc_refl. }
  split_and!; try reflexivity.
  - by left.
  - unfold on_its_way. cbn [d_registered d_manager d_queue d_lane dl_registerCh d_loops d_publishing].
    intros [H|[(c & ids & H & _)|[H|[(l & Hl & H)|H]]]]; try discriminate.
    + inversion H.
    + apply list_elem_of_singleton in Hl as ->. discriminate H.
Qed.
