(* ===== verification/LaneOps.v ===== *)
(** * The client's operations as steps of a downstream lane

    DownLane.v describes one lane; the operations of Downstream.v and ClientTable.v
    act on the whole client. Here the client simulates the lane: [represents] says
    which state of the lane a client is in, and each operation is a run of steps
    between represented states. *)

From S2P Require Import Prelude.
From S2P Require Import Words.
From S2P Require Import Packet.
From S2P Require Import Control.
From S2P Require Import Stream.
From S2P Require Import Stats.
From S2P Require Import Session.
From S2P Require Import Client.
From S2P Require Import ClientTable.
From S2P Require Import Downstream.
From S2P Require Import Reconnect.
From S2P Require Import DownLane.

Section LaneOps.
Context {E : Type}.
Implicit Types c : Client E.

(** The ids of a client's sessions that belong to lane [i]. *)
Definition lane_sessions c (i : nat) : gset Z :=
  filter (λ sid, sid mod Z.of_nat (length (downstreamLanes c)) = Z.of_nat i) (dom (sessionsByID c)).

(** Lane [i] of the client is [d_lane s], and [d_sessions s] are its sessions. *)
Record represents c (i : nat) (s : dlane) : Prop := {
  rp_lane : downstreamLanes c !! i = Some (d_lane s);
  rp_count : Z.of_nat (length (downstreamLanes c)) ≤ 65535;
  rp_ids j l : downstreamLanes c !! j = Some l → dl_id l = j;
  rp_keys sid : sid ∈ dom (sessionsByID c) → in_word 32 sid;
  rp_queue : Forall (in_word 32) (d_queue s);
  rp_sessions : d_sessions s = lane_sessions c i
}.

(** Only the lane and the statistics differ. *)
Definition lane_updated c c' (i : nat) (l : downstreamLane) : Prop :=
  downstreamLanes c' = <[i := l]> (downstreamLanes c) ∧ sessionsByID c' = sessionsByID c.

Lemma represents_updated c c' i s s' :
  represents c i s → lane_updated c c' i (d_lane s') → dl_id (d_lane s') = dl_id (d_lane s) →
  d_sessions s' = d_sessions s → Forall (in_word 32) (d_queue s') → represents c' i s'.
Proof.
  intros [Hl Hc Hi Hk Hq Hs] [El Eb] Eid Es Hq'. pose proof (lookup_lt_Some _ _ _ Hl).
  split; rewrite ?El, ?Eb, ?length_insert; try done.
  - by apply list_lookup_insert_eq.
  - intros j l. rewrite list_lookup_insert. case_decide as Hd; [|apply Hi].
    intros [= <-]. destruct Hd as [<- _]. rewrite Eid. by apply Hi.
  - rewrite Es, Hs. unfold lane_sessions. by rewrite El, Eb, length_insert.
Qed.

(** [sendLaneControl] is [lane_send], with the frame or its failure on the network. *)
Definition send_effects (i n : nat) (subtype : Z) (ids : list Z) (r : sent) (eff : list effect) : Prop :=
  match r with
  | NoConn | TooMany => eff = []
  | Sent conn => eff = [TcpWrite conn (wire (control_frame (Z.of_nat i) (Z.of_nat n) subtype ids))]
  | Broken conn => ∃ bs, eff = [TcpWrite conn bs; TcpClose conn]
  end.

(** [sendLaneControl] by cases: no connection, more ids than a payload holds, a
    write that succeeds or fails. *)
Lemma sendLaneControl_cases c i lane subtype ids out :
  downstreamLanes c !! i = Some lane → dl_id lane = i →
  Z.of_nat (length (downstreamLanes c)) ≤ 65535 → in_word 8 subtype → Forall (in_word 32) ids →
  sendLaneControl i subtype ids out c = Ret
    match dl_conn lane with
    | None => (c, [])
    | Some conn =>
        if 65535 <? Z.of_nat (length ids) then (set_stats c (AddError (stats c)), [])
        else
          let frame := wire (control_frame (Z.of_nat i) (Z.of_nat (length (downstreamLanes c))) subtype ids) in
          match out with
          | Written => (c, [TcpWrite conn frame])
          | WriteError k =>
              (set_downLanes (set_stats c (AddError (stats c)))
                 (<[i := mkDownLane i true (dl_registerCh lane) None]> (downstreamLanes c)),
               [TcpWrite conn (take k frame); TcpClose conn])
          end
    end.
Proof.
  intros Hl Hid Hc Hsub Hids. pose proof (lookup_lt_Some _ _ _ Hl) as Hlt.
  unfold sendLaneControl. rewrite Hl. destruct (dl_conn lane) as [conn|]; [|done].
  rewrite Hid. unfold u16. rewrite !wrap_small by (unfold in_word; lia).
  destruct (Z.ltb_spec 65535 (Z.of_nat (length ids))) as [Hbig|Hsmall].
  - unfold NewControlPacketPayload.
    destruct (ControlMarshal_err (mkControl subtype (Z.of_nat i) (Z.of_nat (length (downstreamLanes c))) ids))
      as [e ->]; [| |done].
    + unfold control_wf, in_word in *; cbn. split_and!; try done; lia.
    + unfold control_valid; cbn. lia.
  - destruct (control_wf_ids i (length (downstreamLanes c)) subtype ids) as [Hwf Hv]; try done.
    rewrite NewControlPacketPayload_ok by done. cbn [mbind exec_bind c_LaneID c_SessionIDs].
    rewrite MarshalTo_spec by by rewrite length_replicate. cbn [mbind exec_bind].
    rewrite drop_ge, app_nil_r by by rewrite length_replicate.
    by destruct out.
Qed.

Lemma sendLaneControl_lane c i s subtype ids out :
  represents c i s → in_word 8 subtype → Forall (in_word 32) ids →
  let '(l, r) := lane_send ids out (d_lane s) in
  ∃ c' eff, sendLaneControl i subtype ids out c = Ret (c', eff) ∧ lane_updated c c' i l ∧
    send_effects i (length (downstreamLanes c)) subtype ids r eff.
Proof.
  intros [Hl Hc Hi _ _ _] Hsub Hids. pose proof (Hi i _ Hl) as Hid. unfold lane_send.
  rewrite (sendLaneControl_cases c i (d_lane s)) by done.
  assert (lane_updated c c i (d_lane s)) as Hsame by (split; [by rewrite list_insert_id|done]).
  destruct (dl_conn (d_lane s)) as [conn|] eqn:Ec; [|by exists c, []].
  destruct (65535 <? Z.of_nat (length ids)); [by eexists _, []|].
  destruct out as [|n]; [by eexists c, _|].
  eexists _, _. split; [done|]. split; [|by eexists].
  split; [|done]. cbn [downstreamLanes set_downLanes]. f_equal. by rewrite <- Hid at 1.
Qed.

(** [lane_send] keeps the lane's id and queue. *)
Lemma lane_send_frame ids out l :
  dl_id (lane_send ids out l).1 = dl_id l ∧ dl_registerCh (lane_send ids out l).1 = dl_registerCh l.
Proof. unfold lane_send. by repeat case_match. Qed.

Lemma do_send_lane ids out s : d_lane (do_send ids out s) = (lane_send ids out (d_lane s)).1.
Proof. unfold do_send. destruct (lane_send ids out (d_lane s)) as [l []]; done. Qed.

Lemma send_ids_lane ids out s :
  d_lane (send_ids ids out s) = match ids with [] => d_lane s | _ => (lane_send ids out (d_lane s)).1 end.
Proof. destruct ids; [done|apply do_send_lane]. Qed.

(** A send leads to a represented state. *)
Lemma send_represents c i s subtype ids out :
  represents c i s → in_word 8 subtype → Forall (in_word 32) ids →
  ∃ c' eff, sendLaneControl i subtype ids out c = Ret (c', eff) ∧
    send_effects i (length (downstreamLanes c)) subtype ids (lane_send ids out (d_lane s)).2 eff ∧
    represents c' i (do_send ids out s).
Proof.
  intros Hr Hsub Hids. pose proof (sendLaneControl_lane c i s subtype ids out Hr Hsub Hids) as H.
  pose proof (lane_send_frame ids out (d_lane s)) as [Eid Eq]. pose proof (do_send_lane ids out s) as El.
  destruct (do_send_only ids out s) as [_ _ _ _ _ Equ Ese _ _ _].
  destruct (lane_send ids out (d_lane s)) as [l r]. cbn [fst snd] in *.
  destruct H as (c' & eff & Hs & Hu & He). exists c', eff. split_and!; [done|done|].
  eapply represents_updated; [exact Hr|by rewrite El|by rewrite El|done|].
  rewrite Equ. apply Hr.
Qed.

(** Only the lane and its sessions matter. *)
Lemma represents_ext c i s s' :
  d_lane s' = d_lane s → d_sessions s' = d_sessions s → represents c i s → represents c i s'.
Proof. intros El Es [? ? ? ? Hq ?]. split; unfold d_queue in *; rewrite ?El, ?Es; done. Qed.

(** ** The control loop *)

Lemma sorted_ids_words ids : set_Forall (in_word 32) ids → Forall (in_word 32) (sorted_ids ids).
Proof. intros H. apply Forall_forall. intros x Hx%elem_of_sorted_ids. by apply H. Qed.

Lemma sorted_ids_nil ids : sorted_ids ids = [] ↔ ids = ∅.
Proof.
  split.
  - intros Hn. apply set_eq. intros x. rewrite <- elem_of_sorted_ids, Hn. split; [by intros H; inversion H|set_solver].
  - by intros ->.
Qed.

Lemma flush_represents c i s pending out :
  represents c i s → set_Forall (in_word 32) pending →
  ∃ c' eff, flushPending i pending out c = Ret (c', eff, ∅) ∧
    represents c' i (send_ids (sorted_ids pending) out s).
Proof.
  intros Hr Hp. unfold flushPending. case_decide as H0.
  - apply size_empty_inv, leibniz_equiv in H0 as ->. by exists c, [].
  - destruct (send_represents c i s ControlSubtypeLaneRegister (sorted_ids pending) out Hr)
      as (c' & eff & Es & _ & Hr'); [by_compute|by apply sorted_ids_words|].
    unfold sorted_ids in Es at 1. rewrite Es. cbn [mbind exec_bind]. exists c', eff. split; [done|].
    unfold send_ids. destruct (sorted_ids pending) eqn:En; [|done].
    apply sorted_ids_nil in En as ->. by rewrite size_empty in H0.
Qed.

(** One event of a control loop, from select to select. *)
Lemma control_step_simulates c i s l1 l2 conn dn pending ev out1 out2 :
  represents c i s → set_Forall (in_word 32) pending →
  d_loops s = l1 ++ mkLoop conn dn LSelect pending :: l2 →
  ∃ c' eff pending' s', control_step i ev out1 out2 pending c = Ret (c', eff, pending') ∧
    rtc loop_step s s' ∧ represents c' i s' ∧
    d_loops s' = l1 ++ mkLoop conn dn LSelect pending' :: l2 ∧ set_Forall (in_word 32) pending'.
Proof.
  intros Hr Hp El. destruct ev; cbn [control_step].
  - unfold pop_register. rewrite (rp_lane _ _ _ Hr). destruct (dl_registerCh (d_lane s)) as [|sid q] eqn:Eq.
    { exists c, [], pending, s. split_and!; try done. }
    pose proof (rp_queue _ _ _ Hr) as Hq. unfold d_queue in Hq. rewrite Eq in Hq. inversion_clear Hq as [|? ? Hsid Hq'].
    eexists _, [], _, _. split; [done|]. split; [by eapply rtc_once, lp_take|]. split; [|split; [done|]].
    + eapply represents_updated; [exact Hr|split; done|done|done|done].
    + intros x [->%elem_of_singleton|Hx]%elem_of_union; [done|by apply Hp].
  - destruct (flush_represents c i s pending out1 Hr Hp) as (c' & eff & -> & Hr').
    eexists c', eff, ∅, _. split; [done|].
    split; [by eapply rtc_once, (lp_flush s l1 l2 conn dn pending out1 false)|].
    split; [by apply (represents_ext c' i (send_ids (sorted_ids pending) out1 s))|]. split; [done|]. intros x Hx. by apply elem_of_empty in Hx.
  - destruct (flush_represents c i s pending out1 Hr Hp) as (c1 & eff1 & -> & Hr1). cbn [mbind exec_bind].
    destruct (send_represents c1 i _ ControlSubtypeLaneHeartbeat [] out2 Hr1) as (c2 & eff2 & -> & _ & Hr2);
      [by_compute|done|]. cbn [mbind exec_bind].
    eexists c2, _, ∅, _. split; [done|]. split; [|split; [|split]].
    + eapply rtc_l; [by eapply (lp_flush s l1 l2 conn dn pending out1 true)|].
      eapply rtc_once, (lp_heartbeat _ l1 l2 conn dn ∅ out2). done.
    + eapply (represents_ext c2 i (do_send [] out2 (send_ids (sorted_ids pending) out1 s)));
        [|cbn [d_sessions with_loops]; by rewrite !(ol_sessions _ _ (do_send_only _ _ _))|done].
      cbn [d_lane with_loops]. by rewrite !do_send_lane.
    + done.
    + intros x Hx. by apply elem_of_empty in Hx.
Qed.

(** ** The manager *)

Lemma lane_ids_filter c i ids :
  (∀ j l, downstreamLanes c !! j = Some l → dl_id l = j) →
  (0 < length (downstreamLanes c))%nat → Z.of_nat (length (downstreamLanes c)) ≤ 65535 →
  lane_ids c i ids =
    Ret (filter (λ sid, sid mod Z.of_nat (length (downstreamLanes c)) = Z.of_nat i) ids).
Proof.
  intros Hid H0 Hn. induction ids as [|sid ids IH]; [done|]. cbn [lane_ids].
  unfold downstreamLaneForSession, lane_index. rewrite u32_small by (unfold in_word; lia).
  rewrite (proj2 (Z.eqb_neq _ _)) by lia. cbn [mbind exec_bind]. rewrite IH. cbn [mbind exec_bind].
  pose proof (Z.mod_pos_bound sid (Z.of_nat (length (downstreamLanes c))) ltac:(lia)) as Hb.
  destruct (lookup_lt_is_Some_2 (downstreamLanes c)
    (Z.to_nat (sid mod Z.of_nat (length (downstreamLanes c))))) as [l Hl]; [lia|].
  rewrite Hl, filter_cons. rewrite (Hid _ _ Hl). f_equal.
  repeat case_decide; try done; lia.
Qed.

Lemma session_ids_sorted c i s :
  represents c i s → session_ids_for_lane c i = Ret (sorted_ids (lane_sessions c i)).
Proof.
  intros [Hl Hc Hi Hk Hq Hs]. pose proof (lookup_lt_Some _ _ _ Hl). unfold session_ids_for_lane.
  rewrite lane_ids_filter by (done || lia). cbn [mbind exec_bind]. f_equal. unfold sorted_ids.
  apply (Sorted_unique Z.le); [apply Sorted_merge_sort, _..|].
  rewrite !merge_sort_Permutation. apply NoDup_Permutation.
  - apply NoDup_filter, NoDup_fst_map_to_list.
  - apply NoDup_elements.
  - intros x. rewrite elem_of_elements. unfold lane_sessions. rewrite list_elem_of_filter, elem_of_filter, elem_of_dom.
    split; intros [? Hx]; (split; [done|]).
    + apply list_elem_of_fmap in Hx as ([k v] & -> & Hx%elem_of_map_to_list). by exists v.
    + destruct Hx as [v Hx]. apply list_elem_of_fmap. exists (x, v). by rewrite elem_of_map_to_list.
Qed.

Lemma registerAll_simulates c i s conn out :
  represents c i s → d_manager s = DCollect conn →
  ∃ c' eff s', registerAllSessionsForLane i out c = Ret (c', eff) ∧ rtc manager_step s s' ∧
    represents c' i s' ∧ d_manager s' = DSpawn conn.
Proof.
  intros Hr Em. unfold registerAllSessionsForLane. rewrite (rp_lane _ _ _ Hr).
  rewrite (rp_ids _ _ _ Hr i _ (rp_lane _ _ _ Hr)), (session_ids_sorted c i s Hr). cbn [mbind exec_bind].
  assert (∃ c' eff, match sorted_ids (lane_sessions c i) with
      [] => Ret (c, []) | ids => sendLaneControl i ControlSubtypeLaneRegister ids out c end = Ret (c', eff) ∧
    represents c' i (send_ids (sorted_ids (lane_sessions c i)) out s)) as (c' & eff & E1 & Hr').
  { destruct (sorted_ids (lane_sessions c i)) as [|x l] eqn:Es; [by eexists c, []|].
    destruct (send_represents c i s ControlSubtypeLaneRegister (x :: l) out Hr) as (c' & eff & ? & _ & ?);
      [by_compute| |by eexists c', eff].
    rewrite <- Es. apply sorted_ids_words. intros y Hy. apply (rp_keys _ _ _ Hr).
    by apply elem_of_filter in Hy as [_ ?]. }
  exists c', eff. eexists. split; [by rewrite <- E1; destruct (sorted_ids (lane_sessions c i))|].
  split; [|split].
  - eapply rtc_l; [by apply dm_collect|]. eapply rtc_once. by apply (dm_register _ conn (sorted_ids (d_sessions s)) out).
  - rewrite (rp_sessions _ _ _ Hr).
    eapply (represents_ext c' i (send_ids (sorted_ids (lane_sessions c i)) out s));
      [cbn [d_lane with_manager]; by rewrite !send_ids_lane| |done].
    cbn [d_sessions with_manager]. by rewrite !(ol_sessions _ _ (send_ids_only _ _ _)).
  - done.
Qed.

(** The deferred function of [handleDownstream], from [conn.Close()] on. *)
Lemma downstream_exit_simulates c i s conn :
  represents c i s → d_manager s = DClose conn →
  ∃ c' s', downstream_exit i conn c = (c', [TcpClose conn]) ∧ rtc manager_step s s' ∧
    represents c' i s' ∧ d_manager s' = DCheck ∧ conn ∉ d_open s'.
Proof.
  intros Hr Em. eexists _, _. split; [done|]. split; [|split; [|split]].
  - eapply rtc_l; [by apply dm_close|]. eapply rtc_l; [by eapply dm_clear|].
    eapply rtc_once. by apply dm_notify.
  - eapply represents_updated; [exact Hr| |by cbn; case_decide|done|cbn; case_decide; apply Hr].
    split; [|done]. cbn [downstreamLanes set_downLanes]. pose proof (rp_lane _ _ _ Hr) as Hl.
    apply list_eq. intros j. rewrite list_lookup_insert, list_lookup_alter.
    destruct (decide (i = j)) as [<-|Hne].
    + rewrite decide_True by (split; [done|by eapply lookup_lt_Some]). rewrite Hl. cbn.
      unfold d_conn. cbn [d_lane with_manager with_open]. by destruct (decide (dl_conn (d_lane s) = Some conn)).
    + by rewrite decide_False by tauto.
  - done.
  - cbn. set_solver.
Qed.

(** ** The session table *)

Lemma represents_same c c' i s :
  downstreamLanes c' = downstreamLanes c → sessionsByID c' = sessionsByID c →
  represents c i s → represents c' i s.
Proof.
  intros El Eb [Hl Hc Hi Hk Hq Hs]. split; rewrite ?El, ?Eb; try done.
  rewrite Hs. unfold lane_sessions. by rewrite El, Eb.
Qed.

Lemma offer_lane sid s : d_lane (offer sid s) = push_register sid (d_lane s).
Proof. unfold offer. by case_match. Qed.

Lemma offer_sessions sid s : d_sessions (offer sid s) = d_sessions s.
Proof. unfold offer. by case_match. Qed.

Lemma push_register_queue sid l :
  in_word 32 sid → Forall (in_word 32) (dl_registerCh l) → Forall (in_word 32) (dl_registerCh (push_register sid l)).
Proof.
  intros Hs Hq. unfold push_register. case_match; [|done]. apply Forall_app. split; [done|by constructor].
Qed.

Lemma lane_sessions_new c c' i sid p :
  length (downstreamLanes c') = length (downstreamLanes c) → sessionsByID c' = <[sid := p]> (sessionsByID c) →
  lane_sessions c' i =
    (if decide (sid mod Z.of_nat (length (downstreamLanes c)) = Z.of_nat i) then {[sid]} ∪ lane_sessions c i
     else lane_sessions c i).
Proof.
  intros El Eb. unfold lane_sessions. rewrite El, Eb, dom_insert_L. apply set_eq. intros x.
  case_decide; rewrite !elem_of_filter, ?elem_of_union, ?elem_of_filter, ?elem_of_singleton; naive_solver.
Qed.

(** A datagram from a peer: nothing, or a session stored and offered. *)
Lemma getOrCreate_simulates now addr c h i s :
  table_inv c h → Z.of_nat (next c) + 1 < 2 ^ 32 → represents c i s → d_publishing s = None →
  ∃ p c' s', getOrCreateSession now addr c = Ret (p, c') ∧ rtc other_step s s' ∧
    represents c' i s' ∧ d_publishing s' = None.
Proof.
  intros Ht Hb Hr Hp.
  destruct (getOrCreate_cases now addr c h Ht Hb) as [(p & _ & ->)|(_ & j & l & Ej & Hl & ->)].
  { exists p, (upd_session c p (us_UpdateLastActive now)), s. split; [done|]. split; [apply rtc_refl|].
    split; [|done]. by apply (represents_same c). }
  set (sid := Z.of_nat (S (next c))) in *. assert (in_word 32 sid) as Hw by (unfold in_word, sid; lia).
  pose proof (lookup_lt_Some _ _ _ Hl) as Hlt. pose proof (rp_count _ _ _ Hr) as Hc.
  unfold lane_index in Ej. rewrite u32_small in Ej by (unfold in_word; lia).
  rewrite (proj2 (Z.eqb_neq _ _)) in Ej by lia. injection Ej as Ej.
  pose proof (Z.mod_pos_bound sid (Z.of_nat (length (downstreamLanes c))) ltac:(lia)) as Hm.
  eexists _, _, (if decide (j = i) then
    with_sessions ({[sid]} ∪ d_sessions s) None (offer sid (with_sessions ({[sid]} ∪ d_sessions s) (Some sid) s))
    else s). split; [done|].
  assert (∀ k, dl_id <$> (alter (push_register sid) j (downstreamLanes c) !! k) = dl_id <$> (downstreamLanes c !! k)) as Hid.
  { intros k. rewrite list_lookup_alter. case_decide as Hd; [|done]. subst k.
    destruct (downstreamLanes c !! j) as [x|]; [|done]. cbn. unfold push_register. by case_match. }
  destruct (decide (j = i)) as [->|Hne].
  - split; [|split; [|done]].
    + eapply rtc_l; [by apply (u_store s sid)|]. eapply rtc_once.
      pose proof (u_offer (with_sessions ({[sid]} ∪ d_sessions s) (Some sid) s) sid eq_refl) as Hu.
      by cbn [d_sessions with_sessions] in Hu.
    + rewrite (rp_lane _ _ _ Hr) in Hl. injection Hl as <-.
      split; cbn [downstreamLanes sessionsByID d_lane with_sessions d_sessions]; rewrite ?length_alter; try done.
      * rewrite offer_lane, list_lookup_alter, decide_True by done. by rewrite (rp_lane _ _ _ Hr).
      * intros k x Hk. specialize (Hid k). rewrite Hk in Hid. cbn in Hid.
        destruct (downstreamLanes c !! k) as [y|] eqn:Ek; [|done]. cbn in Hid.
        rewrite <- (rp_ids _ _ _ Hr k y Ek). congruence.
      * intros x. rewrite dom_insert_L, elem_of_union, elem_of_singleton. intros [->|Hx]; [done|by apply (rp_keys _ _ _ Hr)].
      * unfold d_queue. cbn [d_lane with_sessions]. rewrite offer_lane. apply push_register_queue; [done|apply Hr].
      * erewrite (lane_sessions_new c); [|cbn; by rewrite length_alter|done].
        rewrite decide_True by lia. by rewrite (rp_sessions _ _ _ Hr).
  - split; [apply rtc_refl|]. split; [|done].
    split; cbn [downstreamLanes sessionsByID]; rewrite ?length_alter; try apply Hr.
    + rewrite list_lookup_alter, decide_False by tauto. apply Hr.
    + intros k x Hk. specialize (Hid k). rewrite Hk in Hid. cbn in Hid.
      destruct (downstreamLanes c !! k) as [y|] eqn:Ek; [|done]. cbn in Hid.
      rewrite <- (rp_ids _ _ _ Hr k y Ek). congruence.
    + intros x. rewrite dom_insert_L, elem_of_union, elem_of_singleton. intros [->|Hx]; [done|by apply (rp_keys _ _ _ Hr)].
    + erewrite (lane_sessions_new c); [|cbn; by rewrite length_alter|done].
      rewrite decide_False by (pose proof (lookup_lt_Some _ _ _ (rp_lane _ _ _ Hr)); lia). apply Hr.
Qed.

(** The cleaner: a session of the lane is forgotten, or one of another lane. *)
Lemma cleanup_simulates c i s key :
  represents c i s → ∃ s', rtc other_step s s' ∧ represents (cleanup_key key c) i s' ∧ d_lane s' = d_lane s.
Proof.
  intros Hr. unfold cleanup_key, load_and_delete.
  destruct (sessions c !! key) as [p|]; [|exists s; split; [apply rtc_refl|]; split; [by apply (represents_same c)|done]].
  unfold forget. cbn [heap set_table]. destruct (heap c !! p) as [u|];
    [|exists s; split; [apply rtc_refl|]; split; [by apply (represents_same c)|done]].
  exists (with_sessions (d_sessions s ∖ {[us_sessionID u]}) (d_publishing s) s).
  split; [eapply rtc_once, u_forget|]. split; [|done].
  destruct Hr as [Hl Hc Hi Hk Hq Hs].
  split; cbn [downstreamLanes sessionsByID set_stats set_table d_lane with_sessions d_sessions]; try done.
  - intros x. rewrite dom_delete_L, elem_of_difference. intros [? _]. by apply Hk.
  - rewrite Hs. unfold lane_sessions. cbn [downstreamLanes sessionsByID set_stats set_table].
    rewrite dom_delete_L. apply set_eq. intros x. rewrite !elem_of_difference, !elem_of_filter, elem_of_difference. tauto.
Qed.

End LaneOps.

(** C15: the client implements the lane. Let lane [i] of a client be in a state of
    the protocol of DownLane.v (same lane record, same sessions). Then whatever the
    outcomes of the writes, none of the client's operations panics, and each leads
    to a client whose lane is in a state reached by steps of the protocol: an event
    of a control loop by steps of that loop, [registerAllSessionsForLane] and the
    deferred function of [handleDownstream] by the manager's steps,
    [getOrCreateSession] and the cleaner by those of the session table. *)
Theorem client_refines_lane {E} (c : Client E) i s :
  represents c i s →
  (∀ l1 l2 conn dn pending ev out1 out2,
     set_Forall (in_word 32) pending → d_loops s = l1 ++ mkLoop conn dn LSelect pending :: l2 →
     ∃ c' eff pending' s', control_step i ev out1 out2 pending c = Ret (c', eff, pending') ∧
       rtc loop_step s s' ∧ represents c' i s' ∧
       d_loops s' = l1 ++ mkLoop conn dn LSelect pending' :: l2) ∧
  (∀ conn out, d_manager s = DCollect conn →
     ∃ c' eff s', registerAllSessionsForLane i out c = Ret (c', eff) ∧ rtc manager_step s s' ∧
       represents c' i s' ∧ d_manager s' = DSpawn conn) ∧
  (∀ conn, d_manager s = DClose conn →
     ∃ c' s', downstream_exit i conn c = (c', [TcpClose conn]) ∧ rtc manager_step s s' ∧
       represents c' i s' ∧ d_manager s' = DCheck ∧ conn ∉ d_open s') ∧
  (∀ now addr h, table_inv c h → Z.of_nat (next c) + 1 < 2 ^ 32 → d_publishing s = None →
     ∃ p c' s', getOrCreateSession now addr c = Ret (p, c') ∧ rtc other_step s s' ∧
       represents c' i s' ∧ d_publishing s' = None) ∧
  (∀ key, ∃ s', rtc other_step s s' ∧ represents (cleanup_key key c) i s' ∧ d_lane s' = d_lane s).
Proof.
  intros Hr. split; [|split; [|split; [|split]]].
  - intros l1 l2 conn dn pending ev out1 out2 Hp El.
    destruct (control_step_simulates c i s l1 l2 conn dn pending ev out1 out2 Hr Hp El)
      as (c' & eff & pending' & s' & ? & ? & ? & ? & _). by exists c', eff, pending', s'.
  - intros conn out. by apply registerAll_simulates.
  - intros conn. by apply downstream_exit_simulates.
  - intros now addr h Ht Hb. by apply getOrCreate_simulates with h.
  - intros key. by apply cleanup_simulates.
Qed.

(** A connected lane with ids waiting in its channel and a control loop. *)
Definition sample_state : dlane :=
  mkDLane (mkDownLane 0 false [4; 8; 4] (Some 9%nat)) false false (DRead 9)
    [mkLoop 9 false LSelect ∅] {[9%nat]} 10 ∅ None ∅ ∅ ∅ true.

Lemma sample_represents : represents sample_control 0 sample_state.
Proof.
  split; try done.
  - intros [|[|j]] l; [by intros [= <-]..|done].
  - repeat constructor; by_compute.
Qed.

Lemma client_refines_lane_witness :
  ∃ c' eff s', control_step 0 EvRegister Written Written ∅ sample_control = Ret (c', eff, {[4]}) ∧
    rtc loop_step sample_state s' ∧ represents c' 0 s'.
Proof.
  destruct (client_refines_lane sample_control 0 sample_state sample_represents) as [H _].
  destruct (H [] [] 9%nat false ∅ EvRegister Written Written) as (c' & eff & p & s' & Hc & Hs & Hr & _).
  - intros x Hx. by apply elem_of_empty in Hx.
  - reflexivity.
  - exists c', eff, s'. assert (p = {[4]}) as -> by (vm_compute in Hc; injection Hc as _ _ <-; reflexivity).
    split; [exact Hc|]. split; [exact Hs|exact Hr].
Defined.
