(* ===== verification/ClientRun.v ===== *)
(** * The whole client under any schedule

    The goroutines of the client share the session table, the rings, the lanes and
    the statistics. [client_step] is one turn of one of them, the operations being
    those of Upstream.v, Downstream.v and ClientTable.v; [client_run] is a schedule.
    What is proved is that no schedule, no data from the network and no failure of
    a write makes the client panic, that the tables stay consistent, and that
    whatever is written on a connection is whole frames, the last possibly cut
    short by the failure that closes the connection. *)

From S2P Require Import Prelude.
From S2P Require Import Words.
From S2P Require Import Packet.
From S2P Require Import Control.
From S2P Require Import Stream.
From S2P Require Import Ring.
From S2P Require Import Stats.
From S2P Require Import Config.
From S2P Require Import Crypto.
From S2P Require Import Session.
From S2P Require Import Client.
From S2P Require Import ClientTable.
From S2P Require Import Upstream.
From S2P Require Import Downstream.
From S2P Require Import Reconnect.
From S2P Require Import DownLane.
From S2P Require Import LaneOps.
From S2P Require Import Lifecycle.

(** ** Schedules *)

(** The goroutines' own state: for each downstream lane the connection and the
    buffer of its reader, and the set [pending] of its control loop. *)
Record client_state (E : Type) := mkCS {
  cs_client : Client E;
  cs_readers : gmap nat (conn_id * StreamBuffer);
  cs_pending : gmap nat (gset Z)
}.
Arguments mkCS {E}.
Arguments cs_client {E}.
Arguments cs_readers {E}.
Arguments cs_pending {E}.

Inductive client_event :=
| CDatagram (now : Z) (rd : udp_read) (rand : random)     (* handleUDP *)
| CWriter (lane : nat) (out : write_outcome)              (* handleUpstreamWrites *)
| CUpConnect (lane : nat) (conn : conn_id)                (* manageUpstreamConnection *)
| CUpClear (lane : nat) (conn : conn_id)                  (* watchUpstreamConn *)
| CDownConnect (lane : nat) (conn : conn_id) (reg hello : write_outcome)
| CRead (lane : nat) (chunk : list byte) (env : nat → dl_env)
| CReadEnd (lane : nat) (ending : read_end)
| CControl (lane : nat) (ev : control_event) (out1 out2 : write_outcome)
| CCleanup (now : Z)
| CStop.

Section Schedule.
Context `{IntWidth} {E : Type}.
Variable grow : nat → nat → nat.
Implicit Types st : client_state E.
Implicit Types c : Client E.

Definition set_client c st : client_state E := mkCS c (cs_readers st) (cs_pending st).

Definition up_connect (conn : conn_id) (l : upstreamLane) : upstreamLane :=
  mkUpLane (ul_id l) (ul_ring l) (drainReconnect (ul_reconnect l)) (Some conn).
Definition up_clear (conn : conn_id) (l : upstreamLane) : upstreamLane :=
  mkUpLane (ul_id l) (ul_ring l) (notifyReconnect (ul_reconnect l))
    (if decide (ul_conn l = Some conn) then None else ul_conn l).
Definition down_connect (conn : conn_id) (l : downstreamLane) : downstreamLane :=
  mkDownLane (dl_id l) (drainReconnect (dl_reconnect l)) (dl_registerCh l) (Some conn).

Definition up_clear_effects (i : nat) (conn : conn_id) c : list effect :=
  match upstreamLanes c !! i with
  | Some l => if decide (ul_conn l = Some conn) then [TcpClose conn] else []
  | None => []
  end.
Definition stop_effects (acts : list stop_action) : list effect :=
  acts ≫= λ a, match a with StopConn k => [TcpClose k] | _ => [] end.

(** One step and what it does to the network. An event of a goroutine that is not
    there does nothing; a datagram for which the ring is full waits. Connections may
    be made and lost at any moment, which includes what the managers do. *)
Definition client_step (ev : client_event) st : exec (client_state E * list effect) :=
  let c := cs_client st in
  match ev with
  | CDatagram now rd rand =>
      r ← handleUDP now rd rand c;
      Ret (match r with Some c => set_client c st | None => st end, [])
  | CWriter i out =>
      match upstreamLanes c !! i with
      | None => Ret (st, [])
      | Some _ =>
          r ← handleUpstreamWrites i (λ _, Some) out c;
          let '(c, eff, _) := r in Ret (set_client c st, eff)
      end
  | CUpConnect i conn => Ret (set_client (set_upLanes c (alter (up_connect conn) i (upstreamLanes c))) st, [])
  | CUpClear i conn =>
      Ret (set_client (set_upLanes c (alter (up_clear conn) i (upstreamLanes c))) st, up_clear_effects i conn c)
  | CDownConnect i conn reg hello =>
      match downstreamLanes c !! i with
      | None => Ret (st, [])
      | Some _ =>
          let c := set_downLanes c (alter (down_connect conn) i (downstreamLanes c)) in
          r ← registerAllSessionsForLane i reg c;
          let '(c, eff1) := r in
          r ← sendLaneControl i ControlSubtypeHello [] hello (fix_heartbeat c);
          let '(c, eff2) := r in
          let b := NewStreamBuffer (BufferSize (cp_config (params c))) (downstream_max_payload c) in
          Ret (mkCS c (<[i := (conn, b)]> (cs_readers st)) (<[i := ∅]> (cs_pending st)), eff1 ++ eff2)
      end
  | CRead i chunk env =>
      match cs_readers st !! i with
      | None => Ret (st, [])
      | Some (conn, b) =>
          r ← feed grow (dl_handle env) dl_on_read b (mkDl c [] 0) [chunk];
          let '(b, s) := r in
          Ret (mkCS (dl_client s) (<[i := (conn, b)]> (cs_readers st)) (cs_pending st), dl_effects s)
      end
  | CReadEnd i ending =>
      match cs_readers st !! i with
      | None => Ret (st, [])
      | Some (conn, _) =>
          let c := match ending with ReadFailed => set_stats c (AddError (stats c)) | _ => c end in
          let '(c, eff) := downstream_exit i conn c in
          Ret (mkCS c (delete i (cs_readers st)) (delete i (cs_pending st)), eff)
      end
  | CControl i ev out1 out2 =>
      match cs_pending st !! i with
      | None => Ret (st, [])
      | Some pending =>
          r ← control_step i ev out1 out2 pending c;
          let '(c, eff, pending) := r in
          Ret (mkCS c (cs_readers st) (<[i := pending]> (cs_pending st)), eff)
      end
  | CCleanup now => Ret (set_client (cleanup_tick now c) st, [])
  | CStop =>
      let '(c, acts) := clientStop c in Ret (set_client c st, stop_effects acts)
  end.

(** A schedule, with the effects of each step. *)
Fixpoint client_run (evs : list client_event) st : exec (client_state E * list (list effect)) :=
  match evs with
  | [] => Ret (st, [])
  | ev :: evs =>
      r ← client_step ev st;
      let '(st, eff) := r in
      r ← client_run evs st;
      let '(st, effs) := r in
      Ret (st, eff :: effs)
  end.

End Schedule.

(** ** What a schedule keeps *)

(** The effects of one step on TCP connections: whole frames on one connection, or
    frames cut short and the connection closed. *)
Definition whole_frames (bs : list byte) : Prop := ∃ fs, Forall (frame_ok 0) fs ∧ bs = fs ≫= wire.

Inductive tcp_clean : list effect → Prop :=
| clean_nil : tcp_clean []
| clean_udp to bs eff : tcp_clean eff → tcp_clean (UdpWrite to bs :: eff)
| clean_write k bs eff : whole_frames bs → tcp_clean eff → tcp_clean (TcpWrite k bs :: eff)
| clean_broken k bs n eff :
    whole_frames bs → tcp_clean eff → tcp_clean (TcpWrite k (take n bs) :: TcpClose k :: eff)
| clean_close k eff : tcp_clean eff → tcp_clean (TcpClose k :: eff).

Lemma tcp_clean_app eff1 eff2 : tcp_clean eff1 → tcp_clean eff2 → tcp_clean (eff1 ++ eff2).
Proof.
  intros H1 H2. induction H1; cbn [app]; [done|by apply clean_udp|by apply clean_write|by apply clean_broken|by apply clean_close].
Qed.

(** A packet in a ring is a frame. *)
Definition is_frame (d : list byte) : Prop := ∃ f, frame_ok 0 f ∧ d = wire f.

Lemma whole_frames_concat q : Forall is_frame q → whole_frames (concat q).
Proof.
  induction 1 as [|d q (f & Hf & ->) _ (fs & Hfs & E)]; [by exists []|].
  exists (f :: fs). split; [by constructor|]. cbn. by rewrite E.
Qed.

Section Invariant.
Context `{IntWidth} {E : Type}.
Variable grow : nat → nat → nat.
Variable P : ClientParams E.
(** The number of downstream lanes. *)
Variable n : nat.
Implicit Types st : client_state E.
Implicit Types c : Client E.

Definition slot_size : nat := Z.to_nat (cp_maxUpstreamPacket P).
Definition reader_max : Z :=
  go_int (MaxPacketSize (cp_config P) + Z.of_nat (Overhead (cp_downstreamCipher P)) + 2048).

(** What [New] derives from a configuration that [Load] returns. *)
Record params_ok : Prop := {
  po_bits : int_bits = 64;
  po_lanes : (0 < n)%nat ∧ Z.of_nat n ≤ 65535;
  po_cipher : CipherSpec (cp_upstreamCipher P);
  po_copy : cp_upstreamZeroCopy P = false;
  po_delay : cp_upstreamBatchMaxDelay P ≤ 0;
  po_packets : 1 ≤ cp_upstreamBatchMaxPackets P;
  po_bytes : cp_maxUpstreamPacket P + Z.max 0 (cp_upstreamBatchMaxBytes P) < 2 ^ 31;
  po_max : cp_maxUpstreamPacket P =
    Z.of_nat HeaderSize + MaxPacketSize (cp_config P) + Z.of_nat (Overhead (cp_upstreamCipher P));
  po_packet : 0 ≤ MaxPacketSize (cp_config P);
  po_reader : 0 < reader_max
}.

Definition lane_ring_ok (l : upstreamLane) : Prop :=
  ∃ R q, ring_at slot_size (ul_ring l) R q ∧ Forall is_frame q.

Definition down_ok (ls : list downstreamLane) : Prop :=
  length ls = n ∧
  ∀ i lane, ls !! i = Some lane → dl_id lane = i ∧ Forall (in_word 32) (dl_registerCh lane).

(** The client: tables, lanes, rings; at most [m] sessions have been made. *)
Record client_ok (m : nat) c : Prop := {
  co_params : params c = P;
  co_table : table_inv c None;
  co_next : (next c ≤ m)%nat;
  co_up : (0 < length (upstreamLanes c))%nat ∧ Z.of_nat (length (upstreamLanes c)) < 2 ^ 32;
  co_rings : Forall lane_ring_ok (upstreamLanes c);
  co_down : down_ok (downstreamLanes c)
}.

(** The goroutines: at most [total] bytes have been read. *)
Record run_ok (m total : nat) st : Prop := {
  ro_client : client_ok m (cs_client st);
  ro_readers i conn b : cs_readers st !! i = Some (conn, b) →
    sb_inv b ∧ sb_maxPayload b = reader_max ∧ (sb_len b ≤ total)%nat ∧
    Z.of_nat (Len b) < Z.of_nat HeaderSize + reader_max;
  ro_pending i p : cs_pending st !! i = Some p → set_Forall (in_word 32) p ∧ (i < n)%nat
}.

(** Operations that touch neither lanes nor tables. *)
Lemma client_ok_ext m c c' :
  client_ok m c → params c' = params c → table_inv c' None → next c' = next c →
  upstreamLanes c' = upstreamLanes c → downstreamLanes c' = downstreamLanes c → client_ok m c'.
Proof. intros [] Ep Ht En Eu Ed. split; rewrite ?Ep, ?En, ?Eu, ?Ed; done. Qed.

Lemma table_inv_stats c s h : ActiveSessions s = ActiveSessions (stats c) → table_inv c h → table_inv (set_stats c s) h.
Proof. intros Es [? ? ? ? ? ? ?]. split; cbn; rewrite ?Es; done. Qed.

Lemma client_ok_stats m c s :
  ActiveSessions s = ActiveSessions (stats c) → client_ok m c → client_ok m (set_stats c s).
Proof. intros Es Hc. apply (client_ok_ext m c); try done. by apply table_inv_stats, Hc. Qed.

Lemma client_ok_touch m c p f : same_identity f → client_ok m c → client_ok m (upd_session c p f).
Proof. intros Hf Hc. apply (client_ok_ext m c); try done. by apply upd_session_inv, Hc. Qed.

Lemma client_ok_upLanes m c ls :
  client_ok m c → length ls = length (upstreamLanes c) → Forall lane_ring_ok ls →
  client_ok m (set_upLanes c ls).
Proof.
  intros [] Hl Hr. split; cbn [params upstreamLanes downstreamLanes next set_upLanes]; try done.
  - by destruct co_table0.
  - by rewrite Hl.
Qed.

Lemma client_ok_upLane m c i lane :
  client_ok m c → lane_ring_ok lane → client_ok m (set_upLanes c (<[i := lane]> (upstreamLanes c))).
Proof.
  intros Hc Hl. apply client_ok_upLanes; [done|by rewrite length_insert|].
  apply Forall_insert; [apply Hc|done].
Qed.

Lemma client_ok_alter_up m c f i :
  client_ok m c → (∀ l, ul_ring (f l) = ul_ring l) →
  client_ok m (set_upLanes c (alter f i (upstreamLanes c))).
Proof.
  intros Hc Hf. apply client_ok_upLanes; [done|by rewrite length_alter|].
  apply Forall_alter; [apply Hc|]. intros l Hl (R & q & Hr). exists R, q. by rewrite Hf.
Qed.

Lemma client_ok_downLanes m c ls : client_ok m c → down_ok ls → client_ok m (set_downLanes c ls).
Proof.
  intros [] Hls. split; cbn [params upstreamLanes downstreamLanes next set_downLanes]; try done.
  destruct co_table0. split; cbn [downstreamLanes set_downLanes]; try done.
  destruct co_down0 as [E0 _], Hls as [-> _]. by rewrite E0 in ti_lanes.
Qed.

Definition keeps_lane (f : downstreamLane → downstreamLane) : Prop :=
  ∀ l, dl_id (f l) = dl_id l ∧
    (Forall (in_word 32) (dl_registerCh l) → Forall (in_word 32) (dl_registerCh (f l))).

Lemma down_ok_alter f i ls : keeps_lane f → down_ok ls → down_ok (alter f i ls).
Proof.
  intros Hf [Hl Hls]. split; [by rewrite length_alter|]. intros j lane.
  rewrite list_lookup_alter. case_decide as Hd; [|apply Hls]. subst j.
  destruct (ls !! i) as [l|] eqn:El; [|done]. intros [= <-].
  destruct (Hls i l El) as [Hid Hq]. destruct (Hf l) as [-> Hq']. auto.
Qed.

Lemma client_ok_alter_down m c f i :
  keeps_lane f → client_ok m c → client_ok m (set_downLanes c (alter f i (downstreamLanes c))).
Proof. intros Hf Hc. apply client_ok_downLanes; [done|]. apply down_ok_alter; [done|apply Hc]. Qed.

(** ** The upstream goroutines *)

Lemma getOrCreate_ok m now addr c :
  client_ok m c → Z.of_nat (S m) < 2 ^ 32 →
  ∃ p c' s, getOrCreateSession now addr c = Ret (p, c') ∧ client_ok (S m) c' ∧
    heap c' !! p = Some s ∧ in_word 32 (us_sessionID s).
Proof.
  intros Hc Hm. pose proof (co_next _ _ Hc) as Hn.
  destruct (getOrCreate_cases now addr c None (co_table _ _ Hc) ltac:(lia))
    as [(p & Hp & E1)|(_ & i & l & _ & Hl & E1)].
  - destruct (ti_sessions _ _ (co_table _ _ Hc) _ _ Hp) as (_ & _ & s & Hs & _).
    destruct (ti_heap _ _ (co_table _ _ Hc) _ _ Hs) as [Hid Hle].
    eexists p, _, _. split; [exact E1|]. split; [|split].
    + destruct (client_ok_touch m c p (us_UpdateLastActive now)); [done|done|]. split; [done|done|cbn in *; lia|done|done|done].
    + cbn. by rewrite lookup_alter_eq, Hs.
    + change (us_sessionID (us_UpdateLastActive now s)) with (us_sessionID s). rewrite Hid. unfold in_word. lia.
  - pose proof (λ Hb, getOrCreate_inv now addr c None _ _ (co_table _ _ Hc) Hb E1) as Ht.
    destruct Ht as [Ht _]; [cbn; lia|].
    eexists _, _, _. split; [exact E1|]. split; [|split; [by apply lookup_insert_eq|cbn; unfold in_word; lia]].
    pose proof Hc as []. split; cbn [params upstreamLanes downstreamLanes next]; try done; [lia|].
    apply down_ok_alter; [|done]. intros x. split; [unfold push_register; by case_match|].
    apply push_register_queue. unfold in_word. lia.
Qed.

Lemma client_upstream_ok m c : params_ok → client_ok m c → upstream_ok c.
Proof.
  intros Hp Hc. pose proof (po_bytes Hp). pose proof (po_max Hp). pose proof (po_packet Hp).
  pose proof (co_up _ _ Hc). split; rewrite ?(co_params _ _ Hc); [done|done|lia].
Qed.

Lemma slot_size_small : params_ok → Z.of_nat slot_size = cp_maxUpstreamPacket P ∧ Z.of_nat slot_size < 2 ^ 31.
Proof.
  intros Hp. pose proof (po_bytes Hp). pose proof (po_max Hp). pose proof (po_packet Hp).
  unfold slot_size. lia.
Qed.

Lemma next_seq_touch c p s :
  heap c !! p = Some s → next_seq c p s = upd_session c p (λ s, (us_NextSequenceID s).2).
Proof.
  intros Hs. unfold next_seq, upd_session. f_equal. apply map_eq. intros q. destruct (decide (p = q)) as [<-|].
  - by rewrite lookup_insert_eq, lookup_alter_eq, Hs.
  - by rewrite lookup_insert_ne, lookup_alter_ne.
Qed.

Lemma client_ok_next_seq m c p s : heap c !! p = Some s → client_ok m c → client_ok m (next_seq c p s).
Proof. intros Hs Hc. rewrite (next_seq_touch _ _ _ Hs). by apply client_ok_touch. Qed.

(** A datagram handed to [sendToUpstream] is dropped, queued, or waits. *)
Lemma sendToUpstream_ok m c p s data rand :
  params_ok → client_ok m c → heap c !! p = Some s → in_word 32 (us_sessionID s) → random_ok rand →
  Z.of_nat (length data) ≤ MaxPacketSize (cp_config P) →
  ∃ r, sendToUpstream p data rand c = Ret r ∧ ∀ c', r = Some c' → client_ok m c'.
Proof.
  intros Hp Hc Hs Hsid Hr Hlen. pose proof (client_upstream_ok m c Hp Hc) as Hup.
  pose proof (po_cipher Hp) as HC. pose proof (co_params _ _ Hc) as Ep. rewrite <- Ep in HC, Hlen.
  destruct (Encrypt (cp_upstreamCipher (params c)) rand data) as [ct|e] eqn:Ee.
  2: { pose proof (prepare_upstream_ok c p s data rand Hup Hr Hs Hsid Hlen) as E1. rewrite Ee in E1.
       unfold sendToUpstream. rewrite E1. eexists. split; [done|]. intros c' [= <-]. by apply client_ok_stats. }
  set (i := lane_of c (us_sessionID s) (u32 (us_sequenceID s + 1))).
  destruct (lookup_lt_is_Some_2 (upstreamLanes c) i) as [lane Hl].
  { destruct (uo_lanes _ Hup). unfold i, lane_of.
    match goal with |- context [?x mod ?y] => pose proof (Z.mod_pos_bound x y ltac:(lia)) end. lia. }
  pose proof (co_rings _ _ Hc) as Hrs. rewrite Forall_lookup in Hrs. destruct (Hrs i lane Hl) as (R & q & Hq & HF).
  unfold slot_size in Hq. rewrite <- Ep in Hq.
  destruct (sendToUpstream_at c p s data rand ct lane R q Hup Hr Hs Hsid Hlen Ee Hl Hq) as (_ & Hwf & Hsend).
  pose proof (client_ok_next_seq m c p s Hs Hc) as Hc1.
  destruct (closed (ul_ring lane)); [|case_decide].
  - eexists. split; [exact Hsend|]. by intros c' [= <-].
  - destruct Hsend as (r' & -> & Hr' & _). eexists. split; [done|]. intros c' [= <-].
    apply (client_ok_upLane m (next_seq c p s)); [done|]. exists R. eexists. unfold slot_size. rewrite <- Ep.
    split; [exact Hr'|]. apply Forall_app. split; [done|]. constructor; [|done].
    eexists (mkFrame _ _). split; [|reflexivity]. unfold frame_ok; cbn [f_Header f_Payload]. split_and!; try done; lia.
  - eexists. split; [exact Hsend|]. done.
Qed.

Lemma handleUDP_ok m c now rd rand :
  params_ok → client_ok m c → random_ok rand → Z.of_nat (S m) < 2 ^ 32 →
  ∃ r, handleUDP now rd rand c = Ret r ∧ ∀ c', r = Some c' → client_ok (S m) c'.
Proof.
  intros Hp Hc Hr Hm. unfold handleUDP. rewrite (co_params _ _ Hc), (po_copy Hp).
  assert (client_ok (S m) c) as Hc' by (destruct Hc; split; try done; lia).
  destruct rd as [addr data|cl].
  2: { eexists. split; [done|]. intros c' [= <-]. destruct cl; [done|by apply client_ok_stats]. }
  set (c1 := set_stats (set_stats c _) _).
  assert (client_ok m c1) as Hc1 by (by apply client_ok_stats, client_ok_stats).
  destruct (getOrCreate_ok m now addr c1 Hc1 Hm) as (p & c2 & s & -> & Hc2 & Hs & Hsid). cbn [mbind exec_bind].
  apply (sendToUpstream_ok (S m) c2 p s); try done. rewrite length_take. pose proof (po_packet Hp). lia.
Qed.

(** What the writer changes: the upstream lanes and the counters of what was sent. *)
Definition up_only c c' : Prop :=
  ∃ l s, c' = set_stats (set_upLanes c l) s ∧ ActiveSessions s = ActiveSessions (stats c).

Lemma up_only_refl c : up_only c c.
Proof. exists (upstreamLanes c), (stats c). by destruct c. Qed.

Lemma up_only_trans c1 c2 c3 : up_only c1 c2 → up_only c2 c3 → up_only c1 c3.
Proof. intros (l & s & -> & E1) (l' & s' & -> & E2). exists l', s'. split; [done|]. cbn in E2. congruence. Qed.

Lemma up_only_lanes c l : up_only c (set_upLanes c l).
Proof. exists l, (stats c). by destruct c. Qed.

Lemma up_only_stats c s : ActiveSessions s = ActiveSessions (stats c) → up_only c (set_stats c s).
Proof. intros Es. exists (upstreamLanes c), s. by destruct c. Qed.

Lemma up_only_ring c i f : up_only c (upd_ring i f c).
Proof. apply up_only_lanes. Qed.

Lemma writeUpstreamBatch_only c i batch k out c' eff :
  writeUpstreamBatch i batch k out c = Ret (c', eff) → up_only c c'.
Proof.
  unfold writeUpstreamBatch. destruct (upstreamLanes c !! i) as [l|]; [|done].
  destruct (ul_conn l); [|intros [= <- _]; by apply up_only_stats].
  destruct out as [|x]; case_decide; intros [= <- _];
    repeat first [by apply up_only_stats | by apply up_only_refl
      | (eapply up_only_trans; [|by apply up_only_lanes]) | (eapply up_only_trans; [|by apply up_only_stats])].
Qed.

Lemma flush_upstream_only c i batch out c' eff :
  flush_upstream i batch out c = Ret (c', eff) → up_only c c'.
Proof.
  unfold flush_upstream. destruct batch as [|x batch]; [intros [= <- _]; apply up_only_refl|].
  destruct (upstreamLanes c !! i); [|done].
  destruct (writeUpstreamBatch _ _ _ _ _) as [[c1 e]|] eqn:Ew; [|done]. intros [= <- _].
  eapply up_only_trans; [by eapply writeUpstreamBatch_only|apply up_only_ring].
Qed.

Lemma handleUpstreamWrites_only c i out c' eff t :
  handleUpstreamWrites i (λ _, Some) out c = Ret (c', eff, t) → up_only c c'.
Proof.
  unfold handleUpstreamWrites. destruct (upstreamLanes c !! i) as [lane|]; [|done].
  destruct (pop (ul_ring lane)) as [[|s|] r]; try (intros [= <- _ _]; apply up_only_refl).
  assert (∀ b : bool, (if b then Some (upd_ring i (λ _, r) c) else Some (upd_ring i (λ _, r) c)) =
    Some (upd_ring i (λ _, r) c)) as E1 by (by intros []).
  rewrite E1. set (c1 := upd_ring i (λ _, r) c). destruct (upstreamLanes c1 !! i) as [lane1|]; [|done].
  destruct (fill_batch _ _ _ _ _ _) as [[r2 batch] b].
  destruct (flush_upstream _ _ _ _) as [[c3 e]|] eqn:Ef; [|done]. intros [= <- _ _].
  eapply up_only_trans; [apply up_only_ring|]. eapply up_only_trans; [apply (up_only_ring c1 i)|].
  by eapply flush_upstream_only.
Qed.

Lemma client_ok_up_only m c c' :
  client_ok m c → up_only c c' → length (upstreamLanes c') = length (upstreamLanes c) →
  Forall lane_ring_ok (upstreamLanes c') → client_ok m c'.
Proof.
  intros Hc (l & s & -> & Es) Hl HF. apply client_ok_stats; [done|]. by apply client_ok_upLanes.
Qed.

Lemma written_effects_clean out lane bytes : whole_frames bytes → tcp_clean (written_effects out lane bytes).
Proof.
  intros Hb. unfold written_effects. destruct (ul_conn lane), out; repeat constructor; done.
Qed.

Lemma writer_ok m c i lane out :
  params_ok → client_ok m c → upstreamLanes c !! i = Some lane →
  ∃ c' eff t, handleUpstreamWrites i (λ _, Some) out c = Ret (c', eff, t) ∧ client_ok m c' ∧ tcp_clean eff.
Proof.
  intros Hp Hc Hl. pose proof (co_rings _ _ Hc) as Hrs. rewrite Forall_lookup in Hrs.
  destruct (Hrs i lane Hl) as (R & q & Hq & HF). destruct q as [|d q].
  { unfold handleUpstreamWrites. rewrite Hl, (pop_at _ _ _ _ Hq).
    destruct (closed _); eexists c, [], _; (split; [done|]); (split; [done|constructor]). }
  pose proof (slot_size_small Hp) as [Hsz _].
  destruct (writer_turn_at slot_size c i (λ _, Some) out lane R (d :: q)) as
    (c' & r' & k & E1 & Hu & Hpar & Hr' & _ & Hk & _); rewrite ?(co_params _ _ Hc); try done; try apply Hp.
  { rewrite Hsz. apply Hp. }
  eexists _, _, _. split; [exact E1|]. split.
  - eapply client_ok_up_only; [done|by eapply handleUpstreamWrites_only|by rewrite Hu, length_insert|].
    rewrite Hu. apply Forall_insert; [by apply Forall_lookup|]. exists (R + k)%nat, (drop k (d :: q)).
    split; [|by apply Forall_drop]. by replace (ul_ring (written_lane out lane r')) with r'
      by (unfold written_lane; by destruct (ul_conn lane), out).
  - apply written_effects_clean, whole_frames_concat. by apply Forall_take.
Qed.

(** ** The downstream goroutines *)

Lemma down_lane m c i :
  client_ok m c → (i < n)%nat → ∃ lane, downstreamLanes c !! i = Some lane ∧ dl_id lane = i.
Proof.
  intros Hc Hi. destruct (co_down _ _ Hc) as [El Hd]. rewrite <- El in Hi.
  destruct (lookup_lt_is_Some_2 _ _ Hi) as [lane Hl]. exists lane. split; [done|]. by apply Hd.
Qed.

Lemma keeps_lane_const r conn : keeps_lane (λ l, mkDownLane (dl_id l) (r l) (dl_registerCh l) (conn l)).
Proof. done. Qed.

Lemma sendLane_ok m c i subtype ids out :
  params_ok → client_ok m c → (i < n)%nat → in_word 8 subtype → Forall (in_word 32) ids →
  ∃ c' eff, sendLaneControl i subtype ids out c = Ret (c', eff) ∧ client_ok m c' ∧ tcp_clean eff.
Proof.
  intros Hp Hc Hi Hsub Hids. destruct (down_lane m c i Hc Hi) as (lane & Hl & Hid).
  destruct (co_down _ _ Hc) as [El _]. destruct (po_lanes Hp) as [_ Hn].
  rewrite (sendLaneControl_cases c i lane) by (done || lia).
  destruct (dl_conn lane) as [conn|]; [|eexists c, []; split_and!; [done|done|constructor]].
  destruct (Z.ltb_spec 65535 (Z.of_nat (length ids))).
  { eexists _, []. split_and!; [done|by apply client_ok_stats|constructor]. }
  assert (whole_frames (wire (control_frame (Z.of_nat i) (Z.of_nat (length (downstreamLanes c))) subtype ids))) as Hw.
  { eexists [_]. split; [|cbn; by rewrite app_nil_r]. constructor; [|done]. apply control_frame_ok; try done; lia. }
  cbv zeta. destruct out as [|k]; eexists _, _; (split; [done|]); (split; [|repeat constructor; done]); [done|].
  assert (<[i:=mkDownLane i true (dl_registerCh lane) None]> (downstreamLanes c) =
    alter (λ l, mkDownLane (dl_id l) true (dl_registerCh l) None) i (downstreamLanes c)) as ->.
  { erewrite list_alter_insert by done. by rewrite Hid. }
  apply (client_ok_alter_down m (set_stats c (AddError (stats c)))); [|by apply client_ok_stats].
  by apply (keeps_lane_const (λ _, true) (λ _, None)).
Qed.

Lemma lane_ids_ok m c i :
  params_ok → client_ok m c → Z.of_nat m < 2 ^ 32 →
  ∃ ids, session_ids_for_lane c i = Ret ids ∧ Forall (in_word 32) ids.
Proof.
  intros Hp Hc Hm. destruct (po_lanes Hp) as [H0 Hn]. destruct (co_down _ _ Hc) as [El Hd].
  unfold session_ids_for_lane. rewrite lane_ids_filter; [|by intros; apply Hd|lia|lia].
  cbn [mbind exec_bind]. eexists. split; [done|]. rewrite merge_sort_Permutation.
  apply Forall_forall. intros x [_ Hx]%list_elem_of_filter.
  apply list_elem_of_fmap in Hx as ([k v] & -> & Hx%elem_of_map_to_list).
  destruct (ti_byID _ _ (co_table _ _ Hc) _ _ Hx) as (-> & s & Hs & _).
  apply (ti_heap _ _ (co_table _ _ Hc)) in Hs as [_ Hle]. pose proof (co_next _ _ Hc).
  cbn [fst]. unfold in_word. lia.
Qed.

Lemma registerAll_ok m c i out :
  params_ok → client_ok m c → (i < n)%nat → Z.of_nat m < 2 ^ 32 →
  ∃ c' eff, registerAllSessionsForLane i out c = Ret (c', eff) ∧ client_ok m c' ∧ tcp_clean eff.
Proof.
  intros Hp Hc Hi Hm. destruct (down_lane m c i Hc Hi) as (lane & Hl & Hid).
  unfold registerAllSessionsForLane. rewrite Hl.
  destruct (lane_ids_ok m c (dl_id lane) Hp Hc Hm) as (ids & -> & Hids). cbn [mbind exec_bind].
  destruct ids as [|x ids]; [eexists c, []; split_and!; [done|done|constructor]|].
  by apply sendLane_ok.
Qed.

Lemma flushPending_run m c i pending out :
  params_ok → client_ok m c → (i < n)%nat → set_Forall (in_word 32) pending →
  ∃ c' eff pending', flushPending i pending out c = Ret (c', eff, pending') ∧ client_ok m c' ∧ tcp_clean eff ∧
    set_Forall (in_word 32) pending'.
Proof.
  intros Hp Hc Hi Hpd. unfold flushPending. case_decide.
  { exists c, [], pending. split_and!; [done|done|constructor|done]. }
  destruct (sendLane_ok m c i ControlSubtypeLaneRegister (sorted_ids pending) out Hp Hc Hi)
    as (c' & eff & E1 & Hc' & He); [by_compute|by apply sorted_ids_words|].
  unfold sorted_ids in E1. rewrite E1. cbn [mbind exec_bind]. exists c', eff, ∅. split_and!; [done..|].
  intros x Hx. by apply elem_of_empty in Hx.
Qed.

Lemma control_ok m c i ev out1 out2 pending :
  params_ok → client_ok m c → (i < n)%nat → set_Forall (in_word 32) pending →
  ∃ c' eff pending', control_step i ev out1 out2 pending c = Ret (c', eff, pending') ∧ client_ok m c' ∧
    tcp_clean eff ∧ set_Forall (in_word 32) pending'.
Proof.
  intros Hp Hc Hi Hpd. destruct ev; cbn [control_step].
  - destruct (down_lane m c i Hc Hi) as (lane & Hl & Hid). unfold pop_register. rewrite Hl.
    destruct (co_down _ _ Hc) as [El Hd]. destruct (Hd i lane Hl) as [_ Hq].
    destruct (dl_registerCh lane) as [|sid rest] eqn:Eq; [exists c, [], pending; split_and!; [done|done|constructor|done]|].
    inversion_clear Hq as [|? ? Hsid Hrest].
    eexists _, [], _. split; [done|]. split; [|split; [constructor|]].
    + apply client_ok_downLanes; [done|]. split; [by rewrite length_insert|]. intros j x.
      rewrite list_lookup_insert. case_decide as Hj; [|apply Hd]. intros [= <-]. destruct Hj as [<- _]. done.
    + intros x [->%elem_of_singleton|Hx]%elem_of_union; [done|by apply Hpd].
  - by apply flushPending_run.
  - destruct (flushPending_run m c i pending out1 Hp Hc Hi Hpd) as (c1 & eff1 & p1 & -> & Hc1 & He1 & Hp1).
    cbn [mbind exec_bind].
    destruct (sendLane_ok m c1 i ControlSubtypeLaneHeartbeat [] out2 Hp Hc1 Hi) as (c2 & eff2 & -> & Hc2 & He2);
      [by_compute|constructor|].
    cbn [mbind exec_bind]. eexists _, _, _. split; [done|]. split_and!; [done|by apply tcp_clean_app|done].
Qed.

(** Reading touches sessions and statistics only, and writes only datagrams. *)
Lemma dl_handle_ok m env f (s : dl_state E) :
  client_ok m (dl_client s) ∧ tcp_clean (dl_effects s) →
  client_ok m (dl_client (dl_handle env f s)) ∧ tcp_clean (dl_effects (dl_handle env f s)).
Proof.
  destruct s as [c eff t]; cbn [dl_client dl_effects]. intros [Hc He]. unfold dl_handle; cbn [dl_client dl_effects dl_ticks].
  destruct (h_Type (f_Header f) =? PacketTypeControl); [done|]. unfold handleDownstreamPacket.
  destruct (h_Type (f_Header f) =? PacketTypeHeartbeat); [cbn; by rewrite app_nil_r|].
  destruct (Decrypt _ _) as [d|].
  2: { cbn. rewrite app_nil_r. split; [by apply client_ok_stats|done]. }
  destruct (sessionsByID c !! _) as [p|]; [|cbn; by rewrite app_nil_r].
  destruct (heap c !! p); [|cbn; by rewrite app_nil_r].
  destruct (negb _); cbn [dl_client dl_effects]; (split; [|apply tcp_clean_app; [done|repeat constructor]]).
  - by apply client_ok_stats.
  - apply client_ok_touch; [done|]. by apply client_ok_stats, client_ok_stats.
Qed.

Lemma read_ok m c b chunk env total :
  params_ok → client_ok m c → sb_inv b → sb_maxPayload b = reader_max → (sb_len b ≤ total)%nat →
  Z.of_nat (Len b) < Z.of_nat HeaderSize + reader_max → Z.of_nat (total + length chunk) < 2 ^ 63 →
  ∃ b' s, feed grow (dl_handle env) dl_on_read b (mkDl c [] 0) [chunk] = Ret (b', s) ∧
    client_ok m (dl_client s) ∧ tcp_clean (dl_effects s) ∧
    sb_inv b' ∧ sb_maxPayload b' = reader_max ∧ (sb_len b' ≤ total + length chunk)%nat ∧
    Z.of_nat (Len b') < Z.of_nat HeaderSize + reader_max.
Proof.
  intros Hp Hc Hi Hmx Hl Hlen Ht. pose proof (po_bits Hp) as H64.
  destruct (feed_total grow (dl_handle env) dl_on_read b (mkDl c [] 0) [chunk])
    as (b' & s & E1 & Hi' & Hm' & Hl' & Hlen'); try done.
  - rewrite H64. cbn [concat]. rewrite app_nil_r. cbn. lia.
  - rewrite Hmx. apply (po_reader Hp).
  - by rewrite Hmx.
  - exists b', s. cbn [concat] in Hl'. rewrite app_nil_r in Hl'. rewrite Hmx in Hm', Hlen'.
    assert (client_ok m (dl_client s) ∧ tcp_clean (dl_effects s)) as [Hc' He'].
    { refine (feed_invariant grow (dl_handle env) dl_on_read
        (λ s, client_ok m (dl_client s) ∧ tcp_clean (dl_effects s)) (dl_handle_ok m env) _ _ _ _ _ _ E1 _).
      - intros x y [? ?]. split; [by apply client_ok_stats|done].
      - split; [done|constructor]. }
    split_and!; try done. lia.
Qed.

(** ** The cleaner and [Stop] *)

Lemma cleanup_key_ok m key c : client_ok m c → client_ok m (cleanup_key key c).
Proof.
  intros Hc. destruct (cleanup_key_spec key c (co_table _ _ Hc)) as (Ht & _ & _ & Ep).
  apply (client_ok_ext m c); try done;
    unfold cleanup_key, load_and_delete, forget; repeat case_match; done.
Qed.

Lemma cleanup_tick_ok m now c : client_ok m c → client_ok m (cleanup_tick now c).
Proof.
  unfold cleanup_tick. generalize (expired_keys now c). intros keys. revert c.
  induction keys as [|key keys IH]; intros c Hc; [done|]. by apply IH, cleanup_key_ok.
Qed.

Lemma clientStop_ok m c : client_ok m c → client_ok m (clientStop c).1.
Proof.
  intros Hc. cbn [clientStop fst]. apply client_ok_downLanes.
  - apply client_ok_upLanes; [done|by rewrite length_fmap|]. apply Forall_fmap.
    eapply Forall_impl; [apply Hc|]. intros l (R & q & Hr & HF). exists R, q. split; [|done].
    by apply ring_at_close.
  - destruct (co_down _ _ Hc) as [El Hd]. split; [by rewrite length_fmap|]. intros i l.
    rewrite list_lookup_fmap. destruct (downstreamLanes c !! i) as [x|] eqn:Ex; [|done].
    intros [= <-]. destruct (Hd i x Ex). done.
Qed.

Lemma stop_effects_clean acts : tcp_clean (stop_effects acts).
Proof.
  induction acts as [|a acts IH]; [constructor|]. unfold stop_effects. cbn [mbind list_bind].
  apply tcp_clean_app; [|exact IH]. destruct a; repeat constructor.
Qed.

Lemma up_clear_effects_clean i conn c : tcp_clean (up_clear_effects i conn c).
Proof. unfold up_clear_effects. repeat case_match; repeat constructor. Qed.

Lemma fix_heartbeat_ok m c : client_ok m c → client_ok m (fix_heartbeat c).
Proof.
  intros Hc. unfold fix_heartbeat. case_match; [|done]. apply (client_ok_ext m c); try done.
  by destruct (co_table _ _ Hc).
Qed.

(** ** A step *)

(** What an event costs: the sessions it may make, the bytes it reads. *)
Definition new_sessions (ev : client_event) : nat := match ev with CDatagram _ _ _ => 1 | _ => 0 end.
Definition bytes_read (ev : client_event) : nat := match ev with CRead _ chunk _ => length chunk | _ => 0 end.
Definition event_ok (ev : client_event) : Prop :=
  match ev with CDatagram _ _ rand => random_ok rand | _ => True end.

Lemma set_client_ok m total st c : run_ok m total st → client_ok m c → run_ok m total (set_client c st).
Proof. by intros [] ?. Qed.

Lemma run_ok_le m m' total total' st :
  run_ok m total st → (m ≤ m')%nat → (total ≤ total')%nat → run_ok m' total' st.
Proof.
  intros [[] Hr Hp] Hm Ht. split; [split; try done; lia| |done].
  intros i conn b Hb. destruct (Hr i conn b Hb) as (? & ? & ? & ?). split_and!; try done; lia.
Qed.

Lemma downConnect_ok m total st i conn reg hello :
  params_ok → run_ok m total st → Z.of_nat m < 2 ^ 32 →
  ∃ st' eff, client_step grow (CDownConnect i conn reg hello) st = Ret (st', eff) ∧
    run_ok m total st' ∧ tcp_clean eff.
Proof.
  intros Hp Hr Hm. pose proof Hr as [Hc Hrd Hpd]. cbn [client_step].
  destruct (downstreamLanes (cs_client st) !! i) as [l|] eqn:El.
  2: { eexists _, _. split; [done|]. split; [done|constructor]. }
  assert (i < n)%nat as Hi.
  { destruct (co_down _ _ Hc) as [<- _]. by eapply lookup_lt_Some. }
  destruct (registerAll_ok m (set_downLanes (cs_client st) (alter (down_connect conn) i (downstreamLanes (cs_client st))))
    i reg Hp) as (c1 & eff1 & -> & Hc1 & He1); [by apply client_ok_alter_down|done|done|].
  cbn [mbind exec_bind].
  destruct (sendLane_ok m (fix_heartbeat c1) i ControlSubtypeHello [] hello Hp (fix_heartbeat_ok _ _ Hc1) Hi)
    as (c2 & eff2 & -> & Hc2 & He2); [by_compute|constructor|]. cbn [mbind exec_bind].
  eexists _, _. split; [done|]. split; [|by apply tcp_clean_app].
  split; cbn [cs_client cs_readers cs_pending]; [done| |].
  - intros j k b. rewrite lookup_insert. case_decide; [|apply Hrd]. intros [= <- <-].
    destruct (NewStreamBuffer_spec (BufferSize (cp_config (params c2))) (downstream_max_payload c2)) as (? & _ & Hmx & _).
    assert (downstream_max_payload c2 = reader_max) as Eq.
    { unfold downstream_max_payload. by rewrite (co_params _ _ Hc2). }
    pose proof (po_reader Hp). rewrite Eq in *. split_and!; try done; cbn; lia.
  - intros j p. rewrite lookup_insert. case_decide as Hj; [|apply Hpd]. intros [= <-]. subst j.
    split; [|done]. intros x Hx. by apply elem_of_empty in Hx.
Qed.

Lemma read_step_ok m total st i chunk env :
  params_ok → run_ok m total st → Z.of_nat (total + length chunk) < 2 ^ 63 →
  ∃ st' eff, client_step grow (CRead i chunk env) st = Ret (st', eff) ∧
    run_ok m (total + length chunk) st' ∧ tcp_clean eff.
Proof.
  intros Hp Hr Ht. pose proof Hr as [Hc Hrd Hpd]. cbn [client_step].
  destruct (cs_readers st !! i) as [[conn b]|] eqn:Er.
  2: { eexists _, _. split; [done|]. split; [|constructor]. by apply (run_ok_le m m total); [|lia|lia]. }
  destruct (Hrd i conn b Er) as (Hi & Hmx & Hl & Hlen).
  destruct (read_ok m (cs_client st) b chunk env total Hp Hc Hi Hmx Hl Hlen Ht)
    as (b' & s & -> & Hc' & He & Hb'). cbn [mbind exec_bind].
  eexists _, _. split; [done|]. split; [|done].
  split; cbn [cs_client cs_readers cs_pending]; [done| |done].
  intros j k x. rewrite lookup_insert. case_decide; [intros [= <- <-]; done|].
  intros Hx. destruct (Hrd j k x Hx) as (? & ? & ? & ?). split_and!; try done. lia.
Qed.

Lemma readEnd_ok m total st i ending :
  run_ok m total st →
  ∃ st' eff, client_step grow (CReadEnd i ending) st = Ret (st', eff) ∧ run_ok m total st' ∧ tcp_clean eff.
Proof.
  intros Hr. pose proof Hr as [Hc Hrd Hpd]. cbn [client_step].
  destruct (cs_readers st !! i) as [[conn b]|].
  2: { eexists _, _. split; [done|]. split; [done|constructor]. }
  set (c := match ending with ReadFailed => _ | _ => _ end).
  assert (client_ok m c) as Hc'.
  { unfold c. destruct ending; [done|by apply client_ok_stats|done]. }
  eexists _, _. split; [done|]. split; [|repeat constructor].
  split; cbn [cs_client cs_readers cs_pending].
  - apply client_ok_alter_down; [|done].
    by apply (keeps_lane_const (λ _, true) (λ l, if decide (dl_conn l = Some conn) then None else dl_conn l)).
  - intros j k x [_ Hx]%lookup_delete_Some. by eapply Hrd.
  - intros j x [_ Hx]%lookup_delete_Some. by eapply Hpd.
Qed.

Lemma client_step_ok m total st ev :
  params_ok → run_ok m total st → event_ok ev →
  Z.of_nat (m + new_sessions ev) < 2 ^ 32 → Z.of_nat (total + bytes_read ev) < 2 ^ 63 →
  ∃ st' eff, client_step grow ev st = Ret (st', eff) ∧
    run_ok (m + new_sessions ev) (total + bytes_read ev) st' ∧ tcp_clean eff.
Proof.
  intros Hp Hr Hev Hm Ht. pose proof Hr as [Hc Hrd Hpd].
  destruct ev as [now rd rand|i out|i conn|i conn|i conn reg hello|i chunk env|i ending|i ev out1 out2|now|];
    cbn [new_sessions bytes_read event_ok] in *; rewrite ?Nat.add_0_r in *; cbn [client_step].
  - rewrite Nat.add_1_r in *.
    destruct (handleUDP_ok m (cs_client st) now rd rand Hp Hc Hev Hm) as (r & -> & Hc').
    cbn [mbind exec_bind]. eexists _, _. split; [done|]. split; [|constructor].
    pose proof (run_ok_le m (S m) total total st Hr ltac:(lia) ltac:(lia)).
    destruct r as [c'|]; [|done]. apply set_client_ok; auto.
  - destruct (upstreamLanes (cs_client st) !! i) as [lane|] eqn:El.
    + destruct (writer_ok m (cs_client st) i lane out Hp Hc El) as (c' & eff & t & -> & Hc' & He).
      eexists _, _. split; [done|]. split; [by apply set_client_ok|done].
    + eexists _, _. split; [done|]. split; [done|constructor].
  - eexists _, _. split; [done|]. split; [|constructor]. apply set_client_ok; [done|]. by apply client_ok_alter_up.
  - eexists _, _. split; [done|]. split; [|apply up_clear_effects_clean]. apply set_client_ok; [done|].
    by apply client_ok_alter_up.
  - by apply downConnect_ok.
  - by apply read_step_ok.
  - by apply readEnd_ok.
  - destruct (cs_pending st !! i) as [p|] eqn:Ep.
    2: { eexists _, _. split; [done|]. split; [done|constructor]. }
    destruct (Hpd i p Ep) as [Hw Hi].
    destruct (control_ok m (cs_client st) i ev out1 out2 p Hp Hc Hi Hw) as (c' & eff & p' & -> & Hc' & He & Hw').
    eexists _, _. split; [done|]. split; [|done]. split; cbn [cs_client cs_readers cs_pending]; [done|done|].
    intros j x. rewrite lookup_insert. case_decide as Hj; [|apply Hpd]. intros [= <-]. by subst j.
  - eexists _, _. split; [done|]. split; [|constructor]. apply set_client_ok; [done|]. by apply cleanup_tick_ok.
  - pose proof (clientStop_ok m (cs_client st) Hc) as Hc'. destruct (clientStop (cs_client st)) as [c' acts].
    eexists _, _. split; [done|]. split; [by apply set_client_ok|apply stop_effects_clean].
Qed.

Lemma client_run_ok evs m total st :
  params_ok → run_ok m total st → Forall event_ok evs →
  Z.of_nat (m + sum_list (new_sessions <$> evs)) < 2 ^ 32 →
  Z.of_nat (total + sum_list (bytes_read <$> evs)) < 2 ^ 63 →
  ∃ st' effs, client_run grow evs st = Ret (st', effs) ∧
    run_ok (m + sum_list (new_sessions <$> evs)) (total + sum_list (bytes_read <$> evs)) st' ∧
    length effs = length evs ∧ Forall tcp_clean effs.
Proof.
  intros Hp. revert m total st. induction evs as [|ev evs IH]; intros m total st Hr Hev Hm Ht; cbn [client_run].
  { exists st, []. cbn. rewrite !Nat.add_0_r. split_and!; [done|done|done|constructor]. }
  inversion_clear Hev as [|? ? Hev1 Hevs]. cbn [fmap list_fmap sum_list sum_list_with id] in *; unfold id in *.
  destruct (client_step_ok m total st ev Hp Hr Hev1 ltac:(lia) ltac:(lia)) as (st1 & eff & -> & Hr1 & He).
  cbn [mbind exec_bind]. rewrite Nat.add_assoc in Hm, Ht.
  destruct (IH _ _ st1 Hr1 Hevs Hm Ht) as (st2 & effs & -> & Hr2 & Hl & Hes). cbn [mbind exec_bind].
  exists st2, (eff :: effs). rewrite !Nat.add_assoc. cbn [length]. split_and!; [done|done|lia|by constructor].
Qed.

End Invariant.

(** ** From the configuration *)

(** A client that [New] makes from a loaded configuration is ready to run. *)
Lemma ClientNew_run_ok `{IntWidth} {E Block} `{CryptoLib E Block, !CryptoLibSpec E Block _}
    now cfg (c : Client E) l :
  int_bits = 64 → config_ok cfg → MaxPacketSize cfg < 2 ^ 30 → ClientNew now cfg = Ret (Some (Ok c)) →
  let c := set_listener c (Some l) in
  params_ok (params c) (length (downstreamLanes c)) ∧
  client_ok (params c) (length (downstreamLanes c)) 0 c ∧ cp_config (params c) = cfg ∧
  Forall (λ l, ring_at (slot_size (params c)) (ul_ring l) 0 [] ∧ ul_conn l = None) (upstreamLanes c) ∧
  Forall (λ l, dl_conn l = None) (downstreamLanes c).
Proof.
  intros H64 Hcfg Hmax Hn. pose proof (ok_packet _ Hcfg) as Hpk.
  destruct (ok_lanes _ Hcfg) as [Hul Hdl]. pose proof (ok_queue _ Hcfg) as Hq.
  destruct (ok_up_batch _ Hcfg) as (Hbp & Hbb & Hbd).
  pose proof (ClientNew_inv now cfg c Hn ltac:(lia)) as Htab.
  destruct (ClientNew_upstream now cfg c Hn ltac:(lia) ltac:(lia) ltac:(lia)) as ([Hup Hmx Hsz] & HC & Hzc & Hcf & HF).
  assert (∃ dc, CipherSpec dc ∧ cp_downstreamCipher (params c) = dc ∧ length (downstreamLanes c) = 4%nat ∧
    next c = 0%nat ∧ cp_upstreamBatchMaxPackets (params c) = UpstreamBatchMaxPackets cfg ∧
    cp_upstreamBatchMaxBytes (params c) = UpstreamBatchMaxBytes cfg ∧
    cp_upstreamBatchMaxDelay (params c) = milliseconds (UpstreamBatchMaxDelayMs cfg) ∧
    downstreamLanes c = make_downLanes 4) as (dc & HD & Edc & Hdn & Hnx & Ep & Eb & Ed & Edl).
  { unfold ClientNew in Hn. pose proof (NewCipher_cases _ (DownstreamCrypto cfg)) as Hc.
    destruct (NewCipher (UpstreamCrypto cfg)) as [[uc|]|]; try done. cbn [mbind exec_bind] in Hn.
    destruct (NewCipher (DownstreamCrypto cfg)) as [[dc|]|]; try done. cbn [mbind exec_bind] in Hn.
    destruct (make_upLanes _ _ _ _) as [[ups|]|]; try done. injection Hn as <-.
    exists dc. rewrite Hdl. split; [apply Hc|]. done. }
  pose proof (Overhead_small (c := cp_upstreamCipher (params c))) as Hou.
  pose proof (Overhead_small (c := dc)) as Hod. rewrite Hcf in Hmx, Hsz.
  cbv zeta. cbn [set_listener params downstreamLanes]. split; [|split; [|split; [exact Hcf|split]]].
  - split; cbn; try done.
    + lia.
    + rewrite Ed, Hbd. by_compute.
    + lia.
    + rewrite Eb, Hbb. unfold HeaderSize in *. lia.
    + rewrite Hcf. done.
    + rewrite Hcf. lia.
    + unfold reader_max. cbn. rewrite Hcf, Edc, go_int_small; lia.
  - pose proof Htab as []. split; cbn [params set_listener upstreamLanes downstreamLanes next]; try done.
    + lia.
    + eapply Forall_impl; [exact HF|]. intros x (Hr & _ & _). exists 0%nat, []. done.
    + split; [done|]. rewrite Edl. intros i lane. unfold make_downLanes. rewrite list_lookup_fmap.
      intros (j & Hj & ->)%fmap_Some. apply lookup_seq in Hj as [-> _]. done.
  - eapply Forall_impl; [exact HF|]. by intros x (Hr & _ & Hc).
  - rewrite Edl. by apply Forall_fmap, Forall_true.
Qed.

(** The state of the client when [Start] returns: nothing read, nothing connected. *)
Definition started_state {E} (c : Client E) : client_state E := mkCS c ∅ ∅.

Lemma started_run_ok `{IntWidth} {E} P n (c : Client E) : client_ok P n 0 c → run_ok P n 0 0 (started_state c).
Proof. intros Hc. split; [done|by intros ? ? ?|by intros]. Qed.

Lemma Load_ok {E D} (read : result E D) decode cfg : Load read decode = Ok cfg → config_ok cfg.
Proof.
  unfold Load. destruct read as [d|]; [|done]. destruct (decode d) as [x|]; [|done].
  intros [= <-]. apply setDefaults_ok.
Qed.

Lemma clientStart_listener {E X} (env : start_env X) (c0 c : Client E) gs w :
  clientStart env c0 = (c, gs, w, None) → ∃ l, c = set_listener c0 (Some l).
Proof.
  unfold clientStart. destruct (se_resolve env) as [a|]; [|done].
  destruct (se_listen env _ a) as [l|]; [|done]. intros [= <- _ _]. by exists l.
Qed.

(** ** A concrete schedule, for the witness *)

(** One session: its datagram is written, its id registered, a reply of one frame
    read in two parts; then writes fail, the session is cleaned, the client stops. *)
Definition sample_schedule : list client_event :=
  let rand := λ k, Some (replicate k x00) in
  let env := λ _, mkEnv 5 true in
  let reply := wire (mkFrame (NewDataPacket 1 1 2) [x61; x62]) in
  [CUpConnect 1 50; CDownConnect 1 60 Written Written;
   CDatagram 1 (Datagram sample_peer [x01; x02]) rand; CWriter 1 Written;
   CControl 1 EvRegister Written Written; CControl 1 EvFlush Written Written;
   CRead 1 (take 7 reply) env; CRead 1 (drop 7 reply) env;
   CDatagram 2 (Datagram sample_peer [x03]) rand; CWriter 1 (WriteError 3);
   CControl 1 EvHeartbeat (WriteError 1) (WriteError 1); CReadEnd 1 ReadFailed;
   CCleanup (seconds 1000); CStop].

Definition loaded_client : Client unit :=
  match @ClientNew unit int64_target (list byte) toy_lib 0 (setDefaults sample_config) with
  | Ret (Some (Ok c)) => c
  | _ => sample_client
  end.

Lemma loaded_client_new :
  @ClientNew unit int64_target (list byte) toy_lib 0 (setDefaults sample_config) =
    Ret (Some (Ok loaded_client)).
Proof.
  assert (match @ClientNew unit int64_target (list byte) toy_lib 0 (setDefaults sample_config) with
    Ret (Some (Ok _)) => true | _ => false end = true) as Hok by (vm_compute; reflexivity).
  unfold loaded_client. destruct (ClientNew _ _) as [[[|]|]|]; [reflexivity|discriminate Hok..].
Qed.

(** ** Theorems *)

(** C6: no schedule makes the client panic. A client built from a loaded
    configuration and started runs through any sequence of turns of its goroutines
    (datagrams from any address, writers, connections made and lost, reads of any
    bytes, control messages, cleaning, Stop), with any clock, any outcome of every
    write and any reconnection, for fewer than [2^32] datagrams read and [2^63]
    bytes: every turn returns, what each turn writes on a TCP connection is whole
    frames or is followed by the closing of that connection, the unread bytes of
    every reader stay below one frame, every ring holds whole frames only, and the
    gauge counts the sessions. *)
Theorem client_never_panics `{IntWidth} {D E E' X Block} `{CryptoLib E Block, !CryptoLibSpec E Block _}
    (grow : nat → nat → nat) (read : result E' D) decode cfg now (env : start_env X) (c0 c : Client E) gs w evs :
  int_bits = 64 → Load read decode = Ok cfg → MaxPacketSize cfg < 2 ^ 30 →
  ClientNew now cfg = Ret (Some (Ok c0)) → clientStart env c0 = (c, gs, w, None) →
  Forall event_ok evs →
  Z.of_nat (sum_list (new_sessions <$> evs)) < 2 ^ 32 → Z.of_nat (sum_list (bytes_read <$> evs)) < 2 ^ 63 →
  ∃ st effs, client_run grow evs (started_state c) = Ret (st, effs) ∧
    length effs = length evs ∧ Forall tcp_clean effs ∧
    (∀ i conn b, cs_readers st !! i = Some (conn, b) →
       Z.of_nat (Len b) < Z.of_nat HeaderSize + reader_max (params c)) ∧
    (∀ i lane, upstreamLanes (cs_client st) !! i = Some lane →
       ∃ R q, ring_at (slot_size (params c)) (ul_ring lane) R q ∧ Forall is_frame q) ∧
    ActiveSessions (stats (cs_client st)) = i32 (Z.of_nat (size (sessions (cs_client st)))).
Proof.
  intros H64 HL Hmax Hn Hst Hev Hm Ht.
  pose proof (Load_ok read decode cfg HL) as Hcfg.
  destruct (clientStart_listener env c0 c gs w Hst) as [l ->].
  destruct (ClientNew_run_ok now cfg c0 l H64 Hcfg Hmax Hn) as (Hp & Hc & _).
  destruct (client_run_ok grow _ _ evs 0 0 (started_state (set_listener c0 (Some l))) Hp
    (started_run_ok _ _ _ Hc)) as (st & effs & E1 & [Hc' Hrd _] & Hl & He); [done|done|done|].
  exists st, effs. split; [exact E1|]. split; [done|]. split; [done|]. split; [|split].
  - intros i conn b Hb. by destruct (Hrd i conn b Hb) as (_ & _ & _ & ?).
  - pose proof (co_rings _ _ _ _ Hc') as HF. rewrite Forall_lookup in HF. exact HF.
  - rewrite (ti_gauge _ _ (co_table _ _ _ _ Hc')). f_equal. lia.
Qed.

Lemma client_never_panics_witness :
  ∃ st effs, @client_run int64_target unit (λ _ k, k) sample_schedule
      (started_state (set_listener loaded_client (Some 7%nat))) = Ret (st, effs) ∧
    length effs = 14%nat ∧ Forall tcp_clean effs.
Proof.
  destruct (@client_never_panics int64_target unit unit unit unit (list byte) toy_lib _
    (λ _ k, k) (Ok tt) (λ _, Ok sample_config) (setDefaults sample_config) 0
    (mkStartEnv unit (Ok (mkUDPAddr [x7f; x00; x00; x01] 5353 EmptyString)) (λ _ _, Ok 7%nat) (λ _, None) (λ _, None))
    loaded_client (set_listener loaded_client (Some 7%nat)) (started (set_listener loaded_client (Some 7%nat))) 0%nat
    sample_schedule) as (st & effs & E1 & Hl & He & _).
  - reflexivity.
  - reflexivity.
  - vm_compute; reflexivity.
  - exact loaded_client_new.
  - reflexivity.
  - repeat constructor; cbn; intros k l [= <-]; apply length_replicate.
  - vm_compute; reflexivity.
  - vm_compute; reflexivity.
  - exists st, effs. split; [exact E1|]. split; [exact Hl|exact He].
Defined.
