(* ===== verification/Server.v ===== *)
(** * The server: data, sessions and the two data paths (internal/server/server.go)

    [Server] is the structure of the source, its fixed fields grouped in
    [ServerParams]; sessions are pointers into a heap. Upstream: a decoded frame
    reaches [handleUpstreamPacket], which decrypts it, finds or creates the
    backend session and writes the payload to the session's socket, through the
    reorder window in stripe mode. Downstream: [handleBackendData] reads the
    socket and [sendToDownstream] encrypts, frames and queues the datagram on the
    lane of the session, whose [downstreamWriter] writes batches to the lane's
    connection.

    What the environment answers is given by [srv_env]: the [k]-th write to a
    backend socket succeeds when [env_write k], the backend's address resolves to
    [env_resolve], dialling gives [env_dial]; the clock is an argument. *)

From S2P Require Import Prelude.
From S2P Require Import Words.
From S2P Require Import Packet.
From S2P Require Import Stats.
From S2P Require Import NetErrors.
From S2P Require Import Config.
From S2P Require Import Crypto.
From S2P Require Import Session.
From S2P Require Import Ring.
From S2P Require Import Client.
From S2P Require Import Upstream.
From S2P Require Import Reorder.

(** ** Data *)

(** [ch] is the queue of a channel of capacity 32768. *)
Record downstreamWriter := mkWriter {
  dw_laneID : nat;
  dw_batchMaxPackets : Z;
  dw_batchMaxBytes : Z;
  dw_batchMaxDelay : Z;
  dw_ch : list (list byte);
  dw_conn : option conn_id
}.

Definition writer_cap : Z := 32768.

Record ServerParams (E : Type) := mkServerParams {
  sp_config : Config;
  sp_maxUpstreamPayload : Z;
  sp_upstreamCipher : Cipher E;
  sp_downstreamCipher : Cipher E;
  sp_upstreamStripeEnabled : bool;
  sp_upstreamReorderWindow : Z;
  sp_upstreamReorderHold : Z
}.
Arguments mkServerParams {E}.
Arguments sp_config {E}.
Arguments sp_maxUpstreamPayload {E}.
Arguments sp_upstreamCipher {E}.
Arguments sp_downstreamCipher {E}.
Arguments sp_upstreamStripeEnabled {E}.
Arguments sp_upstreamReorderWindow {E}.
Arguments sp_upstreamReorderHold {E}.

(** [readers] are the sessions a [handleBackendData] goroutine runs for;
    [effects] is what the process has done to the network, and [writes] the number
    of backend writes it has tried. *)
Record Server (E : Type) := mkServer {
  sv_params : ServerParams E;
  sv_heap : gmap ptr BackendSession;
  sv_next : ptr;
  sv_sessions : gmap Z ptr;
  downWriters : list downstreamWriter;
  sessionLaneMap : gmap Z Z;
  upstreamReorderStates : gmap Z upstreamReorderState;
  sv_stats : Stats;
  readers : list ptr;
  effects : list effect;
  writes : nat
}.
Arguments mkServer {E}.
Arguments sv_params {E}.
Arguments sv_heap {E}.
Arguments sv_next {E}.
Arguments sv_sessions {E}.
Arguments downWriters {E}.
Arguments sessionLaneMap {E}.
Arguments upstreamReorderStates {E}.
Arguments sv_stats {E}.
Arguments readers {E}.
Arguments effects {E}.
Arguments writes {E}.

(** What resolving the backend address and dialling it come to. *)
Inductive backend_dial :=
| ResolveError
| DialError
| Dialled (addr : UDPAddr) (conn : conn_id).

Record srv_env := mkSrvEnv {
  env_write : nat → bool;
  env_resolve : option UDPAddr;                      (* net.ResolveUDPAddr *)
  env_dial : string → UDPAddr → option conn_id       (* net.DialUDP *)
}.

(** Resolving the address, choosing the network and dialling. That the socket's
    buffers could not be enlarged is only logged. *)
Definition env_backend (env : srv_env) : backend_dial :=
  match env_resolve env with
  | None => ResolveError
  | Some backendAddr =>
      let backendNetwork : string := if To4 (ua_IP backendAddr) then "udp4" else "udp" in
      match env_dial env backendNetwork backendAddr with
      | None => DialError
      | Some udpConn => Dialled backendAddr udpConn
      end
  end.

Section Server.
Context {E : Type}.
Implicit Types s : Server E.

Definition sv_set_stats s (st : Stats) : Server E :=
  mkServer (sv_params s) (sv_heap s) (sv_next s) (sv_sessions s) (downWriters s) (sessionLaneMap s)
    (upstreamReorderStates s) st (readers s) (effects s) (writes s).
Definition sv_set_heap s (h : gmap ptr BackendSession) : Server E :=
  mkServer (sv_params s) h (sv_next s) (sv_sessions s) (downWriters s) (sessionLaneMap s)
    (upstreamReorderStates s) (sv_stats s) (readers s) (effects s) (writes s).
Definition sv_set_writers s (l : list downstreamWriter) : Server E :=
  mkServer (sv_params s) (sv_heap s) (sv_next s) (sv_sessions s) l (sessionLaneMap s)
    (upstreamReorderStates s) (sv_stats s) (readers s) (effects s) (writes s).
Definition sv_set_laneMap s (m : gmap Z Z) : Server E :=
  mkServer (sv_params s) (sv_heap s) (sv_next s) (sv_sessions s) (downWriters s) m
    (upstreamReorderStates s) (sv_stats s) (readers s) (effects s) (writes s).
Definition sv_set_reorder s (m : gmap Z upstreamReorderState) : Server E :=
  mkServer (sv_params s) (sv_heap s) (sv_next s) (sv_sessions s) (downWriters s) (sessionLaneMap s)
    m (sv_stats s) (readers s) (effects s) (writes s).
Definition sv_set_sessions s (m : gmap Z ptr) : Server E :=
  mkServer (sv_params s) (sv_heap s) (sv_next s) m (downWriters s) (sessionLaneMap s)
    (upstreamReorderStates s) (sv_stats s) (readers s) (effects s) (writes s).
Definition sv_set_readers s (l : list ptr) : Server E :=
  mkServer (sv_params s) (sv_heap s) (sv_next s) (sv_sessions s) (downWriters s) (sessionLaneMap s)
    (upstreamReorderStates s) (sv_stats s) l (effects s) (writes s).
Definition sv_emit s (e : list effect) : Server E :=
  mkServer (sv_params s) (sv_heap s) (sv_next s) (sv_sessions s) (downWriters s) (sessionLaneMap s)
    (upstreamReorderStates s) (sv_stats s) (readers s) (effects s ++ e) (writes s).
Definition sv_count_write s : Server E :=
  mkServer (sv_params s) (sv_heap s) (sv_next s) (sv_sessions s) (downWriters s) (sessionLaneMap s)
    (upstreamReorderStates s) (sv_stats s) (readers s) (effects s) (S (writes s)).
Definition sv_upd_session s (p : ptr) (f : BackendSession → BackendSession) : Server E :=
  sv_set_heap s (alter f p (sv_heap s)).

(** ** Construction *)

Definition newDownstreamWriter (laneID : nat) (packets bytes delay : Z) : downstreamWriter :=
  mkWriter laneID (Z.max 1 packets) (Z.max 1 bytes) (Z.max 0 delay) [] None.

Inductive server_error :=
| ErrSrvUpstreamCipher (e : cipher_error E)
| ErrSrvDownstreamCipher (e : cipher_error E).

Definition ServerNew `{IntWidth} {Block} `{CryptoLib E Block} (now : Z) (cfg : Config)
    : exec (result server_error (Server E)) :=
  up ← NewCipher (UpstreamCrypto cfg);
  match up with
  | Err e => Ret (Err (ErrSrvUpstreamCipher e))
  | Ok upstreamCipher =>
      down ← NewCipher (DownstreamCrypto cfg);
      match down with
      | Err e => Ret (Err (ErrSrvDownstreamCipher e))
      | Ok downstreamCipher =>
          let maxUpstreamPayload := go_int (MaxPacketSize cfg + Z.of_nat (Overhead upstreamCipher)) in
          let downLaneCount := Z.max 1 (DownstreamLaneCount cfg) in
          Ret (Ok (mkServer
            (mkServerParams cfg maxUpstreamPayload upstreamCipher downstreamCipher
               (UpstreamStripeEnabled cfg) (UpstreamReorderWindow cfg)
               (milliseconds (UpstreamReorderHoldMs cfg)))
            ∅ 0%nat ∅
            ((λ i, newDownstreamWriter i (DownstreamBatchMaxPackets cfg)
                     (DownstreamBatchMaxBytes cfg) (milliseconds (DownstreamBatchMaxDelayMs cfg))) <$>
               seq 0 (Z.to_nat downLaneCount))
            ∅ ∅ (NewStats now) [] [] 0%nat))
      end
  end.

(** ** The lanes' connections *)

Definition setConn (conn : option conn_id) (w : downstreamWriter) : downstreamWriter :=
  mkWriter (dw_laneID w) (dw_batchMaxPackets w) (dw_batchMaxBytes w) (dw_batchMaxDelay w) (dw_ch w) conn.

Definition clearConn (conn : conn_id) (w : downstreamWriter) : downstreamWriter :=
  if decide (dw_conn w = Some conn) then setConn None w else w.

Definition enqueue (frame : list byte) (w : downstreamWriter) : bool * downstreamWriter :=
  if Z.of_nat (length (dw_ch w)) <? writer_cap
  then (true, mkWriter (dw_laneID w) (dw_batchMaxPackets w) (dw_batchMaxBytes w)
                (dw_batchMaxDelay w) (dw_ch w ++ [frame]) (dw_conn w))
  else (false, w).

Definition adaptiveDelay (w : downstreamWriter) : Z :=
  adaptive_delay (dw_batchMaxDelay w) (dw_batchMaxPackets w) (Z.of_nat (length (dw_ch w))).

Definition in_lanes (laneID : Z) s : bool :=
  negb ((laneID <? 0) || (Z.of_nat (length (downWriters s)) <=? laneID)).

Definition setDownstreamConnForLane (laneID : Z) (conn : conn_id) s : Server E :=
  if in_lanes laneID s
  then sv_set_writers s (alter (setConn (Some conn)) (Z.to_nat laneID) (downWriters s))
  else s.

Definition clearDownstreamConnForLane (laneID : Z) (conn : conn_id) s : Server E :=
  if in_lanes laneID s
  then sv_set_writers s (alter (clearConn conn) (Z.to_nat laneID) (downWriters s))
  else s.

Definition laneForSession (sessionID : Z) s : exec Z :=
  let fallback := i ← lane_index sessionID (length (downWriters s)); Ret (Z.of_nat i) in
  match sessionLaneMap s !! sessionID with
  | Some laneID => if in_lanes laneID s then Ret laneID else fallback
  | None => fallback
  end.

(** ** Upstream *)

(** A socket that was never set answers with an error, like one that fails. *)
Definition writeBackendPacket (env : srv_env) (p : ptr) (payload : list byte) s : bool * Server E :=
  let ok := env_write env (writes s) in
  let s := sv_count_write s in
  match bs_conn <$> sv_heap s !! p with
  | Some (Some conn) =>
      if ok then
        let s := sv_emit s [BackendWrite conn payload] in
        let s := sv_set_stats s (AddBytesSent (sv_stats s) (u64 (Z.of_nat (length payload)))) in
        (true, sv_set_stats s (AddPacketsSent (sv_stats s) 1))
      else (false, sv_set_stats s (AddError (sv_stats s)))
  | _ => (false, sv_set_stats s (AddError (sv_stats s)))
  end.

Definition writeUpstreamToBackend (env : srv_env) (now : Z) (p : ptr) (sessionID seq : Z)
    (payload : list byte) s : Server E :=
  if negb (sp_upstreamStripeEnabled (sv_params s)) then (writeBackendPacket env p payload s).2
  else
    let state := default new_reorder (upstreamReorderStates s !! sessionID) in
    let '(state, s) :=
      reorder_write (writeBackendPacket env p) (sp_upstreamReorderWindow (sv_params s))
        (sp_upstreamReorderHold (sv_params s)) now seq payload state s in
    sv_set_reorder s (<[sessionID := state]> (upstreamReorderStates s)).

Definition handleUpstreamPacket (env : srv_env) (now : Z) (header : PacketHeader)
    (data : list byte) s : Server E :=
  let s := sv_set_stats s (AddPacketsReceived (sv_stats s) 1) in
  let s := sv_set_stats s (AddBytesReceived (sv_stats s) (u64 (Z.of_nat (HeaderSize + length data)))) in
  match Decrypt (sp_upstreamCipher (sv_params s)) data with
  | Err _ => sv_set_stats s (AddError (sv_stats s))
  | Ok decryptedData =>
      match sv_sessions s !! h_SessionID header with
      | Some p =>
          let s := sv_upd_session s p (bs_UpdateLastActive now) in
          writeUpstreamToBackend env now p (h_SessionID header) (h_SequenceID header) decryptedData s
      | None =>
          match env_backend env with
          | ResolveError | DialError => sv_set_stats s (AddError (sv_stats s))
          | Dialled addr conn =>
              let p := S (sv_next s) in
              let sess := NewBackendSession now (h_SessionID header) (Some conn) addr None in
              let s := mkServer (sv_params s) (<[p := sess]> (sv_heap s)) p
                         (<[h_SessionID header := p]> (sv_sessions s)) (downWriters s) (sessionLaneMap s)
                         (upstreamReorderStates s) (sv_stats s) (p :: readers s) (effects s) (writes s) in
              let s := sv_set_stats s (AddActiveSession (sv_stats s)) in
              writeUpstreamToBackend env now p (h_SessionID header) (h_SequenceID header) decryptedData s
          end
      end
  end.

(** ** Downstream *)

Definition sendToDownstream (p : ptr) (data : list byte) (rand : random) s : exec (Server E) :=
  match sv_heap s !! p with
  | None => Panic
  | Some sess =>
      laneID ← laneForSession (bs_sessionID sess) s;
      if negb (in_lanes laneID s) then Ret s
      else
        match Encrypt (sp_downstreamCipher (sv_params s)) rand data with
        | Err _ => Ret (sv_set_stats s (AddError (sv_stats s)))
        | Ok encryptedData =>
            let '(sequenceID, sess') := bs_NextSequenceID sess in
            let s := sv_set_heap s (<[p := sess']> (sv_heap s)) in
            let header := NewDataPacket (bs_sessionID sess) sequenceID
                            (u32 (Z.of_nat (length encryptedData))) in
            head ← MarshalTo header (replicate HeaderSize x00);
            let frame := head ++ encryptedData in
            match downWriters s !! Z.to_nat laneID with
            | None => Panic
            | Some w =>
                let '(ok, w) := enqueue frame w in
                let s := sv_set_writers s (<[Z.to_nat laneID := w]> (downWriters s)) in
                Ret (if ok then s else sv_set_stats s (AddError (sv_stats s)))
            end
        end
  end.

(** One turn of [handleBackendData]'s loop: the context is done, or a datagram of
    the backend arrives (truncated to the buffer), or an error ends the loop. *)
Inductive backend_read :=
| BackendStopped
| BackendDatagram (data : list byte)
| BackendReadError (err : net_error).

(** The deferred function of [handleBackendData]. *)
Definition backend_exit (p : ptr) s : Server E :=
  match sv_heap s !! p with
  | None => s
  | Some sess =>
      let s := match bs_Close sess with Some c => sv_emit s [BackendClose c] | None => s end in
      let s := sv_set_readers s (filter (λ q, q ≠ p) (readers s)) in
      match sv_sessions s !! bs_sessionID sess with
      | None => s
      | Some _ =>
          let s := sv_set_sessions s (delete (bs_sessionID sess) (sv_sessions s)) in
          let s := sv_set_laneMap s (delete (bs_sessionID sess) (sessionLaneMap s)) in
          let s := sv_set_reorder s (delete (bs_sessionID sess) (upstreamReorderStates s)) in
          sv_set_stats s (RemoveActiveSession (sv_stats s))
      end
  end.

Definition handleBackendData (now : Z) (p : ptr) (rd : backend_read) (rand : random) s
    : exec (Server E * bool) :=
  match rd with
  | BackendStopped => Ret (backend_exit p s, false)
  | BackendReadError err =>
      let s := if negb (isTimeoutError (Some err)) && negb (sv_isClosedError (Some err)) then sv_set_stats s (AddError (sv_stats s)) else s in
      Ret (backend_exit p s, false)
  | BackendDatagram data =>
      let data := take (Z.to_nat (MaxPacketSize (sp_config (sv_params s)))) data in
      let s := sv_set_stats s (AddBytesReceived (sv_stats s) (u64 (Z.of_nat (length data)))) in
      let s := sv_set_stats s (AddPacketsReceived (sv_stats s) 1) in
      let s := sv_upd_session s p (bs_UpdateLastActive now) in
      s ← sendToDownstream p data rand s;
      Ret (s, true)
  end.

(** ** The writer of a lane *)

(** Taking queued frames into the batch while it has room. The byte count stays
    below the limit plus one frame, so it is not wrapped. *)
Fixpoint take_frames (fuel : nat) (maxPackets maxBytes : Z) (ch batch : list (list byte)) (batchBytes : Z)
    : list (list byte) * list (list byte) :=
  match fuel, ch with
  | S fuel, frame :: ch =>
      if (Z.of_nat (length batch) <? maxPackets) && (batchBytes <? maxBytes)
      then take_frames fuel maxPackets maxBytes ch (batch ++ [frame]) (batchBytes + Z.of_nat (length frame))
      else (frame :: ch, batch)
  | _, _ => (ch, batch)
  end.

(** [flush]: [AsyncWritev] fails when [ok] is false. A lane without a connection
    drops the batch; the counters are updated even when the write fails. *)
Definition flush_downstream (i : nat) (batch : list (list byte)) (ok : bool) s : Server E :=
  match batch, dw_conn <$> downWriters s !! i with
  | [], _ => s
  | _, Some (Some conn) =>
      let s := if ok then sv_emit s [TcpWrite conn (concat batch)]
               else sv_set_stats s (AddError (sv_stats s)) in
      foldl (λ s frame,
        let s := sv_set_stats s (AddBytesSent (sv_stats s) (u64 (Z.of_nat (length frame)))) in
        sv_set_stats s (AddPacketsSent (sv_stats s) 1)) s batch
  | _, _ => s
  end.

Definition set_ch (w : downstreamWriter) (ch : list (list byte)) : downstreamWriter :=
  mkWriter (dw_laneID w) (dw_batchMaxPackets w) (dw_batchMaxBytes w) (dw_batchMaxDelay w) ch (dw_conn w).

(** One turn of [run]: the select finds the context done ([stop]), or a frame
    arrives, the timer may run ([sleep] is what the others do meanwhile, [None] when
    the context is done first), then the batch is filled and flushed. The flag says
    whether the loop goes on; there is no turn while the queue is empty. *)
Definition writer_run (i : nat) (stop : bool) (sleep : Z → Server E → option (Server E)) (ok : bool) s
    : option (Server E * bool) :=
  if stop then Some (s, false) else
  w ← downWriters s !! i;
  match dw_ch w with
  | [] => None
  | frame :: ch =>
      let s := sv_set_writers s (<[i := set_ch w ch]> (downWriters s)) in
      let bytes := Z.of_nat (length frame) in
      let delay := adaptiveDelay (set_ch w ch) in
      let waits := (1 <? dw_batchMaxPackets w) && (bytes <? dw_batchMaxBytes w) && (0 <? delay) in
      match (if waits then sleep delay s else Some s) with
      | None => Some (flush_downstream i [frame] ok s, false)
      | Some s =>
          w ← downWriters s !! i;
          let '(ch, batch) := take_frames (length (dw_ch w)) (dw_batchMaxPackets w) (dw_batchMaxBytes w)
                                (dw_ch w) [frame] bytes in
          let s := sv_set_writers s (<[i := set_ch w ch]> (downWriters s)) in
          Some (flush_downstream i batch ok s, true)
      end
  end.

(** ** Cleaning *)

Definition sv_expired (now : Z) s (p : ptr) : bool :=
  match sv_heap s !! p with
  | Some sess => bs_IsExpired now (seconds (SessionTimeout (sp_config (sv_params s)))) sess
  | None => false
  end.

(** The ids [Range] collects: those of the expired session objects. *)
Definition sv_expired_ids (now : Z) s : list Z :=
  omap (λ kp : Z * ptr, if sv_expired now s kp.2 then bs_sessionID <$> sv_heap s !! kp.2 else None)
    (map_to_list (sv_sessions s)).

Definition sv_cleanup_id (id : Z) s : Server E :=
  match sv_sessions s !! id with
  | None => s
  | Some p =>
      let s := sv_set_sessions s (delete id (sv_sessions s)) in
      let s := match bs_Close <$> sv_heap s !! p with
               | Some (Some c) => sv_emit s [BackendClose c]
               | _ => s
               end in
      let s := sv_set_laneMap s (delete id (sessionLaneMap s)) in
      let s := sv_set_reorder s (delete id (upstreamReorderStates s)) in
      sv_set_stats s (RemoveActiveSession (sv_stats s))
  end.

Definition sv_cleanup_tick (now : Z) s : Server E :=
  foldl (λ s id, sv_cleanup_id id s) s (sv_expired_ids now s).

(** [closeSessions]. *)
Definition closeSessions s : Server E :=
  sv_emit s (omap (λ kp : Z * ptr,
      match bs_Close <$> sv_heap s !! kp.2 with
      | Some (Some c) => Some (BackendClose c)
      | _ => None
      end) (map_to_list (sv_sessions s))).

(** ** Buffers of upstream payloads *)

(** [getUpstreamPayload]: the length and capacity of what it returns, from a pool
    whose buffers have [maxUpstreamPayload] bytes; [None] is the nil slice. *)
Definition getUpstreamPayload (size : Z) s : option (Z * Z) :=
  if size <=? 0 then None
  else if (0 <? sp_maxUpstreamPayload (sv_params s)) && (size <=? sp_maxUpstreamPayload (sv_params s))
  then Some (size, sp_maxUpstreamPayload (sv_params s))
  else Some (size, size).

(** [putUpstreamPayload]: whether a buffer of this capacity goes back to the pool. *)
Definition putUpstreamPayload (buf : option (Z * Z)) s : bool :=
  match buf with
  | None => false
  | Some (_, cap) => (0 <? sp_maxUpstreamPayload (sv_params s)) && (cap =? sp_maxUpstreamPayload (sv_params s))
  end.

End Server.
Arguments server_error : clear implicits.
