(* ===== verification/Handlers.v ===== *)
(** * The server's event handlers (internal/server/handlers.go)

    gnet calls [OnTraffic] when bytes have arrived on a connection; the handler
    cuts frames off the connection's inbound buffer. Both handlers have the same
    loop, with different limits and bodies: [frame_loop]. The inbound buffer is
    gnet's: [GnetReader] are the operations the loop uses and [GnetSpec] what their
    documentation says of them, for positive counts. A frame without payload (an
    empty datagram under a cipher that adds no bytes) makes the loop call [Next]
    with a count of 0, of which the documentation does not speak: the theorems are
    about frames with a payload.

    The second part is the downstream handler's registration of lanes. *)

From S2P Require Import Prelude.
From S2P Require Import Words.
From S2P Require Import Packet.
From S2P Require Import Control.
From S2P Require Import Stream.
From S2P Require Import Stats.
From S2P Require Import Config.
From S2P Require Import Crypto.
From S2P Require Import Session.
From S2P Require Import Ring.
From S2P Require Import Client.
From S2P Require Import Reorder.
From S2P Require Import Server.

(** ** The inbound buffer *)

(** [Peek], [Discard] and [Next] of [gnet.Conn] as functions on the buffered
    bytes; [None] is an error. *)
Class GnetReader := {
  gnet_Peek : Z → list byte → option (list byte);
  gnet_Discard : Z → list byte → option (list byte);
  gnet_Next : Z → list byte → option (list byte * list byte)
}.

Class GnetSpec (G : GnetReader) : Prop := {
  Peek_ok n buf : 0 < n ≤ Z.of_nat (length buf) → gnet_Peek n buf = Some (take (Z.to_nat n) buf);
  Discard_ok n buf : 0 < n ≤ Z.of_nat (length buf) → gnet_Discard n buf = Some (drop (Z.to_nat n) buf);
  Next_ok n buf : 0 < n ≤ Z.of_nat (length buf) →
    gnet_Next n buf = Some (take (Z.to_nat n) buf, drop (Z.to_nat n) buf)
}.

(** ** The frame loop *)

Section Loop.
Context `{IntWidth} `{G : GnetReader} {St : Type}.
Variable max : Z.
Variable handle : Frame → St → St.

(** [c.Discard(c.InboundBuffered())], its result ignored. *)
Definition discard_all (buf : list byte) : list byte :=
  default buf (gnet_Discard (Z.of_nat (length buf)) buf).

(** One turn reads at least a header, so the buffered bytes bound the turns. *)
Fixpoint frame_loop (fuel : nat) (buf : list byte) (s : St) : list byte * St :=
  match fuel with
  | O => (buf, s)
  | S fuel =>
      if decide (length buf < HeaderSize)%nat then (buf, s)
      else
        match gnet_Peek (Z.of_nat HeaderSize) buf with
        | None => (buf, s)
        | Some headerData =>
            match Unmarshal zero_header headerData with
            | (_, Some _) => (discard_all buf, s)
            | (header, None) =>
                match Validate header with
                | Some _ => (discard_all buf, s)
                | None =>
                    if max <? go_int (h_Length header) then (discard_all buf, s)
                    else
                      let totalSize := go_int (Z.of_nat HeaderSize + go_int (h_Length header)) in
                      if Z.of_nat (length buf) <? totalSize then (buf, s)
                      else
                        match gnet_Discard (Z.of_nat HeaderSize) buf with
                        | None => (buf, s)
                        | Some buf =>
                            match gnet_Next (go_int (h_Length header)) buf with
                            | None => (buf, s)
                            | Some (payload, buf) =>
                                frame_loop fuel buf (handle (mkFrame header payload) s)
                            end
                        end
                end
            end
        end
  end.

Definition OnTraffic_loop (buf : list byte) (s : St) : list byte * St :=
  frame_loop (S (length buf)) buf s.

(** The connection's life: each chunk is appended to what is buffered and the
    handler runs. *)
Fixpoint traffic (buf : list byte) (s : St) (chunks : list (list byte)) : list byte * St :=
  match chunks with
  | [] => (buf, s)
  | chunk :: chunks => let '(buf, s) := OnTraffic_loop (buf ++ chunk) s in traffic buf s chunks
  end.

End Loop.

(** ** The loop implements the abstract parser

    On a 64-bit target, with a positive limit, and as long as no frame is empty
    (the documentation of [Next] does not say what a count of zero returns). *)

Section LoopSpec.
Context `{IntWidth} `{G : GnetReader} `{!GnetSpec G} {St : Type}.
Variable max : Z.
Variable handle : Frame → St → St.
Hypothesis H64 : int_bits = 64.
Hypothesis Hmax : 0 < max.

Lemma discard_all_nil buf : (0 < length buf)%nat → discard_all buf = [].
Proof.
  intros Hl. unfold discard_all. rewrite Discard_ok by lia. cbn. rewrite Nat2Z.id. by apply drop_ge.
Qed.

(** What the buffer holds after a run that stopped with [rest] or an error. *)
Definition left_over (rest : list byte) (o : option protocol_error) : list byte :=
  match o with None => rest | Some _ => [] end.

Definition nonempty_frame (f : Frame) : Prop := (0 < length (f_Payload f))%nat.

Lemma go_int_length bs :
  (HeaderSize ≤ length bs)%nat → go_int (h_Length (parse_header bs)) = h_Length (parse_header bs).
Proof.
  intros Hl. pose proof (parse_header_wf bs Hl) as Hwf. apply go_int_64; [done|].
  assert (in_word 32 (h_Length (parse_header bs))) as Hw by apply Hwf. unfold in_word in Hw. lia.
Qed.

(** The header part of a turn, for a buffer that holds one. *)
Lemma frame_loop_header fuel buf s :
  (HeaderSize ≤ length buf)%nat → Z.of_nat (length buf) < 2 ^ 62 →
  frame_loop max handle (S fuel) buf s =
  let header := parse_header buf in
  match Validate header with
  | Some _ => ([], s)
  | None =>
      if max <? h_Length header then ([], s)
      else if Z.of_nat (length buf) <? Z.of_nat HeaderSize + h_Length header then (buf, s)
      else
        match gnet_Next (h_Length header) (drop HeaderSize buf) with
        | None => (drop HeaderSize buf, s)
        | Some (payload, buf) => frame_loop max handle fuel buf (handle (mkFrame header payload) s)
        end
  end.
Proof.
  intros Hl Hlen. cbn [frame_loop]. rewrite decide_False by lia.
  assert (0 < length buf)%nat by (unfold HeaderSize in *; lia).
  rewrite Peek_ok by (unfold HeaderSize in *; lia). rewrite Nat2Z.id.
  rewrite Unmarshal_parse by (rewrite length_take; lia). rewrite parse_header_take by done.
  rewrite !discard_all_nil by done. rewrite !go_int_length by done.
  assert (in_word 32 (h_Length (parse_header buf))) as Hw by (by apply parse_header_wf).
  rewrite (go_int_64 (Z.of_nat HeaderSize + _)) by (done || (unfold in_word, HeaderSize in *; lia)).
  rewrite Discard_ok by (unfold HeaderSize in *; lia). rewrite Nat2Z.id. done.
Qed.

Lemma frame_loop_parses fuel buf s fs rest o :
  (length buf < fuel)%nat → Z.of_nat (length buf) < 2 ^ 62 →
  parses max buf fs rest o → Forall nonempty_frame fs →
  frame_loop max handle fuel buf s = (left_over rest o, handle_all handle fs s).
Proof.
  revert buf s fs. induction fuel as [|fuel IH]; intros buf s fs Hf Hlen Hp Hne; [lia|].
  destruct (decide (length buf < HeaderSize)%nat) as [Hs|Hs].
  { cbn [frame_loop]. rewrite decide_True by done. inversion Hp as [? E|? e E|? f b' ? ? ? E]; subst;
      unfold spec_next in E; rewrite decide_True in E by done; done. }
  rewrite frame_loop_header by (done || lia). cbv zeta.
  assert (in_word 32 (h_Length (parse_header buf))) as Hw by (apply parse_header_wf; lia).
  unfold in_word in Hw.
  inversion Hp as [? E|? e E|? f b' fs' ? ? E Hp']; subst.
  - unfold spec_next in E. rewrite decide_False in E by done.
    destruct (Validate _); [done|]. rewrite (proj2 (Z.ltb_lt 0 max)) in E by done. cbn [andb] in E.
    destruct (max <? h_Length _); [done|]. case_decide; [|done].
    by rewrite (proj2 (Z.ltb_lt _ _)) by lia.
  - unfold spec_next in E. rewrite decide_False in E by done.
    destruct (Validate _); [done|]. rewrite (proj2 (Z.ltb_lt 0 max)) in E by done. cbn [andb] in E.
    destruct (max <? h_Length _); [done|]. by case_decide.
  - inversion Hne as [|? ? Hf0 Hne']; subst. unfold nonempty_frame in Hf0.
    apply spec_next_frame in E as [(Hwf & Hv & HL & Hm) ->].
    destruct f as [h p]. unfold wire, frame_bytes in *. cbn [f_Header f_Payload] in *.
    rewrite <- app_assoc in *. rewrite parse_header_bytes by done. rewrite Hv.
    rewrite (proj2 (Z.ltb_ge _ _)) by (specialize (Hm Hmax); lia).
    rewrite (proj2 (Z.ltb_ge _ _)) by (rewrite !length_app, length_header_bytes; lia).
    rewrite drop_app_length' by by rewrite length_header_bytes.
    rewrite Next_ok by (rewrite length_app; lia).
    rewrite HL, Nat2Z.id, take_app_length, drop_app_length.
    rewrite !length_app, length_header_bytes in Hf, Hlen. unfold HeaderSize in Hf, Hlen.
    rewrite (IH b' _ fs') by (done || lia). done.
Qed.

(** A connection's whole life: however the bytes are cut, the handler sees the
    frames in order. *)
Lemma traffic_parses buf s chunks fs rest :
  Z.of_nat (length buf + length (concat chunks)) < 2 ^ 62 →
  parses max (buf ++ concat chunks) fs rest None → Forall nonempty_frame fs →
  spec_next max buf = (NextNone, buf) →
  traffic max handle buf s chunks = (rest, handle_all handle fs s).
Proof.
  revert buf s fs. induction chunks as [|c cs IH]; intros buf s fs Hlen Hp Hne Hstuck.
  { cbn in Hp. rewrite app_nil_r in Hp.
    destruct (parses_stuck_inv _ _ _ _ _ Hstuck Hp) as (->&->&_). done. }
  cbn [concat traffic] in *. rewrite length_app in Hlen. rewrite app_assoc in Hp.
  destruct (parses_total max (buf ++ c)) as (fs1 & r1 & o1 & Hp1).
  destruct (parses_prefix _ _ _ _ _ _ _ _ Hp1 Hp) as (-> & fs2 & -> & Hp2).
  apply Forall_app in Hne as [Hne1 Hne2]. unfold OnTraffic_loop.
  rewrite (frame_loop_parses _ _ _ fs1 r1 None) by (done || rewrite ?length_app; lia). cbn [left_over].
  rewrite (IH r1 _ fs2); try done.
  - f_equal. unfold handle_all. by rewrite foldl_app.
  - apply parses_sound in Hp1 as [_ E]. apply (f_equal length) in E. rewrite !length_app in E. lia.
  - by eapply parses_stuck.
Qed.

End LoopSpec.

(** ** The two handlers *)

Section Handlers.
Context `{IntWidth} `{G : GnetReader} {E : Type}.

Definition maxUpstreamFramePayload (s : Server E) : Z := sp_maxUpstreamPayload (sv_params s).
Definition maxDownstreamControlPayload : Z := 64 * 1024.

(** The body of [UpstreamHandler.OnTraffic]'s loop; [envs k] is what the
    environment answers and the clock reads at the [k]-th frame of the process. *)
Definition up_handle (envs : nat → srv_env * Z) (f : Frame) (st : nat * Server E) : nat * Server E :=
  let '(k, s) := st in
  (S k, handleUpstreamPacket (envs k).1 (envs k).2 (f_Header f) (f_Payload f) s).

Definition OnTraffic_upstream (envs : nat → srv_env * Z) (buf : list byte) (st : nat * Server E)
    : list byte * (nat * Server E) :=
  OnTraffic_loop (maxUpstreamFramePayload st.2) (up_handle envs) buf st.

(** The downstream connections: [context c] is the lane id in the context of the
    connection [c], [open_conns] the connections that are open. *)
Record Downstream := mkDownstream {
  ds_server : Server E;
  context : gmap conn_id Z;
  open_conns : gset conn_id
}.

Definition set_server (d : Downstream) (s : Server E) : Downstream :=
  mkDownstream s (context d) (open_conns d).
Definition set_context (d : Downstream) (c : conn_id) (laneID : Z) : Downstream :=
  mkDownstream (ds_server d) (<[c := laneID]> (context d)) (open_conns d).

(** The loop over the session ids of a register message. *)
Definition register_sessions (c : conn_id) (laneID : Z) (sids : list Z) (s : Server E) : Server E :=
  foldl (λ s sid,
    let s := sv_set_laneMap s (<[sid := laneID]> (sessionLaneMap s)) in
    match sv_sessions s !! sid with
    | Some p => sv_upd_session s p (SetDownstreamConn (Some c))
    | None => s
    end) s sids.

Definition handleLaneControl (c : conn_id) (ctrl : LaneControlPayload) (d : Downstream) : Downstream :=
  let n := Z.of_nat (length (downWriters (ds_server d))) in
  if negb (go_int (c_LaneCount ctrl) =? n) then d
  else
    let laneID := go_int (c_LaneID ctrl) in
    if (laneID <? 0) || (n <=? laneID) then d
    else
      let d := match context d !! c with None => set_context d c (-1) | Some _ => d end in
      let ctx := default (-1) (context d !! c) in
      if c_Subtype ctrl =? ControlSubtypeHello then
        let d := set_context d c laneID in
        set_server d (setDownstreamConnForLane laneID c (ds_server d))
      else if c_Subtype ctrl =? ControlSubtypeLaneRegister then
        if (0 <=? ctx) && negb (ctx =? laneID) then d
        else
          let d := set_context d c laneID in
          let s := setDownstreamConnForLane laneID c (ds_server d) in
          set_server d (register_sessions c laneID (c_SessionIDs ctrl) s)
      else if c_Subtype ctrl =? ControlSubtypeLaneHeartbeat then
        let d := if ctx <? 0 then set_context d c laneID else d in
        set_server d (setDownstreamConnForLane laneID c (ds_server d))
      else d.

(** The body of the downstream loop. *)
Definition down_handle (c : conn_id) (f : Frame) (d : Downstream) : Downstream :=
  if negb (h_Type (f_Header f) =? PacketTypeControl) then d
  else
    match UnmarshalLaneControl (f_Payload f) with
    | Err _ => d
    | Ok ctrl => handleLaneControl c ctrl d
    end.

Definition OnTraffic_downstream (c : conn_id) (buf : list byte) (d : Downstream)
    : list byte * Downstream :=
  OnTraffic_loop maxDownstreamControlPayload (down_handle c) buf d.

Definition OnOpen_downstream (c : conn_id) (d : Downstream) : Downstream :=
  let d := set_context d c (-1) in
  mkDownstream (ds_server d) (context d) ({[c]} ∪ open_conns d).

Definition OnClose_downstream (c : conn_id) (d : Downstream) : Downstream :=
  let d := match context d !! c with
           | Some laneID => if 0 <=? laneID
                            then set_server d (clearDownstreamConnForLane laneID c (ds_server d)) else d
           | None => d
           end in
  mkDownstream (ds_server d) (context d) (open_conns d ∖ {[c]}).

End Handlers.
Arguments Downstream : clear implicits.

(** ** Theorems *)

(** C12: chunking is invisible to the server. On a 64-bit target, with a positive
    limit and no empty frame, the loop of both handlers does what the abstract
    parser says: a run of [OnTraffic] handles, in order, every complete frame of the
    buffer before the first malformed or oversized one, and keeps the incomplete
    rest, or drops the whole buffer at a malformed one. So however the network cuts
    a sequence of accepted frames, the connection's handler sees exactly these
    frames in this order. *)
Theorem server_reader_exact `{IntWidth} `{G : GnetReader} {St} max (handle : Frame → St → St) :
  GnetSpec G → int_bits = 64 → 0 < max →
  (∀ buf s fs rest o, Z.of_nat (length buf) < 2 ^ 62 → parses max buf fs rest o → Forall nonempty_frame fs →
     OnTraffic_loop max handle buf s = (left_over rest o, handle_all handle fs s)) ∧
  (∀ fs rest chunks s, Z.of_nat (length (concat chunks)) < 2 ^ 62 → Forall (frame_ok max) fs →
     Forall nonempty_frame fs → spec_next max rest = (NextNone, rest) → concat chunks = (fs ≫= wire) ++ rest →
     traffic max handle [] s chunks = (rest, handle_all handle fs s)).
Proof.
  intros HG H64 Hmax. split.
  - intros buf s fs rest o Hlen Hp Hne. unfold OnTraffic_loop. apply frame_loop_parses; try done. lia.
  - intros fs rest chunks s Hlen Hok Hne Hrest Hcat. apply traffic_parses; try done.
    + cbn [app]. rewrite Hcat. pose proof (parses_wire max fs rest None [] rest Hok (parses_none max rest Hrest)) as Hw.
      by rewrite app_nil_r in Hw.
Qed.

(** A buffer with the documented behaviour; what it does for counts that are not
    positive is a choice no theorem uses. *)
Definition slice_reader : GnetReader :=
  {| gnet_Peek n buf := if decide (n ≤ Z.of_nat (length buf)) then Some (take (Z.to_nat n) buf) else None;
     gnet_Discard n buf := if decide (n ≤ Z.of_nat (length buf)) then Some (drop (Z.to_nat n) buf) else None;
     gnet_Next n buf :=
       if decide (Z.of_nat (length buf) < n) then None
       else if decide (n ≤ 0) then Some (buf, [])
       else Some (take (Z.to_nat n) buf, drop (Z.to_nat n) buf) |}.

#[export] Instance slice_reader_spec : GnetSpec slice_reader.
Proof. split; cbn; intros n buf ?; repeat case_decide; try done; lia. Qed.

Lemma server_reader_exact_witness :
  let f1 := mkFrame (NewDataPacket 1 1 2) [x68; x69] in
  let f2 := mkFrame (NewDataPacket 2 1 1) [x21] in
  let bs := wire f1 ++ wire f2 ++ [x54; x43] in
  @traffic int64_target slice_reader (list Frame) 64 (λ f l, l ++ [f]) [] [] [take 7 bs; take 20 (drop 7 bs); drop 27 bs] =
    ([x54; x43], [f1; f2]).
Proof.
  intros f1 f2 bs.
  destruct (@server_reader_exact int64_target slice_reader (list Frame) 64 (λ f l, l ++ [f])) as [_ H].
  - exact slice_reader_spec.
  - reflexivity.
  - lia.
  - refine (H [f1; f2] [x54; x43] _ [] _ _ _ _ _); first [by_compute|reflexivity|by repeat constructor].
Defined.
