(* ===== verification/ServerSpec.v ===== *)
(** * The server's operations meet their contracts

    The session table, the upstream packet handler, [sendToDownstream] and the
    batch writer of a downstream lane, one operation at a time; [System.v] puts
    them together with the client's. *)

From S2P Require Import Prelude.
From S2P Require Import Words.
From S2P Require Import Packet.
From S2P Require Import Stream.
From S2P Require Import Stats.
From S2P Require Import Config.
From S2P Require Import Crypto.
From S2P Require Import Session.
From S2P Require Import Ring.
From S2P Require Import Client.
From S2P Require Import ClientTable.
From S2P Require Import Upstream.
From S2P Require Import Reorder.
From S2P Require Import Server.

Section ServerSpec.
Context {E : Type}.
Implicit Types s : Server E.

(** ** The session table *)

(** Every id leads to a live object with that id and a socket, read by a
    goroutine; distinct ids have distinct objects; the gauge counts the table. *)
Record server_inv s : Prop := {
  si_lanes : (0 < length (downWriters s))%nat ∧ Z.of_nat (length (downWriters s)) < 2 ^ 31;
  si_heap p sess : sv_heap s !! p = Some sess → (p ≤ sv_next s)%nat;
  si_sessions id p : sv_sessions s !! id = Some p →
    ∃ sess, sv_heap s !! p = Some sess ∧ bs_sessionID sess = id ∧ is_Some (bs_conn sess) ∧ p ∈ readers s;
  si_gauge : ActiveSessions (sv_stats s) = i32 (Z.of_nat (size (sv_sessions s)));
  si_readers p : p ∈ readers s → is_Some (sv_heap s !! p)
}.

(** What the invariant does not look at. *)
Lemma server_inv_ext s s' :
  server_inv s → length (downWriters s') = length (downWriters s) → sv_next s' = sv_next s →
  sv_sessions s' = sv_sessions s → ActiveSessions (sv_stats s') = ActiveSessions (sv_stats s) →
  readers s' = readers s →
  (∀ p sess', sv_heap s' !! p = Some sess' → ∃ sess, sv_heap s !! p = Some sess) →
  (∀ p sess, sv_heap s !! p = Some sess → ∃ sess', sv_heap s' !! p = Some sess' ∧
     bs_sessionID sess' = bs_sessionID sess ∧ bs_conn sess' = bs_conn sess) →
  server_inv s'.
Proof.
  intros [Hl Hh Hs Hg Hrd] El En Es Eg Er H1 H2. split; rewrite ?El, ?En, ?Es, ?Eg, ?Er; try done.
  - intros p sess' Hp. destruct (H1 _ _ Hp). eauto.
  - intros id p Hp. destruct (Hs id p Hp) as (sess & Hsess & <- & Hc & Hr).
    destruct (H2 _ _ Hsess) as (sess' & ? & ? & ?). exists sess'. split_and!; congruence.
  - intros p [sess Hp]%Hrd. destruct (H2 _ _ Hp) as (? & ? & _). eauto.
Qed.

Lemma server_inv_same s s' :
  server_inv s → length (downWriters s') = length (downWriters s) → sv_next s' = sv_next s →
  sv_sessions s' = sv_sessions s → ActiveSessions (sv_stats s') = ActiveSessions (sv_stats s) →
  readers s' = readers s → sv_heap s' = sv_heap s → server_inv s'.
Proof. intros Hi ? ? ? ? ? Hh. eapply server_inv_ext; try done; rewrite Hh; eauto. Qed.

Lemma server_inv_upd s p f :
  (∀ b, bs_sessionID (f b) = bs_sessionID b ∧ bs_conn (f b) = bs_conn b) →
  server_inv s → server_inv (sv_upd_session s p f).
Proof.
  intros Hf Hi. eapply server_inv_ext; try done; cbn.
  - intros q sess' [(-> & b & Hb & _)|[_ Hq]]%lookup_alter_Some; eauto.
  - intros q sess Hq. destruct (decide (p = q)) as [->|].
    + rewrite lookup_alter_eq, Hq. eexists. split; [done|]. apply Hf.
    + rewrite lookup_alter_ne by done. eauto.
Qed.

(** ** Writing to the backend *)

(** What a write attempt does to the network. *)
Definition backend_effect (env : srv_env) s (conn : conn_id) (payload : list byte) : list effect :=
  if env_write env (writes s) then [BackendWrite conn payload] else [].

Lemma writeBackendPacket_spec env p sess conn payload s :
  sv_heap s !! p = Some sess → bs_conn sess = Some conn →
  effects (writeBackendPacket env p payload s).2 = effects s ++ backend_effect env s conn payload ∧
  (writeBackendPacket env p payload s).1 = env_write env (writes s) ∧
  writes (writeBackendPacket env p payload s).2 = S (writes s).
Proof.
  intros Hp Hc. unfold writeBackendPacket, backend_effect. cbn. rewrite Hp. cbn. rewrite Hc.
  destruct (env_write env (writes s)); cbn; [done|]. by rewrite app_nil_r.
Qed.

(** The rest of the state is kept. *)
Lemma writeBackendPacket_frame env p payload s :
  let s' := (writeBackendPacket env p payload s).2 in
  sv_heap s' = sv_heap s ∧ sv_sessions s' = sv_sessions s ∧ sv_next s' = sv_next s ∧
  downWriters s' = downWriters s ∧ readers s' = readers s ∧ sv_params s' = sv_params s ∧
  sessionLaneMap s' = sessionLaneMap s ∧
  ActiveSessions (sv_stats s') = ActiveSessions (sv_stats s).
Proof.
  unfold writeBackendPacket. cbn. destruct (bs_conn <$> _) as [[conn|]|]; [|done..].
  by destruct (env_write env (writes s)).
Qed.

(** [writeBackendPacket] as the reorder window's [write], with the datagrams the
    socket [conn] received as its log. *)
Definition backend_log (conn : conn_id) s : list (list byte) :=
  omap (λ e, match e with BackendWrite c d => if decide (c = conn) then Some d else None | _ => None end)
    (effects s).

Definition socket_log (p : ptr) s : list (list byte) :=
  match bs_conn <$> sv_heap s !! p with
  | Some (Some conn) => backend_log conn s
  | _ => []
  end.

Lemma writeBackendPacket_log env p payload s :
  socket_log p (writeBackendPacket env p payload s).2 =
    if (writeBackendPacket env p payload s).1 then socket_log p s ++ [payload] else socket_log p s.
Proof.
  destruct (writeBackendPacket_frame env p payload s) as (Hh & _).
  unfold socket_log. rewrite Hh. destruct (sv_heap s !! p) as [sess|] eqn:Hp; cbn [fmap option_fmap option_map].
  2: { unfold writeBackendPacket. cbn. by rewrite Hp. }
  destruct (bs_conn sess) as [conn|] eqn:Hc.
  - destruct (writeBackendPacket_spec env p sess conn payload s Hp Hc) as (He & -> & _).
    unfold backend_log. rewrite He. unfold backend_effect.
    destruct (env_write env (writes s)); [|by rewrite app_nil_r].
    rewrite omap_app. cbn. by rewrite decide_True.
  - unfold writeBackendPacket. cbn. rewrite Hp. cbn. by rewrite Hc.
Qed.

(** Every path of [writeUpstreamToBackend] keeps what the table is about. *)
Definition table_same s s' : Prop :=
  sv_heap s' = sv_heap s ∧ sv_sessions s' = sv_sessions s ∧ sv_next s' = sv_next s ∧
  downWriters s' = downWriters s ∧ readers s' = readers s ∧ sv_params s' = sv_params s ∧
  sessionLaneMap s' = sessionLaneMap s ∧ ActiveSessions (sv_stats s') = ActiveSessions (sv_stats s).

#[export] Instance table_same_preorder : PreOrder table_same.
Proof.
  split; [done|]. unfold table_same. intros s1 s2 s3 ??. destruct_and!. split_and!; congruence.
Qed.

Lemma table_same_inv s s' : server_inv s → table_same s s' → server_inv s'.
Proof.
  intros Hi (? & ? & ? & Hw & ? & _ & _ & ?). eapply server_inv_same; try done. by rewrite Hw.
Qed.

Lemma writeUpstreamToBackend_same env now p id seq payload s :
  table_same s (writeUpstreamToBackend env now p id seq payload s).
Proof.
  unfold writeUpstreamToBackend. destruct (negb _); [apply writeBackendPacket_frame|].
  match goal with |- context [reorder_write ?w ?a ?b ?c ?d ?e ?f ?g] =>
    pose proof (reorder_write_keeps w table_same a b c d e f g (writeBackendPacket_frame env p)) as Hs;
    destruct (reorder_write w a b c d e f g) as [st s1] end.
  exact Hs.
Qed.

(** ** The operations keep the table consistent *)

Lemma i32_add n k : i32 (i32 n + k) = i32 (n + k).
Proof. apply swrap_add_l. Qed.

Lemma size_delete_some (m : gmap Z ptr) id p :
  m !! id = Some p → Z.of_nat (size m) = Z.of_nat (size (delete id m)) + 1.
Proof.
  intros Hp. rewrite map_size_delete_Some by eauto.
  pose proof (map_size_ne_0_lookup_2 _ _ (mk_is_Some _ _ Hp)). lia.
Qed.

Lemma backend_exit_inv p s : server_inv s → server_inv (backend_exit p s).
Proof.
  intros Hi. unfold backend_exit. destruct (sv_heap s !! p) as [sess|] eqn:Ep; [|done].
  set (s1 := match bs_Close sess with Some c => _ | None => s end).
  assert (server_inv s1 ∧ sv_sessions s1 = sv_sessions s ∧ sv_heap s1 = sv_heap s) as (Hi1 & Es & Eh).
  { unfold s1. destruct (bs_Close sess); [|done]. split; [by eapply server_inv_same|done]. }
  clearbody s1. destruct Hi1 as [Hl Hh Hs Hg Hrd]. cbn.
  assert (∀ q, q ∈ filter (λ q, q ≠ p) (readers s1) → is_Some (sv_heap s1 !! q)) as Hrd'
    by (intros q [_ Hq]%list_elem_of_filter; by apply Hrd).
  destruct (sv_sessions s1 !! bs_sessionID sess) as [q|] eqn:Eq.
  - split; cbn; [done|done| | |done].
    + intros id r. rewrite lookup_delete_Some. intros [Hne Hr].
      destruct (Hs id r Hr) as (b & Hb & Hid & ? & ?). exists b. split_and!; try done.
      apply list_elem_of_filter. split; [|done]. intros ->. congruence.
    + rewrite Hg, i32_add, (size_delete_some _ _ _ Eq). f_equal. lia.
  - split; cbn; [done|done| |done|done].
    intros id r Hr. destruct (Hs id r Hr) as (b & Hb & Hid & ? & ?). exists b. split_and!; try done.
    apply list_elem_of_filter. split; [|done]. intros ->. congruence.
Qed.

Lemma sv_cleanup_id_inv id s : server_inv s → server_inv (sv_cleanup_id id s).
Proof.
  intros [Hl Hh Hs Hg Hrd]. unfold sv_cleanup_id. destruct (sv_sessions s !! id) as [p|] eqn:Ep; [|by split].
  assert (ActiveSessions (sv_stats s) - 1 = ActiveSessions (sv_stats s) + -1) as _ by lia.
  assert (∀ e, server_inv (sv_set_stats (sv_set_reorder (sv_set_laneMap (sv_emit (sv_set_sessions s
    (delete id (sv_sessions s))) e) (delete id (sessionLaneMap s))) (delete id (upstreamReorderStates s)))
    (RemoveActiveSession (sv_stats s)))) as H.
  { intros e. split; cbn; [done|done| | |done].
    - intros id' r. rewrite lookup_delete_Some. intros [Hne Hr]. by apply Hs.
    - rewrite Hg, i32_add, (size_delete_some _ _ _ Ep). f_equal. lia. }
  destruct (bs_Close <$> _) as [[c|]|]; [apply (H [BackendClose c])|..];
    specialize (H []); eapply server_inv_same; try exact H; done.
Qed.

Lemma sv_cleanup_tick_inv now s : server_inv s → server_inv (sv_cleanup_tick now s).
Proof.
  unfold sv_cleanup_tick. generalize (sv_expired_ids now s). intros ids. revert s.
  induction ids as [|id ids IH]; intros s Hi; cbn; [done|]. apply IH. by apply sv_cleanup_id_inv.
Qed.

End ServerSpec.

(** ** The upstream handler, packet by packet *)

Section Delivery.
Context {E : Type}.
Implicit Types s : Server E.

Lemma writeBackendPacket_live env p sess conn payload s :
  sv_heap s !! p = Some sess → bs_conn sess = Some conn →
  let s' := (writeBackendPacket env p payload s).2 in
  table_same s s' ∧ effects s' = effects s ++ backend_effect env s conn payload ∧
  upstreamReorderStates s' = upstreamReorderStates s.
Proof.
  intros Hp Hc. split; [apply writeBackendPacket_frame|]. split; [by apply (writeBackendPacket_spec env p sess)|].
  unfold writeBackendPacket. cbn. rewrite Hp. cbn. rewrite Hc. by destruct (env_write _ _).
Qed.

(** The session a packet belongs to, once it has been found or made. *)
Definition open_session (env : srv_env) (now id : Z) s : option (ptr * Server E) :=
  match sv_sessions s !! id with
  | Some p => Some (p, sv_upd_session s p (bs_UpdateLastActive now))
  | None =>
      match env_backend env with
      | Dialled addr conn =>
          let p := S (sv_next s) in
          Some (p, mkServer (sv_params s) (<[p := NewBackendSession now id (Some conn) addr None]> (sv_heap s)) p
                     (<[id := p]> (sv_sessions s)) (downWriters s) (sessionLaneMap s)
                     (upstreamReorderStates s) (AddActiveSession (sv_stats s)) (p :: readers s)
                     (effects s) (writes s))
      | _ => None
      end
  end.

Definition count_received (data : list byte) s : Server E :=
  sv_set_stats s (AddBytesReceived (AddPacketsReceived (sv_stats s) 1)
    (u64 (Z.of_nat (HeaderSize + length data)))).

Lemma handleUpstreamPacket_eq env now header data s :
  handleUpstreamPacket env now header data s =
  let s := count_received data s in
  match Decrypt (sp_upstreamCipher (sv_params s)) data with
  | Err _ => sv_set_stats s (AddError (sv_stats s))
  | Ok d =>
      match open_session env now (h_SessionID header) s with
      | Some (p, s) => writeUpstreamToBackend env now p (h_SessionID header) (h_SequenceID header) d s
      | None => sv_set_stats s (AddError (sv_stats s))
      end
  end.
Proof.
  unfold handleUpstreamPacket, open_session. cbn.
  destruct (Decrypt _ _); [|done]. destruct (sv_sessions s !! _); [done|]. by destruct (env_backend env).
Qed.

(** What opening a session gives. *)
Lemma open_session_spec env now id s p s1 :
  server_inv s → open_session env now id s = Some (p, s1) →
  server_inv s1 ∧ sv_sessions s1 = <[id := p]> (sv_sessions s) ∧ effects s1 = effects s ∧
  writes s1 = writes s ∧ sv_params s1 = sv_params s ∧
  upstreamReorderStates s1 = upstreamReorderStates s ∧
  ∃ sess conn, sv_heap s1 !! p = Some sess ∧ bs_sessionID sess = id ∧ bs_conn sess = Some conn ∧
    bs_lastActiveUnixNano sess = UnixNano now ∧ p ∈ readers s1 ∧
    (∀ q, q ≠ p → sv_heap s1 !! q = sv_heap s !! q) ∧
    (sv_sessions s !! id = Some p ∧ bs_conn <$> sv_heap s !! p = Some (Some conn) ∨
     sv_sessions s !! id = None ∧ p = S (sv_next s) ∧ ∃ addr, env_backend env = Dialled addr conn).
Proof.
  intros Hi. unfold open_session. destruct (sv_sessions s !! id) as [q|] eqn:Eq.
  - intros [= <- <-]. destruct (si_sessions s Hi id q Eq) as (sess & Hs & Hid & [conn Hc] & Hr).
    split; [by apply server_inv_upd|]. cbn. rewrite insert_id by done. split_and!; try done.
    rewrite lookup_alter_eq, Hs. eexists _, conn. cbn. split_and!; try done; [|left; by rewrite Hc].
    intros r Hne. by rewrite lookup_alter_ne.
  - destruct (env_backend env) as [| |addr conn] eqn:Eb; [done..|]. intros [= <- <-].
    destruct Hi as [Hl Hh Hs Hg Hrd]. split; [split; cbn; [done| | | |]|].
    + intros q sess. destruct (decide (q = S (sv_next s))) as [->|]; [lia|].
      rewrite lookup_insert_ne by done. intros Hq%Hh. lia.
    + intros id' q. destruct (decide (id' = id)) as [->|].
      * rewrite lookup_insert_eq. intros [= <-]. eexists. rewrite lookup_insert_eq.
        split_and!; [done|done|by eexists|by left].
      * rewrite lookup_insert_ne by done. intros Hq. destruct (Hs id' q Hq) as (sess & Hsess & ? & ? & ?).
        pose proof (Hh _ _ Hsess). exists sess. rewrite lookup_insert_ne by lia. split_and!; [done..|by right].
    + rewrite map_size_insert_None by done. rewrite Hg, i32_add. f_equal. lia.
    + intros q [->|Hq]%elem_of_cons; [rewrite lookup_insert_eq; eauto|].
      destruct (decide (q = S (sv_next s))) as [->|]; [rewrite lookup_insert_eq; eauto|].
      rewrite lookup_insert_ne by done. by apply Hrd.
    + cbn. split_and!; try done. eexists _, conn. rewrite lookup_insert_eq.
      split_and!; try done; [by left| |by right; eauto].
      intros q Hne. by rewrite lookup_insert_ne.
Qed.

Lemma server_inv_count data s : server_inv s → server_inv (count_received data s).
Proof. intros Hi. by eapply server_inv_same. Qed.

Lemma handleUpstreamPacket_inv env now header data s :
  server_inv s → server_inv (handleUpstreamPacket env now header data s).
Proof.
  intros Hi%(server_inv_count data). rewrite handleUpstreamPacket_eq. cbv zeta.
  destruct (Decrypt _ _) as [d|e]; [|by eapply server_inv_same].
  destruct (open_session _ _ _ _) as [[p s1]|] eqn:Eo; [|by eapply server_inv_same].
  eapply table_same_inv; [|apply writeUpstreamToBackend_same]. by apply (open_session_spec _ _ _ _ _ _ Hi Eo).
Qed.

End Delivery.

(** C11: one frame, one datagram. Without striping, a data frame whose payload
    decrypts is written, decrypted and unmerged, to exactly one socket: the one of
    the session with the frame's id, which is found in the table, or dialled,
    entered and given a reader when the id is new. Nothing else is sent. A payload
    that does not decrypt, or a backend that cannot be reached, costs an error and
    changes neither the table nor the network. *)
Theorem upstream_packet_delivered {E} env now header data (s : Server E) :
  server_inv s → sp_upstreamStripeEnabled (sv_params s) = false →
  let s' := handleUpstreamPacket env now header data s in
  let id := h_SessionID header in
  let dropped := effects s' = effects s ∧ sv_sessions s' = sv_sessions s ∧
                 Errors (sv_stats s') = u64 (Errors (sv_stats s) + 1) in
  let written d known := ∃ p sess conn,
    sv_sessions s' = <[id := p]> (sv_sessions s) ∧
    sv_heap s' !! p = Some sess ∧ bs_sessionID sess = id ∧ bs_conn sess = Some conn ∧
    bs_lastActiveUnixNano sess = UnixNano now ∧ p ∈ readers s' ∧ known p conn ∧
    effects s' = effects s ++ if env_write env (writes s) then [BackendWrite conn d] else [] in
  match Decrypt (sp_upstreamCipher (sv_params s)) data with
  | Err _ => dropped
  | Ok d =>
      match sv_sessions s !! id, env_backend env with
      | Some p, _ => written d (λ q conn, q = p ∧ bs_conn <$> sv_heap s !! p = Some (Some conn))
      | None, Dialled _ conn => written d (λ q conn', sv_heap s !! q = None ∧ conn' = conn)
      | None, _ => dropped
      end
  end.
Proof.
  intros Hi Hoff. cbv zeta. rewrite handleUpstreamPacket_eq. cbv zeta.
  pose proof (server_inv_count data s Hi) as Hi0.
  change (sv_params s) with (sv_params (count_received data s)) in *.
  change (sv_sessions s) with (sv_sessions (count_received data s)).
  change (effects s) with (effects (count_received data s)).
  change (writes s) with (writes (count_received data s)).
  change (sv_heap s) with (sv_heap (count_received data s)).
  change (Errors (sv_stats s)) with (Errors (sv_stats (count_received data s))).
  generalize dependent (count_received data s). clear s Hi. intros s Hoff Hi.
  destruct (Decrypt (sp_upstreamCipher (sv_params s)) data) as [d|e]; [|done].
  destruct (open_session env now (h_SessionID header) s) as [[p s1]|] eqn:Eo.
  - destruct (open_session_spec _ _ _ _ _ _ Hi Eo)
      as (Hi1 & Hss & He & Hw & Hpar & _ & sess & conn & Hp & Hid & Hc & Hla & Hr & _ & Hk).
    unfold writeUpstreamToBackend. rewrite Hpar, Hoff. cbn [negb].
    destruct (writeBackendPacket_live env p sess conn d s1 Hp Hc) as ((Hh' & Hss' & _ & _ & Hr' & _) & He' & _).
    unfold backend_effect in He'. rewrite Hw, He in He'.
    destruct Hk as [[Hk Hk2]|(Hk & -> & addr & Hb)].
    + rewrite Hk. exists p, sess, conn. rewrite Hss', Hh', Hr'. split_and!; done.
    + rewrite Hk, Hb. exists (S (sv_next s)), sess, conn. rewrite Hss', Hh', Hr'. split_and!; try done.
      destruct (sv_heap s !! S (sv_next s)) eqn:Eh; [|done]. apply (si_heap s Hi) in Eh. lia.
  - unfold open_session in Eo. destruct (sv_sessions s !! _); [done|]. by destruct (env_backend env).
Qed.

(** A server in its initial state. *)
Definition sample_server : Server unit :=
  match @ServerNew unit int64_target (list byte) toy_lib 0 sample_config with
  | Ret (Ok s) => s
  | _ => mkServer (mkServerParams sample_config 0 NoneCipher NoneCipher false 0 0)
           ∅ 0%nat ∅ [] ∅ ∅ (NewStats 0) [] [] 0%nat
  end.

Lemma ServerNew_inv `{IntWidth} {E Block} `{CryptoLib E Block} now cfg s :
  DownstreamLaneCount cfg < 2 ^ 31 → ServerNew now cfg = Ret (Ok s) →
  server_inv s ∧ sv_heap s = ∅ ∧ sv_sessions s = ∅ ∧ upstreamReorderStates s = ∅ ∧ effects s = [].
Proof.
  intros Hl E1. unfold ServerNew in E1. destruct (NewCipher (UpstreamCrypto cfg)) as [[up|e]|]; [|done..].
  cbn in E1. destruct (NewCipher (DownstreamCrypto cfg)) as [[down|e]|]; [|done..]. cbn in E1.
  injection E1 as <-. split; [|done]. split; cbn.
  - rewrite length_fmap, length_seq. lia.
  - intros p sess. by rewrite lookup_empty.
  - intros id p. by rewrite lookup_empty.
  - by rewrite map_size_empty.
  - by intros p ?%elem_of_nil.
Qed.

Lemma sample_server_inv : server_inv sample_server.
Proof. by apply (ServerNew_inv (H := int64_target) (H0 := toy_lib) 0 sample_config). Qed.

Definition sample_env : srv_env :=
  mkSrvEnv (λ _, true) (Some (UDPAddrFromAddrPort (mkAddrPort (Addr4 2130706433) 53))) (λ _ _, Some 7%nat).

Lemma upstream_packet_delivered_witness :
  let s' := handleUpstreamPacket sample_env 5 (NewDataPacket 1 1 2) [x68; x69] sample_server in
  ∃ p, sv_sessions s' = {[1 := p]} ∧ effects s' = [BackendWrite 7 [x68; x69]].
Proof.
  pose proof (upstream_packet_delivered sample_env 5 (NewDataPacket 1 1 2) [x68; x69] sample_server
    sample_server_inv eq_refl) as H.
  change (Decrypt _ _) with (@Ok (cipher_error unit) (list byte) [x68; x69]) in H.
  cbv zeta iota in H. destruct H as (p & sess & conn & H1 & _ & _ & _ & _ & _ & [_ ->] & H2).
  exists p. split; [exact H1|exact H2].
Defined.

(** ** Stripe mode: the reorder window behind the table *)

(** Frames as they arrive, over all lanes and for all sessions. *)
Record packet_in := mkPacketIn {
  pi_env : srv_env;
  pi_now : Z;
  pi_header : PacketHeader;
  pi_data : list byte
}.

Section Stripe.
Context {E : Type}.
Implicit Types s : Server E.

Definition receive_all (arrivals : list packet_in) s : Server E :=
  foldl (λ s a, handleUpstreamPacket (pi_env a) (pi_now a) (pi_header a) (pi_data a) s) s arrivals.

(** [conn] is the socket of the session [id], whose object is [p], and of no other
    session. *)
Definition owns_socket (id : Z) (p : ptr) (conn : conn_id) s : Prop :=
  sv_sessions s !! id = Some p ∧ bs_conn <$> sv_heap s !! p = Some (Some conn) ∧
  ∀ id' p', sv_sessions s !! id' = Some p' → bs_conn <$> sv_heap s !! p' = Some (Some conn) → id' = id.

Lemma owns_socket_same id p conn s s' :
  table_same s s' → owns_socket id p conn s → owns_socket id p conn s'.
Proof. intros (Eh & Es & _). unfold owns_socket. by rewrite Eh, Es. Qed.

(** A session found or made keeps the sockets apart. *)
Lemma owns_socket_open id p conn env now id' q s s1 :
  server_inv s → (∀ addr, env_backend env ≠ Dialled addr conn) → owns_socket id p conn s →
  open_session env now id' s = Some (q, s1) →
  owns_socket id p conn s1 ∧ (id' = id → q = p) ∧
  (id' ≠ id → bs_conn <$> sv_heap s1 !! q ≠ Some (Some conn)).
Proof.
  intros Hi Hd (Hp & Hc & Hu) Eo.
  destruct (open_session_spec _ _ _ _ _ _ Hi Eo)
    as (_ & Hss & _ & _ & _ & _ & sess & c & Hq & _ & Hcq & _ & _ & Hoth & Hk).
  assert (id' = id → q = p) as Hqp by (intros ->; destruct Hk as [[??]|(?&?&?)]; congruence).
  assert (id' ≠ id → c ≠ conn) as Hne.
  { intros Hne ->. destruct Hk as [[Hk1 Hk2]|(_ & _ & addr & Hb)]; [|by apply (Hd addr)].
    by apply Hne, (Hu id' q). }
  assert (∀ r, (∃ i, sv_sessions s !! i = Some r) →
    bs_conn <$> sv_heap s1 !! r = bs_conn <$> sv_heap s !! r) as Hsame.
  { intros r [i Hr]. destruct (decide (r = q)) as [->|]; [|by rewrite Hoth].
    rewrite Hq. cbn. rewrite Hcq. destruct Hk as [[_ Hk]|(_ & Hk & _)]; [done|].
    destruct (si_sessions s Hi i q Hr) as (b & Hb & _). apply (si_heap s Hi) in Hb. lia. }
  split; [|split; [done|intros Hid; rewrite Hq; cbn; rewrite Hcq; by intros [= ->]; destruct (Hne Hid)]].
  split; [|split].
  - rewrite Hss. destruct (decide (id' = id)) as [->|]; [by rewrite lookup_insert_eq, Hqp|].
    by rewrite lookup_insert_ne.
  - rewrite Hsame by eauto. done.
  - intros i r. rewrite Hss. destruct (decide (i = id')) as [->|].
    + rewrite lookup_insert_eq. intros [= <-]. rewrite Hq. cbn. rewrite Hcq. intros [= ->].
      destruct (decide (id' = id)); [done|]. by destruct Hne.
    + rewrite lookup_insert_ne by done. intros Hr. rewrite Hsame by eauto. by apply Hu.
Qed.

(** What a session's writes do to the sockets of the others. *)
Definition others_log (p : ptr) (conn : conn_id) s s' : Prop :=
  table_same s s' ∧
  (bs_conn <$> sv_heap s !! p ≠ Some (Some conn) → backend_log conn s' = backend_log conn s).

#[export] Instance others_log_preorder p conn : PreOrder (others_log p conn).
Proof.
  split; [done|]. intros s1 s2 s3 [Ht1 H1] [Ht2 H2]. split; [by etrans|].
  intros Hc. rewrite H2, H1; [done..|]. destruct Ht1 as [-> _]. done.
Qed.

Lemma writeBackendPacket_others env p conn d s : others_log p conn s (writeBackendPacket env p d s).2.
Proof.
  split; [apply writeBackendPacket_frame|]. intros Hc. unfold writeBackendPacket. cbn.
  destruct (sv_heap s !! p) as [sess|]; cbn in *; [|done].
  destruct (bs_conn sess) as [c|]; [|done]. destruct (env_write _ _); [|done].
  unfold backend_log. cbn. rewrite omap_app. cbn. rewrite decide_False by congruence. apply app_nil_r.
Qed.

(** The state of the window of a session. *)
Definition window_of (id : Z) s : upstreamReorderState := default new_reorder (upstreamReorderStates s !! id).

Lemma writeUpstreamToBackend_stripe env now p id seq d s :
  sp_upstreamStripeEnabled (sv_params s) = true →
  let r := reorder_write (writeBackendPacket env p) (sp_upstreamReorderWindow (sv_params s))
             (sp_upstreamReorderHold (sv_params s)) now seq d (window_of id s) s in
  let s' := writeUpstreamToBackend env now p id seq d s in
  s' = sv_set_reorder r.2 (<[id := r.1]> (upstreamReorderStates r.2)).
Proof.
  intros Hon. cbv zeta. unfold writeUpstreamToBackend. rewrite Hon. cbn [negb].
  fold (window_of id s). by destruct (reorder_write _ _ _ _ _ _ _ _).
Qed.

(** The other sessions' windows are kept. *)
Definition windows_same s s' : Prop := upstreamReorderStates s' = upstreamReorderStates s.

#[export] Instance windows_same_preorder : PreOrder windows_same.
Proof. split; [done|]. unfold windows_same. intros s1 s2 s3 ??. congruence. Qed.

Lemma writeBackendPacket_windows env p d s : windows_same s (writeBackendPacket env p d s).2.
Proof.
  unfold writeBackendPacket, windows_same. cbn. destruct (bs_conn <$> _) as [[c|]|]; [|done..].
  by destruct (env_write _ _).
Qed.

(** The first frame of a session makes it the owner of the socket it dials. *)
Lemma stripe_open id env now conn addr s :
  server_inv s → sv_sessions s !! id = None → env_backend env = Dialled addr conn →
  (∀ id' p', sv_sessions s !! id' = Some p' → bs_conn <$> sv_heap s !! p' ≠ Some (Some conn)) →
  ∃ p s1, open_session env now id s = Some (p, s1) ∧ owns_socket id p conn s1 ∧ server_inv s1 ∧
    effects s1 = effects s ∧ upstreamReorderStates s1 = upstreamReorderStates s ∧ sv_params s1 = sv_params s.
Proof.
  intros Hi Hn Hb Hfresh.
  destruct (open_session env now id s) as [[p s1]|] eqn:Eo; [|unfold open_session in Eo; by rewrite Hn, Hb in Eo].
  exists p, s1. split; [done|].
  destruct (open_session_spec _ _ _ _ _ _ Hi Eo)
    as (Hi1 & Hss & He & _ & Hps & Hr & sess & c & Hp & _ & Hc & _ & _ & Hoth & [[Hk _]|(_ & Hk & addr' & Hb')]);
    [congruence|]. rewrite Hb in Hb'. injection Hb' as -> <-.
  split; [|done]. split; [by rewrite Hss, lookup_insert_eq|]. split; [rewrite Hp; cbn; by rewrite Hc|].
  intros i q. rewrite Hss. destruct (decide (i = id)) as [->|]; [done|]. rewrite lookup_insert_ne by done.
  intros Hq. rewrite Hoth; [intros Hc'; by destruct (Hfresh i q Hq)|].
  intros ->. destruct (si_sessions s Hi i p Hq) as (b & Hb2 & _). apply (si_heap s Hi) in Hb2. lia.
Qed.

(** One arrival, seen from the session [id]. *)
Definition arrived (arrivals : list packet_in) (cipher : Cipher E) (id q : Z) (d : list byte) : Prop :=
  ∃ a, a ∈ arrivals ∧ h_SessionID (pi_header a) = id ∧ h_SequenceID (pi_header a) = q ∧
    Decrypt cipher (pi_data a) = Ok d.

Record stripe_inv (arrivals : list packet_in) (ps : ServerParams E) (id : Z) (p : ptr) (conn : conn_id)
    (base : list (list byte)) s : Prop := {
  st_params : sv_params s = ps;
  st_inv : server_inv s;
  st_owns : owns_socket id p conn s;
  st_window : reorder_ok (backend_log conn) (arrived arrivals (sp_upstreamCipher ps) id)
    (Z.max 1 (sp_upstreamReorderWindow ps)) (sp_upstreamReorderWindow ps) (window_of id s) s base
}.

(** The window looks at the server only through the log. *)
Lemma reorder_ok_log {W W'} (log : W → list (list byte)) (log' : W' → list (list byte)) R bound window st w w' base :
  log' w' = log w → reorder_ok log R bound window st w base → reorder_ok log' R bound window st w' base.
Proof.
  intros El [[H1 H2 H3 H4] H5]. split; [|done]. split; [done..| |].
  - by rewrite El.
  - by rewrite El.
Qed.

Lemma backend_log_effects conn s s' : effects s' = effects s → backend_log conn s' = backend_log conn s.
Proof. unfold backend_log. by intros ->. Qed.

Lemma writeBackendPacket_owned env p conn d s :
  bs_conn <$> sv_heap s !! p = Some (Some conn) →
  backend_log conn (writeBackendPacket env p d s).2 =
    if (writeBackendPacket env p d s).1 then backend_log conn s ++ [d] else backend_log conn s.
Proof.
  intros Hc. pose proof (writeBackendPacket_log env p d s) as H. unfold socket_log in H.
  destruct (writeBackendPacket_frame env p d s) as (Hh & _). rewrite Hh, Hc in H. done.
Qed.

Lemma window_of_same id s s' :
  upstreamReorderStates s' !! id = upstreamReorderStates s !! id → window_of id s' = window_of id s.
Proof. unfold window_of. by intros ->. Qed.

(** The write itself, for the session's own packets and for the others'. *)
Lemma stripe_write arrivals ps id p conn base env now q id' seq d s :
  sp_upstreamStripeEnabled ps = true → Z.max 1 (sp_upstreamReorderWindow ps) < 2 ^ 32 →
  0 ≤ seq < 2 ^ 32 - 1 → stripe_inv arrivals ps id p conn base s →
  (id' = id → q = p ∧ arrived arrivals (sp_upstreamCipher ps) id seq d) →
  (id' ≠ id → bs_conn <$> sv_heap s !! q ≠ Some (Some conn)) →
  stripe_inv arrivals ps id p conn base (writeUpstreamToBackend env now q id' seq d s).
Proof.
  intros Hon Hwin Hseq [Hps Hi Ho Hw] Heq Hne.
  pose proof (writeUpstreamToBackend_same env now q id' seq d s) as Hsame.
  assert (bs_conn <$> sv_heap s !! p = Some (Some conn)) as Hc by apply Ho.
  split; [|by eapply table_same_inv|by eapply owns_socket_same|].
  { destruct Hsame as (_ & _ & _ & _ & _ & -> & _). done. }
  rewrite <- Hps in Hon. rewrite (writeUpstreamToBackend_stripe env now q id' seq d s Hon). clear Hsame.
  set (r := reorder_write _ _ _ _ _ _ _ _). destruct (decide (id' = id)) as [->|Hid].
  - destruct (Heq eq_refl) as [-> HR]. unfold window_of at 1. cbn. rewrite lookup_insert_eq. cbn.
    pose proof (reorder_write_keeps _ table_same (sp_upstreamReorderWindow (sv_params s))
      (sp_upstreamReorderHold (sv_params s)) now seq d (window_of id s) s (writeBackendPacket_frame env p)) as Hs.
    fold r in Hs. destruct Hs as (Hh & _). rewrite <- Hps in *.
    eapply (reorder_ok_log (socket_log p) _ _ _ _ _ r.2).
    2: { pose proof (reorder_write_ok (writeBackendPacket env p) (socket_log p) (writeBackendPacket_log env p)
           (arrived arrivals (sp_upstreamCipher (sv_params s)) id) (Z.max 1 (sp_upstreamReorderWindow (sv_params s)))
           (sp_upstreamReorderWindow (sv_params s)) (sp_upstreamReorderHold (sv_params s)) now seq d
           (window_of id s) s base) as Hok.
         fold r in Hok. destruct r as [st s2]. refine (proj1 (Hok _ _ _ _ _)); try done.
         eapply reorder_ok_log; [|exact Hw]. unfold socket_log. by rewrite Hc. }
    unfold socket_log. rewrite Hh, Hc. done.
  - specialize (Hne Hid). rewrite (window_of_same id s).
    2: { cbn. rewrite lookup_insert_ne by done. f_equal.
         apply (reorder_write_keeps _ windows_same). intros. apply writeBackendPacket_windows. }
    eapply reorder_ok_log; [|exact Hw]. unfold backend_log at 1. cbn. fold (backend_log conn r.2).
    apply (reorder_write_keeps _ (others_log q conn)); [|done]. intros. apply writeBackendPacket_others.
Qed.

Lemma stripe_step arrivals ps id p conn base a s :
  sp_upstreamStripeEnabled ps = true → Z.max 1 (sp_upstreamReorderWindow ps) < 2 ^ 32 →
  a ∈ arrivals → 0 ≤ h_SequenceID (pi_header a) < 2 ^ 32 - 1 →
  (∀ addr, env_backend (pi_env a) ≠ Dialled addr conn) → stripe_inv arrivals ps id p conn base s →
  stripe_inv arrivals ps id p conn base
    (handleUpstreamPacket (pi_env a) (pi_now a) (pi_header a) (pi_data a) s).
Proof.
  intros Hon Hwin Ha Hseq Hd Hinv. rewrite handleUpstreamPacket_eq. cbv zeta.
  assert (∀ st, stripe_inv arrivals ps id p conn base (sv_set_stats s st) ∨
    ActiveSessions st ≠ ActiveSessions (sv_stats s)) as Hst.
  { intros st. destruct (decide (ActiveSessions st = ActiveSessions (sv_stats s))); [left|by right].
    destruct Hinv as [? Hi ? Hw]. split; [done|by eapply server_inv_same|done|].
    eapply reorder_ok_log; [|exact Hw]. done. }
  assert (stripe_inv arrivals ps id p conn base (count_received (pi_data a) s)) as Hinv1
    by (by destruct (Hst (AddBytesReceived (AddPacketsReceived (sv_stats s) 1)
          (u64 (Z.of_nat (HeaderSize + length (pi_data a))))))).
  destruct (Decrypt _ (pi_data a)) as [d|e] eqn:Ed.
  2: { by destruct (Hst (AddError (sv_stats (count_received (pi_data a) s)))). }
  destruct (open_session _ _ _ _) as [[q s1]|] eqn:Eo.
  2: { by destruct (Hst (AddError (sv_stats (count_received (pi_data a) s)))). }
  destruct Hinv1 as [Hps Hi Ho Hw].
  destruct (owns_socket_open _ _ _ _ _ _ _ _ _ Hi Hd Ho Eo) as (Ho1 & Hq1 & Hq2).
  destruct (open_session_spec _ _ _ _ _ _ Hi Eo) as (Hi1 & _ & He & _ & Hps1 & Hr & _).
  apply stripe_write; try done.
  - split; [congruence|done|done|]. eapply reorder_ok_log; [by apply backend_log_effects|].
    rewrite (window_of_same id _ s1) by by rewrite Hr. done.
  - intros Hid. split; [by apply Hq1|]. exists a. rewrite <- Hps. done.
Qed.

Lemma stripe_run arrivals ps id p conn base (todo : list packet_in) s :
  sp_upstreamStripeEnabled ps = true → Z.max 1 (sp_upstreamReorderWindow ps) < 2 ^ 32 →
  (∀ a, a ∈ todo → a ∈ arrivals) →
  Forall (λ a, 0 ≤ h_SequenceID (pi_header a) < 2 ^ 32 - 1 ∧
    ∀ addr, env_backend (pi_env a) ≠ Dialled addr conn) todo →
  stripe_inv arrivals ps id p conn base s → stripe_inv arrivals ps id p conn base (receive_all todo s).
Proof.
  intros Hon Hwin Hsub Hall. revert s. induction Hall as [|a todo [Ha1 Ha2] Hall IH]; intros s Hinv; [done|].
  cbn. apply IH; [set_solver|]. apply stripe_step; try done. apply Hsub. by left.
Qed.

End Stripe.

(** C13: striped uplinks stay in order. In stripe mode the frames of a session
    arrive over several connections, interleaved with the frames of all the other
    sessions, delayed, duplicated or lost, and any backend write may fail. As long
    as sequence numbers do not reach the top of their range, what the socket dialled
    for the session's first frame receives is a sequence of the session's own
    decrypted payloads with strictly increasing sequence numbers: nothing is
    duplicated, reordered or delivered to another session's socket, and the window
    stays below its bound. *)
Theorem stripe_in_order {E} (s : Server E) first d0 addr conn (arrivals : list packet_in) :
  let id := h_SessionID (pi_header first) in
  let cipher := sp_upstreamCipher (sv_params s) in
  let window := Z.max 1 (sp_upstreamReorderWindow (sv_params s)) in
  server_inv s → sp_upstreamStripeEnabled (sv_params s) = true → window < 2 ^ 32 →
  sv_sessions s !! id = None → upstreamReorderStates s !! id = None →
  Decrypt cipher (pi_data first) = Ok d0 → env_backend (pi_env first) = Dialled addr conn →
  (∀ id' p', sv_sessions s !! id' = Some p' → bs_conn <$> sv_heap s !! p' ≠ Some (Some conn)) →
  Forall (λ a, 0 ≤ h_SequenceID (pi_header a) < 2 ^ 32 - 1) (first :: arrivals) →
  Forall (λ a, ∀ addr, env_backend (pi_env a) ≠ Dialled addr conn) arrivals →
  let s' := receive_all (first :: arrivals) s in
  (∃ qs ds, backend_log conn s' = backend_log conn s ++ ds ∧ StronglySorted Z.lt qs ∧
     Forall2 (arrived (first :: arrivals) cipher id) qs ds) ∧
  (∃ p, owns_socket id p conn s') ∧
  Z.of_nat (size (rs_pending (window_of id s'))) < window.
Proof.
  intros id cipher window Hi Hon Hwin Hn Hw Hd Hb Hfresh Hseq Hall. cbv zeta.
  apply Forall_cons in Hseq as [Hseq0 Hseq].
  assert (∃ p, stripe_inv (first :: arrivals) (sv_params s) id p conn (backend_log conn s)
    (receive_all [first] s)) as [p Hinv].
  { cbn. rewrite handleUpstreamPacket_eq. cbv zeta. fold cipher id.
    change (sv_params (count_received _ s)) with (sv_params s). fold cipher. rewrite Hd.
    destruct (stripe_open id (pi_env first) (pi_now first) conn addr (count_received (pi_data first) s))
      as (p & s1 & Eo & Ho & Hi1 & He & Hr & Hps); try done; [by apply server_inv_count|].
    rewrite Eo. exists p. apply stripe_write; try done.
    - split; [done..|]. unfold window_of. rewrite Hr. cbn. rewrite Hw.
      eapply reorder_ok_log; [|apply new_reorder_ok]. by apply backend_log_effects.
    - intros _. split; [done|]. exists first. split; [by left|done]. }
  destruct (stripe_run (first :: arrivals) (sv_params s) id p conn (backend_log conn s) arrivals
    (receive_all [first] s)) as [_ _ Ho' [Hw1 Hw2]]; try done.
  - intros a Ha. by right.
  - by apply Forall_and.
  - split; [|split; [by exists p|apply Hw2]].
    destruct (inv_sorted _ _ _ _ _ _ Hw1) as (qs & ds & H1 & H2 & H3 & _). by exists qs, ds.
Qed.

(** A striping server; two frames of session 1 swapped on the way and repeated,
    one of session 2 in between. *)
Definition sample_stripe : Server unit :=
  let p := sv_params sample_server in
  mkServer (mkServerParams (sp_config p) 64 NoneCipher NoneCipher true 8 3000000) ∅ 0%nat ∅
    (downWriters sample_server) ∅ ∅ (NewStats 0) [] [] 0%nat.

Definition sample_in (sid seq : Z) (conn : conn_id) (d : list byte) : packet_in :=
  mkPacketIn (mkSrvEnv (λ _, true) (Some (UDPAddrFromAddrPort (mkAddrPort (Addr4 2130706433) 53))) (λ _ _, Some conn))
    5 (NewDataPacket sid seq 1) d.

Lemma stripe_in_order_witness :
  let arrivals := [sample_in 1 3 9 [x63]; sample_in 2 1 8 [x7a]; sample_in 1 2 9 [x62]; sample_in 1 3 9 [x63]] in
  let s' := receive_all (sample_in 1 1 7 [x61] :: arrivals) sample_stripe in
  backend_log 7 s' = [[x61]; [x62]; [x63]] ∧
  ∃ qs ds, backend_log 7 s' = ds ∧ StronglySorted Z.lt qs ∧
    Forall2 (arrived (sample_in 1 1 7 [x61] :: arrivals) (@NoneCipher unit) 1) qs ds.
Proof.
  intros arrivals s'. split; [vm_compute; reflexivity|].
  destruct (stripe_in_order sample_stripe (sample_in 1 1 7 [x61]) [x61]
    (UDPAddrFromAddrPort (mkAddrPort (Addr4 2130706433) 53)) 7 arrivals) as [H _]; try reflexivity.
  - eapply server_inv_same; [exact sample_server_inv|reflexivity..].
  - intros id' p'. cbn. rewrite lookup_empty. discriminate.
  - repeat constructor; vm_compute; congruence.
  - repeat constructor; discriminate.
  - destruct H as (qs & ds & H1 & H2 & H3). exists qs, ds. split; [exact H1|]. split; [exact H2|exact H3].
Defined.
