(* ===== verification/ServerRace.v ===== *)
(** * The session table under concurrency (internal/server/server.go)

    gnet runs one event loop per core, so [handleUpstreamPacket] runs concurrently
    with itself (two connections carrying packets of the same session), with the
    goroutines that read the backends' answers ([handleBackendData]) and with the
    cleaner. Server.v takes each of them as one step; here the accesses to the
    shared table, the gauge and the sockets are steps of their own, and so are the
    closes of [Stop].

    [race_step single]: with [single] the connections never work on a new session
    together, as when a session's packets all come over one connection; without it
    they may, as in stripe mode. *)

From S2P Require Import Prelude.
From S2P Require Import Words.
From S2P Require Import Packet.
From S2P Require Import Stats.
From S2P Require Import Crypto.
From S2P Require Import Session.
From S2P Require Import Reorder.
From S2P Require Import Server.
From S2P Require Import ServerSpec.

Abbreviation ptr := nat (only parsing).

(** ** Data *)

(** [handleUpstreamPacket] for a packet of a session: [sessions.Load] is next, the
    backend is being dialled, then [Store], [AddActiveSession] and [go]. *)
Inductive hpoint := HLoad | HDial | HStore (p : ptr) | HAdd (p : ptr) | HSpawn (p : ptr).

(** A reader: in its loop; then [Close], [LoadAndDelete], [RemoveActiveSession]. *)
Inductive rpoint := RRead | RClose | RDelete | RRemove.

(** The cleaner: between ticks, about to delete an id it found expired, then
    [Close] and [RemoveActiveSession] for the session it deleted. *)
Inductive cpoint := CIdle | CDelete (id : Z) | CClose (p : ptr) | CRemove.

(** [g_ids] are the ids of all session objects, [g_open] those whose socket is
    open; [g_overwrites] counts the stores that replaced a session. *)
Record race := mkRace {
  g_table : gmap Z ptr;
  g_ids : gmap ptr Z;
  g_next : nat;
  g_open : gset ptr;
  g_gauge : Z;
  g_handlers : list (Z * hpoint);
  g_readers : list (ptr * rpoint);
  g_cleaner : cpoint;
  g_overwrites : nat
}.

Definition r_table (t : gmap Z ptr) (r : race) : race :=
  mkRace t (g_ids r) (g_next r) (g_open r) (g_gauge r) (g_handlers r) (g_readers r) (g_cleaner r) (g_overwrites r).
Definition r_open (o : gset ptr) (r : race) : race :=
  mkRace (g_table r) (g_ids r) (g_next r) o (g_gauge r) (g_handlers r) (g_readers r) (g_cleaner r) (g_overwrites r).
Definition r_gauge (k : Z) (r : race) : race :=
  mkRace (g_table r) (g_ids r) (g_next r) (g_open r) (g_gauge r + k) (g_handlers r) (g_readers r) (g_cleaner r) (g_overwrites r).
Definition r_handlers (l : list (Z * hpoint)) (r : race) : race :=
  mkRace (g_table r) (g_ids r) (g_next r) (g_open r) (g_gauge r) l (g_readers r) (g_cleaner r) (g_overwrites r).
Definition r_readers (l : list (ptr * rpoint)) (r : race) : race :=
  mkRace (g_table r) (g_ids r) (g_next r) (g_open r) (g_gauge r) (g_handlers r) l (g_cleaner r) (g_overwrites r).
Definition r_cleaner (c : cpoint) (r : race) : race :=
  mkRace (g_table r) (g_ids r) (g_next r) (g_open r) (g_gauge r) (g_handlers r) (g_readers r) c (g_overwrites r).
Definition r_overwrites (n : nat) (r : race) : race :=
  mkRace (g_table r) (g_ids r) (g_next r) (g_open r) (g_gauge r) (g_handlers r) (g_readers r) (g_cleaner r) n.

(** ** Steps *)

(** An event loop in [handleUpstreamPacket]. *)
Inductive handler_step (single : bool) : race → race → Prop :=
| h_begin r id :
    (single = true → id ∉ (g_handlers r).*1) →
    handler_step single r (r_handlers (g_handlers r ++ [(id, HLoad)]) r)
| h_found r l1 l2 id p :
    g_handlers r = l1 ++ (id, HLoad) :: l2 → g_table r !! id = Some p →
    handler_step single r (r_handlers (l1 ++ l2) r)
| h_missed r l1 l2 id :
    g_handlers r = l1 ++ (id, HLoad) :: l2 → g_table r !! id = None →
    handler_step single r (r_handlers (l1 ++ (id, HDial) :: l2) r)
| h_failed r l1 l2 id :
    g_handlers r = l1 ++ (id, HDial) :: l2 → handler_step single r (r_handlers (l1 ++ l2) r)
| h_dialled r l1 l2 id :
    g_handlers r = l1 ++ (id, HDial) :: l2 →
    handler_step single r
      (mkRace (g_table r) (<[S (g_next r) := id]> (g_ids r)) (S (g_next r)) ({[S (g_next r)]} ∪ g_open r)
         (g_gauge r) (l1 ++ (id, HStore (S (g_next r))) :: l2) (g_readers r) (g_cleaner r) (g_overwrites r))
| h_store r l1 l2 id p :
    g_handlers r = l1 ++ (id, HStore p) :: l2 →
    handler_step single r (r_handlers (l1 ++ (id, HAdd p) :: l2)
      (r_overwrites (g_overwrites r + match g_table r !! id with Some _ => 1 | None => 0 end)
        (r_table (<[id := p]> (g_table r)) r)))
| h_add r l1 l2 id p :
    g_handlers r = l1 ++ (id, HAdd p) :: l2 →
    handler_step single r (r_handlers (l1 ++ (id, HSpawn p) :: l2) (r_gauge 1 r))
| h_spawn r l1 l2 id p :
    g_handlers r = l1 ++ (id, HSpawn p) :: l2 →
    handler_step single r (r_handlers (l1 ++ l2) (r_readers ((p, RRead) :: g_readers r) r)).

(** A reader, from the end of its loop: the context is done, or [Read] fails. *)
Inductive reader_step : race → race → Prop :=
| r_end r l1 l2 p :
    g_readers r = l1 ++ (p, RRead) :: l2 → reader_step r (r_readers (l1 ++ (p, RClose) :: l2) r)
| r_close r l1 l2 p :
    g_readers r = l1 ++ (p, RClose) :: l2 →
    reader_step r (r_readers (l1 ++ (p, RDelete) :: l2) (r_open (g_open r ∖ {[p]}) r))
| r_delete r l1 l2 p id q :
    g_readers r = l1 ++ (p, RDelete) :: l2 → g_ids r !! p = Some id → g_table r !! id = Some q →
    reader_step r (r_readers (l1 ++ (p, RRemove) :: l2) (r_table (delete id (g_table r)) r))
| r_absent r l1 l2 p id :
    g_readers r = l1 ++ (p, RDelete) :: l2 → g_ids r !! p = Some id → g_table r !! id = None →
    reader_step r (r_readers (l1 ++ l2) r)
| r_remove r l1 l2 p :
    g_readers r = l1 ++ (p, RRemove) :: l2 →
    reader_step r (r_readers (l1 ++ l2) (r_gauge (-1) r)).

(** The cleaner; the ids it collects may be gone when it gets to them. *)
Inductive cleaner_step : race → race → Prop :=
| c_expired r id : g_cleaner r = CIdle → cleaner_step r (r_cleaner (CDelete id) r)
| c_gone r id :
    g_cleaner r = CDelete id → g_table r !! id = None → cleaner_step r (r_cleaner CIdle r)
| c_delete r id p :
    g_cleaner r = CDelete id → g_table r !! id = Some p →
    cleaner_step r (r_cleaner (CClose p) (r_table (delete id (g_table r)) r))
| c_close r p :
    g_cleaner r = CClose p → cleaner_step r (r_cleaner CRemove (r_open (g_open r ∖ {[p]}) r))
| c_remove r : g_cleaner r = CRemove → cleaner_step r (r_cleaner CIdle (r_gauge (-1) r)).

(** [Stop]: [closeSessions] closes the socket of an entry it meets; the entry, the
    gauge and the reader stay. *)
Inductive close_step : race → race → Prop :=
| s_close r id p :
    g_table r !! id = Some p → close_step r (r_open (g_open r ∖ {[p]}) r).

Inductive race_step (single : bool) (r r' : race) : Prop :=
| by_handler (H : handler_step single r r')
| by_reader (H : reader_step r r')
| by_cleaner (H : cleaner_step r r')
| by_stop (H : close_step r r').

(** A step by the constructor [H] of one of the four. *)
Ltac race_by H :=
  first [eapply by_handler; eapply H|eapply by_reader; eapply H
        |eapply by_cleaner; eapply H|eapply by_stop; eapply H].

Definition race_init : race := mkRace ∅ ∅ 0 ∅ 0 [] [] CIdle 0.
Definition race_reachable (single : bool) : race → Prop := rtc (race_step single) race_init.

(** ** Accounting *)

Definition adding (hp : hpoint) : nat := match hp with HAdd _ => 1 | _ => 0 end.
Definition removing (rp : rpoint) : nat := match rp with RRemove => 1 | _ => 0 end.
Definition cleaning (c : cpoint) : nat := match c with CClose _ | CRemove => 1 | _ => 0 end.

Definition adds (r : race) : nat := sum_list_with (λ h, adding h.2) (g_handlers r).
Definition removes (r : race) : nat :=
  sum_list_with (λ x, removing x.2) (g_readers r) + cleaning (g_cleaner r).

(** The gauge, with the updates still to come, is the size of the table plus the
    number of sessions that were overwritten. *)
Definition gauge_inv (r : race) : Prop :=
  g_gauge r + Z.of_nat (adds r) =
    Z.of_nat (size (g_table r)) + Z.of_nat (removes r) + Z.of_nat (g_overwrites r).

Ltac r_cbn := cbn [g_table g_ids g_next g_open g_gauge g_handlers g_readers g_cleaner g_overwrites
  r_table r_open r_gauge r_handlers r_readers r_cleaner r_overwrites adding removing cleaning fst snd] in *.

Lemma size_insert_old (m : gmap Z ptr) k p :
  Z.of_nat (size (<[k := p]> m)) + match m !! k with Some _ => 1 | None => 0 end =
  Z.of_nat (size m) + 1.
Proof.
  rewrite map_size_insert. destruct (m !! k) as [q|]; cbn; lia.
Qed.

Lemma race_step_gauge single r r' : race_step single r r' → gauge_inv r → gauge_inv r'.
Proof.
  unfold gauge_inv, adds, removes. intros Hst Hg.
  destruct Hst as [Hst|Hst|Hst|Hst]; destruct Hst; r_cbn;
    try (match goal with E : g_handlers _ = _ |- _ => rewrite E in Hg end);
    try (match goal with E : g_readers _ = _ |- _ => rewrite E in Hg end);
    try (match goal with E : g_cleaner _ = _ |- _ => rewrite E in Hg end);
    rewrite ?sum_list_with_app in *; cbn [sum_list_with] in *; r_cbn; try lia.
  - pose proof (size_insert_old (g_table r) id p). destruct (g_table r !! id); lia.
  - match goal with E : g_table _ !! _ = Some _ |- _ => pose proof (size_delete_some _ _ _ E) end. lia.
  - match goal with E : g_table _ !! _ = Some _ |- _ => pose proof (size_delete_some _ _ _ E) end. lia.
Qed.

(** ** Sockets *)

(** A handler between dialling and starting the reader. *)
Definition carries (p : ptr) (hp : hpoint) : Prop := hp = HStore p ∨ hp = HAdd p ∨ hp = HSpawn p.

(** Somebody is going to close the socket of [p]. *)
Definition attended (r : race) (p : ptr) : Prop :=
  (∃ id hp, (id, hp) ∈ g_handlers r ∧ carries p hp) ∨ (p, RRead) ∈ g_readers r ∨ (p, RClose) ∈ g_readers r.

Definition sockets_inv (r : race) : Prop := ∀ p, p ∈ g_open r → attended r p.

Lemma elem_of_middle {A} (x y : A) l1 l2 : x ∈ l1 ++ y :: l2 ↔ x = y ∨ x ∈ l1 ++ l2.
Proof. rewrite !elem_of_app, elem_of_cons. tauto. Qed.

(** A handler that moves on takes its socket with it. *)
Lemma attended_handler r r' l1 l2 id hp p :
  g_handlers r = l1 ++ (id, hp) :: l2 → g_readers r' = g_readers r →
  (∀ x, x ∈ l1 ++ l2 → x ∈ g_handlers r') →
  (carries p hp → attended r' p) → attended r p → attended r' p.
Proof.
  intros El Er Hl Hc [(id' & hp' & Hin & Hca)|[?|?]];
    [|right; left; by rewrite Er|right; right; by rewrite Er].
  rewrite El, elem_of_middle in Hin. destruct Hin as [[= -> ->]|Hin]; [by apply Hc|].
  left. exists id', hp'. split; [by apply Hl|done].
Qed.

Lemma attended_reader r r' l1 l2 x p :
  g_readers r = l1 ++ x :: l2 → g_handlers r' = g_handlers r →
  (∀ y, y ∈ l1 ++ l2 → y ∈ g_readers r') →
  (x = (p, RRead) ∨ x = (p, RClose) → attended r' p) → attended r p → attended r' p.
Proof.
  intros Er Eh Hl Hc [?|Hr]; [left; by rewrite Eh|].
  rewrite Er, !elem_of_middle in Hr. destruct Hr as [[<-|Hr]|[<-|Hr]]; [by apply Hc; left| |by apply Hc; right|];
    right; [left|right]; by apply Hl.
Qed.

Ltac no_socket := by intros [?|[?|?]].

Lemma race_step_sockets single r r' : race_step single r r' → sockets_inv r → sockets_inv r'.
Proof.
  intros Hst Hi p. specialize (Hi p).
  destruct Hst as [Hst|Hst|Hst|Hst];
    [destruct Hst as [r id _|r l1 l2 id q E Et|r l1 l2 id E Et|r l1 l2 id E|r l1 l2 id E|r l1 l2 id q E
       |r l1 l2 id q E|r l1 l2 id q E]
    |destruct Hst as [r l1 l2 q E|r l1 l2 q E|r l1 l2 q id q' E _ _|r l1 l2 q id E _ _|r l1 l2 q E]
    |destruct Hst as [r id E|r id E _|r id q E _|r q E|r E]
    |destruct Hst as [r id q E]]; r_cbn; try exact Hi; intros Hp.
  - destruct (Hi Hp) as [(id' & hp & Hin & ?)|?]; [left|by right]. exists id', hp. split; [|done]. r_cbn.
    apply elem_of_app. by left.
  - eapply attended_handler; [exact E|done|done|no_socket|by apply Hi].
  - eapply attended_handler; [exact E|done| |no_socket|by apply Hi].
    intros x Hx. apply elem_of_middle. by right.
  - eapply attended_handler; [exact E|done|done|no_socket|by apply Hi].
  - apply elem_of_union in Hp as [->%elem_of_singleton|Hp].
    + left. exists id, (HStore (S (g_next r))). split; [|by left]. apply elem_of_middle. by left.
    + eapply attended_handler; [exact E|done| |no_socket|by apply Hi].
      intros x Hx. apply elem_of_middle. by right.
  - eapply attended_handler; [exact E|done| | |by apply Hi].
    + intros x Hx. apply elem_of_middle. by right.
    + intros [[= ->]|[?|?]]; [|done..]. left. exists id, (HAdd p). split; [|by right; left].
      apply elem_of_middle. by left.
  - eapply attended_handler; [exact E|done| | |by apply Hi].
    + intros x Hx. apply elem_of_middle. by right.
    + intros [?|[[= ->]|?]]; [done| |done]. left. exists id, (HSpawn p). split; [|by right; right].
      apply elem_of_middle. by left.
  - destruct (Hi Hp) as [(id' & hp & Hin & Hc)|[?|?]];
      [|right; left; by right|right; right; by right].
    rewrite E, elem_of_middle in Hin. destruct Hin as [[= -> ->]|Hin]; [|left; by exists id', hp].
    destruct Hc as [?|[?|[= ->]]]; [done..|]. right; left. by left.
  - eapply attended_reader; [exact E|done| | |by apply Hi].
    + intros x Hx. apply elem_of_middle. by right.
    + intros [[= ->]|[=]]. right; right. apply elem_of_middle. by left.
  - apply elem_of_difference in Hp as [Hp Hn]. eapply attended_reader; [exact E|done| | |by apply Hi].
    + intros x Hx. apply elem_of_middle. by right.
    + intros [[=]|[= ->]]. destruct Hn. by apply elem_of_singleton.
  - eapply attended_reader; [exact E|done| |by intros [[=]|[=]]|by apply Hi].
    intros x Hx. apply elem_of_middle. by right.
  - eapply attended_reader; [exact E|done|done|by intros [[=]|[=]]|by apply Hi].
  - eapply attended_reader; [exact E|done|done|by intros [[=]|[=]]|by apply Hi].
  - apply Hi. by apply elem_of_difference in Hp as [? _].
  - apply Hi. by apply elem_of_difference in Hp as [? _].
Qed.

(** ** One connection per session *)

Record single_inv (r : race) : Prop := {
  gi_once : NoDup (g_handlers r).*1;
  gi_absent id hp : (id, hp) ∈ g_handlers r → hp = HDial ∨ (∃ p, hp = HStore p) → g_table r !! id = None;
  gi_overwrites : g_overwrites r = 0%nat
}.

(** A handler that moves on, or leaves. *)
Lemma single_inv_move r r' l1 l2 id hp hp' :
  single_inv r → g_handlers r = l1 ++ (id, hp) :: l2 → g_handlers r' = l1 ++ (id, hp') :: l2 →
  (∀ id', id' ≠ id → g_table r !! id' = None → g_table r' !! id' = None) →
  (hp' = HDial ∨ (∃ p, hp' = HStore p) → g_table r' !! id = None) →
  g_overwrites r' = 0%nat → single_inv r'.
Proof.
  intros [Hn Ha _] E E' Ht Hp Ho. rewrite E, fmap_app, fmap_cons in Hn. cbn [fst] in Hn.
  split; [by rewrite E', fmap_app, fmap_cons| |done].
  intros id' hpx. rewrite E', elem_of_middle. intros [[= -> ->]|Hin] Hx; [by apply Hp|].
  apply Ht; [|apply (Ha id' hpx); [|done]; rewrite E; apply elem_of_middle; by right].
  intros ->. rewrite <- Permutation_middle, <- fmap_app in Hn. apply NoDup_cons in Hn as [Hn _].
  apply Hn, list_elem_of_fmap. by exists (id, hpx).
Qed.

Lemma single_inv_leave r r' l1 l2 id hp :
  single_inv r → g_handlers r = l1 ++ (id, hp) :: l2 → g_handlers r' = l1 ++ l2 →
  g_table r' = g_table r → g_overwrites r' = g_overwrites r → single_inv r'.
Proof.
  intros [Hn Ha Ho] E E' Et Eo. split; [| |by rewrite Eo].
  - eapply sublist_NoDup; [exact Hn|]. rewrite E, E'. apply fmap_sublist, sublist_app; [done|by constructor].
  - intros id' hp'. rewrite E', Et. intros Hin. apply (Ha id' hp'). rewrite E. apply elem_of_middle. by right.
Qed.

Lemma single_inv_others r r' :
  single_inv r → g_handlers r' = g_handlers r → g_overwrites r' = g_overwrites r →
  (g_table r' = g_table r ∨ ∃ id, g_table r' = delete id (g_table r)) → single_inv r'.
Proof.
  intros [Hn Ha Ho] E Eo Ht. split; rewrite ?E, ?Eo; [done| |done].
  intros id hp Hin Hx. specialize (Ha id hp Hin Hx). destruct Ht as [->|[k ->]]; [done|].
  destruct (decide (k = id)) as [->|]; [by rewrite lookup_delete_eq|by rewrite lookup_delete_ne].
Qed.

Lemma race_step_single r r' : race_step true r r' → single_inv r → single_inv r'.
Proof.
  intros Hst Hi. pose proof Hi as [Hn Ha Ho].
  destruct Hst as [Hst|Hst|Hst|Hst];
    [destruct Hst as [r id Hid|r l1 l2 id q E Et|r l1 l2 id E Et|r l1 l2 id E|r l1 l2 id E|r l1 l2 id q E
       |r l1 l2 id q E|r l1 l2 id q E]
    |destruct Hst as [r l1 l2 q E|r l1 l2 q E|r l1 l2 q id q' E _ _|r l1 l2 q id E _ _|r l1 l2 q E]
    |destruct Hst as [r id E|r id E _|r id q E _|r q E|r E]
    |destruct Hst as [r id q E]];
    try (eapply single_inv_others; [exact Hi|done|done|by eauto]; fail);
    try (eapply single_inv_leave; [exact Hi|exact E|done..]; fail).
  - split; r_cbn; [| |done].
    + rewrite fmap_app. apply NoDup_app. split; [done|]. split; [|by apply NoDup_singleton].
      intros x Hx Hx'. apply list_elem_of_singleton in Hx'. cbn in Hx'. subst. by apply Hid.
    + intros id' hp [?|Hx]%elem_of_app; [by apply Ha|].
      apply list_elem_of_singleton in Hx as [= -> ->]. by intros [|[]].
  - eapply single_inv_move; [exact Hi|exact E|done|done|done|done].
  - eapply single_inv_move; [exact Hi|exact E|done|done| |done]. r_cbn. intros _.
    apply (Ha id HDial); [|by left]. rewrite E. apply elem_of_middle. by left.
  - assert (g_table r !! id = None) as Hnone.
    { apply (Ha id (HStore q)); [|by right; eexists]. rewrite E. apply elem_of_middle. by left. }
    eapply single_inv_move; [exact Hi|exact E|done| |by intros [|[]]|].
    + r_cbn. intros id' Hne Hid. by rewrite lookup_insert_ne.
    + r_cbn. rewrite Hnone. lia.
  - eapply single_inv_move; [exact Hi|exact E|done|done|by intros [|[]]|done].
Qed.

(** ** Theorems *)

Lemma race_inv single r :
  race_reachable single r → gauge_inv r ∧ sockets_inv r ∧ (single = true → single_inv r).
Proof.
  unfold race_reachable. revert r. apply rtc_ind_r.
  - split_and!; [done|by intros p Hp%elem_of_empty|]. intros _. split; try done.
    constructor.
  - intros r r' _ Hst (Hg & Hs & H1). split_and!.
    + by eapply race_step_gauge.
    + by eapply race_step_sockets.
    + intros ->. eapply race_step_single; [done|by apply H1].
Qed.

(** C16: the gauge under concurrency. However the event loops, the readers, the
    cleaner and the closes of [Stop] interleave: the gauge of active sessions and the updates that are still
    to be made give exactly the size of the session table plus the number of times a
    session was stored over another; and every open backend socket belongs to a
    handler that has yet to start its reader or to a reader that will close it. If
    no two event loops work on the same new session together, no session is ever
    stored over another, so whenever nobody is in the middle of an update the gauge
    is the size of the table. *)
Theorem gauge_accounts single r :
  race_reachable single r →
  g_gauge r + Z.of_nat (adds r) =
    Z.of_nat (size (g_table r)) + Z.of_nat (removes r) + Z.of_nat (g_overwrites r) ∧
  (∀ p, p ∈ g_open r → attended r p) ∧
  (single = true → g_overwrites r = 0%nat ∧
     (adds r = 0%nat → removes r = 0%nat → g_gauge r = Z.of_nat (size (g_table r)))).
Proof.
  intros Hr. destruct (race_inv single r Hr) as (Hg & Hs & H1). split; [done|]. split; [done|].
  intros E. destruct (H1 E) as [_ _ Ho]. split; [done|]. unfold gauge_inv in Hg. lia.
Qed.

(** One step from the state reached so far, then evaluate it. *)
Ltac race_go H :=
  eapply rtc_l; [race_by H; (reflexivity || done)|];
  lazymatch goal with
  | |- rtc ?R ?x ?z => let y := eval vm_compute in x in change (rtc R y z)
  end.

(** One packet of session 7, to the reader's start. *)
Lemma gauge_accounts_witness :
  ∃ r, race_reachable true r ∧ g_table r = {[7 := 1%nat]} ∧ g_gauge r = 1 ∧ attended r 1%nat.
Proof.
  assert (∃ r, race_reachable true r ∧ g_table r = {[7 := 1%nat]} ∧ adds r = 0%nat ∧ removes r = 0%nat ∧
    1%nat ∈ g_open r) as (r & Hr & Ht & Ha & Hrm & Ho).
  { eexists. split.
    - eapply rtc_l; [apply by_handler, (h_begin true _ 7); intros _ H; inversion H|].
      race_go (λ r, h_missed true r []). race_go (λ r, h_dialled true r []). race_go (λ r, h_store true r []).
      race_go (λ r, h_add true r []). race_go (λ r, h_spawn true r []). apply rtc_refl.
    - split_and!; reflexivity. }
  destruct (gauge_accounts true r Hr) as (_ & Hs & H1). destruct (H1 eq_refl) as [_ Hg].
  exists r. split; [exact Hr|]. split; [exact Ht|]. split; [|exact (Hs _ Ho)].
  rewrite (Hg Ha Hrm), Ht. reflexivity.
Defined.

(** C38: two creators. When two event loops take the first packets of a session
    together (packets of one session come over different connections in stripe
    mode), both miss it in the table, both dial, and the second store replaces the
    first: with everything settled, the gauge says two sessions and the table has
    one; the first socket stays open, its reader waits, and no entry of the table
    leads to it, so the cleaner will never close it. *)
Theorem racing_creators_orphan :
  ∃ r, race_reachable false r ∧ g_handlers r = [] ∧ g_cleaner r = CIdle ∧ removes r = 0%nat ∧
    g_gauge r = 2 ∧ g_table r = {[7 := 2%nat]} ∧ 1%nat ∈ g_open r ∧ (1%nat, RRead) ∈ g_readers r.
Proof.
  eexists. split.
  { race_go (λ r, h_begin false r 7). race_go (λ r, h_begin false r 7).
    race_go (λ r, h_missed false r []). race_go (λ r, h_missed false r [(7, HDial)]).
    race_go (λ r, h_dialled false r []). race_go (λ r, h_dialled false r [(7, HStore 1)]).
    race_go (λ r, h_store false r []). race_go (λ r, h_store false r [(7, HAdd 1)]).
    race_go (λ r, h_add false r []). race_go (λ r, h_spawn false r []).
    race_go (λ r, h_add false r []). race_go (λ r, h_spawn false r []). apply rtc_refl. }
  split_and!; try reflexivity. right. by left.
Qed.

(** ** The atomic operations are runs *)

Section Atomic.
Context {E : Type}.
Implicit Types s : Server E.

(** A server between operations, as a state in which nothing is under way. *)
Record represents_server s (r : race) : Prop := {
  rs_table : g_table r = sv_sessions s;
  rs_ids p : g_ids r !! p = bs_sessionID <$> sv_heap s !! p;
  rs_next : g_next r = sv_next s;
  rs_gauge : ActiveSessions (sv_stats s) = i32 (g_gauge r);
  rs_readers : g_readers r = (λ p, (p, RRead)) <$> readers s;
  rs_nodup : NoDup (readers s);
  rs_bound p : p ∈ readers s → is_Some (sv_heap s !! p) ∧ (p ≤ sv_next s)%nat;
  rs_handlers : g_handlers r = [];
  rs_cleaner : g_cleaner r = CIdle
}.

(** Everything but the heap's sessions' clocks and counters, and the statistics. *)
Lemma represents_server_ext s s' r :
  sv_sessions s' = sv_sessions s → sv_next s' = sv_next s → readers s' = readers s →
  (∀ p, bs_sessionID <$> sv_heap s' !! p = bs_sessionID <$> sv_heap s !! p) →
  ActiveSessions (sv_stats s') = ActiveSessions (sv_stats s) →
  represents_server s r → represents_server s' r.
Proof.
  intros Et En Er Eh Ea [? Hi ? ? ? ? Hb ? ?]. split; rewrite ?Et, ?En, ?Er, ?Ea; try done.
  - intros p. by rewrite Eh.
  - intros p Hp. destruct (Hb p Hp) as [[x Hx] ?]. split; [|done]. specialize (Eh p). rewrite Hx in Eh.
    destruct (sv_heap s' !! p); done.
Qed.

Lemma represents_server_same s s' r : table_same s s' → represents_server s r → represents_server s' r.
Proof.
  intros (Eh & Et & En & _ & Er & _ & _ & Ea). apply represents_server_ext; try done. by rewrite Eh.
Qed.

Lemma open_session_race env now id s p s1 r :
  represents_server s r → open_session env now id s = Some (p, s1) →
  ∃ r', rtc (race_step true) r r' ∧ represents_server s1 r'.
Proof.
  intros Hr Ho. unfold open_session in Ho.
  destruct (sv_sessions s !! id) as [q|] eqn:Eq.
  - injection Ho as <- <-. exists r. split; [apply rtc_refl|].
    apply (represents_server_ext s); try done. intros k. cbn. rewrite lookup_alter.
    case_decide; [|done]. subst. by destruct (sv_heap s !! k).
  - destruct (env_backend env) as [| |addr conn]; try done. injection Ho as <- <-.
    destruct Hr as [Ht Hi Hn Hg Hrd Hnd Hb Hh Hc].
    destruct r as [rt ri rn ro rg rh rr rc rw]; r_cbn; subst rt rn rh rc.
    eexists. split.
    + eapply rtc_l; [apply by_handler, (h_begin _ _ id); intros _ H; inversion H|].
      eapply rtc_l; [apply by_handler, (h_missed _ _ [] []); done|]. eapply rtc_l; [eapply by_handler, (h_dialled _ _ [] []); done|].
      eapply rtc_l; [eapply by_handler, (h_store _ _ [] []); done|]. eapply rtc_l; [by apply by_handler, (h_add _ _ [] [])|].
      eapply rtc_once. eapply by_handler, (h_spawn _ _ [] []); done.
    + split; cbn; try done.
      * intros k. destruct (decide (k = S (sv_next s))) as [->|]; [by rewrite !lookup_insert_eq|].
        by rewrite !lookup_insert_ne.
      * rewrite Hg. apply i32_add.
      * by rewrite Hrd.
      * constructor; [|done]. intros Hin. destruct (Hb _ Hin). lia.
      * intros k [->|Hk]%elem_of_cons; [rewrite lookup_insert_eq; by eauto|].
        destruct (Hb k Hk) as [? ?]. split; [|lia]. rewrite lookup_insert_ne; [done|lia].
Qed.

(** [LoadAndDelete] by a reader that has ended, alone. *)
Lemma filter_middle (p : nat) l1 l2 :
  NoDup (l1 ++ p :: l2) → filter (λ q, q ≠ p) (l1 ++ p :: l2) = l1 ++ l2.
Proof.
  intros Hn. rewrite <- Permutation_middle in Hn. apply NoDup_cons in Hn as [Hn _].
  assert (∀ l : list nat, p ∉ l → filter (λ q : nat, q ≠ p) l = l) as Hf.
  { intros l. induction l as [|x l IH]; [done|]. rewrite not_elem_of_cons, filter_cons. intros [Hx Hl].
    case_decide; [|congruence]. by rewrite IH. }
  rewrite filter_app, filter_cons. case_decide; [done|].
  rewrite elem_of_app in Hn. rewrite !Hf by tauto. done.
Qed.

Lemma backend_exit_race p s r :
  represents_server s r → p ∈ readers s →
  ∃ r', rtc (race_step true) r r' ∧ represents_server (backend_exit p s) r'.
Proof.
  intros [Ht Hi Hn Hg Hrd Hnd Hb Hh Hc] Hp. destruct (Hb p Hp) as [[sess Hs] _].
  apply list_elem_of_split in Hp as (l1 & l2 & El). rewrite El in Hrd, Hnd.
  assert (g_ids r !! p = Some (bs_sessionID sess)) as Hid by by rewrite Hi, Hs.
  assert (∀ q, q ∈ l1 ++ l2 → q ∈ readers s) as Hsub.
  { intros q. rewrite El, elem_of_middle. tauto. }
  unfold backend_exit. rewrite Hs. rewrite fmap_app, fmap_cons in Hrd.
  destruct r as [rt ri rn ro rg rh rr rc rw]; r_cbn; subst rt rn rh rc rr.
  assert (NoDup (l1 ++ l2)) as Hnd'.
  { rewrite <- Permutation_middle in Hnd. by apply NoDup_cons in Hnd as [_ ?]. }
  destruct (bs_Close sess) as [c|]; (destruct (sv_sessions s !! bs_sessionID sess) as [q|] eqn:Eq; cbn; rewrite Eq;
    (eexists; split;
     [eapply rtc_l; [eapply by_reader, r_end; done|]; eapply rtc_l; [eapply by_reader, r_close; done|];
      first [eapply rtc_once; eapply by_reader, r_absent; done|eapply rtc_l; [eapply by_reader, r_delete; done|]; eapply rtc_once; eapply by_reader, r_remove; done]|])).
  all: split; cbn; rewrite ?El, ?filter_middle by done; try done; try (by rewrite fmap_app);
    try (intros k Hk; apply Hb, Hsub, Hk).
  all: rewrite Hg; apply i32_add.
Qed.

Lemma cleanup_race id s r :
  represents_server s r → ∃ r', rtc (race_step true) r r' ∧ represents_server (sv_cleanup_id id s) r'.
Proof.
  intros [Ht Hi Hn Hg Hrd Hnd Hb Hh Hc]. unfold sv_cleanup_id.
  destruct r as [rt ri rn ro rg rh rr rc rw]; r_cbn; subst rt rn rh rc rr.
  destruct (sv_sessions s !! id) as [p|] eqn:Ep.
  - eexists. split.
    + eapply rtc_l; [apply by_cleaner, (c_expired _ id); done|]. eapply rtc_l; [eapply by_cleaner, c_delete; done|].
      eapply rtc_l; [eapply by_cleaner, c_close; done|]. eapply rtc_once. by apply by_cleaner, c_remove.
    + cbn [sv_heap sv_set_sessions].
      destruct (bs_Close <$> sv_heap s !! p) as [[c|]|]; split; cbn; try done; rewrite Hg; apply i32_add.
  - eexists. split; [apply rtc_refl|]. by split.
Qed.

End Atomic.

(** C17: the one-step operations are runs of the finer steps. Let a server with
    nothing under way be represented by a state of [race_step]. Then
    [handleUpstreamPacket], the end of a backend reader and the cleaner's work on one
    id, as Server.v defines them, lead to a server represented by a state that the
    finer steps reach, with one creator per session: the table, the ids of the
    session objects, the gauge and the readers agree. *)
Theorem server_refines_race {E} (s : Server E) r :
  represents_server s r →
  (∀ env now header data, ∃ r', rtc (race_step true) r r' ∧
     represents_server (handleUpstreamPacket env now header data s) r') ∧
  (∀ p, p ∈ readers s → ∃ r', rtc (race_step true) r r' ∧ represents_server (backend_exit p s) r') ∧
  (∀ id, ∃ r', rtc (race_step true) r r' ∧ represents_server (sv_cleanup_id id s) r').
Proof.
  intros Hr. split; [|split; [intros; by apply backend_exit_race|intros; by apply cleanup_race]].
  intros env now header data. rewrite handleUpstreamPacket_eq. cbv zeta.
  assert (represents_server (count_received data s) r) as Hr' by (apply (represents_server_ext s); done).
  destruct (Decrypt _ _) as [d|e].
  - destruct (open_session env now (h_SessionID header) (count_received data s)) as [[p s1]|] eqn:Eo.
    + destruct (open_session_race _ _ _ _ _ _ _ Hr' Eo) as (r' & Hst & Hr1). exists r'. split; [done|].
      by eapply represents_server_same; [apply writeUpstreamToBackend_same|].
    + exists r. split; [apply rtc_refl|]. by apply (represents_server_ext (count_received data s)).
  - exists r. split; [apply rtc_refl|]. by apply (represents_server_ext (count_received data s)).
Qed.

Definition sample_race : race := mkRace ∅ ∅ 0 ∅ 0 [] [] CIdle 0.

Lemma sample_represents_server : represents_server sample_server sample_race.
Proof.
  split; try (vm_compute; reflexivity).
  - constructor.
  - intros p Hp. inversion Hp.
Qed.

Lemma server_refines_race_witness :
  ∃ r', rtc (race_step true) sample_race r' ∧
    represents_server (handleUpstreamPacket sample_env 5 (NewDataPacket 1 1 2) [x68; x69] sample_server) r' ∧
    g_table r' = {[1 := 1%nat]}.
Proof.
  destruct (server_refines_race sample_server sample_race sample_represents_server) as [H _].
  destruct (H sample_env 5 (NewDataPacket 1 1 2) [x68; x69]) as (r' & Hs & Hr).
  exists r'. split; [exact Hs|]. split; [exact Hr|]. rewrite (rs_table _ _ Hr). vm_compute. reflexivity.
Defined.
