(* ===== verification/ServerDown.v ===== *)
(** * The server's downstream path and its session table over time

    [sendToDownstream] as an operation on the queue of a lane, the lane writer's
    batches, and the invariant of the session table over every interleaving of the
    server's goroutines. *)

From S2P Require Import Prelude.
From S2P Require Import Words.
From S2P Require Import Packet.
From S2P Require Import Stream.
From S2P Require Import Stats.
From S2P Require Import NetErrors.
From S2P Require Import Config.
From S2P Require Import Crypto.
From S2P Require Import Session.
From S2P Require Import Ring.
From S2P Require Import Client.
From S2P Require Import ClientTable.
From S2P Require Import Upstream.
From S2P Require Import Reorder.
From S2P Require Import Server.
From S2P Require Import ServerSpec.

Section Lanes.
Context {E : Type}.
Implicit Types s : Server E.

(** ** Lanes *)

(** The lane of a session: the one its client registered it on, or the one its id
    selects. *)
Definition session_lane s (id : Z) : nat :=
  let fallback := Z.to_nat (id mod Z.of_nat (length (downWriters s))) in
  match sessionLaneMap s !! id with
  | Some laneID => if in_lanes laneID s then Z.to_nat laneID else fallback
  | None => fallback
  end.

Lemma in_lanes_true laneID s :
  in_lanes laneID s = true ↔ 0 ≤ laneID < Z.of_nat (length (downWriters s)).
Proof. unfold in_lanes. rewrite negb_true_iff, orb_false_iff, Z.ltb_ge, Z.leb_gt. lia. Qed.

Lemma session_lane_lt s id : server_inv s → (session_lane s id < length (downWriters s))%nat.
Proof.
  intros [[Hl _] _ _ _ _]. unfold session_lane.
  pose proof (Z.mod_pos_bound id (Z.of_nat (length (downWriters s))) ltac:(lia)).
  destruct (sessionLaneMap s !! id) as [l|]; [|lia].
  destruct (in_lanes l s) eqn:El; [|lia]. apply in_lanes_true in El. lia.
Qed.

Lemma laneForSession_eq s id :
  server_inv s → laneForSession id s = Ret (Z.of_nat (session_lane s id)).
Proof.
  intros [[Hl1 Hl2] _ _ _ _]. unfold laneForSession, session_lane, lane_index.
  rewrite u32_small by (unfold in_word; lia). rewrite (proj2 (Z.eqb_neq _ _)) by lia.
  destruct (sessionLaneMap s !! id) as [l|]; [|done].
  destruct (in_lanes l s) eqn:El; [|done]. apply in_lanes_true in El. by rewrite Z2Nat.id by lia.
Qed.

(** ** Sending *)

(** The counter of the session is advanced whether the frame is queued or not. *)
Definition sv_next_seq s (p : ptr) (sess : BackendSession) : Server E :=
  sv_set_heap s (<[p := (bs_NextSequenceID sess).2]> (sv_heap s)).

Definition down_frame (sess : BackendSession) (ct : list byte) : Frame :=
  mkFrame (NewDataPacket (bs_sessionID sess) (u32 (bs_sequenceID sess + 1)) (Z.of_nat (length ct))) ct.

Definition push_frame (frame : list byte) (w : downstreamWriter) : downstreamWriter :=
  set_ch w (dw_ch w ++ [frame]).

Lemma sendToDownstream_eq s p sess data rand :
  server_inv s → sv_heap s !! p = Some sess →
  sendToDownstream p data rand s =
  let i := session_lane s (bs_sessionID sess) in
  match Encrypt (sp_downstreamCipher (sv_params s)) rand data with
  | Err _ => Ret (sv_set_stats s (AddError (sv_stats s)))
  | Ok ct =>
      let frame := frame_bytes (NewDataPacket (bs_sessionID sess) (u32 (bs_sequenceID sess + 1))
                     (u32 (Z.of_nat (length ct)))) ct in
      let s := sv_next_seq s p sess in
      match downWriters s !! i with
      | None => Panic
      | Some w =>
          Ret (if Z.of_nat (length (dw_ch w)) <? writer_cap
               then sv_set_writers s (<[i := push_frame frame w]> (downWriters s))
               else sv_set_stats s (AddError (sv_stats s)))
      end
  end.
Proof.
  intros Hi Hp. unfold sendToDownstream. rewrite Hp, laneForSession_eq by done. cbn [mbind exec_bind].
  pose proof (session_lane_lt s (bs_sessionID sess) Hi) as Hlt.
  rewrite (proj2 (in_lanes_true _ _)) by lia. cbn [negb]. rewrite Nat2Z.id.
  destruct (Encrypt _ _ _) as [ct|]; [|done]. cbn [bs_NextSequenceID].
  rewrite MarshalTo_spec by (rewrite length_replicate; done). cbn [mbind exec_bind].
  rewrite drop_ge by (rewrite length_replicate; done). rewrite app_nil_r.
  fold (frame_bytes (NewDataPacket (bs_sessionID sess) (u32 (bs_sequenceID sess + 1)) (u32 (Z.of_nat (length ct)))) ct).
  change (sv_set_heap s _) with (sv_next_seq s p sess).
  destruct (downWriters (sv_next_seq s p sess) !! _) as [w|] eqn:Ew; [|done].
  unfold enqueue. destruct (_ <? _); [done|]. f_equal. rewrite list_insert_id by done.
  by destruct (sv_next_seq s p sess).
Qed.

Lemma down_writer_some s id : server_inv s → is_Some (downWriters s !! session_lane s id).
Proof. intros Hi. apply lookup_lt_is_Some. by apply session_lane_lt. Qed.

Lemma down_frame_ok s sess data rand ct `{!CipherSpec (sp_downstreamCipher (sv_params s))} :
  let mps := MaxPacketSize (sp_config (sv_params s)) in
  let ov := Z.of_nat (Overhead (sp_downstreamCipher (sv_params s))) in
  random_ok rand → in_word 32 (bs_sessionID sess) → Z.of_nat (length data) ≤ mps → mps + ov < 2 ^ 31 →
  Encrypt (sp_downstreamCipher (sv_params s)) rand data = Ok ct →
  frame_ok (mps + ov) (down_frame sess ct) ∧ Decrypt (sp_downstreamCipher (sv_params s)) ct = Ok data ∧
  u32 (Z.of_nat (length ct)) = Z.of_nat (length ct).
Proof.
  intros mps ov Hr Hsid Hlen Hmax Ee.
  assert (Z.of_nat (length data) ≤ max_plaintext) as Hpl by (apply max_plaintext_small; lia).
  pose proof (length_Encrypt rand data ct Hr Hpl Ee) as Hct.
  assert (in_word 32 (Z.of_nat (length ct))) as Hw by (unfold in_word; lia).
  split; [|split; [by eapply Decrypt_Encrypt|by apply u32_small]].
  split; [|split; [done|split; [done|cbn; lia]]].
  apply NewDataPacket_wf; [done|apply u32_word|done].
Qed.

End Lanes.

(** C26: a backend datagram becomes one frame. A datagram that fits the configured
    packet size, read for a session with a 32-bit id, is encrypted and queued at the
    end of its session's lane as one frame which a client with the same
    configuration accepts and decrypts back to the datagram; its sequence number is
    the next of the session. A full queue (32768 frames) drops it and counts an
    error, the number being spent; a failing random source drops it too. No branch
    panics. *)
Theorem sendToDownstream_queues {E} (s : Server E) p sess data rand :
  let cipher := sp_downstreamCipher (sv_params s) in
  let max := MaxPacketSize (sp_config (sv_params s)) + Z.of_nat (Overhead cipher) in
  CipherSpec cipher → server_inv s → random_ok rand →
  sv_heap s !! p = Some sess → in_word 32 (bs_sessionID sess) →
  Z.of_nat (length data) ≤ MaxPacketSize (sp_config (sv_params s)) → max < 2 ^ 31 →
  match Encrypt cipher rand data with
  | Err _ => sendToDownstream p data rand s = Ret (sv_set_stats s (AddError (sv_stats s)))
  | Ok ct =>
      let i := session_lane s (bs_sessionID sess) in
      let f := down_frame sess ct in
      (frame_ok max f ∧ Decrypt cipher (f_Payload f) = Ok data) ∧
      ∃ w, downWriters s !! i = Some w ∧
        sendToDownstream p data rand s =
          if Z.of_nat (length (dw_ch w)) <? writer_cap
          then Ret (sv_set_writers (sv_next_seq s p sess) (<[i := push_frame (wire f) w]> (downWriters s)))
          else Ret (sv_set_stats (sv_next_seq s p sess) (AddError (sv_stats s)))
  end.
Proof.
  intros cipher max Hc Hi Hr Hp Hsid Hlen Hmax. rewrite (sendToDownstream_eq s p sess data rand Hi Hp). cbv zeta.
  fold cipher. destruct (Encrypt cipher rand data) as [ct|e] eqn:Ee; [|done].
  destruct (down_frame_ok s sess data rand ct Hr Hsid Hlen Hmax Ee) as (Hok & Hd & ->).
  split; [done|]. destruct (down_writer_some s (bs_sessionID sess) Hi) as [w Hw].
  exists w. split; [done|]. cbn. rewrite Hw. by destruct (_ <? _).
Qed.

(** A server with session 1. *)
Definition sample_open : Server unit :=
  handleUpstreamPacket sample_env 5 (NewDataPacket 1 1 2) [x68; x69] sample_server.

Lemma sample_open_inv : server_inv sample_open.
Proof. apply handleUpstreamPacket_inv, sample_server_inv. Qed.

Lemma sendToDownstream_queues_witness :
  ∃ s' w, sendToDownstream 1 [x6f; x6b] (λ n, Some (replicate n x00)) sample_open = Ret s' ∧
    downWriters s' !! 1%nat = Some w ∧
    dw_ch w = [frame_bytes (NewDataPacket 1 1 2) (XOREncrypt [x6f; x6b])].
Proof.
  pose proof (sendToDownstream_queues sample_open 1
    (NewBackendSession 5 1 (Some 7%nat) (UDPAddrFromAddrPort (mkAddrPort (Addr4 2130706433) 53)) None)
    [x6f; x6b] (λ n, Some (replicate n x00))) as H.
  destruct H as (_ & w & Hw & H).
  - apply XORCipher_spec.
  - exact sample_open_inv.
  - intros n l [= <-]. apply length_replicate.
  - vm_compute. reflexivity.
  - by_compute.
  - by_compute.
  - by_compute.
  - vm_compute in Hw. injection Hw as <-. eexists _, _. split; [exact H|].
    split; [vm_compute; reflexivity|vm_compute; reflexivity].
Defined.

(** ** The lane writer *)

Section Writer.
Context {E : Type}.
Implicit Types s : Server E.

Definition total (l : list (list byte)) : Z := Z.of_nat (length (concat l)).

Lemma total_snoc l f : total (l ++ [f]) = total l + Z.of_nat (length f).
Proof. unfold total. rewrite concat_app, length_app. cbn. rewrite app_nil_r. lia. Qed.

(** The batch is a prefix of the queue: it is extended while both limits allow. *)
Lemma take_frames_spec maxP maxB ch batch :
  ∃ k, take_frames (length ch) maxP maxB ch batch (total batch) = (drop k ch, batch ++ take k ch) ∧
    (k ≤ length ch)%nat ∧
    (k = 0%nat ∨ Z.of_nat (length batch + k) ≤ maxP ∧ total (batch ++ take (k - 1) ch) < maxB) ∧
    (k = length ch ∨ maxP ≤ Z.of_nat (length batch + k) ∨ maxB ≤ total (batch ++ take k ch)).
Proof.
  revert batch. induction ch as [|f ch IH]; intros batch.
  { exists 0%nat. cbn. rewrite app_nil_r. split_and!; [done|lia|by left|by left]. }
  cbn [length take_frames]. destruct (_ && _) eqn:Eg.
  - apply andb_true_iff in Eg as [E1 E2]. apply Z.ltb_lt in E1, E2. rewrite <- total_snoc.
    destruct (IH (batch ++ [f])) as (k & -> & Hk & H1 & H2). exists (S k). cbn [drop take].
    rewrite <- app_assoc in *. cbn [app] in *. rewrite length_app in *. cbn [length] in *.
    split; [done|]. split; [lia|]. rewrite Nat.sub_succ, Nat.sub_0_r. split.
    + right. destruct H1 as [->|[H1 H1']].
      * cbn [take]. rewrite app_nil_r. split; [lia|done].
      * split; [lia|]. destruct k as [|k]; [cbn [take]; by rewrite app_nil_r|].
        rewrite Nat.sub_succ, Nat.sub_0_r in *. done.
    + destruct H2 as [->|[H2|H2]]; [by left|right; left; lia|right; right].
      done.
  - apply andb_false_iff in Eg as [Eg|Eg]; apply Z.ltb_ge in Eg; exists 0%nat; cbn [take drop];
      rewrite app_nil_r, Nat.add_0_r; (split; [done|]); (split; [lia|]); (split; [by left|]); auto.
Qed.

(** [flush] in closed form, for the effects and the queues. *)
Lemma flush_downstream_spec i batch ok s :
  let s' := flush_downstream i batch ok s in
  downWriters s' = downWriters s ∧ sv_sessions s' = sv_sessions s ∧ sv_heap s' = sv_heap s ∧
  sv_next s' = sv_next s ∧ readers s' = readers s ∧
  ActiveSessions (sv_stats s') = ActiveSessions (sv_stats s) ∧
  effects s' = effects s ++
    match batch, dw_conn <$> downWriters s !! i with
    | _ :: _, Some (Some conn) => if ok then [TcpWrite conn (concat batch)] else []
    | _, _ => []
    end.
Proof.
  unfold flush_downstream. destruct batch as [|f batch]; [by rewrite app_nil_r|].
  destruct (dw_conn <$> downWriters s !! i) as [[conn|]|]; [|by rewrite app_nil_r..].
  set (s0 := if ok then _ else _).
  assert (∀ (l : list (list byte)) (s1 : Server E), let s' := foldl (λ (s : Server E) (frame : list byte),
        let s := sv_set_stats s (AddBytesSent (sv_stats s) (u64 (Z.of_nat (length frame)))) in
        sv_set_stats s (AddPacketsSent (sv_stats s) 1)) s1 l in
      downWriters s' = downWriters s1 ∧ sv_sessions s' = sv_sessions s1 ∧ sv_heap s' = sv_heap s1 ∧
      sv_next s' = sv_next s1 ∧ readers s' = readers s1 ∧
      ActiveSessions (sv_stats s') = ActiveSessions (sv_stats s1) ∧ effects s' = effects s1) as Hf.
  { intros l. induction l as [|g l IH]; intros s1; [done|]. cbn [foldl].
    match goal with |- context [foldl _ ?s2 l] => exact (IH s2) end. }
  specialize (Hf (f :: batch) s0). cbv zeta in *. destruct Hf as (-> & -> & -> & -> & -> & -> & ->). subst s0. destruct ok; cbn; [done|].
  by rewrite app_nil_r.
Qed.

(** Filling the batch from what the queue holds after the wait, and flushing. *)
Lemma writer_fills i ok s1 w frame ch more conn :
  1 ≤ dw_batchMaxPackets w → downWriters s1 !! i = Some (setConn conn (set_ch w (ch ++ more))) →
  let q := frame :: ch ++ more in
  ∃ s' k, (w1 ← downWriters s1 !! i;
       let '(ch1, batch) := take_frames (length (dw_ch w1)) (dw_batchMaxPackets w1) (dw_batchMaxBytes w1)
                                (dw_ch w1) [frame] (Z.of_nat (length frame)) in
       let s := sv_set_writers s1 (<[i := set_ch w1 ch1]> (downWriters s1)) in
       Some (flush_downstream i batch ok s, true)) = Some (s', true) ∧
    (1 ≤ k ≤ length q)%nat ∧ Z.of_nat k ≤ dw_batchMaxPackets w ∧
    effects s' = effects s1 ++
      match conn with Some c => if ok then [TcpWrite c (concat (take k q))] else [] | None => [] end ∧
    downWriters s' !! i = Some (setConn conn (set_ch w (drop k q))) ∧
    (k = 1%nat ∨ total (take (k - 1) q) < dw_batchMaxBytes w) ∧
    (k = length q ∨ Z.of_nat k = dw_batchMaxPackets w ∨ dw_batchMaxBytes w ≤ total (take k q)).
Proof.
  intros Hm H1 q. rewrite H1. cbn [mbind option_bind setConn set_ch dw_ch dw_batchMaxPackets dw_batchMaxBytes].
  replace (Z.of_nat (length frame)) with (total [frame]) by (unfold total; cbn; by rewrite app_nil_r).
  destruct (take_frames_spec (dw_batchMaxPackets w) (dw_batchMaxBytes w) (ch ++ more) [frame])
    as (k & -> & Hk & Hb1 & Hb2).
  set (s2 := sv_set_writers s1 _).
  destruct (flush_downstream_spec i ([frame] ++ take k (ch ++ more)) ok s2) as (Hw' & _ & _ & _ & _ & _ & He).
  assert (downWriters s2 !! i = Some (set_ch (setConn conn (set_ch w (ch ++ more))) (drop k (ch ++ more)))) as H2
    by (apply list_lookup_insert_eq; by eapply lookup_lt_Some).
  exists (flush_downstream i ([frame] ++ take k (ch ++ more)) ok s2), (S k). split; [done|].
  rewrite Hw', He, H2. unfold q. cbn [fmap option_fmap option_map set_ch setConn dw_conn dw_ch app drop take length] in *.
  split_and!; try done; try lia.
  rewrite Nat.sub_succ, Nat.sub_0_r. destruct Hb1 as [->|[_ Hb1]]; [by left|].
  destruct k as [|k]; [by left|]. right. by rewrite Nat.sub_succ, Nat.sub_0_r in Hb1.
Qed.

End Writer.

(** C27: the lane writer sends whole frames in order. While the writer sleeps the
    other goroutines may append frames and change the lane's connection. A turn
    takes a non-empty prefix of the queue, extends it exactly while the packet and
    byte limits allow, leaves the rest queued, and, when the lane has a connection,
    hands it the concatenation of those frames in one write; with no connection the
    batch is lost. When the process is stopped during the wait, the first frame is
    still flushed; when the writer finds it stopped before it takes a frame, it ends
    and leaves the queue as it is. *)
Theorem writer_batches {E} i sleep ok (s : Server E) w frame ch :
  (∀ d s0 s1 w0, sleep d s0 = Some s1 → downWriters s0 !! i = Some w0 →
     ∃ more conn, downWriters s1 !! i = Some (setConn conn (set_ch w0 (dw_ch w0 ++ more)))) →
  1 ≤ dw_batchMaxPackets w → downWriters s !! i = Some w → dw_ch w = frame :: ch →
  writer_run i true sleep ok s = Some (s, false) ∧
  ∃ s1 s' more conn go, writer_run i false sleep ok s = Some (s', go) ∧
    let q := if go then frame :: ch ++ more else [frame] in
    let sent batch := match conn with Some c => if ok then [TcpWrite c (concat batch)] else [] | None => [] end in
    (go = false → effects s' = effects s ++
       match dw_conn w with Some c => if ok then [TcpWrite c frame] else [] | None => [] end) ∧
    (go = true → ∃ k, (1 ≤ k ≤ length q)%nat ∧ Z.of_nat k ≤ dw_batchMaxPackets w ∧
       effects s' = effects s1 ++ sent (take k q) ∧
       dw_ch <$> downWriters s' !! i = Some (drop k q) ∧
       (k = 1%nat ∨ total (take (k - 1) q) < dw_batchMaxBytes w) ∧
       (k = length q ∨ Z.of_nat k = dw_batchMaxPackets w ∨ dw_batchMaxBytes w ≤ total (take k q)) ∧
       ((s1 = sv_set_writers s (<[i := set_ch w ch]> (downWriters s)) ∧ more = [] ∧ conn = dw_conn w) ∨
        ∃ d, 0 < d ∧ sleep d (sv_set_writers s (<[i := set_ch w ch]> (downWriters s))) = Some s1)).
Proof.
  intros Hsleep Hm Hw Hch. split; [done|]. unfold writer_run. rewrite Hw. cbn [mbind option_bind]. rewrite Hch.
  set (s0 := sv_set_writers s (<[i := set_ch w ch]> (downWriters s))).
  assert (downWriters s0 !! i = Some (set_ch w ch)) as Hw0 by (apply list_lookup_insert_eq; by eapply lookup_lt_Some).
  cbv zeta. destruct (_ && _ && _) eqn:Ewait.
  - apply andb_true_iff in Ewait as [_ Hd]. apply Z.ltb_lt in Hd.
    destruct (sleep (adaptiveDelay (set_ch w ch)) s0) as [s1|] eqn:Es.
    + destruct (Hsleep _ _ _ _ Es Hw0) as (more & conn & H1). cbn [set_ch dw_ch] in H1.
      destruct (writer_fills i ok s1 w frame ch more conn Hm H1) as (s' & k & E1 & Hk).
      exists s1, s', more, conn, true. split; [exact E1|]. split; [done|]. intros _. exists k.
      destruct Hk as (Hk1 & ? & ? & Hw' & ? & ?). split_and!; try done; [apply Hk1..|by rewrite Hw'|].
      right. by eexists.
    + eexists s0, _, [], None, false. split; [reflexivity|]. split; [|done]. intros _.
      destruct (flush_downstream_spec i [frame] ok s0) as (_ & _ & _ & _ & _ & _ & ->).
      rewrite Hw0. cbn. by rewrite app_nil_r.
  - destruct (writer_fills i ok s0 w frame ch [] (dw_conn w) Hm) as (s' & k & E1 & Hk).
    { rewrite Hw0, app_nil_r. by destruct w. }
    exists s0, s', [], (dw_conn w), true. split; [exact E1|]. split; [done|]. intros _. exists k.
    destruct Hk as (Hk1 & ? & ? & Hw' & ? & ?). split_and!; try done; [apply Hk1..|by rewrite Hw'|]. by left.
Qed.

(** A lane with a connection and three queued frames, two packets at most; nobody
    adds a frame during the wait. *)
Definition sample_writer_lane : downstreamWriter := mkWriter 0 2 100 1000000 [[x01]; [x02; x03]; [x04]] (Some 9%nat).
Definition sample_lane_server : Server unit := sv_set_writers sample_server [sample_writer_lane].

Lemma writer_batches_witness :
  ∃ s', writer_run 0 false (λ _ s, Some s) true sample_lane_server = Some (s', true) ∧
    effects s' = [TcpWrite 9 [x01; x02; x03]] ∧ dw_ch <$> downWriters s' !! 0%nat = Some [[x04]].
Proof.
  destruct (writer_batches 0 (λ _ s, Some s) true sample_lane_server sample_writer_lane [x01] [[x02; x03]; [x04]])
    as (_ & s1 & s' & more & conn & go & E1 & _ & Hgo).
  - intros d s0 s1 w0 [= <-] Hw. exists [], (dw_conn w0). rewrite app_nil_r, Hw. by destruct w0.
  - by_compute.
  - reflexivity.
  - reflexivity.
  - pose proof E1 as E2. vm_compute in E2. injection E2 as <- <-. destruct (Hgo eq_refl) as (k & _).
    eexists. split; [exact E1|]. split; vm_compute; reflexivity.
Defined.

(** ** A reader that outlives its session *)

Section Orphan.
Context {E : Type}.

(** The exit of the reader of [p], for a session table where the id of [p] leads
    to another object. *)
Lemma backend_exit_other (s : Server E) p q sess conn :
  server_inv s → sv_heap s !! p = Some sess → bs_conn sess = Some conn →
  sv_sessions s !! bs_sessionID sess = Some q → p ≠ q → q ∈ readers s →
  let s' := backend_exit p s in
  sv_sessions s' !! bs_sessionID sess = None ∧ q ∈ readers s' ∧ sv_heap s' = sv_heap s ∧
  effects s' = effects s ++ [BackendClose conn].
Proof.
  intros Hi Hp Hc Hq Hne Hr. unfold backend_exit, bs_Close. rewrite Hp, Hc. cbn. rewrite Hq. cbn.
  rewrite lookup_delete_eq. split; [done|]. split; [|done]. apply list_elem_of_filter. by split.
Qed.

End Orphan.

(** C37: an expired session's reader takes the next session down. The cleaner
    removes an expired session and closes its socket; a frame with the same id then
    opens a new session; when the old reader notices its closed socket, its exit
    removes the id from the table, which by now is the new session's. The new
    session's reader keeps running on an open socket that no table reaches, and the
    next frame dials a third one. *)
Theorem orphaned_session {E} (s : Server E) id p now header data d addr conn old env :
  server_inv s → sv_sessions s !! id = Some p → bs_conn <$> sv_heap s !! p = Some (Some old) →
  h_SessionID header = id → Decrypt (sp_upstreamCipher (sv_params s)) data = Ok d →
  sp_upstreamStripeEnabled (sv_params s) = false →
  env_backend env = Dialled addr conn → conn ≠ old → env_write env = (λ _, true) →
  let s1 := sv_cleanup_id id s in
  let s2 := handleUpstreamPacket env now header data s1 in
  let s3 := backend_exit p s2 in
  ∃ q sess, sv_sessions s2 !! id = Some q ∧ sv_heap s3 !! q = Some sess ∧ bs_conn sess = Some conn ∧
    q ∈ readers s3 ∧ sv_sessions s3 !! id = None ∧
    effects s3 = effects s ++ [BackendClose old; BackendWrite conn d; BackendClose old].
Proof.
  intros Hi Hp Hold Hid Hd Hoff Hb Hne Hw s1 s2 s3.
  assert (server_inv s1) as Hi1 by by apply sv_cleanup_id_inv.
  destruct (sv_heap s !! p) as [b|] eqn:Eb; [|done]. injection Hold as Hold.
  assert (sv_params s1 = sv_params s ∧ sv_sessions s1 = delete id (sv_sessions s) ∧ sv_heap s1 = sv_heap s ∧
    effects s1 = effects s ++ [BackendClose old]) as (Hps & Hss & Hh & He).
  { unfold s1, sv_cleanup_id. rewrite Hp. cbn. rewrite Eb. cbn. unfold bs_Close. by rewrite Hold. }
  clearbody s1. unfold s2 in *. clear s2.
  pose proof (server_inv_count data s1 Hi1) as Hi2.
  set (s2 := handleUpstreamPacket env now header data s1) in *.
  assert (s2 = handleUpstreamPacket env now header data s1) as Es2 by done. clearbody s2.
  rewrite handleUpstreamPacket_eq in Es2. cbv zeta in Es2.
  change (sv_params (count_received data s1)) with (sv_params s1) in Es2. rewrite Hps, Hd, Hid in Es2.
  destruct (open_session env now id (count_received data s1)) as [[q s1']|] eqn:Eo.
  2: { unfold open_session in Eo. cbn in Eo. rewrite Hss, lookup_delete_eq, Hb in Eo. done. }
  destruct (open_session_spec _ _ _ _ _ _ Hi2 Eo)
    as (Hi3 & Hss3 & He3 & _ & Hps3 & _ & sess & c & Hq & Hqid & Hqc & _ & Hqr & Hoth & [[Hk _]|(_ & Hk & a & Hb')]).
  { cbn in Hk. by rewrite Hss, lookup_delete_eq in Hk. }
  rewrite Hb in Hb'. injection Hb' as <- <-.
  assert (q ≠ p) as Hqp.
  { intros ->. rewrite <- Hh in Eb. apply (si_heap s1 Hi1) in Eb. cbn in Hk. lia. }
  unfold writeUpstreamToBackend in Es2. rewrite Hps3 in Es2. cbn in Es2. rewrite Hps, Hoff in Es2. cbn in Es2.
  destruct (writeBackendPacket_live env q sess conn d s1' Hq Hqc) as ((Eh & Es & _ & _ & Er & _) & Ee & _).
  rewrite <- Es2 in *. unfold backend_effect in Ee. rewrite Hw in Ee.
  assert (server_inv s2) as Hi4 by (rewrite Es2; eapply table_same_inv; [exact Hi3|apply writeBackendPacket_frame]).
  assert (bs_sessionID b = id) as Hbid by (destruct (si_sessions s Hi id p Hp) as (b' & Hb' & ? & _); congruence).
  destruct (backend_exit_other s2 p q b old Hi4) as (H1 & H2 & H3 & H4); try done.
  - rewrite Eh, Hoth by done. cbn. by rewrite Hh.
  - by rewrite Hbid, Es, Hss3, lookup_insert_eq.
  - by rewrite Er.
  - exists q, sess. fold s3 in H1, H2, H3, H4. rewrite <- Hbid, H3, H4, Ee, Eh, Es, Hss3, He3. cbn.
    rewrite Hbid, lookup_insert_eq, He, <- !app_assoc. rewrite Hbid in H1. done.
Qed.

Definition sample_env2 : srv_env :=
  mkSrvEnv (λ _, true) (Some (UDPAddrFromAddrPort (mkAddrPort (Addr4 2130706433) 53))) (λ _ _, Some 8%nat).

Lemma orphaned_session_witness :
  let s3 := backend_exit 1 (handleUpstreamPacket sample_env2 400000000000 (NewDataPacket 1 2 1) [x21]
              (sv_cleanup_id 1 sample_open)) in
  ∃ q, q ∈ readers s3 ∧ sv_sessions s3 !! 1 = None ∧
    effects s3 = effects sample_open ++ [BackendClose 7; BackendWrite 8 [x21]; BackendClose 7].
Proof.
  destruct (orphaned_session sample_open 1 1 400000000000 (NewDataPacket 1 2 1) [x21] [x21]
    (UDPAddrFromAddrPort (mkAddrPort (Addr4 2130706433) 53)) 8 7 sample_env2)
    as (q & sess & _ & _ & _ & H1 & H2 & H3); try reflexivity.
  - exact sample_open_inv.
  - discriminate.
  - exists q. split; [exact H1|]. split; [exact H2|exact H3].
Defined.

(** The server counts its own close as an error. When a session is closed by the
    cleaner or by [Stop], its reader's [Read] fails with an error that names the
    operation ("read udp ...: use of closed network connection"). The client's test
    recognises such an error; the server's compares whole texts, so the exit adds an
    error to the statistics of every session that ends. *)
Theorem own_close_counts_error {E} (s : Server E) now p rand op :
  (0 < String.length op)%nat → is_Some (sv_heap s !! p) →
  let err := op_error op closed_text true in
  cl_isClosedError (Some err) = true ∧ sv_isClosedError (Some err) = false ∧
  ∃ s', handleBackendData now p (BackendReadError err) rand s = Ret (s', false) ∧
    Errors (sv_stats s') = u64 (Errors (sv_stats s) + 1).
Proof.
  intros Hop [sess Hp] err. split; [done|].
  assert (sv_isClosedError (Some err) = false) as Hf by (apply sv_isClosedError_op; cbn; lia).
  split; [done|]. unfold handleBackendData. rewrite Hf. change (isTimeoutError (Some err)) with false. cbn [negb andb].
  eexists. split; [done|]. unfold backend_exit. cbn [sv_heap sv_set_stats]. rewrite Hp.
  destruct (bs_Close sess); cbn; by destruct (sv_sessions s !! bs_sessionID sess).
Qed.

Lemma own_close_counts_error_witness :
  ∃ s', handleBackendData 6 1 (BackendReadError (op_error "read udp" closed_text true)) (λ _, None) sample_open =
      Ret (s', false) ∧ Errors (sv_stats s') = 1.
Proof.
  destruct (own_close_counts_error sample_open 6 1 (λ _, None) "read udp") as (_ & _ & s' & E1 & E2).
  - cbn. lia.
  - vm_compute. eexists. reflexivity.
  - exists s'. split; [exact E1|]. rewrite E2. vm_compute. reflexivity.
Defined.
