(* ===== verification/ServerRun.v ===== *)
(** * The server as a whole: its goroutines taking turns

    The server process is the event handlers of the upstream and downstream
    listeners, a reader per backend session, a writer per lane, the cleaner and
    [Stop]. [server_event] is one turn of one of them, [server_run] any sequence of
    turns from the state [New] leaves, each finished before the next begins. This
    leaves out turns that overlap: gnet runs several event loops, and two of them
    may be inside [handleUpstreamPacket] for the same new session. ServerRace.v
    splits the turns at every access to the session table and says what holds
    then. *)

From S2P Require Import Prelude.
From S2P Require Import Words.
From S2P Require Import Packet.
From S2P Require Import Control.
From S2P Require Import Stream.
From S2P Require Import Stats.
From S2P Require Import NetErrors.
From S2P Require Import Config.
From S2P Require Import Crypto.
From S2P Require Import Session.
From S2P Require Import Ring.
From S2P Require Import Client.
From S2P Require Import ClientTable.
From S2P Require Import Upstream.
From S2P Require Import Reorder.
From S2P Require Import Server.
From S2P Require Import Handlers.
From S2P Require Import ServerSpec.
From S2P Require Import ServerDown.

(** ** Events *)

(** One turn each, as a whole: a call of [handleUpstreamPacket], an iteration of a
    backend reader, one of a lane writer, a tick of the cleaner, a callback of the
    downstream listener, [closeSessions] by [Stop]. A turn that is not enabled (no
    such reader, connection or queued frame) does nothing. [EvWriter] is a turn of a
    lane writer whose wait is not disturbed, or that finds the context done
    ([stop]); the frames others queue meanwhile are events before it. *)
Inductive server_event :=
| EvPacket (env : srv_env) (now : Z) (header : PacketHeader) (data : list byte)
| EvBackend (now : Z) (p : ptr) (rd : backend_read) (rand : random)
| EvWriter (i : nat) (stop ok : bool)
| EvCleanup (now : Z)
| EvOpen (c : conn_id)
| EvFrame (c : conn_id) (f : Frame)
| EvClose (c : conn_id)
| EvStop.

Section Run.
Context `{IntWidth} {E : Type}.
Implicit Types d : Downstream E.

Definition server_step (d : Downstream E) (ev : server_event) : exec (Downstream E) :=
  match ev with
  | EvPacket env now header data =>
      Ret (set_server d (handleUpstreamPacket env now header data (ds_server d)))
  | EvBackend now p rd rand =>
      if decide (p ∈ readers (ds_server d)) then
        r ← handleBackendData now p rd rand (ds_server d); Ret (set_server d r.1)
      else Ret d
  | EvWriter i stop ok =>
      Ret (match writer_run i stop (λ _ s, Some s) ok (ds_server d) with
           | Some (s, _) => set_server d s
           | None => d
           end)
  | EvCleanup now => Ret (set_server d (sv_cleanup_tick now (ds_server d)))
  | EvOpen c => Ret (if decide (c ∈ open_conns d) then d else OnOpen_downstream c d)
  | EvFrame c f => Ret (if decide (c ∈ open_conns d) then down_handle c f d else d)
  | EvClose c => Ret (if decide (c ∈ open_conns d) then OnClose_downstream c d else d)
  | EvStop => Ret (set_server d (closeSessions (ds_server d)))
  end.

Fixpoint server_run (evs : list server_event) d : exec (Downstream E) :=
  match evs with
  | [] => Ret d
  | ev :: evs => d ← server_step d ev; server_run evs d
  end.

Definition server_start (s : Server E) : Downstream E := mkDownstream s ∅ ∅.

(** An invariant of every step holds of every run, which does not panic. *)
Lemma server_run_inv (I : Downstream E → Prop) (ok : server_event → Prop) evs d :
  (∀ d ev, I d → ok ev → ∃ d', server_step d ev = Ret d' ∧ I d') → Forall ok evs → I d →
  ∃ d', server_run evs d = Ret d' ∧ I d'.
Proof.
  intros Hstep. revert d. induction evs as [|ev evs IH]; intros d Hok Hi; [by exists d|].
  apply Forall_cons in Hok as [Hev Hok]. cbn [server_run].
  destruct (Hstep d ev Hi Hev) as (d1 & -> & Hi1). cbn [mbind exec_bind]. by apply IH.
Qed.

(** ** The session table *)

Lemma sv_next_seq_inv s p sess :
  sv_heap s !! p = Some sess → server_inv s → server_inv (@sv_next_seq E s p sess).
Proof.
  intros Hp Hi. unfold sv_next_seq.
  replace (<[p := (bs_NextSequenceID sess).2]> (sv_heap s))
    with (alter (λ b, (bs_NextSequenceID b).2) p (sv_heap s)).
  - by apply (server_inv_upd s p (λ b, (bs_NextSequenceID b).2)).
  - apply map_eq. intros q. destruct (decide (p = q)) as [->|].
    + by rewrite lookup_alter_eq, lookup_insert_eq, Hp.
    + by rewrite lookup_alter_ne, lookup_insert_ne.
Qed.

Lemma sendToDownstream_inv p data rand (s : Server E) :
  server_inv s → is_Some (sv_heap s !! p) → ∃ s', sendToDownstream p data rand s = Ret s' ∧ server_inv s'.
Proof.
  intros Hi [sess Hp]. rewrite (sendToDownstream_eq s p sess data rand Hi Hp). cbv zeta.
  destruct (Encrypt _ _ _) as [ct|e]; [|eexists; split; [done|by eapply server_inv_same]].
  destruct (down_writer_some s (bs_sessionID sess) Hi) as [w Hw].
  change (downWriters (sv_next_seq s p sess)) with (downWriters s). rewrite Hw.
  eexists. split; [done|]. pose proof (sv_next_seq_inv s p sess Hp Hi) as Hi1.
  destruct (_ <? _); eapply server_inv_same; try exact Hi1; try done. cbn. by rewrite length_insert.
Qed.

Lemma handleBackendData_inv now p rd rand (s : Server E) :
  server_inv s → p ∈ readers s → ∃ s' go, handleBackendData now p rd rand s = Ret (s', go) ∧ server_inv s'.
Proof.
  intros Hi Hp. unfold handleBackendData. destruct rd as [|data|err].
  - eexists _, _. split; [done|]. by apply backend_exit_inv.
  - set (s1 := sv_upd_session _ _ _).
    assert (server_inv s1) as Hi1 by (apply server_inv_upd; [done|]; by eapply server_inv_same).
    destruct (sendToDownstream_inv p (take (Z.to_nat (MaxPacketSize (sp_config (sv_params s)))) data) rand s1)
      as (s' & E1 & ?); [done|by apply Hi1|].
    exists s', true. cbv zeta. by rewrite E1.
  - eexists _, _. split; [done|]. apply backend_exit_inv. destruct (_ && _); [by eapply server_inv_same|done].
Qed.

Lemma writer_run_inv i stop ok (s s' : Server E) go :
  server_inv s → writer_run i stop (λ _ s, Some s) ok s = Some (s', go) → server_inv s'.
Proof.
  intros Hi. unfold writer_run. destruct stop; [by intros [= <- _]|]. destruct (downWriters s !! i) as [w|]; [|done]. cbn.
  destruct (dw_ch w) as [|frame ch]; [done|].
  set (s0 := sv_set_writers s _). assert (server_inv s0) as Hi0.
  { eapply server_inv_same; try done. cbn. by rewrite length_insert. }
  replace (if _ && _ && _ then Some s0 else Some s0) with (Some s0) by by destruct (_ && _ && _).
  destruct (downWriters s0 !! i) as [w1|]; [|done]. cbn.
  destruct (take_frames _ _ _ _ _ _) as [ch1 batch]. intros [= <- <-].
  match goal with |- server_inv (flush_downstream i batch ok ?s2) =>
    destruct (flush_downstream_spec i batch ok s2) as (E1 & E2 & E3 & E4 & E5 & E6 & _) end.
  eapply server_inv_same; [exact Hi0|..]; rewrite ?E1, ?E2, ?E3, ?E4, ?E5, ?E6; try done.
  cbn. by rewrite length_insert.
Qed.

(** ** Lanes *)

Lemma set_lane_inv laneID c (s : Server E) : server_inv s → server_inv (setDownstreamConnForLane laneID c s).
Proof.
  intros Hi. unfold setDownstreamConnForLane. destruct (in_lanes laneID s); [|done].
  eapply server_inv_same; try done. cbn. by rewrite length_alter.
Qed.

Lemma clear_lane_inv laneID c (s : Server E) : server_inv s → server_inv (clearDownstreamConnForLane laneID c s).
Proof.
  intros Hi. unfold clearDownstreamConnForLane. destruct (in_lanes laneID s); [|done].
  eapply server_inv_same; try done. cbn. by rewrite length_alter.
Qed.

(** Registering sessions changes the lane map and the sessions' connections. *)
Lemma register_sessions_frame c laneID sids (s : Server E) :
  (server_inv s → server_inv (register_sessions c laneID sids s)) ∧
  downWriters (register_sessions c laneID sids s) = downWriters s.
Proof.
  unfold register_sessions. revert s. induction sids as [|sid sids IH]; intros s; cbn [foldl]; [done|].
  set (s1 := match _ with Some p => _ | None => _ end).
  destruct (IH s1) as [H1 ->]. split.
  - intros Hi. apply H1. unfold s1. assert (server_inv (sv_set_laneMap s (<[sid:=laneID]> (sessionLaneMap s))))
      by by eapply server_inv_same.
    destruct (sv_sessions s !! sid) as [p|] eqn:Ep; cbn; rewrite Ep; [|done]. by apply server_inv_upd.
  - unfold s1. cbn. by destruct (sv_sessions s !! sid).
Qed.

Lemma handleLaneControl_inv c ctrl d :
  server_inv (ds_server d) → server_inv (ds_server (handleLaneControl c ctrl d)).
Proof.
  intros Hi. unfold handleLaneControl. destruct (negb _); [done|]. destruct (_ || _); [done|].
  set (d1 := match context d !! c with None => _ | Some _ => d end).
  assert (ds_server d1 = ds_server d) as E1 by (unfold d1; by destruct (context d !! c)).
  destruct (_ =? _); [cbn; rewrite E1; by apply set_lane_inv|].
  destruct (_ =? _).
  - destruct (_ && _); [by rewrite E1|]. cbn. apply register_sessions_frame. rewrite E1. by apply set_lane_inv.
  - destruct (_ =? _); [|by rewrite E1]. destruct (_ <? 0); cbn; rewrite E1; by apply set_lane_inv.
Qed.

Lemma down_handle_inv c f d : server_inv (ds_server d) → server_inv (ds_server (down_handle c f d)).
Proof.
  intros Hi. unfold down_handle. destruct (negb _); [done|].
  destruct (UnmarshalLaneControl _); [|done]. by apply handleLaneControl_inv.
Qed.

Lemma server_step_inv d ev :
  server_inv (ds_server d) → ∃ d', server_step d ev = Ret d' ∧ server_inv (ds_server d').
Proof.
  intros Hi. destruct ev as [env now h data|now p rd rand|i stop ok|now|c|c f|c|]; cbn [server_step].
  - eexists. split; [done|]. by apply handleUpstreamPacket_inv.
  - case_decide as Hp; [|by exists d].
    destruct (handleBackendData_inv now p rd rand (ds_server d) Hi Hp) as (s' & go & -> & ?).
    eexists. by split.
  - eexists. split; [done|]. destruct (writer_run _ _ _ _ _) as [[s' go]|] eqn:Ew; [|done].
    by eapply writer_run_inv.
  - eexists. split; [done|]. by apply sv_cleanup_tick_inv.
  - eexists. split; [done|]. by case_decide.
  - eexists. split; [done|]. case_decide; [|done]. by apply down_handle_inv.
  - eexists. split; [done|]. case_decide; [|done]. unfold OnClose_downstream. cbn.
    destruct (context d !! c) as [l|]; [|done]. destruct (0 <=? l); [|done]. by apply clear_lane_inv.
  - eexists. split; [done|]. by eapply server_inv_same.
Qed.

End Run.

(** C7: the session table, turn by turn. From the state [New] builds, when turns
    follow one another, each finished before the next begins (a handler call, a
    reader's iteration, a writer's batch, a cleaner's tick, the closes of [Stop]), in
    whatever order and whatever the network, the clock, the clients and the backend
    do, no turn panics, and after each the table is consistent: an id leads to the
    live object of that id, which has a socket and a reader, distinct ids have
    distinct objects, and the session gauge is the size of the table. Two event loops
    inside [handleUpstreamPacket] at once are not such a sequence: there the gauge
    and the table can part ([racing_creators_orphan]), and [gauge_accounts] says by
    how much. *)
Theorem server_table_consistent `{IntWidth} {E Block} `{CryptoLib E Block} now cfg s evs :
  DownstreamLaneCount cfg < 2 ^ 31 → ServerNew now cfg = Ret (Ok s) →
  ∃ d, server_run evs (server_start s) = Ret d ∧
    let s' := ds_server d in
    (∀ id p, sv_sessions s' !! id = Some p → ∃ sess, sv_heap s' !! p = Some sess ∧
       bs_sessionID sess = id ∧ is_Some (bs_conn sess) ∧ p ∈ readers s') ∧
    (∀ id1 id2 p, sv_sessions s' !! id1 = Some p → sv_sessions s' !! id2 = Some p → id1 = id2) ∧
    ActiveSessions (sv_stats s') = i32 (Z.of_nat (size (sv_sessions s'))).
Proof.
  intros Hl E1. destruct (ServerNew_inv now cfg s Hl E1) as [Hi _].
  destruct (server_run_inv (λ d, server_inv (ds_server d)) (λ _, True) evs (server_start s))
    as (d & -> & Hd); [|by apply Forall_true|done|].
  - intros d ev Hd _. by apply server_step_inv.
  - exists d. split; [done|]. split; [apply Hd|]. split; [|apply Hd]. intros id1 id2 p H1 H2.
    destruct (si_sessions _ Hd _ _ H1) as (b1 & Hb1 & <- & _), (si_sessions _ Hd _ _ H2) as (b2 & Hb2 & <- & _).
    congruence.
Qed.

(** A session opens, the backend answers, another opens, the first expires, its
    reader leaves. *)
Definition sample_events : list server_event :=
  [EvPacket sample_env 5 (NewDataPacket 1 1 2) [x68; x69];
   EvBackend 6 1 (BackendDatagram [x6f; x6b]) (λ _, None); EvWriter 1 false true;
   EvPacket sample_env2 300000000000 (NewDataPacket 2 1 1) [x21];
   EvCleanup 301000000000; EvBackend 301000000001 1 (BackendReadError (op_error "read udp" closed_text true)) (λ _, None)].

Lemma server_table_consistent_witness :
  ∃ d, @server_run int64_target unit sample_events (server_start sample_server) = Ret d ∧
    sv_sessions (ds_server d) = {[2 := 2%nat]} ∧ ActiveSessions (sv_stats (ds_server d)) = 1.
Proof.
  destruct (@server_table_consistent int64_target unit (list byte) toy_lib 0 sample_config sample_server
    sample_events) as (d & E1 & _ & _ & Hg).
  - vm_compute. reflexivity.
  - reflexivity.
  - exists d. split; [exact E1|]. pose proof E1 as E2. vm_compute in E2. injection E2 as <-.
    split; [vm_compute; reflexivity|]. rewrite Hg. vm_compute. reflexivity.
Defined.

(** ** Lanes and connections *)

Section Lanes.
Context `{IntWidth} {E : Type}.
Implicit Types d : Downstream E.

(** A client uses a connection for one lane: [L] says which. *)
Definition conforming (L : conn_id → Z) (ev : server_event) : Prop :=
  match ev with
  | EvFrame c f => ∀ ctrl, UnmarshalLaneControl (f_Payload f) = Ok ctrl → go_int (c_LaneID ctrl) = L c
  | _ => True
  end.

(** The connections of the lanes. *)
Definition lane_conns (s : Server E) : list (option conn_id) := dw_conn <$> downWriters s.

Record lanes_inv (L : conn_id → Z) d : Prop := {
  li_context c l : context d !! c = Some l → l = -1 ∨ l = L c;
  li_lanes i c : lane_conns (ds_server d) !! i = Some (Some c) →
    c ∈ open_conns d ∧ context d !! c = Some (Z.of_nat i)
}.

Lemma lanes_inv_server L d s :
  lane_conns s = lane_conns (ds_server d) → lanes_inv L d → lanes_inv L (set_server d s).
Proof. intros Ec [H1 H2]. split; [done|]. cbn. rewrite Ec. exact H2. Qed.

Lemma lane_conns_insert (s : Server E) i w w' :
  downWriters s !! i = Some w → dw_conn w' = dw_conn w →
  dw_conn <$> <[i := w']> (downWriters s) = lane_conns s.
Proof.
  intros Hw Hc. unfold lane_conns. rewrite list_fmap_insert, Hc. apply list_insert_id.
  by rewrite list_lookup_fmap, Hw.
Qed.

Lemma handleUpstreamPacket_writers env now header data (s : Server E) :
  downWriters (handleUpstreamPacket env now header data s) = downWriters s.
Proof.
  rewrite handleUpstreamPacket_eq. cbv zeta. destruct (Decrypt _ _) as [d|e]; [|done].
  unfold open_session. destruct (sv_sessions _ !! _) as [p|].
  - by destruct (writeUpstreamToBackend_same env now p (h_SessionID header) (h_SequenceID header) d
      (sv_upd_session (count_received data s) p (bs_UpdateLastActive now))) as (_ & _ & _ & -> & _).
  - destruct (env_backend env) as [| |addr conn]; [done..|].
    match goal with |- context [writeUpstreamToBackend ?a ?b ?c ?d ?e ?f ?g] =>
      by destruct (writeUpstreamToBackend_same a b c d e f g) as (_ & _ & _ & -> & _) end.
Qed.

Lemma sendToDownstream_conns p data rand (s s' : Server E) :
  server_inv s → is_Some (sv_heap s !! p) → sendToDownstream p data rand s = Ret s' → lane_conns s' = lane_conns s.
Proof.
  intros Hi [sess Hp]. rewrite (sendToDownstream_eq s p sess data rand Hi Hp). cbv zeta.
  destruct (Encrypt _ _ _) as [ct|e]; [|by intros [= <-]].
  destruct (downWriters (sv_next_seq s p sess) !! _) as [w|] eqn:Ew; [|done].
  intros [= <-]. destruct (_ <? _); [|done]. by apply (lane_conns_insert s _ w).
Qed.

Lemma backend_exit_writers p (s : Server E) : downWriters (backend_exit p s) = downWriters s.
Proof.
  unfold backend_exit. destruct (sv_heap s !! p) as [sess|]; [|done].
  destruct (bs_Close sess); cbn; by destruct (sv_sessions _ !! _).
Qed.

Lemma handleBackendData_conns now p rd rand (s s' : Server E) go :
  server_inv s → p ∈ readers s → handleBackendData now p rd rand s = Ret (s', go) → lane_conns s' = lane_conns s.
Proof.
  intros Hi Hp. unfold handleBackendData. destruct rd as [|data|err].
  - intros [= <- _]. unfold lane_conns. by rewrite backend_exit_writers.
  - set (s1 := sv_upd_session _ _ _).
    assert (server_inv s1) as Hi1 by (apply server_inv_upd; [done|]; by eapply server_inv_same).
    destruct (sendToDownstream _ _ _ s1) as [s2|] eqn:E1; [|done]. intros [= <- _].
    change (lane_conns s) with (lane_conns s1). eapply sendToDownstream_conns; [exact Hi1|by apply Hi1|exact E1].
  - intros [= <- _]. unfold lane_conns. rewrite backend_exit_writers. by destruct (_ && _).
Qed.

Lemma writer_run_conns i stop ok (s s' : Server E) go :
  writer_run i stop (λ _ s, Some s) ok s = Some (s', go) → lane_conns s' = lane_conns s.
Proof.
  unfold writer_run. destruct stop; [by intros [= <- _]|]. destruct (downWriters s !! i) as [w|] eqn:Ew; [|done]. cbn.
  destruct (dw_ch w) as [|frame ch]; [done|].
  set (s0 := sv_set_writers s _). assert (lane_conns s0 = lane_conns s) as <- by by apply (lane_conns_insert s i w).
  replace (if _ && _ && _ then Some s0 else Some s0) with (Some s0) by by destruct (_ && _ && _).
  destruct (downWriters s0 !! i) as [w1|] eqn:Ew1; [|done]. cbn.
  destruct (take_frames _ _ _ _ _ _) as [ch1 batch]. intros [= <- <-].
  match goal with |- lane_conns (flush_downstream i batch ok ?s2) = _ =>
    destruct (flush_downstream_spec i batch ok s2) as (E1 & _) end.
  unfold lane_conns at 1. rewrite E1. by apply (lane_conns_insert s0 i w1).
Qed.

Lemma sv_cleanup_tick_writers now (s : Server E) : downWriters (sv_cleanup_tick now s) = downWriters s.
Proof.
  unfold sv_cleanup_tick. generalize (sv_expired_ids now s). intros ids. revert s.
  induction ids as [|id ids IH]; intros s; cbn [foldl]; [done|]. rewrite IH. unfold sv_cleanup_id.
  destruct (sv_sessions s !! id) as [p|]; [|done]. cbn. by destruct (bs_Close <$> _) as [[c|]|].
Qed.

(** Setting and clearing the connection of a lane. *)
Lemma set_lane_conns laneID c (s : Server E) :
  lane_conns (setDownstreamConnForLane laneID c s) =
    if in_lanes laneID s then <[Z.to_nat laneID := Some c]> (lane_conns s) else lane_conns s.
Proof.
  unfold setDownstreamConnForLane. destruct (in_lanes laneID s) eqn:El; [|done].
  apply in_lanes_true in El. destruct (lookup_lt_is_Some_2 (downWriters s) (Z.to_nat laneID)) as [w Hw]; [lia|].
  unfold lane_conns. cbn. by rewrite (list_alter_insert _ _ w) by done; rewrite list_fmap_insert.
Qed.

Lemma clear_lane_conns laneID c (s : Server E) i c' :
  0 ≤ laneID → lane_conns (clearDownstreamConnForLane laneID c s) !! i = Some (Some c') →
  lane_conns s !! i = Some (Some c') ∧ (Z.of_nat i = laneID → c' ≠ c).
Proof.
  intros Hl. unfold clearDownstreamConnForLane. destruct (in_lanes laneID s) eqn:El.
  - apply in_lanes_true in El. destruct (lookup_lt_is_Some_2 (downWriters s) (Z.to_nat laneID)) as [w Hw]; [lia|].
    unfold lane_conns. cbn. rewrite (list_alter_insert _ _ w) by done. rewrite list_fmap_insert.
    destruct (decide (i = Z.to_nat laneID)) as [->|Hne].
    + rewrite list_lookup_insert_eq by (rewrite length_fmap; by eapply lookup_lt_Some).
      unfold clearConn. rewrite list_lookup_fmap, Hw. case_decide; cbn; [done|]. intros [= Hc]. by rewrite Hc; split; [|intros _ ->].
    + rewrite list_lookup_insert_ne by done. intros Hi. split; [done|]. intros ?. lia.
  - intros Hi. split; [done|]. intros <-. apply lookup_lt_Some in Hi. unfold lane_conns in Hi. rewrite length_fmap in Hi.
    rewrite (proj2 (in_lanes_true _ _)) in El by lia. done.
Qed.

(** A connection takes a lane: its context and the lane agree. *)
Lemma lanes_inv_bind L c d s :
  c ∈ open_conns d → lane_conns s = lane_conns (ds_server d) → lanes_inv L d → 0 ≤ L c →
  lanes_inv L (set_server (set_context d c (L c)) (setDownstreamConnForLane (L c) c s)).
Proof.
  intros Hc Es [H1 H2] HL.
  assert (∀ c' i, lane_conns s !! i = Some (Some c') →
    c' ∈ open_conns d ∧ <[c := L c]> (context d) !! c' = Some (Z.of_nat i)) as Hold.
  { intros c' i. rewrite Es. intros Hi. destruct (H2 _ _ Hi) as [? Hx]. split; [done|].
    destruct (decide (c = c')) as [<-|]; [|by rewrite lookup_insert_ne].
    rewrite lookup_insert_eq. destruct (H1 _ _ Hx); [lia|congruence]. }
  split; cbn.
  - intros c' l. destruct (decide (c = c')) as [<-|]; [rewrite lookup_insert_eq; intros [= <-]; by right|].
    rewrite lookup_insert_ne by done. apply H1.
  - intros i c'. rewrite set_lane_conns. destruct (in_lanes (L c) s) eqn:El; [|by apply Hold].
    apply in_lanes_true in El. destruct (decide (i = Z.to_nat (L c))) as [->|].
    + rewrite list_lookup_insert_eq by (unfold lane_conns; rewrite length_fmap; lia).
      intros [= <-]. rewrite lookup_insert_eq, Z2Nat.id by done. done.
    + rewrite list_lookup_insert_ne by done. by apply Hold.
Qed.

Lemma set_context_id d c l : context d !! c = Some l → set_context d c l = d.
Proof. intros Hc. unfold set_context. rewrite insert_id by done. by destruct d. Qed.

Lemma lanes_inv_unset L c d : context d !! c = None → lanes_inv L d → lanes_inv L (set_context d c (-1)).
Proof.
  intros Hn [H1 H2]. split; cbn.
  - intros c' l. destruct (decide (c = c')) as [<-|]; [rewrite lookup_insert_eq; intros [= <-]; by left|].
    rewrite lookup_insert_ne by done. apply H1.
  - intros i c' Hi. destruct (H2 _ _ Hi) as [? Hx]. split; [done|].
    destruct (decide (c = c')) as [<-|]; [congruence|by rewrite lookup_insert_ne].
Qed.

Lemma lanes_inv_control L c ctrl d :
  c ∈ open_conns d → go_int (c_LaneID ctrl) = L c → lanes_inv L d → lanes_inv L (handleLaneControl c ctrl d).
Proof.
  intros Hc HL Hi. unfold handleLaneControl. destruct (negb _); [done|]. rewrite HL.
  destruct (_ || _) eqn:El; [done|]. apply orb_false_iff in El as [El _]. apply Z.ltb_ge in El.
  set (d1 := match context d !! c with None => _ | Some _ => d end).
  assert (lanes_inv L d1 ∧ c ∈ open_conns d1 ∧ ∃ l, context d1 !! c = Some l) as (Hi1 & Hc1 & l & Hl).
  { unfold d1. destruct (context d !! c) as [l|] eqn:Ec; [by eauto|]. cbn. rewrite lookup_insert_eq.
    split; [by apply lanes_inv_unset|eauto]. }
  clearbody d1. rewrite Hl. change (default (-1) (Some l)) with l. clear d Hi Hc.
  destruct (_ =? ControlSubtypeHello); [by apply lanes_inv_bind|]. destruct (_ =? ControlSubtypeLaneRegister).
  - destruct (_ && _); [done|]. cbn [set_server set_context].
    pose proof (lanes_inv_bind L c d1 (ds_server d1) Hc1 eq_refl Hi1 El) as Hb.
    eapply (lanes_inv_server L) in Hb; [exact Hb|]. unfold lane_conns. by rewrite (proj2 (register_sessions_frame _ _ _ _)).
  - destruct (_ =? ControlSubtypeLaneHeartbeat); [|done].
    pose proof (lanes_inv_bind L c d1 (ds_server d1) Hc1 eq_refl Hi1 El) as Hb.
    destruct (l <? 0) eqn:Hneg; [done|]. apply Z.ltb_ge in Hneg.
    destruct (li_context _ _ Hi1 _ _ Hl) as [->| ->]; [lia|]. by rewrite set_context_id in Hb.
Qed.

Lemma lanes_inv_step L d ev d' :
  server_inv (ds_server d) → lanes_inv L d → conforming L ev → server_step d ev = Ret d' → lanes_inv L d'.
Proof.
  intros Hs Hi Hc. destruct ev as [env now h data|now p rd rand|i stop ok|now|c|c f|c|]; cbn [server_step conforming] in *.
  - intros [= <-]. apply lanes_inv_server; [|done]. unfold lane_conns. by rewrite handleUpstreamPacket_writers.
  - case_decide as Hp; [|by intros [= <-]]. destruct (handleBackendData _ _ _ _ _) as [[s go]|] eqn:Eb; [|done].
    intros [= <-]. apply lanes_inv_server; [|done]. by eapply handleBackendData_conns.
  - intros [= <-]. destruct (writer_run _ _ _ _ _) as [[s go]|] eqn:Ew; [|done].
    apply lanes_inv_server; [|done]. by eapply writer_run_conns.
  - intros [= <-]. apply lanes_inv_server; [|done]. unfold lane_conns. by rewrite sv_cleanup_tick_writers.
  - intros [= <-]. case_decide as Hn; [done|]. destruct Hi as [H1 H2]. split; cbn.
    + intros c' l. destruct (decide (c = c')) as [<-|]; [rewrite lookup_insert_eq; intros [= <-]; by left|].
      rewrite lookup_insert_ne by done. apply H1.
    + intros i c' Hx. destruct (H2 _ _ Hx) as [? ?]. split; [set_solver|].
      rewrite lookup_insert_ne; [done|]. by intros ->.
  - intros [= <-]. case_decide as Ho; [|done]. unfold down_handle. destruct (negb _); [done|].
    destruct (UnmarshalLaneControl _) as [ctrl|] eqn:Eu; [|done]. apply lanes_inv_control; auto.
  - intros [= <-]. case_decide as Ho; [|done]. destruct Hi as [H1 H2]. unfold OnClose_downstream.
    split; [cbn|].
    + destruct (context d !! c) as [l|]; [|apply H1]. destruct (0 <=? l); apply H1.
    + intros i c' Hx. cbn in *.
      assert (lane_conns (ds_server d) !! i = Some (Some c') ∧ c' ≠ c) as [Hx1 Hne].
      { destruct (context d !! c) as [l|] eqn:El; [destruct (0 <=? l) eqn:E0|].
        - apply Z.leb_le in E0. destruct (clear_lane_conns l c _ i c' E0 Hx) as [Hx1 Hne]. split; [done|].
          intros ->. destruct (H2 _ _ Hx1) as [_ Hx2]. rewrite El in Hx2. injection Hx2 as ->. by apply Hne.
        - apply Z.leb_gt in E0. split; [done|]. intros ->. destruct (H2 _ _ Hx) as [_ Hx2].
          rewrite El in Hx2. injection Hx2 as ->. lia.
        - split; [done|]. intros ->. destruct (H2 _ _ Hx) as [_ Hx2]. by rewrite El in Hx2. }
      destruct (H2 _ _ Hx1) as [? Hx2]. clear Hx.
      assert (c' ∈ open_conns d ∖ {[c]}) by (apply elem_of_difference; by rewrite elem_of_singleton).
      destruct (context d !! c) as [l|]; [|done]. by destruct (0 <=? l).
  - intros [= <-]. by apply lanes_inv_server.
Qed.

End Lanes.

Lemma server_start_lanes `{IntWidth} {E Block} `{CryptoLib E Block} now cfg s L :
  ServerNew now cfg = Ret (Ok s) → lanes_inv L (server_start s).
Proof.
  intros E1. unfold ServerNew in E1. destruct (NewCipher (UpstreamCrypto cfg)) as [[up|e]|]; [|done..].
  cbn in E1. destruct (NewCipher (DownstreamCrypto cfg)) as [[down|e]|]; [|done..]. cbn in E1.
  injection E1 as <-. split; cbn.
  - intros c l. by rewrite lookup_empty.
  - intros i c. unfold lane_conns. cbn. rewrite <- list_fmap_compose. intros Hi.
    by apply list_lookup_fmap_Some in Hi as (k & ? & ?).
Qed.

(** C28: no lane points at a dead connection. When every client keeps a connection
    to one lane (the forwarder's own clients do), then in every sequence of turns a lane
    that has a connection has an open one, whose context is that lane: closing a
    connection never leaves its lane behind, and no connection serves two lanes. *)
Theorem lanes_are_live `{IntWidth} {E Block} `{CryptoLib E Block} now cfg s L evs :
  DownstreamLaneCount cfg < 2 ^ 31 → ServerNew now cfg = Ret (Ok s) → Forall (conforming L) evs →
  ∃ d, server_run evs (server_start s) = Ret d ∧
    (∀ i w c, downWriters (ds_server d) !! i = Some w → dw_conn w = Some c →
       c ∈ open_conns d ∧ context d !! c = Some (Z.of_nat i)) ∧
    (∀ i j w1 w2 c, downWriters (ds_server d) !! i = Some w1 → downWriters (ds_server d) !! j = Some w2 →
       dw_conn w1 = Some c → dw_conn w2 = Some c → i = j).
Proof.
  intros Hl E1 Hev. destruct (ServerNew_inv now cfg s Hl E1) as [Hi _].
  destruct (server_run_inv (λ d, server_inv (ds_server d) ∧ lanes_inv L d) (conforming L) evs (server_start s))
    as (d & -> & _ & Hd); [|done| |].
  - intros d ev [Hd1 Hd2] Hc. destruct (server_step_inv d ev Hd1) as (d' & Es & ?).
    exists d'. split; [done|]. split; [done|]. by apply (lanes_inv_step L d ev d').
  - split; [done|]. by apply (server_start_lanes now cfg).
  - assert (∀ i w c, downWriters (ds_server d) !! i = Some w → dw_conn w = Some c →
      c ∈ open_conns d ∧ context d !! c = Some (Z.of_nat i)) as Hlive.
    { intros i w c Hw Hc. apply (li_lanes _ _ Hd). unfold lane_conns. by rewrite list_lookup_fmap, Hw; cbn; rewrite Hc. }
    exists d. split; [done|]. split; [done|]. intros i j w1 w2 c H1 H2 H3 H4.
    destruct (Hlive _ _ _ H1 H3) as [_ Hi1], (Hlive _ _ _ H2 H4) as [_ Hi2].
    rewrite Hi1 in Hi2. injection Hi2 as Hij. lia.
Qed.

Definition sample_hello (lane : Z) : Frame :=
  mkFrame (NewControlPacket 0 8) (control_encode x00 (mkControl ControlSubtypeHello lane 4 [])).

Lemma lanes_are_live_witness :
  ∃ d, @server_run int64_target unit [EvOpen 9; EvFrame 9 (sample_hello 2); EvOpen 5; EvFrame 5 (sample_hello 1); EvClose 9]
         (server_start sample_server) = Ret d ∧
    dw_conn <$> downWriters (ds_server d) = [None; Some 5%nat; None; None] ∧
    (∀ i w c, downWriters (ds_server d) !! i = Some w → dw_conn w = Some c →
       c ∈ open_conns d ∧ context d !! c = Some (Z.of_nat i)).
Proof.
  destruct (@lanes_are_live int64_target unit (list byte) toy_lib 0 sample_config sample_server
    (λ c, if decide (c = 9%nat) then 2 else 1)
    [EvOpen 9; EvFrame 9 (sample_hello 2); EvOpen 5; EvFrame 5 (sample_hello 1); EvClose 9]) as (d & E1 & Hd & _).
  - vm_compute. reflexivity.
  - reflexivity.
  - repeat constructor; intros ctrl Hu; vm_compute in Hu; injection Hu as <-; reflexivity.
  - exists d. split; [exact E1|]. split; [|exact Hd]. vm_compute in E1. injection E1 as <-. reflexivity.
Defined.

(** ** The control messages, case by case *)

Section Control.
Context `{IntWidth} {E : Type}.
Implicit Types d : Downstream E.

(** The lane a message asks for, when the message is acceptable on the connection. *)
Definition control_lane (c : conn_id) (ctrl : LaneControlPayload) d : option Z :=
  let n := Z.of_nat (length (downWriters (ds_server d))) in
  let laneID := c_LaneID ctrl in
  let ctx := default (-1) (context d !! c) in
  if decide (c_LaneCount ctrl = n ∧ laneID < n ∧
             (c_Subtype ctrl = ControlSubtypeHello ∨ c_Subtype ctrl = ControlSubtypeLaneHeartbeat ∨
              c_Subtype ctrl = ControlSubtypeLaneRegister ∧ (ctx < 0 ∨ ctx = laneID)))
  then Some laneID else None.

Lemma register_sessions_map c laneID sids (s : Server E) id :
  sessionLaneMap (register_sessions c laneID sids s) !! id =
    (if decide (id ∈ sids) then Some laneID else sessionLaneMap s !! id) ∧
  sv_sessions (register_sessions c laneID sids s) = sv_sessions s.
Proof.
  unfold register_sessions. revert s. induction sids as [|sid sids IH]; intros s; cbn [foldl].
  { by rewrite decide_False by (by intros ?%elem_of_nil). }
  set (s1 := match _ with Some p => _ | None => _ end).
  assert (sessionLaneMap s1 = <[sid := laneID]> (sessionLaneMap s) ∧ sv_sessions s1 = sv_sessions s) as [Em Es].
  { unfold s1. cbn. by destruct (sv_sessions s !! sid). }
  destruct (IH s1) as [-> ->]. split; [|done]. rewrite Em.
  destruct (decide (id ∈ sids)) as [Hin|Hin]; [by rewrite decide_True by by right|].
  destruct (decide (id = sid)) as [->|Hne].
  - rewrite decide_True by by left. by rewrite lookup_insert_eq.
  - rewrite decide_False by (rewrite elem_of_cons; tauto). by rewrite lookup_insert_ne.
Qed.

(** Binding a lane, with the sessions to register on it. *)
Lemma bind_lane c lane sids (s : Server E) :
  in_lanes lane s = true →
  let s' := register_sessions c lane sids (setDownstreamConnForLane lane c s) in
  lane_conns s' = <[Z.to_nat lane := Some c]> (lane_conns s) ∧
  (∀ id, sessionLaneMap s' !! id = if decide (id ∈ sids) then Some lane else sessionLaneMap s !! id) ∧
  (∀ id, id ∈ sids → laneForSession id s' = Ret lane) ∧
  sv_sessions s' = sv_sessions s.
Proof.
  intros Hin s'. pose proof (set_lane_conns lane c s) as Hset. rewrite Hin in Hset.
  assert (downWriters s' = downWriters (setDownstreamConnForLane lane c s)) as Ew
    by apply register_sessions_frame.
  assert (sessionLaneMap (setDownstreamConnForLane lane c s) = sessionLaneMap s ∧
    sv_sessions (setDownstreamConnForLane lane c s) = sv_sessions s ∧
    in_lanes lane (setDownstreamConnForLane lane c s) = true) as (Em & Es & Hin').
  { unfold setDownstreamConnForLane. rewrite Hin. split; [done|]. split; [done|].
    unfold in_lanes. cbn. by rewrite length_alter. }
  assert (∀ id, sessionLaneMap s' !! id = if decide (id ∈ sids) then Some lane else sessionLaneMap s !! id) as Hmap.
  { intros id. rewrite <- Em. apply register_sessions_map. }
  split; [unfold lane_conns at 1; by rewrite Ew|]. split; [done|]. split.
  - intros id Hid. unfold laneForSession. rewrite Hmap, decide_True by done.
    replace (in_lanes lane s') with (in_lanes lane (setDownstreamConnForLane lane c s)); [by rewrite Hin'|].
    unfold in_lanes. by rewrite Ew.
  - rewrite <- Es. by apply (register_sessions_map c lane sids _ 0).
Qed.

(** The context after the handler has made sure there is one. *)
Lemma ensure_context c d :
  let d1 := match context d !! c with None => set_context d c (-1) | Some _ => d end in
  ds_server d1 = ds_server d ∧ open_conns d1 = open_conns d ∧
  (∀ c', default (-1) (context d1 !! c') = default (-1) (context d !! c')) ∧
  context d1 !! c = Some (default (-1) (context d !! c)).
Proof.
  cbv zeta. destruct (context d !! c) as [l|] eqn:Ex; [by rewrite Ex|]. cbn. rewrite lookup_insert_eq.
  split_and!; try done. intros c'. destruct (decide (c = c')) as [<-|].
  - by rewrite lookup_insert_eq, Ex.
  - by rewrite lookup_insert_ne.
Qed.

End Control.

(** [handleLaneControl] in full. *)
Lemma handleLaneControl_spec `{IntWidth} {E} c ctrl (d : Downstream E) :
  control_wf ctrl →
  let s := ds_server d in
  let d' := handleLaneControl c ctrl d in
  let ctx := default (-1) (context d !! c) in
  let registers := c_Subtype ctrl = ControlSubtypeLaneRegister in
  open_conns d' = open_conns d ∧
  match control_lane c ctrl d with
  | None => ds_server d' = s ∧ ∀ c', default (-1) (context d' !! c') = default (-1) (context d !! c')
  | Some lane =>
      lane_conns (ds_server d') = <[Z.to_nat lane := Some c]> (lane_conns s) ∧
      (∀ id, sessionLaneMap (ds_server d') !! id =
         if decide (registers ∧ id ∈ c_SessionIDs ctrl) then Some lane else sessionLaneMap s !! id) ∧
      (∀ id, registers → id ∈ c_SessionIDs ctrl → laneForSession id (ds_server d') = Ret lane) ∧
      sv_sessions (ds_server d') = sv_sessions s ∧
      context d' !! c = Some (if decide (c_Subtype ctrl = ControlSubtypeLaneHeartbeat ∧ 0 <= ctx) then ctx else lane)
  end.
Proof.
  intros (_ & Hlane & Hcount & _). cbv zeta. unfold in_word in *. unfold handleLaneControl, control_lane.
  rewrite !go_int_small by lia. set (n := Z.of_nat (length (downWriters (ds_server d)))).
  destruct (Z.eqb_spec (c_LaneCount ctrl) n) as [Hn|Hn]; cbn [negb].
  2: { rewrite decide_False by tauto. done. }
  rewrite (proj2 (Z.ltb_ge _ _)) by lia. cbn [orb].
  destruct (Z.leb_spec n (c_LaneID ctrl)) as [Hl|Hl]; [by rewrite decide_False by lia|].
  set (d1 := match context d !! c with None => _ | Some _ => d end).
  destruct (ensure_context c d) as (Es & Eo & Ec & Hl1). fold d1 in Es, Eo, Ec, Hl1.
  clearbody d1. rewrite Hl1. set (l := default (-1) (context d !! c)) in *.
  change (default (-1) (Some l)) with l.
  assert (in_lanes (c_LaneID ctrl) (ds_server d) = true) as Hin by (apply in_lanes_true; lia).
  destruct (bind_lane c (c_LaneID ctrl) [] (ds_server d) Hin) as (B1 & B2 & _ & B4).
  unfold register_sessions in B1, B2, B4. cbn [foldl] in B1, B2, B4.
  destruct (Z.eqb_spec (c_Subtype ctrl) ControlSubtypeHello) as [Hsub|Hs1].
  { rewrite decide_True by auto. cbn. rewrite Es, Eo, lookup_insert_eq, Hsub. split_and!; done. }
  destruct (Z.eqb_spec (c_Subtype ctrl) ControlSubtypeLaneRegister) as [Hsub|Hs2].
  { destruct (bind_lane c (c_LaneID ctrl) (c_SessionIDs ctrl) (ds_server d) Hin) as (R1 & R2 & R3 & R4).
    destruct (Z.leb_spec 0 l), (Z.eqb_spec l (c_LaneID ctrl)); cbn [andb negb].
    2: { rewrite decide_False by (intros (_ & _ & [?|[Hx|[_ ?]]]); [done|by rewrite Hx in Hsub|lia]). rewrite Es, Eo. done. }
    all: rewrite decide_True by (split_and!; [done..|]; right; right; lia); cbn;
      rewrite Es, Eo, lookup_insert_eq, Hsub, R1, R4; split_and!; try done; auto;
      intros id; rewrite R2; by repeat case_decide; try tauto. }
  destruct (Z.eqb_spec (c_Subtype ctrl) ControlSubtypeLaneHeartbeat) as [Hsub|Hs3].
  - rewrite decide_True by auto. destruct (Z.ltb_spec l 0); cbn; rewrite Es, Eo, ?lookup_insert_eq, Hsub, B1, B4;
      split_and!; try done; (try by intros ? ?); rewrite ?Hl1; f_equal; case_decide; tauto || lia.
  - rewrite decide_False by tauto. rewrite Es, Eo. done.
Qed.

(** What a control message does. A message is obeyed when its lane count is
    the server's, its lane exists, its subtype is known and, for a registration,
    the connection has no other lane. Then the lane is connected to the sender and
    no other lane changes; a registration maps exactly its sessions to the lane, so
    that their datagrams are sent there; the connection's context becomes the lane,
    but a heartbeat does not change one that is set. Any other message changes
    neither the lanes nor the sessions nor a context that is set. *)
Theorem lane_control_spec `{IntWidth} {E} c ctrl (d : Downstream E) :
  control_wf ctrl →
  let s := ds_server d in
  let d' := handleLaneControl c ctrl d in
  let ctx := default (-1) (context d !! c) in
  let registers := c_Subtype ctrl = ControlSubtypeLaneRegister in
  open_conns d' = open_conns d ∧
  match control_lane c ctrl d with
  | None => ds_server d' = s ∧ ∀ c', default (-1) (context d' !! c') = default (-1) (context d !! c')
  | Some lane =>
      lane_conns (ds_server d') = <[Z.to_nat lane := Some c]> (lane_conns s) ∧
      (∀ id, sessionLaneMap (ds_server d') !! id =
         if decide (registers ∧ id ∈ c_SessionIDs ctrl) then Some lane else sessionLaneMap s !! id) ∧
      (∀ id, registers → id ∈ c_SessionIDs ctrl → laneForSession id (ds_server d') = Ret lane) ∧
      sv_sessions (ds_server d') = sv_sessions s ∧
      context d' !! c = Some (if decide (c_Subtype ctrl = ControlSubtypeLaneHeartbeat ∧ 0 <= ctx) then ctx else lane)
  end.
Proof. apply handleLaneControl_spec. Qed.

Definition sample_register : LaneControlPayload := mkControl ControlSubtypeLaneRegister 2 4 [1; 7].

Lemma lane_control_spec_witness :
  let d' := @handleLaneControl int64_target unit 9 sample_register (OnOpen_downstream 9 (server_start sample_open)) in
  lane_conns (ds_server d') = [None; None; Some 9%nat; None] ∧
  laneForSession 1 (ds_server d') = Ret 2 ∧ laneForSession 7 (ds_server d') = Ret 2 ∧
  laneForSession 4 (ds_server d') = Ret 0.
Proof.
  pose proof (@lane_control_spec int64_target unit 9 sample_register (OnOpen_downstream 9 (server_start sample_open))
    ltac:(by_compute)) as [_ H].
  change (control_lane _ _ _) with (Some 2) in H. cbv zeta iota in H. destruct H as (H1 & _ & H2 & _ & _).
  split; [exact H1|]. split; [apply H2; [reflexivity|by left]|]. split; [apply H2; [reflexivity|right; by left]|].
  vm_compute. reflexivity.
Defined.

Lemma clear_lane_other {E} laneID c (s : Server E) i :
  Z.of_nat i ≠ laneID → lane_conns (clearDownstreamConnForLane laneID c s) !! i = lane_conns s !! i.
Proof.
  intros Hne. unfold clearDownstreamConnForLane. destruct (in_lanes laneID s) eqn:El; [|done].
  apply in_lanes_true in El. unfold lane_conns. cbn. rewrite !list_lookup_fmap, list_lookup_alter_ne by lia. done.
Qed.

(** A connection that changes lanes leaves one behind. A connection that has a
    lane and greets another one ([Hello]), or sends a heartbeat for another one, is
    connected to both; closing it clears only the lane of its context, so the other
    keeps pointing at the closed connection and its batches are written there until
    some other connection takes the lane. *)
Theorem second_lane_goes_stale `{IntWidth} {E} c ctrl (d : Downstream E) (i j : nat) :
  Z.of_nat (length (downWriters (ds_server d))) < 2 ^ 16 →
  context d !! c = Some (Z.of_nat i) → lane_conns (ds_server d) !! i = Some (Some c) →
  c_LaneCount ctrl = Z.of_nat (length (downWriters (ds_server d))) → c_LaneID ctrl = Z.of_nat j →
  (j < length (downWriters (ds_server d)))%nat → j ≠ i →
  let d' := OnClose_downstream c (handleLaneControl c ctrl d) in
  c ∉ open_conns d' ∧
  (c_Subtype ctrl = ControlSubtypeHello → lane_conns (ds_server d') !! i = Some (Some c)) ∧
  (c_Subtype ctrl = ControlSubtypeLaneHeartbeat → lane_conns (ds_server d') !! j = Some (Some c)).
Proof.
  intros Hn Hctx Hi Hcount Hid Hj Hne. cbv zeta.
  split; [cbn; intros [_ Hx]%elem_of_difference; by apply Hx, elem_of_singleton|].
  assert (in_lanes (Z.of_nat j) (ds_server d) = true) as Hin by (apply in_lanes_true; lia).
  pose proof (set_lane_conns (Z.of_nat j) c (ds_server d)) as Hset. rewrite Hin, Nat2Z.id in Hset.
  assert (j < length (lane_conns (ds_server d)))%nat as Hj' by (unfold lane_conns; by rewrite length_fmap).
  split; intros Hsub; unfold handleLaneControl; rewrite Hcount, Hid, Hctx, Hsub, !go_int_small by lia;
    rewrite Z.eqb_refl; cbn [negb]; rewrite (proj2 (Z.ltb_ge (Z.of_nat j) 0)) by lia;
    rewrite (proj2 (Z.leb_gt (Z.of_nat (length (downWriters (ds_server d)))) (Z.of_nat j))) by lia;
    cbn [orb Z.eqb ControlSubtypeHello ControlSubtypeLaneHeartbeat ControlSubtypeLaneRegister Pos.eqb].
  - unfold OnClose_downstream. cbn [set_server set_context context ds_server]. rewrite lookup_insert_eq.
    rewrite (proj2 (Z.leb_le 0 (Z.of_nat j))) by lia. cbn [set_server ds_server].
    rewrite clear_lane_other, Hset by lia. by rewrite list_lookup_insert_ne.
  - rewrite Hctx. change (default (-1) (Some (Z.of_nat i))) with (Z.of_nat i).
    rewrite (proj2 (Z.ltb_ge (Z.of_nat i) 0)) by lia.
    unfold OnClose_downstream. cbn [set_server context ds_server]. rewrite Hctx.
    rewrite (proj2 (Z.leb_le 0 (Z.of_nat i))) by lia. cbn [set_server ds_server].
    rewrite clear_lane_other, Hset by lia. by apply list_lookup_insert_eq.
Qed.

(** Connection 9 has lane 2 and greets lane 1. *)
Definition sample_bound : Downstream unit :=
  @handleLaneControl int64_target unit 9 sample_register (OnOpen_downstream 9 (server_start sample_open)).

Lemma second_lane_goes_stale_witness :
  let d' := OnClose_downstream 9 (@handleLaneControl int64_target unit 9 (mkControl ControlSubtypeHello 1 4 []) sample_bound) in
  9%nat ∉ open_conns d' ∧ lane_conns (ds_server d') !! 2%nat = Some (Some 9%nat).
Proof.
  destruct (@second_lane_goes_stale int64_target unit 9 (mkControl ControlSubtypeHello 1 4 []) sample_bound 2 1)
    as (H1 & H2 & _).
  - vm_compute. reflexivity.
  - vm_compute. reflexivity.
  - vm_compute. reflexivity.
  - vm_compute. reflexivity.
  - vm_compute. reflexivity.
  - vm_compute. lia.
  - lia.
  - split; [exact H1|exact (H2 eq_refl)].
Defined.
