(* ===== verification/System.v ===== *)
(** * The two ends together

    A datagram's way through the tunnel: the client's sending path and lane writer,
    the bytes on the connection cut in any way, the server's event handler and the
    backend socket; the way back; and a registration. The ends are built from equal
    configurations, so their ciphers and limits agree. *)

From S2P Require Import Prelude.
From S2P Require Import Words.
From S2P Require Import Packet.
From S2P Require Import Control.
From S2P Require Import Stream.
From S2P Require Import Stats.
From S2P Require Import Config.
From S2P Require Import Crypto.
From S2P Require Import Session.
From S2P Require Import Ring.
From S2P Require Import Client.
From S2P Require Import ClientTable.
From S2P Require Import Upstream.
From S2P Require Import Downstream.
From S2P Require Import Reorder.
From S2P Require Import Server.
From S2P Require Import Handlers.
From S2P Require Import ServerSpec.
From S2P Require Import ServerDown.
From S2P Require Import ServerRun.

(** ** From the client to the backend *)

Section Up.
Context `{IntWidth} {E : Type}.
Implicit Types c : Client E.

(** Datagrams of one session, sent one after the other. *)
Fixpoint send_all (p : ptr) (items : list (list byte * random)) c : exec (option (Client E)) :=
  match items with
  | [] => Ret (Some c)
  | (data, rand) :: items =>
      r ← sendToUpstream p data rand c;
      match r with
      | Some c => send_all p items c
      | None => Ret None
      end
  end.

(** The frames they become. *)
Fixpoint session_frames (sid seq : Z) (cts : list (list byte)) : list Frame :=
  match cts with
  | [] => []
  | ct :: cts =>
      let seq := u32 (seq + 1) in
      mkFrame (NewDataPacket sid seq (Z.of_nat (length ct))) ct :: session_frames sid seq cts
  end.

(** A datagram the sender accepts, and its ciphertext. *)
Definition encrypts (cipher : Cipher E) (max : Z) (item : list byte * random) (ct : list byte) : Prop :=
  random_ok item.2 ∧ (0 < length item.1)%nat ∧ Z.of_nat (length item.1) ≤ max ∧ Encrypt cipher item.2 item.1 = Ok ct.

Lemma send_all_at c p s items cts i lane R q `{!CipherSpec (cp_upstreamCipher (params c))} :
  upstream_ok c → cp_upstreamStripeEnabled (params c) = false →
  heap c !! p = Some s → in_word 32 (us_sessionID s) →
  Forall2 (encrypts (cp_upstreamCipher (params c)) (MaxPacketSize (cp_config (params c)))) items cts →
  i = lane_of c (us_sessionID s) 0 → upstreamLanes c !! i = Some lane →
  ring_at (Z.to_nat (cp_maxUpstreamPacket (params c))) (ul_ring lane) R q → closed (ul_ring lane) = false →
  (length q + length items ≤ length (slots (ul_ring lane)))%nat →
  ∃ c' r', send_all p items c = Ret (Some c') ∧ params c' = params c ∧
    upstreamLanes c' = <[i := with_ring lane r']> (upstreamLanes c) ∧
    ring_at (Z.to_nat (cp_maxUpstreamPacket (params c))) r' R
      (q ++ (wire <$> session_frames (us_sessionID s) (us_sequenceID s) cts)) ∧ closed r' = false.
Proof.
  intros Hok Hst Hp Hsid Hall Hi. revert c s cts lane q Hok Hst Hp Hsid Hall Hi CipherSpec0.
  induction items as [|[data rand] items IH]; intros c s cts lane q Hok Hst Hp Hsid Hall -> Hc Hlane Hq Hopen Hroom.
  { apply Forall2_nil_inv_l in Hall as ->. exists c, (ul_ring lane). cbn. rewrite app_nil_r.
    split; [done|]. split; [done|]. split; [|done]. rewrite list_insert_id; [done|]. by destruct lane. }
  apply Forall2_cons_inv_l in Hall as (ct & cts' & (Hr & _ & Hlen & He) & Hall & ->). cbn [fst snd] in *.
  set (i := lane_of c (us_sessionID s) 0) in *. cbn [length] in Hroom.
  assert (lane_of c (us_sessionID s) (u32 (us_sequenceID s + 1)) = i) as Ei by (unfold i, lane_of; by rewrite Hst).
  destruct (sendToUpstream_at c p s data rand ct lane R q Hok Hr Hp Hsid Hlen He) as (_ & _ & Hsend);
    [by rewrite Ei|done|]. rewrite Ei in Hsend. rewrite Hopen, decide_True in Hsend by lia.
  destruct Hsend as (r1 & E1 & Hq1 & Hopen1 & Hslots). cbn [send_all]. rewrite E1. cbn [mbind exec_bind].
  set (c1 := set_upLanes _ _) in *.
  assert (i < length (upstreamLanes c))%nat as Hilt by by eapply lookup_lt_Some.
  destruct (IH c1 (us_NextSequenceID s).2 cts' (with_ring lane r1) (q ++ [frame_bytes
    (NewDataPacket (us_sessionID s) (u32 (us_sequenceID s + 1)) (Z.of_nat (length ct))) ct]))
    as (c' & r' & E2 & Hps & Hl & Hq2 & Hcl); try done.
  - destruct Hok as [Hl1 Hl2 Hl3]. split; [|done..]. cbn. by rewrite length_insert.
  - cbn. by rewrite lookup_insert_eq.
  - unfold lane_of. cbn. rewrite length_insert. unfold i, lane_of. done.
  - cbn. by apply list_lookup_insert_eq.
  - cbn. rewrite length_app, Hslots. cbn. lia.
  - exists c', r'. split; [done|]. split; [done|]. split.
    + rewrite Hl. cbn [upstreamLanes c1 set_upLanes]. apply list_insert_insert_eq.
    + cbn [session_frames fmap list_fmap]. rewrite <- app_assoc in Hq2. by split.
Qed.
(** Turns of the writer of lane [i], every write succeeding. *)
Fixpoint write_turns (fuel i : nat) (sleep : Z → Client E → option (Client E)) c
    : exec (Client E * list effect) :=
  match fuel with
  | O => Ret (c, [])
  | S fuel =>
      r ← handleUpstreamWrites i sleep Written c;
      let '(c, eff, turn) := r in
      match turn with
      | WriterContinues => w ← write_turns fuel i sleep c; Ret (w.1, eff ++ w.2)
      | _ => Ret (c, eff)
      end
  end.

(** The bytes written to a connection. *)
Definition written_to (conn : conn_id) (eff : list effect) : list (list byte) :=
  omap (λ e, match e with TcpWrite k bs => if decide (k = conn) then Some bs else None | _ => None end) eff.

(** A turn per frame is enough to empty the queue. *)
Lemma write_turns_at size c i sleep lane conn R q fuel :
  cp_upstreamBatchMaxDelay (params c) ≤ 0 → 1 ≤ cp_upstreamBatchMaxPackets (params c) →
  Z.of_nat size + Z.max 0 (cp_upstreamBatchMaxBytes (params c)) < 2 ^ 31 →
  upstreamLanes c !! i = Some lane → ul_conn lane = Some conn → ring_at size (ul_ring lane) R q →
  closed (ul_ring lane) = false → (length q < fuel)%nat →
  ∃ c' eff, write_turns fuel i sleep c = Ret (c', eff) ∧ concat (written_to conn eff) = concat q.
Proof.
  intros Hd Hm Hs. revert c lane R q Hd Hm Hs.
  induction fuel as [|fuel IH]; intros c lane R q Hd Hm Hs Hl Hc Hr Hopen Hf; [lia|]. cbn [write_turns].
  destruct q as [|f q].
  { exists c, []. split; [|done]. unfold handleUpstreamWrites. rewrite Hl, (pop_at _ _ _ _ Hr).
    by rewrite Hopen. }
  destruct (writer_turn_at size c i sleep Written lane R (f :: q) Hd Hm Hs Hl Hr ltac:(done))
    as (c1 & r1 & k & -> & Hl1 & Hp1 & Hr1 & Hopen1 & Hk & _ & _ & _). cbn [mbind exec_bind].
  destruct (IH c1 (written_lane Written lane r1) (R + k)%nat (drop k (f :: q))) as (c' & eff & E1 & Heff);
    rewrite ?Hp1; try done.
  - rewrite Hl1. apply list_lookup_insert_eq. by eapply lookup_lt_Some.
  - unfold written_lane. by rewrite Hc.
  - unfold written_lane. by rewrite Hc.
  - unfold written_lane. rewrite Hc. cbn. congruence.
  - rewrite length_drop. cbn [length] in *. lia.
  - rewrite E1. eexists _, _. split; [done|]. unfold written_effects. rewrite Hc.
    unfold written_to in *. cbn. rewrite decide_True by done. cbn [concat]. rewrite Heff.
    by rewrite <- concat_app, take_drop.
Qed.

End Up.

Section Sockets.
Context {E : Type}.

(** Frames of a session that has a socket, all decrypting, all writes succeeding. *)
Lemma server_delivers envs cipher id p conn fs datas (s : Server E) k :
  server_inv s → sp_upstreamStripeEnabled (sv_params s) = false → sp_upstreamCipher (sv_params s) = cipher →
  sv_sessions s !! id = Some p → bs_conn <$> sv_heap s !! p = Some (Some conn) →
  (∀ j n, env_write (envs j).1 n = true) →
  Forall2 (λ f d, (h_Type (f_Header f) = PacketTypeData ∧ h_SessionID (f_Header f) = id) ∧
      Decrypt cipher (f_Payload f) = Ok d) fs datas →
  effects (handle_all (up_handle envs) fs (k, s)).2 = effects s ++ (BackendWrite conn <$> datas).
Proof.
  intros Hi Hoff Hcip Hp Hc Hw Hall. revert s k Hi Hoff Hcip Hp Hc.
  induction Hall as [|f d fs datas [[_ Hid] Hd] Hall IH]; intros s k Hi Hoff Hcip Hp Hc.
  { cbn. by rewrite app_nil_r. }
  cbn [handle_all foldl up_handle fmap list_fmap].
  set (s1 := handleUpstreamPacket _ _ _ _ s).
  assert (server_inv s1 ∧ sv_params s1 = sv_params s ∧ sv_sessions s1 = sv_sessions s ∧
    bs_conn <$> sv_heap s1 !! p = Some (Some conn) ∧ effects s1 = effects s ++ [BackendWrite conn d])
    as (Hi1 & Hps & Hss & Hc1 & He).
  { unfold s1. split; [by apply handleUpstreamPacket_inv|]. rewrite handleUpstreamPacket_eq. cbv zeta.
    change (sv_params (count_received _ s)) with (sv_params s). rewrite Hcip, Hd, Hid.
    unfold open_session. change (sv_sessions (count_received _ s)) with (sv_sessions s). rewrite Hp.
    unfold writeUpstreamToBackend. cbn [sv_params sv_upd_session sv_set_heap count_received sv_set_stats].
    rewrite Hoff. cbn [negb].
    destruct (sv_heap s !! p) as [sess|] eqn:Eh; [|done]. injection Hc as Hc.
    set (s2 := sv_upd_session _ _ _).
    assert (sv_heap s2 !! p = Some (bs_UpdateLastActive (envs k).2 sess)) as Eh2
      by (cbn; by rewrite lookup_alter_eq, Eh).
    destruct (writeBackendPacket_live (envs k).1 p _ conn d s2 Eh2 Hc) as ((Ha & Hb & _ & _ & _ & Hpp & _) & -> & _).
    rewrite Ha, Hb, Hpp, Eh2. unfold backend_effect. rewrite Hw. cbn. by rewrite Hc. }
  unfold handle_all in IH. rewrite (IH s1 (S k)); rewrite ?Hps, ?Hss; try done.
  by rewrite He, <- app_assoc.
Qed.

End Sockets.

Lemma concat_wire fs : concat (wire <$> fs) = fs ≫= wire.
Proof. induction fs as [|f fs IH]; cbn; [done|]. by rewrite IH. Qed.

(** A datagram an end can send, empty ones included, and its ciphertext. *)
Definition answers {E} (cipher : Cipher E) (max : Z) (item : list byte * random) (ct : list byte) : Prop :=
  random_ok item.2 ∧ Z.of_nat (length item.1) ≤ max ∧ Encrypt cipher item.2 item.1 = Ok ct.

(** The frames of a session are accepted by the other end and decrypt to what was
    sent. *)
Lemma session_frames_accepted {E} (cipher : Cipher E) max limit sid seq items cts `{!CipherSpec cipher} :
  in_word 32 sid → max + Z.of_nat (Overhead cipher) < 2 ^ 31 → max + Z.of_nat (Overhead cipher) ≤ limit →
  Forall2 (answers cipher max) items cts →
  Forall (frame_ok limit) (session_frames sid seq cts) ∧
  Forall2 (λ f d, (h_Type (f_Header f) = PacketTypeData ∧ h_SessionID (f_Header f) = sid) ∧
      Decrypt cipher (f_Payload f) = Ok d) (session_frames sid seq cts) items.*1.
Proof.
  intros Hsid Hmax Hlim Hall. revert seq. induction Hall as [|[d rand] ct items cts (Hr & Hlen & He) Hall IH];
    intros seq; [by repeat constructor|]. cbn [session_frames fst snd fmap list_fmap] in *.
  destruct (IH (u32 (seq + 1))) as (H1 & H2).
  assert (Z.of_nat (length d) ≤ max_plaintext) as Hpl by (apply max_plaintext_small; lia).
  pose proof (length_Encrypt rand d ct Hr Hpl He) as Hct.
  pose proof (Decrypt_Encrypt rand d ct Hr Hpl He) as Hdec.
  split; constructor; try done.
  split; [|split; [done|split; [done|cbn; lia]]]. apply NewDataPacket_wf; [done|apply u32_word|unfold in_word; lia].
Qed.

Lemma session_frames_nonempty {E} (cipher : Cipher E) max sid seq items cts `{!CipherSpec cipher} :
  max < 2 ^ 31 → Forall2 (encrypts cipher max) items cts → Forall nonempty_frame (session_frames sid seq cts).
Proof.
  intros Hmax Hall. revert seq. induction Hall as [|[d rand] ct items cts (Hr & Hne & Hlen & He) Hall IH];
    intros seq; constructor; [|apply IH]. cbn [fst snd] in *.
  assert (Z.of_nat (length d) ≤ max_plaintext) as Hpl by (apply max_plaintext_small; lia).
  pose proof (length_Encrypt rand d ct Hr Hpl He). unfold nonempty_frame. cbn. lia.
Qed.

Lemma encrypts_answers {E} (cipher : Cipher E) max items cts :
  Forall2 (encrypts cipher max) items cts → Forall2 (answers cipher max) items cts.
Proof. intros Hall. eapply Forall2_impl; [exact Hall|]. by intros ?? (? & ? & ? & ?). Qed.

(** C3: the tunnel carries datagrams to the backend. The client sends non-empty
    datagrams of one session, each within the packet size, on a connected lane with
    room for them; its writer empties the lane in batches of its own choosing; the
    network cuts the bytes anywhere. Then, on a 64-bit server built from the same
    configuration whose table has the session, the backend socket of the session
    receives exactly these datagrams, decrypted, in the order they were sent, and
    nothing is left in any buffer. *)
Theorem upstream_end_to_end `{IntWidth} `{G : GnetReader} {E} (c : Client E) (s : Server E)
    p us items cts lane conn_l R sleep p' conn fuel :
  let cipher := cp_upstreamCipher (params c) in
  let max := MaxPacketSize (cp_config (params c)) in
  let i := lane_of c (us_sessionID us) 0 in
  let size := Z.to_nat (cp_maxUpstreamPacket (params c)) in
  int_bits = 64 → GnetSpec G → CipherSpec cipher →
  (* the client *)
  upstream_ok c → cp_upstreamStripeEnabled (params c) = false →
  cp_upstreamBatchMaxDelay (params c) ≤ 0 → 1 ≤ cp_upstreamBatchMaxPackets (params c) →
  Z.of_nat size + Z.max 0 (cp_upstreamBatchMaxBytes (params c)) < 2 ^ 31 →
  heap c !! p = Some us → in_word 32 (us_sessionID us) →
  upstreamLanes c !! i = Some lane → ul_conn lane = Some conn_l →
  ring_at size (ul_ring lane) R [] → closed (ul_ring lane) = false →
  (length items ≤ length (slots (ul_ring lane)))%nat → (length items < fuel)%nat →
  Forall2 (encrypts cipher max) items cts →
  (* the server *)
  server_inv s → sp_upstreamStripeEnabled (sv_params s) = false → sp_upstreamCipher (sv_params s) = cipher →
  maxUpstreamFramePayload s = max + Z.of_nat (Overhead cipher) → 0 < maxUpstreamFramePayload s →
  sv_sessions s !! us_sessionID us = Some p' → bs_conn <$> sv_heap s !! p' = Some (Some conn) →
  ∃ c1 c2 eff, send_all p items c = Ret (Some c1) ∧ write_turns fuel i sleep c1 = Ret (c2, eff) ∧
    ∀ chunks envs k, concat chunks = concat (written_to conn_l eff) → Z.of_nat (length (concat chunks)) < 2 ^ 62 →
      (∀ j n, env_write (envs j).1 n = true) →
      ∃ k' s', traffic (maxUpstreamFramePayload s) (up_handle envs) [] (k, s) chunks = ([], (k', s')) ∧
        effects s' = effects s ++ (BackendWrite conn <$> items.*1).
Proof.
  intros cipher max i size H64 HG Hcs Hok Hst Hd Hm Hsz Hp Hsid Hl Hlc Hr Hopen Hroom Hfuel Hall.
  intros Hi Hoff Hcip Hmax Hmax0 Hp' Hc'.
  destruct (send_all_at c p us items cts i lane R [] Hok Hst Hp Hsid Hall eq_refl Hl Hr Hopen) as
    (c1 & r1 & E1 & Hps & Hl1 & Hr1 & Hopen1); [cbn; lia|]. cbn [app] in Hr1.
  set (fs := session_frames (us_sessionID us) (us_sequenceID us) cts) in *.
  destruct (uo_size _ Hok) as [_ Hsize]. rewrite (uo_max _ Hok) in Hsize.
  assert (max + Z.of_nat (Overhead cipher) < 2 ^ 31) as Hbound by (unfold HeaderSize, max, cipher in *; lia).
  destruct (session_frames_accepted cipher max (max + Z.of_nat (Overhead cipher)) (us_sessionID us)
    (us_sequenceID us) items cts Hsid Hbound ltac:(lia) (encrypts_answers _ _ _ _ Hall)) as (Hf1 & Hf3).
  pose proof (session_frames_nonempty cipher max (us_sessionID us) (us_sequenceID us) items cts
    ltac:(lia) Hall) as Hf2.
  assert (length fs = length items) as Hlen by (apply Forall2_length in Hf3; by rewrite length_fmap in Hf3).
  destruct (write_turns_at size c1 i sleep (with_ring lane r1) conn_l R (wire <$> fs) fuel)
    as (c2 & eff & E2 & Heff); rewrite ?Hps; try done.
  - rewrite Hl1. apply list_lookup_insert_eq. by eapply lookup_lt_Some.
  - by rewrite length_fmap, Hlen.
  - exists c1, c2, eff. split; [done|]. split; [done|]. intros chunks envs k Hcat Hlt Hw.
    rewrite Heff, concat_wire in Hcat.
    pose proof (server_delivers envs cipher (us_sessionID us) p' conn fs items.*1 s k Hi Hoff Hcip Hp' Hc' Hw Hf3) as Hdel.
    destruct (handle_all (up_handle envs) fs (k, s)) as [k' s'] eqn:Eh. exists k', s'. split; [|done].
    rewrite <- Eh. apply traffic_parses; try done. cbn [app]. rewrite Hmax, Hcat.
    pose proof (parses_wire _ fs [] None [] [] Hf1 (parses_none _ [] eq_refl)) as Hp2. by rewrite !app_nil_r in Hp2.
Qed.

(** The sample client after its first datagram, its lanes connected. *)
Definition sample_connected : Client unit :=
  set_upLanes sample_client1
    ((λ l, mkUpLane (ul_id l) (ul_ring l) (ul_reconnect l) (Some 9%nat)) <$> upstreamLanes sample_client1).

Lemma upstream_end_to_end_witness :
  ∃ c1 c2 eff, @send_all int64_target unit 1 [([x68; x69], λ _, None); ([x21], λ _, None)] sample_connected = Ret (Some c1) ∧
    @write_turns int64_target unit 3 1 (λ _ _, None) c1 = Ret (c2, eff) ∧
    ∃ k' s', @traffic int64_target slice_reader _ 64 (up_handle (λ _, (sample_env, 5))) [] (0%nat, sample_open)
      [take 23 (concat (written_to 9 eff)); drop 23 (concat (written_to 9 eff))] = ([], (k', s')) ∧
      effects s' = [BackendWrite 7 [x68; x69]; BackendWrite 7 [x68; x69]; BackendWrite 7 [x21]].
Proof.
  destruct sample_upstream as (Hok & Hc & HF).
  destruct (upstreamLanes sample_client !! 1%nat) as [lane|] eqn:El; [|vm_compute in El; discriminate].
  pose proof El as Hl. eapply Forall_lookup in HF as [Hq Hcl]; [|exact Hl].
  assert (∃ us, heap sample_connected !! 1%nat = Some us ∧ us_sessionID us = 1) as (us & Hs & Hid)
    by (eexists; vm_compute; auto).
  assert (upstreamLanes sample_connected !! 1%nat =
    Some (mkUpLane (ul_id lane) (ul_ring lane) (ul_reconnect lane) (Some 9%nat))) as Hl1.
  { unfold sample_connected. cbn [upstreamLanes set_upLanes]. rewrite list_lookup_fmap.
    change (upstreamLanes sample_client1) with (upstreamLanes sample_client). by rewrite Hl. }
  destruct (@upstream_end_to_end int64_target slice_reader unit sample_connected sample_open 1 us
    [([x68; x69], λ _, None); ([x21], λ _, None)] [[x68; x69]; [x21]]
    (mkUpLane (ul_id lane) (ul_ring lane) (ul_reconnect lane) (Some 9%nat)) 9 0 (λ _ _, None) 1 7 3)
    as (c1 & c2 & eff & E1 & E2 & H); rewrite ?Hid.
  - reflexivity.
  - exact slice_reader_spec.
  - exact Hc.
  - destruct Hok. split; [|done..]. cbn. by rewrite length_fmap.
  - reflexivity.
  - by_compute.
  - by_compute.
  - by_compute.
  - exact Hs.
  - by_compute.
  - exact Hl1.
  - reflexivity.
  - exact Hq.
  - exact Hcl.
  - clear -El. vm_compute in El. injection El as <-. cbn. lia.
  - cbn. lia.
  - repeat constructor; first [lia|by_compute|intros n l; discriminate|idtac].
  - exact sample_open_inv.
  - reflexivity.
  - reflexivity.
  - reflexivity.
  - by_compute.
  - vm_compute. reflexivity.
  - vm_compute. reflexivity.
  - rewrite Hid in E2. change (lane_of sample_connected 1 0) with 1%nat in E2.
    exists c1, c2, eff. split; [exact E1|]. split; [exact E2|].
    destruct (H [take 23 (concat (written_to 9 eff)); drop 23 (concat (written_to 9 eff))] (λ _, (sample_env, 5)) 0%nat)
      as (k' & s' & E3 & E4).
    + cbn. by rewrite app_nil_r, take_drop.
    + cbn. rewrite app_nil_r, take_drop. 
      assert (concat (written_to 9 eff) = wire (mkFrame (NewDataPacket 1 1 2) [x68; x69]) ++
        wire (mkFrame (NewDataPacket 1 2 1) [x21])) as ->; [|vm_compute; reflexivity].
      clear -E1 E2. vm_compute in E1. injection E1 as <-. vm_compute in E2. injection E2 as _ <-. vm_compute. reflexivity.
    + reflexivity.
    + exists k', s'. split; [exact E3|]. rewrite E4. vm_compute. reflexivity.
Defined.

(** ** From the backend to the client's peer *)

Section Down.
Context {E : Type}.
Implicit Types s : Server E.

Fixpoint answer_all (p : ptr) (items : list (list byte * random)) s : exec (Server E) :=
  match items with
  | [] => Ret s
  | (data, rand) :: items => s ← sendToDownstream p data rand s; answer_all p items s
  end.

Lemma answer_all_at p items cts s sess i w `{!CipherSpec (sp_downstreamCipher (sv_params s))} :
  let mps := MaxPacketSize (sp_config (sv_params s)) in
  server_inv s → sv_heap s !! p = Some sess → in_word 32 (bs_sessionID sess) →
  mps + Z.of_nat (Overhead (sp_downstreamCipher (sv_params s))) < 2 ^ 31 →
  Forall2 (answers (sp_downstreamCipher (sv_params s)) mps) items cts →
  session_lane s (bs_sessionID sess) = i → downWriters s !! i = Some w →
  Z.of_nat (length (dw_ch w) + length items) ≤ writer_cap →
  ∃ s', answer_all p items s = Ret s' ∧ effects s' = effects s ∧
    downWriters s' !! i = Some (set_ch w (dw_ch w ++
      (wire <$> session_frames (bs_sessionID sess) (bs_sequenceID sess) cts))).
Proof.
  intros mps Hi Hp Hsid Hmax Hall Hlane Hw Hroom. revert s sess cts w mps CipherSpec0 Hi Hp Hsid Hmax Hall Hlane Hw Hroom.
  induction items as [|[d rand] items IH]; intros s sess cts w mps Hc Hi Hp Hsid Hmax Hall Hlane Hw Hroom.
  { apply Forall2_nil_inv_l in Hall as ->. exists s. cbn. rewrite app_nil_r. split_and!; [done..|]. rewrite Hw. by destruct w. }
  apply Forall2_cons_inv_l in Hall as (ct & cts' & (Hr & Hlen & He) & Hall & ->). cbn [fst snd length] in *.
  destruct (sendToDownstream_inv p d rand s Hi) as (s1 & E1 & Hi1); [by eauto|].
  cbn [answer_all]. rewrite E1. cbn [mbind exec_bind].
  rewrite (sendToDownstream_eq s p sess d rand Hi Hp) in E1. cbv zeta in E1. rewrite He, Hlane in E1.
  change (downWriters (sv_next_seq s p sess)) with (downWriters s) in E1. rewrite Hw in E1.
  destruct (down_frame_ok s sess d rand ct Hr Hsid Hlen Hmax He) as (_ & _ & Hu). rewrite Hu in E1.
  rewrite (proj2 (Z.ltb_lt _ _)) in E1 by lia. injection E1 as <-.
  set (s1 := sv_set_writers _ _) in *.
  assert (i < length (downWriters s))%nat as Hilt by by eapply lookup_lt_Some.
  destruct (IH s1 (bs_NextSequenceID sess).2 cts' (push_frame (frame_bytes (NewDataPacket (bs_sessionID sess)
    (u32 (bs_sequenceID sess + 1)) (Z.of_nat (length ct))) ct) w)) as (s' & E2 & Heff & Hw'); try done.
  - cbn. by rewrite lookup_insert_eq.
  - unfold session_lane, in_lanes in *. cbn. by rewrite length_insert.
  - cbn. by apply list_lookup_insert_eq.
  - cbn. rewrite length_app. cbn. lia.
  - exists s'. split; [done|]. split; [done|]. rewrite Hw'. cbn. by rewrite <- app_assoc.
Qed.

(** Turns of the lane writer until its queue is empty. *)
Fixpoint drain_lane (fuel i : nat) s : Server E :=
  match fuel with
  | O => s
  | S fuel => match writer_run i false (λ _ s, Some s) true s with
              | Some (s, _) => drain_lane fuel i s
              | None => s
              end
  end.

Lemma writer_run_turn i s w frame ch conn :
  1 ≤ dw_batchMaxPackets w → downWriters s !! i = Some w → dw_ch w = frame :: ch → dw_conn w = Some conn →
  ∃ s' k, writer_run i false (λ _ s, Some s) true s = Some (s', true) ∧ (1 ≤ k ≤ length (frame :: ch))%nat ∧
    effects s' = effects s ++ [TcpWrite conn (concat (take k (frame :: ch)))] ∧
    downWriters s' !! i = Some (set_ch w (drop k (frame :: ch))).
Proof.
  intros Hm Hw Hch Hc. unfold writer_run. rewrite Hw. cbn [mbind option_bind]. rewrite Hch.
  set (s0 := sv_set_writers s (<[i := set_ch w ch]> (downWriters s))).
  assert (downWriters s0 !! i = Some (setConn (Some conn) (set_ch w (ch ++ [])))) as Hw0.
  { cbn. rewrite app_nil_r, list_lookup_insert_eq by (by eapply lookup_lt_Some). rewrite <- Hc. by destruct w. }
  destruct (writer_fills i true s0 w frame ch [] (Some conn) Hm Hw0) as (s' & k & E1 & Hk & _ & He & Hd & _).
  rewrite app_nil_r in *. exists s', k. split; [by destruct (_ && _ && _)|]. split; [done|]. split; [done|].
  rewrite Hd. f_equal. rewrite <- Hc. by destruct w.
Qed.

Lemma drain_lane_at fuel i s w conn :
  1 ≤ dw_batchMaxPackets w → downWriters s !! i = Some w → dw_conn w = Some conn → (length (dw_ch w) ≤ fuel)%nat →
  concat (written_to conn (effects (drain_lane fuel i s))) =
    concat (written_to conn (effects s)) ++ concat (dw_ch w) ∧
  dw_ch <$> downWriters (drain_lane fuel i s) !! i = Some [].
Proof.
  revert s w. induction fuel as [|fuel IH]; intros s w Hm Hw Hc Hf; cbn [drain_lane].
  { destruct (dw_ch w) eqn:Ech; cbn in Hf; [|lia]. rewrite Hw. cbn. by rewrite app_nil_r, Ech. }
  destruct (dw_ch w) as [|frame ch] eqn:Ech.
  { unfold writer_run. rewrite Hw. cbn [mbind option_bind]. rewrite Ech. cbn. by rewrite app_nil_r, Hw; cbn; rewrite Ech. }
  destruct (writer_run_turn i s w frame ch conn Hm Hw Ech Hc) as (s' & k & -> & Hk & He & Hw').
  destruct (IH s' (set_ch w (drop k (frame :: ch)))) as [H1 H2]; try done.
  { cbn [dw_ch set_ch]. rewrite length_drop. lia. }
  split; [|done]. rewrite H1, He. unfold written_to. rewrite omap_app, concat_app, <- app_assoc. cbn [omap list_omap].
  rewrite decide_True by done. f_equal. cbn [dw_ch set_ch concat]. rewrite app_nil_r, <- concat_app.
  by rewrite take_drop.
Qed.

End Down.

(** C4: the tunnel carries answers back to the peer. The server sends datagrams of
    one session, empty ones included, on a connected lane with room; the lane's
    writer drains its queue in batches; the network cuts the bytes anywhere. Then a
    64-bit client built from the same configuration, whose tables have the session,
    writes to its peer exactly these datagrams, decrypted, in order, and nothing
    else. ([UdpWrite] is the call; whether the operating system then loses the
    datagram is not decided by it.) *)
Theorem downstream_end_to_end `{IntWidth} {E} (s : Server E) (c : Client E)
    p sess items cts i w conn p' us fuel :
  let cipher := sp_downstreamCipher (sv_params s) in
  let mps := MaxPacketSize (sp_config (sv_params s)) in
  int_bits = 64 → CipherSpec cipher → 0 ≤ mps → mps + Z.of_nat (Overhead cipher) + 2048 < 2 ^ 31 →
  (* the server *)
  server_inv s → sv_heap s !! p = Some sess → in_word 32 (bs_sessionID sess) →
  session_lane s (bs_sessionID sess) = i → downWriters s !! i = Some w →
  dw_ch w = [] → dw_conn w = Some conn → 1 ≤ dw_batchMaxPackets w → written_to conn (effects s) = [] →
  Z.of_nat (length items) ≤ writer_cap → (length items ≤ fuel)%nat → Forall2 (answers cipher mps) items cts →
  (* the client *)
  cp_downstreamCipher (params c) = cipher → MaxPacketSize (cp_config (params c)) = mps →
  sessionsByID c !! bs_sessionID sess = Some p' → heap c !! p' = Some us →
  ∃ s1, answer_all p items s = Ret s1 ∧
    let sent := written_to conn (effects (drain_lane fuel i s1)) in
    ∀ env grow j conn_c chunks ending, concat chunks = concat sent → Z.of_nat (length (concat chunks)) < 2 ^ 63 →
      ∃ c', handleDownstream env grow j conn_c chunks ending c =
        Ret (c', (UdpWrite (us_remoteAddrPort us) <$> items.*1) ++ [TcpClose conn_c]).
Proof.
  intros cipher mps H64 Hcs Hmps Hmax Hi Hp Hsid Hlane Hw Hch Hconn Hm Hnone Hroom Hfuel Hall Hcip Hcm Hid Hus.
  assert (mps + Z.of_nat (Overhead cipher) < 2 ^ 31) as Hb1 by lia.
  destruct (answer_all_at p items cts s sess i w Hi Hp Hsid Hb1 Hall Hlane Hw)
    as (s1 & E1 & He & Hw1); [rewrite Hch; cbn; lia|]. rewrite Hch in Hw1. cbn [app] in Hw1.
  set (fs := session_frames (bs_sessionID sess) (bs_sequenceID sess) cts) in *.
  assert (downstream_max_payload c = mps + Z.of_nat (Overhead cipher) + 2048) as Hlimit.
  { unfold downstream_max_payload. rewrite Hcip, Hcm. apply go_int_small. lia. }
  assert (mps + Z.of_nat (Overhead cipher) ≤ downstream_max_payload c) as Hb2 by lia.
  destruct (session_frames_accepted cipher mps (downstream_max_payload c) (bs_sessionID sess) (bs_sequenceID sess)
    items cts Hsid Hb1 Hb2 Hall) as (Hf1 & Hf2). fold fs in Hf1, Hf2.
  assert (length fs = length items) as Hlen by (apply Forall2_length in Hf2; by rewrite length_fmap in Hf2).
  exists s1. split; [done|]. intros sent env grow j conn_c chunks ending Hcat Hlt.
  destruct (drain_lane_at fuel i s1 (set_ch w (wire <$> fs)) conn Hm Hw1 Hconn) as [Hsent _].
  { cbn. by rewrite length_fmap, Hlen. }
  fold sent in Hsent. rewrite He, Hnone in Hsent. cbn [concat app dw_ch set_ch] in Hsent. rewrite concat_wire in Hsent.
  destruct (handleDownstream_effects env grow j conn_c c fs chunks [] ending) as [c' ->]; try done.
  - by rewrite Hcat, Hsent, app_nil_r.
  - exists c'. do 3 f_equal. clear -Hf2 Hcip Hid Hus. induction Hf2 as [|f d fs ds [[Ht Hs] Hd] _ IH]; [done|].
    cbn [mbind list_bind fmap list_fmap]. rewrite IH. unfold deliver. rewrite Ht, Hs, Hcip, Hd, Hid. cbn [mbind option_bind].
    by rewrite Hus.
Qed.

Definition sample_answering : Server unit := setDownstreamConnForLane 1 9 sample_open.

Lemma downstream_end_to_end_witness :
  ∃ s1, answer_all 1 [([x6f; x6b], λ _, None); ([], λ _, None)] sample_answering = Ret s1 ∧
    let sent := concat (written_to 9 (effects (drain_lane 2 1 s1))) in
    ∃ c', @handleDownstream int64_target unit (λ _, mkEnv 5 true) (λ _ n, n) 0 3 [take 21 sent; drop 21 sent]
        ReadTimeoutOrClosed sample_down =
      Ret (c', [UdpWrite sample_peer4 [x6f; x6b]; UdpWrite sample_peer4 []; TcpClose 3]).
Proof.
  assert (∃ us, heap sample_down !! 1%nat = Some us ∧ us_remoteAddrPort us = sample_peer4) as (us & Hus & Hpeer)
    by (eexists; vm_compute; auto).
  assert (∃ w, downWriters sample_answering !! 1%nat = Some w ∧ dw_ch w = [] ∧ dw_conn w = Some 9%nat ∧
    dw_batchMaxPackets w = 128) as (w & Hw & Hch & Hconn & Hmax) by (eexists; vm_compute; auto).
  destruct (@downstream_end_to_end int64_target unit sample_answering sample_down 1
    (NewBackendSession 5 1 (Some 7%nat) (UDPAddrFromAddrPort (mkAddrPort (Addr4 2130706433) 53)) None)
    [([x6f; x6b], λ _, None); ([], λ _, None)] [XOREncrypt [x6f; x6b]; []] 1 w 9 1 us 2) as (s1 & E1 & H).
  - reflexivity.
  - exact XORCipher_spec.
  - by_compute.
  - by_compute.
  - apply set_lane_inv, sample_open_inv.
  - vm_compute. reflexivity.
  - by_compute.
  - vm_compute. reflexivity.
  - exact Hw.
  - exact Hch.
  - exact Hconn.
  - rewrite Hmax. lia.
  - vm_compute. reflexivity.
  - by_compute.
  - cbn. lia.
  - repeat constructor; first [by_compute|intros n l; discriminate|reflexivity].
  - reflexivity.
  - reflexivity.
  - vm_compute. reflexivity.
  - exact Hus.
  - exists s1. split; [exact E1|]. intros sent.
    destruct (H (λ _, mkEnv 5 true) (λ _ n, n) 0%nat 3%nat [take 21 sent; drop 21 sent] ReadTimeoutOrClosed) as [c' E2].
    + cbn [concat]. by rewrite app_nil_r, take_drop.
    + cbn [concat]. rewrite app_nil_r, take_drop. unfold sent. clear -E1.
      vm_compute in E1. injection E1 as <-. vm_compute. reflexivity.
    + exists c'. rewrite E2. cbn [fmap list_fmap fst app]. by rewrite Hpeer.
Defined.

(** ** Registration *)

(** Both ends choose the same lane. A session that was never registered is
    served on the lane its client reads: with equal lane counts the server's
    fallback is the client's lane for the session. *)
Theorem lanes_agree {E} (c : Client E) (s : Server E) id :
  server_inv s → length (downstreamLanes c) = length (downWriters s) → sessionLaneMap s !! id = None →
  ∃ i, downstreamLaneForSession c id = Ret i ∧ laneForSession id s = Ret (Z.of_nat i) ∧
    (i < length (downstreamLanes c))%nat.
Proof.
  intros Hi Hlen Hn. exists (session_lane s id). rewrite Hlen. split; [|split].
  - unfold downstreamLaneForSession, lane_index, session_lane. rewrite Hlen, Hn.
    destruct Hi as [[Hl1 Hl2] _ _ _ _]. rewrite u32_small by (unfold in_word; lia).
    by rewrite (proj2 (Z.eqb_neq _ _)) by lia.
  - by apply laneForSession_eq.
  - by apply session_lane_lt.
Qed.

Lemma lanes_agree_witness :
  ∃ i, downstreamLaneForSession sample_down 7 = Ret i ∧ laneForSession 7 sample_open = Ret (Z.of_nat i) ∧ (i < 4)%nat.
Proof. apply (lanes_agree sample_down sample_open 7); [exact sample_open_inv|reflexivity|reflexivity]. Defined.

(** A control frame as the server's loop handles it. *)
Lemma down_handle_control `{IntWidth} {E} c i n subtype ids (d : Downstream E) :
  (i < n)%nat → Z.of_nat n ≤ 65535 → in_word 8 subtype → Forall (in_word 32) ids → Z.of_nat (length ids) ≤ 65535 →
  down_handle c (control_frame (Z.of_nat i) (Z.of_nat n) subtype ids) d =
    handleLaneControl c (mkControl subtype (Z.of_nat i) (Z.of_nat n) ids) d.
Proof.
  intros Hi Hn Hsub Hids Hlen. destruct (control_frame_ok 0 i n subtype ids) as [_ Hdec]; try done.
  unfold down_handle. cbn [control_frame f_Header h_Type]. rewrite Z.eqb_refl. cbn [negb]. by rewrite Hdec.
Qed.

(** Lanes are looked up by the map and the number of lanes. *)
Lemma laneForSession_ext {E} (s s' : Server E) id :
  sessionLaneMap s' !! id = sessionLaneMap s !! id → length (lane_conns s') = length (lane_conns s) →
  laneForSession id s' = laneForSession id s.
Proof.
  unfold lane_conns. rewrite !length_fmap. intros Em El. unfold laneForSession, in_lanes. by rewrite Em, El.
Qed.

(** C29: a registration takes effect. A client registers up to 16382 sessions on a
    connected lane; the server, with as many lanes, gets the bytes in any pieces on
    a connection that has no lane yet or this one. Then the lane is connected to the
    connection and the registered sessions' datagrams go to that lane; the other
    sessions keep theirs. *)
Theorem registration_end_to_end `{IntWidth} `{G : GnetReader} {E} (c : Client E) i conn_c queue n ids
    conn (d : Downstream E) :
  int_bits = 64 → GnetSpec G → lane_ready c i conn_c queue n → (i < n)%nat → Z.of_nat n ≤ 65535 →
  Forall (in_word 32) ids → Z.of_nat (length ids) ≤ 16382 →
  length (downWriters (ds_server d)) = n →
  (default (-1) (context d !! conn) < 0 ∨ default (-1) (context d !! conn) = Z.of_nat i) →
  ∃ bytes, sendLaneControl i ControlSubtypeLaneRegister ids Written c = Ret (c, [TcpWrite conn_c bytes]) ∧
    ∀ chunks, concat chunks = bytes →
      ∃ d', traffic maxDownstreamControlPayload (down_handle conn) [] d chunks = ([], d') ∧
        (∀ id, id ∈ ids → laneForSession id (ds_server d') = Ret (Z.of_nat i)) ∧
        (∀ id, id ∉ ids → laneForSession id (ds_server d') = laneForSession id (ds_server d)) ∧
        lane_conns (ds_server d') = <[i := Some conn]> (lane_conns (ds_server d)).
Proof.
  intros H64 HG Hr Hi Hn Hids Hlen Hwn Hctx. eexists. split; [apply (sendLaneControl_ok c i conn_c queue n); done || lia|].
  destruct (control_frame_ok maxDownstreamControlPayload i n ControlSubtypeLaneRegister ids) as [Hok _];
    try done; [lia|unfold maxDownstreamControlPayload; lia|].
  set (ctrl := mkControl ControlSubtypeLaneRegister (Z.of_nat i) (Z.of_nat n) ids).
  assert (down_handle conn (control_frame (Z.of_nat i) (Z.of_nat n) ControlSubtypeLaneRegister ids) d =
    handleLaneControl conn ctrl d) as Hdown by (apply down_handle_control; done || lia).
  pose proof (length_control_encode x00 ctrl) as Hplen. cbn [c_SessionIDs ctrl] in Hplen.
  assert (nonempty_frame (control_frame (Z.of_nat i) (Z.of_nat n) ControlSubtypeLaneRegister ids)) as Hne
    by (unfold nonempty_frame; cbn [control_frame f_Payload]; fold ctrl; lia).
  assert (Z.of_nat (length (wire (control_frame (Z.of_nat i) (Z.of_nat n) ControlSubtypeLaneRegister ids))) < 2 ^ 62) as Hsmall.
  { rewrite length_wire. cbn [control_frame f_Payload]. fold ctrl. unfold HeaderSize. lia. }
  generalize dependent (control_frame (Z.of_nat i) (Z.of_nat n) ControlSubtypeLaneRegister ids).
  intros cf Hok Hdown Hne Hsmall chunks Hcat.
  exists (handle_all (down_handle conn) [cf] d). split.
  - apply traffic_parses; try done.
    + cbn [length]. rewrite Hcat. lia.
    + cbn [app]. rewrite Hcat. pose proof (parses_wire _ [cf] [] None [] [] (Forall_cons_2 _ _ _ Hok (Forall_nil_2 _))
        (parses_none _ [] eq_refl)) as Hp. cbn [mbind list_bind] in Hp. by rewrite !app_nil_r in Hp.
    + by repeat constructor.
  - unfold handle_all. cbn [foldl]. rewrite Hdown.
    destruct (handleLaneControl_spec conn ctrl d) as [_ Hs].
    { split; [by_compute|]. unfold in_word. cbn. split_and!; try lia. done. }
    unfold control_lane in Hs. cbn [c_LaneID c_LaneCount c_Subtype c_SessionIDs ctrl] in Hs.
    rewrite decide_True in Hs by (split_and!; [lia|lia|right; right; split; [done|lia]]).
    destruct Hs as (H1 & H2 & H3 & _ & _). rewrite Nat2Z.id in H1. split; [|split; [|done]].
    + intros id Hid. by apply H3.
    + intros id Hid. apply laneForSession_ext; [rewrite H2; by rewrite decide_False by tauto|].
      by rewrite H1, length_insert.
Qed.

Definition sample_open_down : Downstream unit := OnOpen_downstream 6 (server_start sample_open).

Definition sample_reg : Client unit :=
  set_downLanes sample_client (mkDownLane 0 false [] (Some 9%nat) :: drop 1 (downstreamLanes sample_client)).

Lemma registration_end_to_end_witness :
  ∃ bytes, sendLaneControl 0 ControlSubtypeLaneRegister [7; 1] Written sample_reg = Ret (sample_reg, [TcpWrite 9 bytes]) ∧
    ∃ d', @traffic int64_target slice_reader _ maxDownstreamControlPayload (@down_handle int64_target unit 6) []
        sample_open_down [take 11 bytes; drop 11 bytes] = ([], d') ∧
      laneForSession 7 (ds_server d') = Ret 0 ∧ laneForSession 1 (ds_server d') = Ret 0 ∧
      laneForSession 2 (ds_server d') = Ret 2.
Proof.
  destruct (@registration_end_to_end int64_target slice_reader unit sample_reg 0 9 [] 4 [7; 1] 6 sample_open_down)
    as (bytes & E1 & H).
  - reflexivity.
  - exact slice_reader_spec.
  - split; [reflexivity|]. exists false. reflexivity.
  - lia.
  - by_compute.
  - by_compute.
  - by_compute.
  - reflexivity.
  - left. by_compute.
  - exists bytes. split; [exact E1|].
    destruct (H [take 11 bytes; drop 11 bytes]) as (d' & E2 & H1 & H2 & _).
    + cbn [concat]. by rewrite app_nil_r, take_drop.
    + exists d'. split; [exact E2|]. split; [apply H1; by left|]. split; [apply H1; right; by left|].
      rewrite H2; [vm_compute; reflexivity|]. intros Hx. apply (bool_decide_pack _) in Hx. vm_compute in Hx. exact Hx.
Defined.

(** A large registration is dropped. The client's encoder allows 65535 session
    ids in one message, but the server takes control payloads of at most 64 KiB: a
    register frame with more than 16382 ids makes the server drop everything it has
    buffered on the connection, the frames behind it included, and no session is
    registered. *)
Theorem oversize_registration_dropped `{IntWidth} `{G : GnetReader} {E} (c : Client E) i conn_c queue n ids
    conn (d : Downstream E) :
  int_bits = 64 → GnetSpec G → lane_ready c i conn_c queue n → (i < n)%nat → Z.of_nat n ≤ 65535 →
  Forall (in_word 32) ids → 16382 < Z.of_nat (length ids) ≤ 65535 →
  ∃ bytes, sendLaneControl i ControlSubtypeLaneRegister ids Written c = Ret (c, [TcpWrite conn_c bytes]) ∧
    ∀ rest, Z.of_nat (length (bytes ++ rest)) < 2 ^ 62 → OnTraffic_downstream conn (bytes ++ rest) d = ([], d).
Proof.
  intros H64 HG Hr Hi Hn Hids Hlen. eexists. split; [apply (sendLaneControl_ok c i conn_c queue n); done || lia|].
  intros rest Hsmall. unfold OnTraffic_downstream, OnTraffic_loop.
  destruct (control_frame_ok 0 i n ControlSubtypeLaneRegister ids) as [(Hwf & Hv & HL & _) _]; try done; [lia|].
  assert (h_Length (f_Header (control_frame (Z.of_nat i) (Z.of_nat n) ControlSubtypeLaneRegister ids)) =
    8 + 4 * Z.of_nat (length ids)) as Hlength by done.
  generalize dependent (control_frame (Z.of_nat i) (Z.of_nat n) ControlSubtypeLaneRegister ids).
  intros cf Hsmall Hwf Hv HL Hlength. rewrite frame_loop_header; [|done| |done].
  - cbv zeta. unfold wire, frame_bytes. rewrite <- app_assoc, parse_header_bytes by done. rewrite Hv, Hlength.
    unfold maxDownstreamControlPayload. by rewrite (proj2 (Z.ltb_lt _ _)) by lia.
  - rewrite length_app, length_wire. lia.
Qed.

(** 16383 sessions on lane 0. *)
Definition sample_many : list Z := seqZ 1 16383.

Lemma oversize_registration_dropped_witness :
  ∃ bytes, sendLaneControl 0 ControlSubtypeLaneRegister sample_many Written sample_control =
      Ret (sample_control, [TcpWrite 9 bytes]) ∧
    @OnTraffic_downstream int64_target slice_reader unit 6 (bytes ++ []) sample_open_down = ([], sample_open_down).
Proof.
  destruct (@oversize_registration_dropped int64_target slice_reader unit sample_control 0 9 [4; 8; 4] 2 sample_many 6
    sample_open_down) as (bytes & E1 & H).
  - reflexivity.
  - exact slice_reader_spec.
  - exact sample_control_ready.
  - lia.
  - by_compute.
  - unfold sample_many. apply Forall_forall. intros z Hz%elem_of_seqZ. unfold in_word. lia.
  - unfold sample_many. rewrite length_seqZ. lia.
  - exists bytes. split; [exact E1|]. apply H.
    pose proof (sendLaneControl_ok sample_control 0 9 [4; 8; 4] 2 ControlSubtypeLaneRegister sample_many
      sample_control_ready ltac:(lia) ltac:(lia) ltac:(by_compute)) as E2.
    rewrite E2 in E1; [|apply Forall_forall; intros z Hz%elem_of_seqZ; unfold in_word; lia|unfold sample_many; rewrite length_seqZ; lia].
    assert (bytes = wire (control_frame (Z.of_nat 0) (Z.of_nat 2) ControlSubtypeLaneRegister sample_many)) as -> by congruence.
    rewrite app_nil_r, length_wire. cbn [control_frame f_Payload]. rewrite length_control_encode. cbn [c_SessionIDs].
    unfold sample_many. rewrite length_seqZ. unfold HeaderSize. lia.
Defined.
