(* ===== verification/Tunnel.v ===== *)
(** * Integrity of the tunnel

    ClientRun.v lets the client's goroutines take turns in any order, with
    connections that come and go and writes that fail half way. Here the bytes that
    such a run writes on one upstream connection reach a server, cut anywhere and
    possibly cut off: whatever the server then hands to the backend is what peers
    sent, each datagram at most once, in order, on a socket of the peer's session. *)

From S2P Require Import Prelude.
From S2P Require Import Words.
From S2P Require Import Packet.
From S2P Require Import Control.
From S2P Require Import Stream.
From S2P Require Import Stats.
From S2P Require Import Config.
From S2P Require Import Crypto.
From S2P Require Import Session.
From S2P Require Import Ring.
From S2P Require Import Client.
From S2P Require Import ClientTable.
From S2P Require Import Upstream.
From S2P Require Import Downstream.
From S2P Require Import Reconnect.
From S2P Require Import LaneOps.
From S2P Require Import Lifecycle.
From S2P Require Import ClientRun.
From S2P Require Import Reorder.
From S2P Require Import Server.
From S2P Require Import Handlers.
From S2P Require Import ServerSpec.
From S2P Require Import System.

(** ** What peers send, and whose a session is *)

(** A datagram: who sent it, and its bytes. *)
Abbreviation item := (AddrPort * list byte)%type (only parsing).

(** The address [getOrCreateSession] files a peer under. *)
Definition peer_key (addr : AddrPort) : AddrPort := mkAddrPort (Unmap (ap_Addr addr)) (ap_Port addr).

(** The datagrams of an event, as the client's buffer receives them. *)
Definition datagrams (max : Z) (ev : client_event) : list item :=
  match ev with
  | CDatagram _ (Datagram addr data) _ => [(peer_key addr, take (Z.to_nat max) data)]
  | _ => []
  end.

(** No datagram is empty. *)
Definition nonempty_event (ev : client_event) : Prop :=
  match ev with CDatagram _ (Datagram _ data) _ => (0 < length data)%nat | _ => True end.

Section View.
Context {E : Type}.
Implicit Types c : Client E.

(** Session [sid] of the client belongs to the peer [a]. *)
Definition from_peer c (sid : Z) (a : AddrPort) : Prop :=
  ∃ p s, heap c !! p = Some s ∧ us_sessionID s = sid ∧ us_remoteAddrPort s = a.

(** The frame carries the datagram of the session's peer. *)
Definition carries c (f : Frame) (x : item) : Prop :=
  Decrypt (cp_upstreamCipher (params c)) (f_Payload f) = Ok x.2 ∧ from_peer c (h_SessionID (f_Header f)) x.1.

(** Sessions are not forgotten and keep their peers. *)
Definition grown c c' : Prop :=
  params c' = params c ∧ ∀ sid a, from_peer c sid a → from_peer c' sid a.

#[export] Instance grown_preorder : PreOrder grown.
Proof.
  split; [by intros c|]. intros c1 c2 c3 [E1 H1] [E2 H2]. split; [congruence|auto].
Qed.

Lemma carries_grown c c' f x : grown c c' → carries c f x → carries c' f x.
Proof. intros [Ep Hg] [Hd Hf]. split; [by rewrite Ep|by apply Hg]. Qed.

Lemma grown_heap c c' : params c' = params c → heap c' = heap c → grown c c'.
Proof. intros Ep Eh. split; [done|]. unfold from_peer. by rewrite Eh. Qed.

Lemma grown_touch c p f : same_identity f → grown c (upd_session c p f).
Proof.
  intros Hf. split; [done|]. intros sid a (q & s & Hq & <- & <-).
  destruct (decide (p = q)) as [->|Hne].
  - exists q, (f s). cbn. rewrite lookup_alter_eq, Hq. destruct (Hf s). done.
  - exists q, s. cbn. by rewrite lookup_alter_ne.
Qed.

(** Connection [k] is no downstream lane's. *)
Definition no_down (k : conn_id) c : Prop := Forall (λ l, dl_conn l ≠ Some k) (downstreamLanes c).

(** What the operations that do not belong to the upstream path do to it: nothing,
    and they write nothing on [k]. *)
Record aside (k : conn_id) c c' (eff : list effect) : Prop := {
  as_lanes : upstreamLanes c' = upstreamLanes c;
  as_grown : grown c c';
  as_down : no_down k c → no_down k c';
  as_effects : no_down k c → written_to k eff = []
}.

Lemma written_to_app k eff1 eff2 : written_to k (eff1 ++ eff2) = written_to k eff1 ++ written_to k eff2.
Proof. unfold written_to. by rewrite omap_app. Qed.

Lemma aside_refl k c : aside k c c [].
Proof. by split. Qed.

Lemma aside_trans k c1 c2 c3 eff1 eff2 :
  aside k c1 c2 eff1 → aside k c2 c3 eff2 → aside k c1 c3 (eff1 ++ eff2).
Proof.
  intros [L1 G1 D1 W1] [L2 G2 D2 W2]. split.
  - congruence.
  - by etrans.
  - auto.
  - intros Hk. rewrite written_to_app, W1, W2; auto.
Qed.

Lemma aside_stats k c s : aside k c (set_stats c s) [].
Proof. by split. Qed.

Lemma no_down_alter k c f i :
  (∀ l, dl_conn (f l) = dl_conn l ∨ dl_conn (f l) ≠ Some k) → no_down k c →
  no_down k (set_downLanes c (alter f i (downstreamLanes c))).
Proof.
  intros Hf Hk. apply Forall_alter; [done|]. intros l _ Hl. destruct (Hf l) as [->|]; done.
Qed.

Lemma aside_sendLaneControl k i subtype ids out c c' eff :
  sendLaneControl i subtype ids out c = Ret (c', eff) → aside k c c' eff.
Proof.
  unfold sendLaneControl. destruct (downstreamLanes c !! i) as [l|] eqn:El; [|done].
  destruct (dl_conn l) as [conn|] eqn:Ec; [|intros [= <- <-]; apply aside_refl].
  destruct (NewControlPacketPayload _ _) as [[[h p]|e]|]; cbn [mbind exec_bind]; [| |done].
  2: { intros [= <- <-]. apply aside_stats. }
  destruct (MarshalTo _ _) as [head|]; cbn [mbind exec_bind]; [|done].
  assert (no_down k c → conn ≠ k) as Hne.
  { intros Hk. eapply Forall_lookup_1 in Hk; [|exact El]. congruence. }
  destruct out as [|n]; intros [= <- <-]; split; try done.
  - intros Hk. unfold written_to. cbn. rewrite decide_False by auto. done.
  - intros Hk. apply Forall_insert; [done|]. done.
  - intros Hk. unfold written_to. cbn. rewrite decide_False by auto. done.
Qed.

Lemma aside_registerAll k i out c c' eff :
  registerAllSessionsForLane i out c = Ret (c', eff) → aside k c c' eff.
Proof.
  unfold registerAllSessionsForLane. destruct (downstreamLanes c !! i) as [l|]; [|done].
  destruct (session_ids_for_lane c (dl_id l)) as [[|x ids]|]; cbn [mbind exec_bind]; [| |done].
  - intros [= <- <-]. apply aside_refl.
  - apply aside_sendLaneControl.
Qed.

Lemma aside_flush k i pending out c c' eff pending' :
  flushPending i pending out c = Ret (c', eff, pending') → aside k c c' eff.
Proof.
  unfold flushPending. case_decide; [intros [= <- <- _]; apply aside_refl|].
  destruct (sendLaneControl _ _ _ _ _) as [[c1 e1]|] eqn:Es; cbn [mbind exec_bind]; [|done].
  intros [= <- <- _]. by eapply aside_sendLaneControl.
Qed.

Lemma aside_control k i ev out1 out2 pending c c' eff pending' :
  control_step i ev out1 out2 pending c = Ret (c', eff, pending') → aside k c c' eff.
Proof.
  destruct ev; cbn [control_step].
  - destruct (pop_register i c) as [[sid c1]|] eqn:Ep; intros [= <- <- _]; [|apply aside_refl].
    unfold pop_register in Ep. destruct (downstreamLanes c !! i) as [l|] eqn:El; [|done].
    destruct (dl_registerCh l); [done|]. injection Ep as _ <-. split; try done.
    intros Hk. apply Forall_insert; [done|]. by eapply (Forall_lookup_1 _ _ _ _ Hk) in El.
  - apply aside_flush.
  - destruct (flushPending i pending out1 c) as [[[c1 e1] p1]|] eqn:Ef; cbn [mbind exec_bind]; [|done].
    destruct (sendLaneControl _ _ _ _ _) as [[c2 e2]|] eqn:Es; cbn [mbind exec_bind]; [|done].
    intros [= <- <- _]. eapply aside_trans; [by eapply aside_flush|by eapply aside_sendLaneControl].
Qed.

End View.

Section Aside.
Context `{IntWidth} {E : Type}.
Variable grow : nat → nat → nat.
Implicit Types c : Client E.

Lemma aside_dl_handle k c env f (s : dl_state E) :
  aside k c (dl_client s) (dl_effects s) → aside k c (dl_client (dl_handle env f s)) (dl_effects (dl_handle env f s)).
Proof.
  destruct s as [c1 eff t]; cbn [dl_client dl_effects]. intros Ha. unfold dl_handle; cbn [dl_client dl_effects dl_ticks].
  destruct (h_Type (f_Header f) =? PacketTypeControl); [done|]. unfold handleDownstreamPacket.
  destruct (h_Type (f_Header f) =? PacketTypeHeartbeat); [cbn; by rewrite app_nil_r|].
  destruct (Decrypt _ _) as [d|].
  2: { apply (aside_trans k c c1); [done|apply aside_stats]. }
  destruct (sessionsByID c1 !! _) as [p|]; [|cbn; by rewrite app_nil_r].
  destruct (heap c1 !! p); [|cbn; by rewrite app_nil_r].
  destruct (negb _); cbn [dl_client dl_effects]; apply (aside_trans k c c1); try done.
  split; try done. by apply (grown_touch (set_stats (set_stats c1 _) _)).
Qed.

Lemma aside_read k c env b chunk b' s :
  feed grow (dl_handle env) dl_on_read b (mkDl c [] 0) [chunk] = Ret (b', s) →
  aside k c (dl_client s) (dl_effects s).
Proof.
  intros E1. refine (feed_invariant grow (dl_handle env) dl_on_read
    (λ s, aside k c (dl_client s) (dl_effects s)) (aside_dl_handle k c env) _ _ _ _ _ _ E1 _).
  - intros x y Ha. cbn [dl_on_read dl_client dl_effects].
    rewrite <- (app_nil_r (dl_effects y)). apply (aside_trans k c (dl_client y)); [done|apply aside_stats].
  - apply aside_refl.
Qed.

Lemma aside_cleanup_key k key c : table_inv c None → aside k c (cleanup_key key c) [].
Proof.
  intros Ht. destruct (cleanup_key_spec key c Ht) as (_ & Eh & _ & Ep). split; [|by apply grown_heap| |done].
  - unfold cleanup_key, load_and_delete, forget. by repeat case_match.
  - unfold no_down, cleanup_key, load_and_delete, forget. by repeat case_match.
Qed.

Lemma aside_cleanup k now c : table_inv c None → aside k c (cleanup_tick now c) [].
Proof.
  unfold cleanup_tick. generalize (expired_keys now c). intros keys. revert c.
  induction keys as [|key keys IH]; intros c Ht; [apply aside_refl|]. cbn [foldl].
  apply (aside_trans k c (cleanup_key key c) _ [] []); [by apply aside_cleanup_key|].
  apply IH. by apply cleanup_key_spec.
Qed.

Lemma aside_exit k i conn c c' eff : downstream_exit i conn c = (c', eff) → aside k c c' eff.
Proof.
  intros [= <- <-]. split; try done. intros Hk. apply no_down_alter; [|done].
  intros l. cbn. case_decide; [by right|by left].
Qed.

(** A session for the peer, and nothing else for the upstream path. *)
Lemma getOrCreate_aside k m P n now addr c p c' s :
  client_ok P n m c → Z.of_nat (S m) < 2 ^ 32 → getOrCreateSession now addr c = Ret (p, c') →
  heap c' !! p = Some s → aside k c c' [] ∧ from_peer c' (us_sessionID s) (peer_key addr).
Proof.
  intros Hc Hm Hg Hs. pose proof (co_next _ _ _ _ Hc) as Hn. pose proof (co_table _ _ _ _ Hc) as Ht.
  destruct (getOrCreate_cases now addr c None Ht ltac:(lia)) as [(q & Hq & E1)|(Hn1 & i & l & _ & Hl & E1)];
    rewrite E1 in Hg; injection Hg as <- <-.
  - destruct (ti_sessions _ _ Ht _ _ Hq) as (_ & _ & u & Hu & Ea & _).
    assert (grown c (upd_session c q (us_UpdateLastActive now))) as Hg by by apply grown_touch.
    split; [by split|]. exists q, s. split; [done|]. split; [done|].
    cbn in Hs. rewrite lookup_alter_eq, Hu in Hs. injection Hs as <-. exact Ea.
  - cbn [heap] in Hs. rewrite lookup_insert_eq in Hs. injection Hs as <-. split.
    + split; [done| | |done].
      * split; [done|]. intros sid a (q & u & Hq & Hsid & Ha). exists q, u. split; [|done]. cbn [heap].
        rewrite lookup_insert_ne; [done|]. apply (ti_heap _ _ Ht) in Hq as [_ ?]. lia.
      * apply no_down_alter. intros x. left. unfold push_register. by case_match.
    + eexists _, _. split; [apply lookup_insert_eq|]. done.
Qed.

End Aside.

(** ** One upstream connection *)

(** The event makes a connection with the number [k]. *)
Definition makes (k : conn_id) (ev : client_event) : Prop :=
  match ev with CUpConnect _ c | CDownConnect _ c _ _ => c = k | _ => False end.

Section Tunnel.
Context `{IntWidth} {E : Type}.
Variable grow : nat → nat → nat.
Variable P : ClientParams E.
Variable n : nat.
Variables (k : conn_id) (i : nat).
Implicit Types st : client_state E.
Implicit Types c : Client E.

Definition frame_limit : Z := MaxPacketSize (cp_config P) + Z.of_nat (Overhead (cp_upstreamCipher P)).
Definition accepted (f : Frame) : Prop := frame_ok frame_limit f ∧ nonempty_frame f.

(** Connection [k], to be made ([fresh]) or made for lane [i]: the [bytes] written
    on it are those of frames [W], all of them as long as the lane has the
    connection; [W] and the frames queued on the lane carry, in order, some of the
    datagrams [its] that arrived. *)
Record conveyed (fresh : bool) (its : list item) (bytes : list byte) c : Prop := {
  cv_conn j lane : upstreamLanes c !! j = Some lane → ul_conn lane = Some k → j = i ∧ fresh = false;
  cv_down : no_down k c;
  cv_fresh : fresh = true → bytes = [];
  cv_log : ∃ lane R W fs x, upstreamLanes c !! i = Some lane ∧
    ring_at (slot_size P) (ul_ring lane) R (wire <$> fs) ∧
    Forall accepted (W ++ fs) ∧ Forall2 (carries c) (W ++ fs) x ∧ x `sublist_of` its ∧
    bytes `prefix_of` (W ≫= wire) ∧ (ul_conn lane = Some k → bytes = W ≫= wire)
}.

Lemma conveyed_aside fresh its more bytes c c' eff :
  aside k c c' eff → conveyed fresh its bytes c →
  conveyed fresh (its ++ more) (bytes ++ concat (written_to k eff)) c'.
Proof.
  intros [El Hg Hd Hw] [Hconn Hdown Hf (lane & R & W & fs & x & Hl & Hr & Ha & Hx & Hs & Hb & Hbc)].
  rewrite Hw by done. cbn [concat]. rewrite app_nil_r. split; rewrite ?El; auto.
  exists lane, R, W, fs, x. split_and!; try done.
  - eapply Forall2_impl; [exact Hx|]. intros f y. by apply carries_grown.
  - by apply sublist_inserts_r.
Qed.

(** Lanes whose queues are the same and that have not got the connection. *)
Lemma conveyed_lanes fresh its bytes c ls :
  conveyed fresh its bytes c → length ls = length (upstreamLanes c) →
  (∀ j lane', ls !! j = Some lane' → ∃ lane, upstreamLanes c !! j = Some lane ∧
     (ul_conn lane' = Some k → ul_conn lane = Some k) ∧
     (∀ R q, ring_at (slot_size P) (ul_ring lane) R q → ring_at (slot_size P) (ul_ring lane') R q)) →
  conveyed fresh its bytes (set_upLanes c ls).
Proof.
  intros [Hconn Hdown Hf (lane & R & W & fs & x & Hl & Hr & Ha & Hx & Hs & Hb & Hbc)] Hlen Hls.
  split; cbn [upstreamLanes set_upLanes]; try done.
  - intros j lane' Hj Hk. destruct (Hls j lane' Hj) as (l & Hl' & Hc & _). eauto.
  - destruct (lookup_lt_is_Some_2 ls i) as [lane' Hl']; [rewrite Hlen; by eapply lookup_lt_Some|].
    destruct (Hls i lane' Hl') as (l & Hll & Hc & Hq). rewrite Hl in Hll. injection Hll as <-.
    exists lane', R, W, fs, x. split_and!; try done; auto.
Qed.

Lemma conveyed_alter fresh its bytes c f j :
  (∀ l, ul_ring (f l) = ul_ring l ∧ (ul_conn (f l) = Some k → ul_conn l = Some k)) →
  conveyed fresh its bytes c → conveyed fresh its bytes (set_upLanes c (alter f j (upstreamLanes c))).
Proof.
  intros Hf Hc. apply conveyed_lanes; [done|by rewrite length_alter|]. intros m lane'.
  rewrite list_lookup_alter. case_decide as Hd; [|intros; by exists lane'].
  subst m. intros (l & -> & ->)%fmap_Some. exists l. destruct (Hf l) as [-> ?]. done.
Qed.

Lemma conveyed_stop fresh its bytes c :
  conveyed fresh its bytes c → conveyed fresh its bytes (clientStop c).1.
Proof.
  intros Hc. cbn [clientStop fst].
  assert (conveyed fresh its bytes (set_upLanes c (stop_upstream <$> upstreamLanes c))) as [Hconn Hdown Hf Hlog].
  { apply conveyed_lanes; [done|by rewrite length_fmap|]. intros j lane'. rewrite list_lookup_fmap.
    intros (l & Hl & ->)%fmap_Some. exists l. split; [done|]. split; [done|]. intros R q. apply ring_at_close. }
  split; try done. unfold no_down; cbn. apply Forall_fmap, Forall_true. by intros l.
Qed.

(** The connection is made. *)
Lemma conveyed_connect its bytes c :
  conveyed true its bytes c →
  conveyed false its bytes (set_upLanes c (alter (up_connect k) i (upstreamLanes c))).
Proof.
  intros [Hconn Hdown Hf (lane & R & W & fs & x & Hl & Hr & Ha & Hx & Hs & Hb & Hbc)].
  rewrite (Hf eq_refl). split; cbn [upstreamLanes set_upLanes]; try done.
  - intros j l. rewrite list_lookup_alter. case_decide as Hj; [done|]. intros Hl' Hk.
    by destruct (Hconn j l Hl' Hk).
  - apply Forall_app in Ha as [_ Ha]. apply Forall2_app_inv_l in Hx as (x1 & x2 & _ & Hx & ->).
    exists (up_connect k lane), R, [], fs, x2. rewrite list_lookup_alter, decide_True by done. rewrite Hl.
    cbn [app]. split_and!; try done. etrans; [|exact Hs]. by apply sublist_inserts_l.
Qed.

(** ** The writer *)

Lemma written_effects_other out lane bytes :
  ul_conn lane ≠ Some k → written_to k (written_effects out lane bytes) = [].
Proof.
  intros Hk. unfold written_effects. destruct (ul_conn lane) as [c|]; [|done].
  unfold written_to. destruct out; cbn; rewrite decide_False by congruence; done.
Qed.

Lemma written_effects_here out lane bytes :
  ul_conn lane = Some k →
  concat (written_to k (written_effects out lane bytes)) = match out with Written => bytes | WriteError m => take m bytes end.
Proof.
  intros Hk. unfold written_effects. rewrite Hk. unfold written_to.
  destruct out; cbn; rewrite decide_True by done; cbn; by rewrite app_nil_r.
Qed.

Lemma up_only_grown c c' : up_only c c' → grown c c' ∧ downstreamLanes c' = downstreamLanes c.
Proof. intros (l & s & -> & _). done. Qed.

Lemma conveyed_writer m fresh its bytes c j lane out c' eff t :
  params_ok P n → client_ok P n m c → conveyed fresh its bytes c → upstreamLanes c !! j = Some lane →
  handleUpstreamWrites j (λ _, Some) out c = Ret (c', eff, t) →
  conveyed fresh its (bytes ++ concat (written_to k eff)) c'.
Proof.
  intros Hp Hc Hcv Hl Hw. pose proof (slot_size_small P n Hp) as [Hsz _].
  pose proof (handleUpstreamWrites_only c j out c' eff t Hw) as [Hg Hdn]%up_only_grown.
  assert (∀ R q, ring_at (slot_size P) (ul_ring lane) R q → q = [] → c' = c ∧ eff = []) as Hidle.
  { intros R q Hq ->. unfold handleUpstreamWrites in Hw. rewrite Hl, (pop_at _ _ _ _ Hq) in Hw.
    destruct (closed _); by injection Hw as <- <- _. }
  assert (∀ R q, ring_at (slot_size P) (ul_ring lane) R q → q ≠ [] → ∃ r' y,
    eff = written_effects out lane (concat (take y q)) ∧
    upstreamLanes c' = <[j := written_lane out lane r']> (upstreamLanes c) ∧
    ring_at (slot_size P) r' (R + y) (drop y q)) as Hturn.
  { intros R q Hq Hne.
    destruct (writer_turn_at (slot_size P) c j (λ _, Some) out lane R q) as
      (c1 & r' & y & E1 & Hu & _ & Hr' & _); rewrite ?(co_params _ _ _ _ Hc); try done; try apply Hp.
    { rewrite Hsz. apply Hp. }
    rewrite E1 in Hw. injection Hw as <- <- _. by exists r', y. }
  pose proof (written_lane_conn out lane) as Hwc.
  destruct Hcv as [Hconn Hdown Hf (lane0 & R & W & fs & x & Hl0 & Hr & Ha & Hx & Hs & Hb & Hbc)].
  assert (Forall2 (carries c') (W ++ fs) x) as Hx'.
  { eapply Forall2_impl; [exact Hx|]. intros f y. by apply carries_grown. }
  assert (no_down k c') as Hdown' by (unfold no_down; by rewrite Hdn).
  destruct (decide (j = i)) as [->|Hne].
  - rewrite Hl in Hl0. injection Hl0 as <-. destruct fs as [|f fs].
    { destruct (Hidle R [] Hr eq_refl) as [-> ->]. cbn. rewrite app_nil_r. split; try done. by exists lane, R, W, [], x. }
    destruct (Hturn R _ Hr) as (r' & y & -> & Hu & Hr'); [done|]. set (q := f :: fs) in *.
    assert (concat (take y (wire <$> q)) = take y q ≫= wire) as Ec by by rewrite <- fmap_take, concat_wire.
    rewrite Ec. set (new := concat _).
    assert (new `prefix_of` (take y q ≫= wire) ∧ (ul_conn lane ≠ Some k → new = []) ∧
      (ul_conn lane = Some k → out = Written → new = take y q ≫= wire)) as (Hn1 & Hn2 & Hn3).
    { unfold new. destruct (decide (ul_conn lane = Some k)) as [Hk|Hk].
      - rewrite (written_effects_here out lane _ Hk). split; [|split; [done|by intros _ ->]].
        destruct out; [done|]. apply prefix_take.
      - rewrite (written_effects_other out lane _ Hk). split; [apply prefix_nil|done]. }
    split; rewrite ?Hu; try done.
    + intros j l. rewrite list_lookup_insert. case_decide as Hj; [|apply Hconn].
      intros [= <-] Hk. destruct (Hwc r') as [E1|E1]; rewrite E1 in Hk; [|done].
      destruct Hj as [<- _]. by apply (Hconn i lane).
    + intros Hfr. rewrite (Hf Hfr). rewrite Hn2; [done|]. intros Hk. by destruct (Hconn i lane Hl Hk) as [_ ?]; congruence.
    + exists (written_lane out lane r'), (R + y)%nat, (W ++ take y q), (drop y q), x.
      rewrite list_lookup_insert_eq by (by eapply lookup_lt_Some). rewrite <- app_assoc, take_drop, bind_app.
      split_and!; try done.
      * rewrite fmap_drop. by replace (ul_ring (written_lane out lane r')) with r'
          by (unfold written_lane; by destruct (ul_conn lane), out).
      * destruct (decide (ul_conn lane = Some k)) as [Hk|Hk].
        -- rewrite (Hbc Hk). by apply prefix_app.
        -- rewrite Hn2, app_nil_r by done. by apply prefix_app_r.
      * unfold written_lane. intros Hk. destruct (ul_conn lane) as [c0|] eqn:Ek; [|by cbn in Hk; congruence].
        destruct out; [|done]. cbn in Hk. rewrite (Hbc ltac:(congruence)). f_equal. apply Hn3; [congruence|done].
  - pose proof (co_rings _ _ _ _ Hc) as Hrs. rewrite Forall_lookup in Hrs. destruct (Hrs j lane Hl) as (Rj & qj & Hq & _).
    destruct (decide (qj = [])) as [->|Hqne].
    { destruct (Hidle Rj [] Hq eq_refl) as [-> ->]. cbn. rewrite app_nil_r. split; try done. by exists lane0, R, W, fs, x. }
    destruct (Hturn Rj qj Hq Hqne) as (r' & y & -> & Hu & _).
    rewrite written_effects_other by (intros Hk; by destruct (Hconn j lane Hl Hk)). cbn [concat]. rewrite app_nil_r.
    split; rewrite ?Hu; try done.
    + intros j' l. rewrite list_lookup_insert. case_decide as Hj; [|apply Hconn].
      intros [= <-] Hk. destruct (Hwc r') as [E1|E1]; rewrite E1 in Hk; [|done].
      destruct Hj as [<- _]. by apply (Hconn j lane).
    + exists lane0, R, W, fs, x. rewrite list_lookup_insert_ne by done. split_and!; done.
Qed.

(** ** A datagram *)

Lemma conveyed_more fresh its more bytes c c' :
  aside k c c' [] → conveyed fresh its bytes c → conveyed fresh (its ++ more) bytes c'.
Proof. intros Ha Hc. pose proof (conveyed_aside _ _ more _ _ _ _ Ha Hc) as H0. cbn in H0. by rewrite app_nil_r in H0. Qed.

Lemma aside_next_seq c p s : heap c !! p = Some s → aside k c (next_seq c p s) [].
Proof. intros Hs. split; try done. rewrite (next_seq_touch _ _ _ Hs). by apply grown_touch. Qed.

(** Queued on another lane. *)
Lemma conveyed_other_ring fresh its bytes c j lane r :
  j ≠ i → upstreamLanes c !! j = Some lane → conveyed fresh its bytes c →
  conveyed fresh its bytes (set_upLanes c (<[j := with_ring lane r]> (upstreamLanes c))).
Proof.
  intros Hne Hl [Hconn Hdown Hf (lane0 & R & W & fs & x & Hl0 & Hlog)].
  split; cbn [upstreamLanes set_upLanes]; try done.
  - intros j' l. rewrite list_lookup_insert. case_decide as Hj; [|apply Hconn].
    intros [= <-]. destruct Hj as [<- _]. by apply (Hconn j lane).
  - exists lane0, R, W, fs, x. by rewrite list_lookup_insert_ne.
Qed.

(** Queued on the lane. *)
Lemma conveyed_push fresh its bytes c lane R fs W x r f y :
  upstreamLanes c !! i = Some lane → no_down k c →
  (∀ j lane, upstreamLanes c !! j = Some lane → ul_conn lane = Some k → j = i ∧ fresh = false) →
  (fresh = true → bytes = []) → Forall accepted (W ++ fs) → Forall2 (carries c) (W ++ fs) x →
  x `sublist_of` its → bytes `prefix_of` (W ≫= wire) → (ul_conn lane = Some k → bytes = W ≫= wire) →
  ring_at (slot_size P) r R ((wire <$> fs) ++ [wire f]) → accepted f → carries c f y →
  conveyed fresh (its ++ [y]) bytes (set_upLanes c (<[i := with_ring lane r]> (upstreamLanes c))).
Proof.
  intros Hl Hdown Hconn Hf Ha Hx Hs Hb Hbc Hr Haf Hy. split; cbn [upstreamLanes set_upLanes]; try done.
  - intros j' l. rewrite list_lookup_insert. case_decide as Hj; [|apply Hconn].
    intros [= <-]. destruct Hj as [<- _]. by apply (Hconn i lane).
  - exists (with_ring lane r), R, W, (fs ++ [f]), (x ++ [y]).
    rewrite list_lookup_insert_eq by (by eapply lookup_lt_Some). rewrite !app_assoc. split_and!; try done.
    + by rewrite fmap_app.
    + apply Forall_app. split; [done|]. by constructor.
    + apply Forall2_app; [done|]. by constructor.
    + by apply sublist_app.
Qed.

Lemma conveyed_send m fresh its bytes c p s data rand a r :
  params_ok P n → client_ok P n m c → 1 ≤ MaxPacketSize (cp_config P) → random_ok rand →
  heap c !! p = Some s → in_word 32 (us_sessionID s) → from_peer c (us_sessionID s) a →
  (0 < length data)%nat → Z.of_nat (length data) ≤ MaxPacketSize (cp_config P) →
  sendToUpstream p data rand c = Ret r → conveyed fresh its bytes c →
  conveyed fresh (its ++ [(a, data)]) bytes (default c r).
Proof.
  intros Hp Hc Hmax Hr Hs Hsid Hpeer Hne Hlen Hsend Hcv.
  pose proof (client_upstream_ok P n m c Hp Hc) as Hup.
  pose proof (po_cipher P n Hp) as HC. pose proof (co_params _ _ _ _ Hc) as Ep.
  rewrite <- Ep in HC, Hlen.
  assert (conveyed fresh (its ++ [(a, data)]) bytes c) as Hsame by (eapply conveyed_more; [apply aside_refl|done]).
  destruct (Encrypt (cp_upstreamCipher (params c)) rand data) as [ct|e] eqn:Ee.
  2: { pose proof (prepare_upstream_ok c p s data rand Hup Hr Hs Hsid Hlen) as E1. rewrite Ee in E1.
       unfold sendToUpstream in Hsend. rewrite E1 in Hsend. injection Hsend as <-.
       eapply conveyed_more; [apply aside_stats|done]. }
  set (j := lane_of c (us_sessionID s) (u32 (us_sequenceID s + 1))).
  destruct (uo_size _ Hup) as [_ Hsz]. rewrite (uo_max _ Hup) in Hsz.
  assert (Z.of_nat (length data) ≤ max_plaintext) as Hpl by (apply max_plaintext_small; lia).
  pose proof (length_Encrypt rand data ct Hr Hpl Ee) as Hct.
  set (header := NewDataPacket (us_sessionID s) (u32 (us_sequenceID s + 1)) (Z.of_nat (length ct))).
  pose proof (aside_next_seq c p s Hs) as Hns.
  destruct (decide (j = i)) as [Hj|Hj].
  - pose proof Hcv as [Hconn Hdown Hf (lane & R & W & fs & x & Hl & Hq & Ha & Hx & Hsub & Hb & Hbc)].
    unfold slot_size in Hq. rewrite <- Ep in Hq.
    destruct (sendToUpstream_at c p s data rand ct lane R _ Hup Hr Hs Hsid Hlen Ee
      ltac:(unfold j in Hj; by rewrite Hj) Hq) as (Hdec & Hwf & Hres).
    unfold j in Hj. rewrite Hj in Hres. fold header in Hres, Hwf.
    destruct (closed (ul_ring lane)); [|case_decide].
    + rewrite Hsend in Hres. injection Hres as ->. by eapply conveyed_more.
    + destruct Hres as (r' & Hres & Hr' & _). rewrite Hsend in Hres. injection Hres as ->. cbn [default].
      apply (conveyed_push fresh its bytes (next_seq c p s) lane R fs W x r' (mkFrame header ct)); try done.
      * eapply Forall2_impl; [exact Hx|]. intros f y. apply carries_grown, Hns.
      * unfold slot_size. rewrite <- Ep. exact Hr'.
      * split; [|unfold nonempty_frame; cbn; lia].
        split; [done|]. split; [done|]. split; [done|]. intros _. unfold frame_limit. rewrite <- Ep. cbn. lia.
      * split; [exact Hdec|]. apply Hns, Hpeer.
    + rewrite Hsend in Hres. injection Hres as ->. done.
  - destruct (lookup_lt_is_Some_2 (upstreamLanes c) j) as [lane Hl].
    { destruct (uo_lanes _ Hup). unfold j, lane_of.
      match goal with |- context [?x mod ?y] => pose proof (Z.mod_pos_bound x y ltac:(lia)) end. lia. }
    pose proof (co_rings _ _ _ _ Hc) as Hrs. rewrite Forall_lookup in Hrs.
    destruct (Hrs j lane Hl) as (R & q & Hq & _). unfold slot_size in Hq. rewrite <- Ep in Hq.
    destruct (sendToUpstream_at c p s data rand ct lane R q Hup Hr Hs Hsid Hlen Ee Hl Hq) as (_ & _ & Hres).
    fold j in Hres. destruct (closed (ul_ring lane)); [|case_decide].
    + rewrite Hsend in Hres. injection Hres as ->. by eapply conveyed_more.
    + destruct Hres as (r' & Hres & _). rewrite Hsend in Hres. injection Hres as ->.
      apply (conveyed_other_ring _ _ _ (next_seq c p s)); [done|done|]. by eapply conveyed_more.
    + rewrite Hsend in Hres. injection Hres as ->. done.
Qed.

Lemma conveyed_datagram m fresh its bytes c now rd rand r :
  params_ok P n → client_ok P n m c → 1 ≤ MaxPacketSize (cp_config P) → random_ok rand →
  Z.of_nat (S m) < 2 ^ 32 → nonempty_event (CDatagram now rd rand) →
  handleUDP now rd rand c = Ret r → conveyed fresh its bytes c →
  conveyed fresh (its ++ datagrams (MaxPacketSize (cp_config P)) (CDatagram now rd rand)) bytes (default c r).
Proof.
  intros Hp Hc Hmax Hr Hm Hne Hrun Hcv. unfold handleUDP in Hrun.
  rewrite (co_params _ _ _ _ Hc), (po_copy P n Hp) in Hrun. destruct rd as [addr data|cl].
  2: { injection Hrun as <-. cbn [datagrams default]. destruct cl; (eapply conveyed_more; [|done]).
       - apply aside_refl.
       - apply aside_stats. }
  set (c1 := set_stats (set_stats c _) _) in *. cbn [datagrams nonempty_event] in *.
  set (data' := take _ data) in *.
  assert (client_ok P n m c1) as Hc1 by (by apply client_ok_stats, client_ok_stats).
  destruct (getOrCreate_ok P n m now addr c1 Hc1 Hm) as (p & c2 & s & Hg & Hc2 & Hs & Hsid).
  rewrite Hg in Hrun. cbn [mbind exec_bind] in Hrun.
  destruct (getOrCreate_aside k m P n now addr c1 p c2 s Hc1 Hm Hg Hs) as [Ha Hpeer].
  assert (aside k c c1 []) as Ha1 by (by split).
  destruct r as [c'|].
  - apply (conveyed_send (S m) fresh its bytes c2 p s data' rand (peer_key addr) (Some c')); try done.
    + unfold data'. rewrite length_take. lia.
    + unfold data'. rewrite length_take. lia.
    + rewrite <- (app_nil_r its). eapply conveyed_more; [|done].
      by apply (aside_trans k c c1 c2 [] []).
  - eapply conveyed_more; [apply aside_refl|done].
Qed.

(** ** A schedule *)

Lemma written_nothing k' eff : (∀ j bs, TcpWrite j bs ∉ eff) → written_to k' eff = [].
Proof.
  intros Hn. induction eff as [|e eff IH]; [done|]. unfold written_to in *. cbn.
  rewrite IH by (intros j bs Hin; apply (Hn j bs); by right).
  destruct e as [j bs| | | |]; try done. exfalso. apply (Hn j bs). by left.
Qed.

Lemma aside_downConnect j conn c :
  conn ≠ k → aside k c (set_downLanes c (alter (down_connect conn) j (downstreamLanes c))) [].
Proof.
  intros Hne. split; try done. intros Hk. apply no_down_alter; [|done]. intros l. right. cbn. congruence.
Qed.

Lemma conveyed_step m total fresh its bytes st ev st' eff :
  params_ok P n → run_ok P n m total st → 1 ≤ MaxPacketSize (cp_config P) → event_ok ev → nonempty_event ev →
  ¬ makes k ev → Z.of_nat (m + new_sessions ev) < 2 ^ 32 → client_step grow ev st = Ret (st', eff) →
  conveyed fresh its bytes (cs_client st) →
  conveyed fresh (its ++ datagrams (MaxPacketSize (cp_config P)) ev) (bytes ++ concat (written_to k eff)) (cs_client st').
Proof.
  intros Hp [Hc _ _] Hmax Hev Hne Hk Hm Hst Hcv.
  assert (∀ c' eff', aside k (cs_client st) c' eff' → conveyed fresh (its ++ []) (bytes ++ concat (written_to k eff')) c')
    as Haside by (intros; by eapply conveyed_aside).
  destruct ev as [now rd rand|j out|j conn|j conn|j conn reg hello|j chunk env|j ending|j ev out1 out2|now|];
    cbn [client_step datagrams new_sessions makes] in *.
  - rewrite Nat.add_1_r in Hm. destruct (handleUDP now rd rand (cs_client st)) as [r|] eqn:Er; [|done].
    injection Hst as <- <-. cbn [concat written_to omap list_omap]. rewrite app_nil_r.
    pose proof (conveyed_datagram m fresh its bytes (cs_client st) now rd rand r Hp Hc Hmax Hev Hm Hne Er Hcv) as Hd.
    by destruct r.
  - rewrite app_nil_r. destruct (upstreamLanes (cs_client st) !! j) as [lane|] eqn:El.
    + destruct (handleUpstreamWrites j _ out (cs_client st)) as [[[c1 e1] t]|] eqn:Ew; [|done].
      injection Hst as <- <-. by eapply conveyed_writer.
    + injection Hst as <- <-. cbn. by rewrite app_nil_r.
  - injection Hst as <- <-. cbn. rewrite !app_nil_r. apply conveyed_alter; [|done]. intros l. cbn. split; [done|congruence].
  - injection Hst as <- <-. rewrite written_nothing.
    + cbn. rewrite !app_nil_r. apply conveyed_alter; [|done]. intros l. cbn. split; [done|]. by case_decide.
    + intros x bs. unfold up_clear_effects. repeat case_match; rewrite ?list_elem_of_singleton; try done; by intros ?%elem_of_nil.
  - destruct (downstreamLanes (cs_client st) !! j); [|injection Hst as <- <-; apply Haside, aside_refl].
    destruct (registerAllSessionsForLane _ _ _) as [[c1 e1]|] eqn:E1; [|done]. cbn [mbind exec_bind] in Hst.
    destruct (sendLaneControl _ _ _ _ _) as [[c2 e2]|] eqn:E2; [|done]. injection Hst as <- <-. cbn [cs_client].
    apply Haside. eapply (aside_trans k _ _ _ [] _); [by apply aside_downConnect|].
    eapply aside_trans; [by eapply aside_registerAll|]. eapply (aside_trans k _ (fix_heartbeat c1) _ [] _).
    + unfold fix_heartbeat. case_match; [by split|apply aside_refl].
    + by eapply aside_sendLaneControl.
  - destruct (cs_readers st !! j) as [[conn b]|]; [|injection Hst as <- <-; apply Haside, aside_refl].
    destruct (feed _ _ _ _ _ _) as [[b' s]|] eqn:Ef; [|done]. injection Hst as <- <-.
    apply Haside. by eapply aside_read.
  - destruct (cs_readers st !! j) as [[conn b]|]; [|injection Hst as <- <-; apply Haside, aside_refl].
    destruct (downstream_exit _ _ _) as [c1 e1] eqn:Ex. injection Hst as <- <-. apply Haside.
    eapply (aside_trans k _ _ _ [] _); [|by eapply aside_exit].
    destruct ending; [apply aside_refl|apply aside_stats|apply aside_refl].
  - destruct (cs_pending st !! j) as [p|]; [|injection Hst as <- <-; apply Haside, aside_refl].
    destruct (control_step _ _ _ _ _ _) as [[[c1 e1] p1]|] eqn:Es; [|done]. injection Hst as <- <-.
    apply Haside. by eapply aside_control.
  - injection Hst as <- <-. apply Haside, aside_cleanup, Hc.
  - pose proof (conveyed_stop fresh its bytes (cs_client st) Hcv) as Hs.
    destruct (clientStop (cs_client st)) as [c1 acts]. injection Hst as <- <-.
    rewrite written_nothing; [cbn; by rewrite !app_nil_r|].
    intros x bs. unfold stop_effects. rewrite list_elem_of_bind. intros (a & Ha & _).
    destruct a; (apply list_elem_of_singleton in Ha; done) || by apply elem_of_nil in Ha.
Qed.

Lemma conveyed_run evs m total fresh its bytes st st' effs :
  params_ok P n → run_ok P n m total st → 1 ≤ MaxPacketSize (cp_config P) →
  Forall event_ok evs → Forall nonempty_event evs → Forall (λ ev, ¬ makes k ev) evs →
  Z.of_nat (m + sum_list (new_sessions <$> evs)) < 2 ^ 32 →
  Z.of_nat (total + sum_list (bytes_read <$> evs)) < 2 ^ 63 →
  client_run grow evs st = Ret (st', effs) → conveyed fresh its bytes (cs_client st) →
  conveyed fresh (its ++ (evs ≫= datagrams (MaxPacketSize (cp_config P))))
    (bytes ++ concat (written_to k (concat effs))) (cs_client st').
Proof.
  intros Hp Hr Hmax Hev Hne Hk. revert m total its bytes st effs Hr.
  induction evs as [|ev evs IH]; intros m total its bytes st effs Hr Hm Ht Hrun Hcv; cbn [client_run] in Hrun.
  { injection Hrun as <- <-. cbn. by rewrite !app_nil_r. }
  inversion_clear Hev as [|? ? Hev1 Hevs]. inversion_clear Hne as [|? ? Hne1 Hnes]. inversion_clear Hk as [|? ? Hk1 Hks].
  cbn [fmap list_fmap sum_list sum_list_with id] in *; unfold id in *.
  destruct (client_step_ok grow P n m total st ev Hp Hr Hev1 ltac:(lia) ltac:(lia)) as (st1 & eff & E1 & Hr1 & _).
  rewrite E1 in Hrun. cbn [mbind exec_bind] in Hrun.
  destruct (client_run grow evs st1) as [[st2 effs']|] eqn:E2; [|done]. injection Hrun as <- <-.
  pose proof (conveyed_step m total fresh its bytes st ev st1 eff Hp Hr Hmax Hev1 Hne1 Hk1 ltac:(lia) E1 Hcv) as Hcv1.
  rewrite Nat.add_assoc in Hm, Ht.
  pose proof (IH Hevs Hnes Hks _ _ _ _ st1 effs' Hr1 Hm Ht E2 Hcv1) as Hcv2.
  cbn [concat mbind list_bind]. rewrite written_to_app, concat_app, !app_assoc. exact Hcv2.
Qed.

End Tunnel.

(** ** The server's end *)

Section ServerEnd.
Context {E : Type}.
Implicit Types s : Server E.

(** [conn] is the socket of a session object with the id [sid]. *)
Definition socket_of s (sid : Z) (conn : conn_id) : Prop :=
  ∃ p sess, sv_heap s !! p = Some sess ∧ bs_sessionID sess = sid ∧ bs_conn sess = Some conn.

(** Without striping a frame makes at most one write, of its own payload, on a
    socket of its own session. *)
Lemma handleUpstreamPacket_writes env now header data d s :
  server_inv s → sp_upstreamStripeEnabled (sv_params s) = false →
  Decrypt (sp_upstreamCipher (sv_params s)) data = Ok d →
  let s' := handleUpstreamPacket env now header data s in
  server_inv s' ∧ sv_params s' = sv_params s ∧ (∀ sid conn, socket_of s sid conn → socket_of s' sid conn) ∧
  (effects s' = effects s ∨
   ∃ conn, effects s' = effects s ++ [BackendWrite conn d] ∧ socket_of s' (h_SessionID header) conn).
Proof.
  intros Hi Hoff Hd s'. split; [by apply handleUpstreamPacket_inv|]. unfold s'. rewrite handleUpstreamPacket_eq.
  cbv zeta. change (sv_params (count_received data s)) with (sv_params s). rewrite Hd.
  pose proof (server_inv_count data s Hi) as Hi0.
  destruct (open_session env now (h_SessionID header) (count_received data s)) as [[p s1]|] eqn:Eo.
  2: { split; [done|]. split; [done|]. by left. }
  destruct (open_session_spec _ _ _ _ _ _ Hi0 Eo)
    as (Hi1 & Hss & He & Hw & Hpar & _ & sess & conn & Hp & Hid & Hc & _ & _ & Hother & Hk).
  unfold writeUpstreamToBackend. rewrite Hpar. change (sv_params (count_received data s)) with (sv_params s).
  rewrite Hoff. cbn [negb].
  destruct (writeBackendPacket_live env p sess conn d s1 Hp Hc) as ((Hh' & _ & _ & _ & _ & Hpp & _) & He' & _).
  set (s2 := (writeBackendPacket env p d s1).2) in *. unfold backend_effect in He'. rewrite He in He'.
  split; [by rewrite Hpp, Hpar|]. split.
  - intros sid k (q & x & Hq & Hsid & Hxc). destruct (decide (q = p)) as [->|Hne].
    + exists p, sess. rewrite Hh'. split; [done|]. change (sv_heap s) with (sv_heap (count_received data s)) in Hq.
      destruct Hk as [[Hk1 Hk2]|(_ & -> & _)].
      * rewrite Hq in Hk2. injection Hk2 as Hk2.
        destruct (si_sessions _ Hi0 _ _ Hk1) as (y & Hy & Hyid & _). rewrite Hq in Hy. injection Hy as <-.
        split; congruence.
      * apply (si_heap _ Hi0) in Hq. lia.
    + exists q, x. rewrite Hh', Hother by done. done.
  - change (effects (count_received data s)) with (effects s) in He'. rewrite He'.
    destruct (env_write env (writes s1)); [right|left; by rewrite app_nil_r].
    exists conn. split; [done|]. exists p, sess. by rewrite Hh'.
Qed.

(** What the server hands to the backend for frames that carry datagrams: some of
    them, in order, each on a socket of the frame's session. *)
Lemma server_hands_over envs cipher fs (xs : list item) s j :
  server_inv s → sp_upstreamStripeEnabled (sv_params s) = false → sp_upstreamCipher (sv_params s) = cipher →
  Forall2 (λ f x, Decrypt cipher (f_Payload f) = Ok x.2) fs xs →
  ∃ (log : list (conn_id * (Z * item))),
    let s' := (handle_all (up_handle envs) fs (j, s)).2 in
    effects s' = effects s ++ ((λ w, BackendWrite w.1 w.2.2.2) <$> log) ∧
    log.*2 `sublist_of` zip (h_SessionID ∘ f_Header <$> fs) xs ∧
    Forall (λ w, socket_of s' w.2.1 w.1) log ∧ (∀ sid conn, socket_of s sid conn → socket_of s' sid conn).
Proof.
  intros Hi Hoff Hcip Hall. revert s j Hi Hoff Hcip. induction Hall as [|f x fs xs Hd Hall IH]; intros s j Hi Hoff Hcip.
  { exists []. cbn. rewrite app_nil_r. split; [done|]. split; [done|]. split; [constructor|done]. }
  cbn [handle_all foldl up_handle fmap list_fmap zip zip_with compose].
  rewrite <- Hcip in Hd.
  destruct (handleUpstreamPacket_writes (envs j).1 (envs j).2 (f_Header f) (f_Payload f) x.2 s Hi Hoff Hd)
    as (Hi1 & Hp1 & Hold & Hw).
  set (s1 := handleUpstreamPacket _ _ _ _ s) in *.
  destruct (IH s1 (S j) Hi1) as (log & He & Hs & Hf & Hold2); [by rewrite Hp1|by rewrite Hp1|].
  unfold handle_all in He, Hf, Hold2. destruct Hw as [Hw|(conn & Hw & Hsock)].
  - exists log. rewrite Hw in He. split; [exact He|]. split; [by apply sublist_cons|]. split; [exact Hf|auto].
  - exists ((conn, (h_SessionID (f_Header f), x)) :: log). cbn [fmap list_fmap fst snd].
    rewrite Hw in He. rewrite <- app_assoc in He. split; [exact He|]. split; [by apply sublist_skip|].
    split; [|auto]. constructor; [by apply Hold2|exact Hf].
Qed.

End ServerEnd.

Lemma client_run_app `{IntWidth} {E} grow evs1 evs2 (st : client_state E) st' effs :
  client_run grow (evs1 ++ evs2) st = Ret (st', effs) →
  ∃ st1 effs1 effs2, client_run grow evs1 st = Ret (st1, effs1) ∧ client_run grow evs2 st1 = Ret (st', effs2) ∧
    effs = effs1 ++ effs2.
Proof.
  revert st effs. induction evs1 as [|ev evs1 IH]; intros st effs; cbn [app client_run].
  { intros Hr. by exists st, [], effs. }
  destruct (client_step grow ev st) as [[st1 eff]|]; cbn [mbind exec_bind]; [|done].
  destruct (client_run grow (evs1 ++ evs2) st1) as [[st2 effs']|] eqn:Er; cbn [mbind exec_bind]; [|done].
  intros [= <- <-]. destruct (IH _ _ Er) as (st3 & e1 & e2 & -> & E2 & ->). cbn [mbind exec_bind].
  by exists st3, (eff :: e1), e2.
Qed.

(** The client's run, seen from the connection. *)
Lemma run_conveyed `{IntWidth} {E} grow P n evs1 i k evs2 (c : Client E) st effs :
  params_ok P n → client_ok P n 0 c →
  Forall (λ l, ring_at (slot_size P) (ul_ring l) 0 [] ∧ ul_conn l = None) (upstreamLanes c) →
  Forall (λ l, dl_conn l = None) (downstreamLanes c) → (i < length (upstreamLanes c))%nat →
  1 ≤ MaxPacketSize (cp_config P) →
  let evs := evs1 ++ CUpConnect i k :: evs2 in
  Forall event_ok evs → Forall nonempty_event evs → Forall (λ ev, ¬ makes k ev) (evs1 ++ evs2) →
  Z.of_nat (sum_list (new_sessions <$> evs)) < 2 ^ 32 → Z.of_nat (sum_list (bytes_read <$> evs)) < 2 ^ 63 →
  client_run grow evs (started_state c) = Ret (st, effs) →
  params (cs_client st) = P ∧ conveyed P k i false (evs ≫= datagrams (MaxPacketSize (cp_config P)))
    (concat (written_to k (concat effs))) (cs_client st).
Proof.
  intros Hp Hc Hup Hdn Hi Hpk evs Hev Hne Hk Hm Ht Hrun. split.
  { destruct (client_run_ok grow P n evs 0 0 (started_state c) Hp (started_run_ok P n c Hc) Hev Hm Ht)
      as (st' & effs' & E1 & [Hc' _ _] & _). rewrite Hrun in E1. injection E1 as <- <-. apply Hc'. }
  unfold evs in *.
  assert (conveyed P k i true [] [] c) as Hcv.
  { split; [| |done|].
    - intros j l Hl. eapply Forall_lookup_1 in Hup as [_ ->]; done.
    - eapply Forall_impl; [exact Hdn|]. by intros l ->.
    - destruct (lookup_lt_is_Some_2 _ _ Hi) as [lane Hl]. exists lane, 0%nat, [], [], [].
      eapply Forall_lookup_1 in Hup as [Hr Hcn]; [|exact Hl]. split_and!; try done. }
  apply client_run_app in Hrun as (st1 & effs1 & effs2 & E1 & E2 & ->).
  apply Forall_app in Hev as [Hev1 Hev2]. apply Forall_app in Hne as [Hne1 Hne2]. apply Forall_app in Hk as [Hk1 Hk2].
  rewrite !fmap_app, !sum_list_with_app in Hm, Ht. cbn [fmap list_fmap sum_list sum_list_with] in Hm, Ht.
  inversion_clear Hev2 as [|? ? _ Hev2']. inversion_clear Hne2 as [|? ? _ Hne2'].
  pose proof (started_run_ok P n c Hc) as Hr0.
  destruct (client_run_ok grow P n evs1 0 0 (started_state c) Hp Hr0 Hev1) as (st1' & effs1' & E1' & Hr1 & _);
    [cbn; lia|cbn; lia|]. rewrite E1 in E1'. injection E1' as <- <-.
  pose proof (conveyed_run grow P n k i evs1 0 0 true [] [] _ _ _ Hp Hr0 Hpk Hev1 Hne1 Hk1
    ltac:(cbn; lia) ltac:(cbn; lia) E1 Hcv) as Hcv1.
  cbn [client_run client_step] in E2. cbn [mbind exec_bind] in E2.
  set (st2 := set_client _ _) in E2. destruct (client_run grow evs2 st2) as [[st3 effs3]|] eqn:E3; [|done].
  injection E2 as <- <-.
  destruct (client_step_ok grow P n _ _ st1 (CUpConnect i k) Hp Hr1 I) as (st2' & eff2 & E2' & Hr2 & _);
    [cbn; lia|cbn; lia|]. cbn [client_step] in E2'. injection E2' as <- _. fold st2 in Hr2.
  apply (conveyed_connect P k i) in Hcv1. cbn [new_sessions bytes_read] in Hr2.
  pose proof (conveyed_run grow P n k i evs2 _ _ false _ _ st2 _ _ Hp Hr2 Hpk Hev2' Hne2' Hk2
    ltac:(cbn in *; lia) ltac:(cbn in *; lia) E3 Hcv1) as Hcv2.
  rewrite bind_app. cbn [mbind list_bind datagrams app] in *.
  rewrite concat_app, written_to_app, concat_app. exact Hcv2.
Qed.

(** The server's reader on the beginning of a stream of frames. *)
Lemma traffic_beginning `{IntWidth} `{G : GnetReader, !GnetSpec G} {St} limit (handle : Frame → St → St) W chunks rest bytes st :
  int_bits = 64 → 0 < limit → Forall (λ f, frame_ok limit f ∧ nonempty_frame f) W →
  bytes `prefix_of` (W ≫= wire) → concat chunks ++ rest = bytes → Z.of_nat (length (concat chunks)) < 2 ^ 62 →
  ∃ fs1 fs2 left, W = fs1 ++ fs2 ∧ traffic limit handle [] st chunks = (left, handle_all handle fs1 st) ∧
    spec_next limit left = (NextNone, left).
Proof.
  intros H64 Hlim HW [more Hb] <- Hlen. apply Forall_and in HW as [Hok Hne].
  destruct (parses_total limit (concat chunks)) as (fs1 & r1 & o1 & Hp1).
  pose proof (parses_wire limit W [] None [] [] Hok (parses_none _ [] eq_refl)) as Hp.
  rewrite !app_nil_r, Hb, <- app_assoc in Hp.
  destruct (parses_prefix _ _ _ _ _ _ _ _ Hp1 Hp) as (-> & fs2 & -> & _).
  apply Forall_app in Hne as [Hne _].
  exists fs1, fs2, r1. split; [done|]. split; [by apply traffic_parses|by eapply parses_stuck].
Qed.

Lemma zip_carries {E} (c : Client E) fs (ys : list item) v :
  Forall2 (carries c) fs ys → v ∈ zip (h_SessionID ∘ f_Header <$> fs) ys → from_peer c v.1 v.2.1.
Proof.
  induction 1 as [|f y fs ys [_ Hf] _ IH]; cbn; [by intros ?%elem_of_nil|].
  intros [->|Hv]%elem_of_cons; [exact Hf|by apply IH].
Qed.

Lemma sublist_fmap {A B} (f : A → B) (l1 l2 : list A) : l1 `sublist_of` l2 → (f <$> l1) `sublist_of` (f <$> l2).
Proof. induction 1; cbn; by constructor. Qed.

(** ** Theorems *)

(** C2: the tunnel invents, repeats and reorders nothing. A client built from a
    loaded configuration runs any schedule of its goroutines: any datagrams from any
    peers, none of them empty, lanes that connect and break, writes that fail half
    way, data and control messages on the downstream lanes, cleaning, Stop. Take a
    connection [k] that it made for upstream lane [i], and only for that. Let any
    beginning of what it wrote on it reach a server with the same cipher and limits,
    not striping, in whatever state and cut in any way. Then the server's reader stops
    inside a frame at most, and what it hands to the backend is a sublist of the
    datagrams the client received, in the same order: each write is the datagram of a
    peer, decrypted, for a session that the client has for that peer, on a socket of
    that session. *)
Theorem tunnel_integrity `{IntWidth} `{G : GnetReader} {D E E' X Block} `{CryptoLib E Block, !CryptoLibSpec E Block _}
    (grow : nat → nat → nat) (read : result E' D) decode cfg now (env : start_env X) (c0 c : Client E) gs w
    evs1 i k evs2 st effs (s : Server E) chunks rest envs j :
  (* the client *)
  int_bits = 64 → GnetSpec G → Load read decode = Ok cfg → MaxPacketSize cfg < 2 ^ 30 →
  ClientNew now cfg = Ret (Some (Ok c0)) → clientStart env c0 = (c, gs, w, None) →
  let evs := evs1 ++ CUpConnect i k :: evs2 in
  Forall event_ok evs → Forall nonempty_event evs →
  Z.of_nat (sum_list (new_sessions <$> evs)) < 2 ^ 32 → Z.of_nat (sum_list (bytes_read <$> evs)) < 2 ^ 63 →
  (i < length (upstreamLanes c))%nat → Forall (λ ev, ¬ makes k ev) (evs1 ++ evs2) →
  client_run grow evs (started_state c) = Ret (st, effs) →
  (* the network *)
  concat chunks ++ rest = concat (written_to k (concat effs)) → Z.of_nat (length (concat chunks)) < 2 ^ 62 →
  (* the server *)
  server_inv s → sp_upstreamStripeEnabled (sv_params s) = false →
  sp_upstreamCipher (sv_params s) = cp_upstreamCipher (params c) →
  maxUpstreamFramePayload s = MaxPacketSize cfg + Z.of_nat (Overhead (cp_upstreamCipher (params c))) →
  ∃ left j' s' (log : list (conn_id * (Z * item))),
    traffic (maxUpstreamFramePayload s) (up_handle envs) [] (j, s) chunks = (left, (j', s')) ∧
    spec_next (maxUpstreamFramePayload s) left = (NextNone, left) ∧
    effects s' = effects s ++ ((λ w, BackendWrite w.1 w.2.2.2) <$> log) ∧
    log.*2.*2 `sublist_of` (evs ≫= datagrams (MaxPacketSize cfg)) ∧
    Forall (λ w, from_peer (cs_client st) w.2.1 w.2.2.1 ∧ socket_of s' w.2.1 w.1) log.
Proof.
  intros H64 HG HL Hmax Hn Hst evs Hev Hne Hm Ht Hi Hk Hrun Hnet Hlen Hsi Hoff Hcip Hlim.
  destruct (clientStart_listener env c0 c gs w Hst) as [l ->].
  destruct (ClientNew_run_ok now cfg c0 l H64 (Load_ok read decode cfg HL) Hmax Hn)
    as (Hp & Hc & Ecfg & Hup & Hdn). set (c := set_listener c0 (Some l)) in *.
  pose proof (ok_packet _ (Load_ok read decode cfg HL)) as Hpk. rewrite <- Ecfg in Hpk |- *.
  destruct (run_conveyed grow _ _ evs1 i k evs2 c st effs Hp Hc Hup Hdn Hi Hpk Hev Hne Hk Hm Ht Hrun)
    as [Eps [_ _ _ (lane & R & W & fs & x & _ & _ & Ha & Hx & Hs & Hb & _)]].
  apply Forall_app in Ha as [Ha _]. apply Forall2_app_inv_l in Hx as (x1 & x2 & Hx & _ & ->).
  rewrite <- Ecfg in Hlim. rewrite Hlim.
  destruct (traffic_beginning (frame_limit (params c)) (up_handle envs) W chunks rest _ (j, s) H64 ltac:(unfold frame_limit; lia) Ha Hb Hnet Hlen)
    as (fs1 & fs2 & left & -> & Etr & Hleft).
  apply Forall2_app_inv_l in Hx as (y1 & y2 & Hy & _ & ->).
  destruct (server_hands_over envs _ fs1 y1 s j Hsi Hoff Hcip) as (log & He & Hl & Hf & _).
  { eapply Forall2_impl; [exact Hy|]. intros f y [Hd _]. by rewrite Eps in Hd. }
  destruct (handle_all (up_handle envs) fs1 (j, s)) as [j' s'] eqn:Eh. cbn [snd] in *.
  exists left, j', s', log. split; [exact Etr|]. split; [exact Hleft|]. split; [exact He|]. split.
  - etrans; [apply sublist_fmap, Hl|]. rewrite snd_zip by (apply Forall2_length in Hy; rewrite length_fmap; lia).
    etrans; [|exact Hs]. rewrite <- app_assoc. apply sublist_inserts_r. done.
  - apply Forall_forall. intros v Hv. rewrite Forall_forall in Hf. split; [|by apply Hf].
    assert (v.2 ∈ zip (h_SessionID ∘ f_Header <$> fs1) y1) as Hin.
    { eapply elem_of_submseteq; [|by apply sublist_submseteq, Hl]. apply list_elem_of_fmap. by exists v. }
    apply zip_carries with (c := cs_client st) in Hin; [done|exact Hy].
Qed.

(** The sample schedule's first connection, of which all but one byte arrives, in
    two pieces: the second batch was cut short by the failed write. *)
Definition sample_outcome : client_state unit * list (list effect) :=
  match @client_run int64_target unit (λ _ m, m) sample_schedule
    (started_state (set_listener loaded_client (Some 7%nat))) with
  | Ret r => r
  | Panic => (started_state loaded_client, [])
  end.

Lemma sample_outcome_run :
  @client_run int64_target unit (λ _ m, m) sample_schedule
    (started_state (set_listener loaded_client (Some 7%nat))) = Ret (sample_outcome.1, sample_outcome.2).
Proof.
  assert (match @client_run int64_target unit (λ _ m, m) sample_schedule
    (started_state (set_listener loaded_client (Some 7%nat))) with Ret _ => true | Panic => false end = true) as Hok
    by (vm_compute; reflexivity).
  unfold sample_outcome. destruct (client_run _ _ _) as [[? ?]|]; [reflexivity|discriminate Hok].
Qed.

Lemma sample_outcome_bytes :
  concat (written_to 50 (concat sample_outcome.2)) = wire (mkFrame (NewDataPacket 1 1 2) [x01; x02]) ++ [x54; x43; x50].
Proof. vm_compute. reflexivity. Qed.

Lemma tunnel_integrity_witness :
  ∃ left j' s' log,
    @traffic int64_target slice_reader _ 64 (up_handle (λ _, (sample_env, 5))) [] (0%nat, sample_server)
      [take 10 (wire (mkFrame (NewDataPacket 1 1 2) [x01; x02])); drop 10 (wire (mkFrame (NewDataPacket 1 1 2) [x01; x02])) ++ [x54; x43]]
      = (left, (j', s')) ∧
    effects s' = ((λ w, BackendWrite w.1 w.2.2.2) <$> log) ∧
    log.*2.*2 `sublist_of` [(sample_peer4, [x01; x02]); (sample_peer4, [x03])] ∧
    Forall (λ w, from_peer (cs_client sample_outcome.1) w.2.1 w.2.2.1 ∧ socket_of s' w.2.1 w.1) log.
Proof.
  destruct (@tunnel_integrity int64_target slice_reader unit unit unit unit (list byte) toy_lib _
    (λ _ m, m) (Ok tt) (λ _, Ok sample_config) (setDefaults sample_config) 0
    (mkStartEnv unit (Ok (mkUDPAddr [x7f; x00; x00; x01] 5353 EmptyString)) (λ _ _, Ok 7%nat) (λ _, None) (λ _, None))
    loaded_client (set_listener loaded_client (Some 7%nat)) (started (set_listener loaded_client (Some 7%nat))) 0%nat
    [] 1%nat 50%nat (tl sample_schedule) sample_outcome.1 sample_outcome.2 sample_server
    [take 10 (wire (mkFrame (NewDataPacket 1 1 2) [x01; x02])); drop 10 (wire (mkFrame (NewDataPacket 1 1 2) [x01; x02])) ++ [x54; x43]]
    [x50] (λ _, (sample_env, 5)) 0%nat) as (left & j' & s' & log & H1 & _ & H2 & H3 & H4).
  - reflexivity.
  - exact slice_reader_spec.
  - reflexivity.
  - vm_compute; reflexivity.
  - exact loaded_client_new.
  - reflexivity.
  - repeat constructor; cbn; intros a b [= <-]; apply length_replicate.
  - repeat constructor; cbn; lia.
  - vm_compute; reflexivity.
  - vm_compute; reflexivity.
  - vm_compute; lia.
  - cbn [app tl sample_schedule]. repeat (apply Forall_cons; split; [cbn; lia|]). apply Forall_nil. exact I.
  - exact sample_outcome_run.
  - rewrite sample_outcome_bytes. vm_compute. reflexivity.
  - vm_compute; reflexivity.
  - exact sample_server_inv.
  - reflexivity.
  - vm_compute; reflexivity.
  - vm_compute; reflexivity.
  - exists left, j', s', log. split; [exact H1|]. split; [exact H2|]. split; [exact H3|exact H4].
Defined.
