(* ===== verification/ServerLife.v ===== *)
(** * The server's life cycle and the program (internal/server/server.go,
    internal/server/handlers.go, cmd/t2d/main.go)

    [Start] starts, in goroutines of their own, one gnet engine for the upstream
    port and one for the downstream port; an engine tells the server that it runs
    through [OnBoot] and [OnShutdown]; [Stop] cancels the context, stops the engines
    that run and calls [closeSessions]. These interleave: a step relation. Of
    gnet the model uses what its documentation says of the order of its callbacks:
    [Run] calls [OnBoot] and serves until the engine is stopped, then calls
    [OnShutdown] and returns; or it fails, before or after it has booted. *)

From S2P Require Import Prelude.
From S2P Require Import Words.
From S2P Require Import Config.
From S2P Require Import Session.
From S2P Require Import SockOpts.

(** ** Starting *)

Inductive gnet_option :=
| WithMulticore (b : bool)
| WithReusePort (b : bool)
| WithTCPKeepAlive (d : Z)
| WithTCPNoDelay
| WithReadBufferCap (n : Z)
| WithWriteBufferCap (n : Z).

Definition DefaultGnetReadBufferCap : Z := 1024 * 1024.
Definition DefaultGnetWriteBufferCap : Z := 1024 * 1024.

(** The address and the options given to [gnet.Run]; its error is fatal. *)
Definition startUpstreamServer (cfg : Config) : string * list gnet_option :=
  (String.append "tcp://" (UpstreamPort cfg),
   [WithMulticore true; WithReusePort true; WithTCPKeepAlive (seconds DefaultTCPKeepAliveSeconds);
    WithTCPNoDelay; WithReadBufferCap DefaultGnetReadBufferCap;
    WithWriteBufferCap DefaultGnetWriteBufferCap]).

Definition startDownstreamServer (cfg : Config) : string * list gnet_option :=
  (String.append "tcp://" (DownstreamPort cfg),
   [WithMulticore true; WithReusePort true; WithTCPKeepAlive (seconds DefaultTCPKeepAliveSeconds);
    WithTCPNoDelay; WithReadBufferCap DefaultGnetReadBufferCap;
    WithWriteBufferCap DefaultGnetWriteBufferCap]).

(** [Start] starts four goroutines and cannot fail. *)
Inductive server_goroutine :=
| GServeUpstream (run : string * list gnet_option)
| GServeDownstream (run : string * list gnet_option)
| GPrintServerStats
| GCleanupServerSessions.

Definition serverStart (cfg : Config) : list server_goroutine :=
  [GServeUpstream (startUpstreamServer cfg); GServeDownstream (startDownstreamServer cfg);
   GPrintServerStats; GCleanupServerSessions].

(** ** Engines *)

(** Where the goroutine of [startUpstreamServer] or [startDownstreamServer] is;
    [Booting] is between the two statements of [OnBoot]. *)
Inductive stage := Starting | Booting | Serving | Ended.

(** [sd_engine]: the field has been assigned; [sd_running]: the atomic flag;
    [sd_stop]: [engine.Stop] has been called. *)
Record side := mkSide {
  sd_stage : stage;
  sd_engine : bool;
  sd_running : bool;
  sd_stop : bool
}.

(** Where [Stop] is. *)
Inductive stop_point := SBefore | SUpstream | SDownstream | SSessions | SDone.

(** [lf_closed]: [Stop] has called [closeSessions], which closes the sockets then in
    the session table (Server.v); [lf_exited]: [log.Fatalf] has ended the process. *)
Record life := mkLife {
  lf_up : side;
  lf_down : side;
  lf_ctx : bool;
  lf_stop : stop_point;
  lf_closed : bool;
  lf_exited : bool
}.

Definition side_of (up : bool) (s : life) : side := if up then lf_up s else lf_down s.
Definition with_side (up : bool) (x : side) (s : life) : life :=
  if up then mkLife x (lf_down s) (lf_ctx s) (lf_stop s) (lf_closed s) (lf_exited s)
  else mkLife (lf_up s) x (lf_ctx s) (lf_stop s) (lf_closed s) (lf_exited s).
Definition with_stop (p : stop_point) (s : life) : life :=
  mkLife (lf_up s) (lf_down s) (lf_ctx s) p (lf_closed s) (lf_exited s).

(** [OnBoot]: the engine, then the flag. *)
Definition OnBoot_engine (x : side) : side := mkSide Booting true (sd_running x) (sd_stop x).
Definition OnBoot_running (x : side) : side := mkSide Serving (sd_engine x) true (sd_stop x).
Definition OnShutdown (x : side) : side := mkSide Ended (sd_engine x) false (sd_stop x).

(** One of the two blocks of [Stop]: [engine.Stop] asks the engine to stop and waits
    for it up to five seconds; its result is ignored, so [Stop] goes on whether the
    engine has ended by then or not. *)
Definition stop_engine (x : side) : side :=
  if sd_running x then mkSide (sd_stage x) (sd_engine x) (sd_running x) true else x.

Inductive life_step : life → life → Prop :=
(* gnet.Run, on either port *)
| e_boot up s :
    lf_exited s = false → sd_stage (side_of up s) = Starting →
    life_step s (with_side up (OnBoot_engine (side_of up s)) s)
| e_running up s :
    lf_exited s = false → sd_stage (side_of up s) = Booting →
    life_step s (with_side up (OnBoot_running (side_of up s)) s)
| e_failed up s :
    lf_exited s = false → sd_stage (side_of up s) ≠ Ended →
    life_step s (mkLife (lf_up s) (lf_down s) (lf_ctx s) (lf_stop s) (lf_closed s) true)
| e_shutdown up s :
    lf_exited s = false → sd_stage (side_of up s) = Serving → sd_stop (side_of up s) = true →
    life_step s (with_side up (OnShutdown (side_of up s)) s)
(* Stop *)
| s_begin s :
    lf_exited s = false → lf_stop s = SBefore →
    life_step s (mkLife (lf_up s) (lf_down s) true SUpstream (lf_closed s) (lf_exited s))
| s_upstream s :
    lf_exited s = false → lf_stop s = SUpstream →
    life_step s (with_stop SDownstream (with_side true (stop_engine (lf_up s)) s))
| s_downstream s :
    lf_exited s = false → lf_stop s = SDownstream →
    life_step s (with_stop SSessions (with_side false (stop_engine (lf_down s)) s))
| s_sessions s :
    lf_exited s = false → lf_stop s = SSessions →
    life_step s (mkLife (lf_up s) (lf_down s) (lf_ctx s) SDone true (lf_exited s)).

(** [Start]: both engines are on their way. *)
Definition side_init : side := mkSide Starting false false false.
Definition life_start : life := mkLife side_init side_init false SBefore false false.

(** ** Invariant *)

(** [Stop] has passed the block of this side. *)
Definition passed (up : bool) (p : stop_point) : bool :=
  match p with SBefore | SUpstream => false | SDownstream => up | SSessions | SDone => true end.

(** What is known of a side, given whether [Stop] has passed its block. *)
Definition side_ok (p : bool) (x : side) : bool :=
  match sd_stage x with
  | Starting => negb (sd_engine x) && negb (sd_running x) && negb (sd_stop x)
  | Booting => sd_engine x && negb (sd_running x) && negb (sd_stop x)
  | Serving => sd_engine x && sd_running x && (p || negb (sd_stop x))
  | Ended => sd_engine x && negb (sd_running x) && sd_stop x && p
  end.

(** The facts about one side are finitely many. *)
Ltac side_cases x p := destruct x as [[] [] [] []], p; cbn in *; try done; try tauto.

Lemma side_ok_boot p x : sd_stage x = Starting → side_ok p x = true → side_ok p (OnBoot_engine x) = true.
Proof. side_cases x p. Qed.
Lemma side_ok_running p x : sd_stage x = Booting → side_ok p x = true → side_ok p (OnBoot_running x) = true.
Proof. side_cases x p. Qed.
Lemma side_ok_shutdown p x :
  sd_stage x = Serving → sd_stop x = true → side_ok p x = true → side_ok p (OnShutdown x) = true.
Proof. side_cases x p. Qed.
Lemma side_ok_stop p x : side_ok p x = true → side_ok true (stop_engine x) = true.
Proof. side_cases x p. Qed.
Lemma side_ok_later p x : side_ok p x = true → side_ok true x = true.
Proof. side_cases x p. Qed.
Create HintDb life.
#[local] Hint Resolve side_ok_boot side_ok_running side_ok_shutdown side_ok_stop side_ok_later : life.

Record life_inv (s : life) : Prop := {
  lv_up : side_ok (passed true (lf_stop s)) (lf_up s) = true;
  lv_down : side_ok (passed false (lf_stop s)) (lf_down s) = true;
  lv_closed : lf_closed s = true ↔ lf_stop s = SDone;
  lv_ctx : lf_ctx s = true ↔ lf_stop s ≠ SBefore
}.

Ltac life_cbn := cbn [side_of with_side with_stop lf_up lf_down lf_ctx lf_stop lf_closed lf_exited passed] in *.

Lemma life_step_inv s s' : life_inv s → life_step s s' → life_inv s'.
Proof.
  intros [U D Hcl Hctx] Hst.
  destruct Hst as [[] s ? E|[] s ? E|[] s ? E|[] s ? E ?|s ? E|s ? E|s ? E|s ? E];
    split; life_cbn; rewrite ?E in *; life_cbn; eauto with life; try done; naive_solver.
Qed.

Lemma life_reachable_inv s : rtc life_step life_start s → life_inv s.
Proof.
  intros Hr. apply (rtc_preserves life_step life_inv life_step_inv _ _ Hr). by split.
Qed.

(** ** What becomes of an engine *)

(** A side whose engine runs and is going to be stopped, was, or has ended; [p] as
    in [side_ok]. *)
Definition side_will (p : bool) (x : side) : bool :=
  (sd_running x && (negb p || sd_stop x)) || match sd_stage x with Ended => true | _ => false end.

Lemma side_will_boot p x : sd_stage x = Starting → side_ok p x = true → side_will p x = true →
  side_will p (OnBoot_engine x) = true.
Proof. side_cases x p. Qed.
Lemma side_will_running p x : sd_stage x = Booting → side_ok p x = true → side_will p x = true →
  side_will p (OnBoot_running x) = true.
Proof. side_cases x p. Qed.
Lemma side_will_shutdown p x : side_will p (OnShutdown x) = true.
Proof. unfold side_will, OnShutdown. cbn. by rewrite ?orb_true_r. Qed.
Lemma side_will_stop p x : side_will p x = true → side_will true (stop_engine x) = true.
Proof. side_cases x p. Qed.
#[local] Hint Resolve side_will_boot side_will_running side_will_shutdown side_will_stop : life.

Definition will_stop (up : bool) (s : life) : Prop :=
  side_will (passed up (lf_stop s)) (side_of up s) = true.

Lemma will_stop_step up s s' : life_inv s → will_stop up s → life_step s s' → will_stop up s'.
Proof.
  intros [U D _ _] Hw Hst. unfold will_stop in *.
  destruct Hst as [[] s ? E|[] s ? E|[] s ? E|[] s ? E ?|s ? E|s ? E|s ? E|s ? E]; destruct up; life_cbn;
    rewrite ?E in *; life_cbn; eauto with life.
Qed.

Lemma will_stop_rtc up s s' : life_inv s → will_stop up s → rtc life_step s s' → will_stop up s'.
Proof.
  intros Hi Hw Hr.
  destruct (rtc_preserves life_step (λ s, life_inv s ∧ will_stop up s)) with (2 := Hr) as [_ ?]; [|done..].
  intros x y [Hx Hwx] Hst. split; [by eapply life_step_inv|by eapply will_stop_step].
Qed.

Lemma will_stop_now up s :
  sd_running (side_of up s) = true → passed up (lf_stop s) = false → will_stop up s.
Proof. intros Hr Hp. unfold will_stop, side_will. by rewrite Hr, Hp. Qed.

(** An engine that [Stop] did not find running is never stopped. *)
Definition missed (up : bool) (s : life) : Prop :=
  passed up (lf_stop s) = true ∧ sd_stop (side_of up s) = false.

Lemma missed_step up s s' : missed up s → life_step s s' → missed up s'.
Proof.
  intros [Hp Hs] Hst. unfold missed.
  destruct Hst as [[] s ? E|[] s ? E|[] s ? E|[] s ? E ?|s ? E|s ? E|s ? E|s ? E]; destruct up; life_cbn;
    rewrite ?E in *; life_cbn; done.
Qed.

(** ** Theorems *)

(** C21: stopping the server. However the two engines and [Stop] interleave:
    [Stop] only ever stops an engine that has been assigned; an engine that runs
    before [Stop] reaches its block is told to stop, or has ended, once [Stop] has
    returned, whether the engine has ended by then or not; when [Stop] has returned
    the context is cancelled and [closeSessions] has been called. *)
Theorem server_stops s :
  rtc life_step life_start s →
  (∀ up, sd_stop (side_of up s) = true → sd_engine (side_of up s) = true) ∧
  (∀ up s', sd_running (side_of up s) = true → passed up (lf_stop s) = false →
     rtc life_step s s' → lf_stop s' = SDone →
     sd_stop (side_of up s') = true ∧ (sd_running (side_of up s') = true ∨ sd_stage (side_of up s') = Ended)) ∧
  (lf_stop s = SDone → lf_ctx s = true ∧ lf_closed s = true).
Proof.
  intros Hr. pose proof (life_reachable_inv s Hr) as Hi. split; [|split].
  - destruct Hi as [U D _ _]. intros up. destruct up; cbn.
    + generalize dependent (passed true (lf_stop s)). intros p. destruct (lf_up s) as [[] [] [] []], p; done.
    + generalize dependent (passed false (lf_stop s)). intros p. destruct (lf_down s) as [[] [] [] []], p; done.
  - intros up s' Hrun Hp Hs' Hd.
    pose proof (will_stop_rtc up s s' Hi (will_stop_now up s Hrun Hp) Hs') as Hw.
    assert (life_inv s') as [U D _ _] by (eapply life_reachable_inv; by etrans).
    unfold will_stop in Hw. rewrite Hd in Hw, U, D.
    destruct up; cbn in *;
      [destruct (lf_up s') as [[] [] [] []]|destruct (lf_down s') as [[] [] [] []]]; cbn in *; naive_solver.
  - intros Hd. destruct Hi as [_ _ Hcl Hctx]. split; [apply Hctx; by rewrite Hd|by apply Hcl].
Qed.

Ltac life_go H := eapply rtc_l; [eapply H; reflexivity|]; cbn.

Lemma server_stops_witness :
  ∃ s, rtc life_step life_start s ∧ sd_running (lf_up s) = true ∧
    ∀ s', rtc life_step s s' → lf_stop s' = SDone → sd_stop (lf_up s') = true.
Proof.
  assert (rtc life_step life_start (mkLife (mkSide Serving true true false) side_init false SBefore false false)) as Hr.
  { life_go (e_boot true). life_go (e_running true). apply rtc_refl. }
  destruct (server_stops _ Hr) as (_ & H & _).
  eexists. split; [exact Hr|]. split; [reflexivity|]. intros s' Hs' Hd.
  destruct (H true s' eq_refl eq_refl Hs' Hd) as [Hst _]. exact Hst.
Defined.

(** [Stop] before [OnBoot]. If [Stop] runs before an engine has told that it
    runs, [Stop] skips it and returns; the engine then starts serving, and nothing
    that happens afterwards ever stops it, although the context is cancelled and
    [Stop] has returned. *)
Theorem stop_misses_engine :
  ∃ s, rtc life_step life_start s ∧ lf_stop s = SDone ∧ lf_ctx s = true ∧
    sd_stage (lf_up s) = Serving ∧ sd_running (lf_up s) = true ∧
    ∀ s', rtc life_step s s' → sd_stop (lf_up s') = false ∧ sd_stage (lf_up s') = Serving.
Proof.
  exists (mkLife (mkSide Serving true true false) side_init true SDone true false).
  assert (rtc life_step life_start (mkLife (mkSide Serving true true false) side_init true SDone true false)) as Hr.
  { life_go s_begin. life_go s_upstream. life_go s_downstream. life_go s_sessions.
    life_go (e_boot true). life_go (e_running true). apply rtc_refl. }
  do 5 (split; [done|]). intros s' Hs'.
  assert (missed true s' ∧ sd_stage (lf_up s') = Serving) as [[_ ?] ?]; [|done].
  apply (rtc_preserves life_step (λ s, missed true s ∧ sd_stage (lf_up s) = Serving)) with (2 := Hs'); [|done].
  intros x y [Hm Hx] Hst. split; [by eapply missed_step|]. destruct Hm as [Hp Hs].
  destruct Hst as [[] x ? E|[] x ? E|[] x ? E|[] x ? E ?|x ? E|x ? E|x ? E|x ? E]; life_cbn; try congruence.
  unfold stop_engine. by case_match.
Qed.

(** ** The program *)

(** What [main] does, in order; [E] are the errors of the operating system. *)
Inductive main_action (E A : Type) :=
| PrintUsage
| FatalLoad (e : load_error E)
| FatalNew (e : app_error E)
| StartApp (a : A)
| FatalStart (e : E)
| WaitSignal
| StopApp (a : A)
| LogStopError (e : E)
| LogClosed.
Arguments PrintUsage {E A}.
Arguments FatalLoad {E A} e.
Arguments FatalNew {E A} e.
Arguments StartApp {E A} a.
Arguments FatalStart {E A} e.
Arguments WaitSignal {E A}.
Arguments StopApp {E A} a.
Arguments LogStopError {E A} e.
Arguments LogClosed {E A}.

Section Main.
Context {C S E : Type} (client_New : Config → result E C) (server_New : Config → result E S).
Context (start stop : App C S → option E).

(** [main]: [load] is [config.Load] of the file named on the command line. The
    result is what it does and the exit status. *)
Definition main (configFile : string) (load : result (load_error E) Config)
    : list (main_action E (App C S)) * Z :=
  if String.eqb configFile "" then ([PrintUsage], 1)
  else
    match load with
    | Err e => ([FatalLoad e], 1)
    | Ok cfg =>
        match AppNew client_New server_New cfg with
        | Err e => ([FatalNew e], 1)
        | Ok app =>
            match start app with
            | Some e => ([StartApp app; FatalStart e], 1)
            | None =>
                ([StartApp app; WaitSignal; StopApp app] ++
                 match stop app with Some e => [LogStopError e] | None => [] end ++ [LogClosed], 0)
            end
        end
    end.

(** The exit status is zero exactly when the application was made and started; it
    is stopped exactly then, once, after the signal; the application is a client
    exactly when the mode says so. *)
Lemma main_spec configFile load :
  let '(acts, status) := main configFile load in
  (status = 0 ↔ configFile ≠ "" ∧ ∃ cfg app, load = Ok cfg ∧ AppNew client_New server_New cfg = Ok app ∧
     start app = None) ∧
  (status = 0 → ∃ app rest, acts = StartApp app :: WaitSignal :: StopApp app :: rest ∧
     ∀ a, StopApp a ∉ rest) ∧
  (status ≠ 0 → status = 1 ∧ ∀ a, StopApp a ∉ acts).
Proof.
  unfold main. destruct (String.eqb_spec configFile "") as [->|Hne].
  { split; [split; [done|by intros [? _]]|]. split; [done|]. intros _. split; [done|]. intros a.
    by intros ?%list_elem_of_singleton. }
  destruct load as [cfg|e].
  2: { split; [split; [done|by intros (_ & cfg & app & [=] & _)]|]. split; [done|]. intros _. split; [done|].
    intros a. by intros ?%list_elem_of_singleton. }
  destruct (AppNew client_New server_New cfg) as [app|e] eqn:Ea.
  2: { split; [split; [done|]|].
    - intros (_ & cfg' & app' & [= <-] & E' & _). congruence.
    - split; [done|]. intros _. split; [done|]. intros a. by intros ?%list_elem_of_singleton. }
  destruct (start app) as [e|] eqn:Es.
  - split; [split; [done|]|].
    + intros (_ & cfg' & app' & [= <-] & E' & E''). congruence.
    + split; [done|]. intros _. split; [done|]. intros a. rewrite !elem_of_cons. intros [?|[?|Hx]]; [done..|].
      inversion Hx.
  - split; [split; [|done]; intros _; split; [done|]; by exists cfg, app|]. split; [|done]. intros _.
    exists app. eexists. split; [done|]. intros a. rewrite elem_of_app, list_elem_of_singleton.
    intros [Hx|?]; [|done]. destruct (stop app); [by apply list_elem_of_singleton in Hx|inversion Hx].
Qed.

End Main.
